(** * PortfolioManager (main.js): a shallow embedding and its properties

    The page script defines one class, [PortfolioManager], plus four global
    event listeners.  The controller is modelled as a record of its fields,
    the browser (DOM, window, timers, animation frames, abort controllers,
    suspended async functions, console) as a second record, and every method
    as a computation in a state-and-exception monad over the pair. *)

From Stdlib Require Import QArith Qround Qminmax Lqa Qpower Qabs.
From stdpp Require Import gmap strings list.

Open Scope Z_scope.


(* ===================================================================== *)
(** * JavaScript strings                                                  *)
(* ===================================================================== *)

(** A JavaScript string is a sequence of UTF-16 code units.  User input
    (form fields) is kept in that form; the constant texts of the script are
    ASCII and kept as Rocq strings. *)
Module JS.

Abbreviation str := (list N).

Fixpoint of_string (s : string) : str :=
  match s with
  | EmptyString => []
  | String a s' => Ascii.N_of_ascii a :: of_string s'
  end.

(** [WhiteSpace] and [LineTerminator] of ECMAScript: the set stripped by
    [String.prototype.trim] and matched by the regex class [\s]. *)
Definition isWhiteSpace (c : N) : bool :=
  ((9 <=? c) && (c <=? 13) ||
   (c =? 32) || (c =? 160) || (c =? 5760) ||
   (8192 <=? c) && (c <=? 8202) ||
   (c =? 8232) || (c =? 8233) || (c =? 8239) || (c =? 8287) ||
   (c =? 12288) || (c =? 65279))%N.

Fixpoint trimStart (s : str) : str :=
  match s with
  | [] => []
  | c :: s' => if isWhiteSpace c then trimStart s' else s
  end.

Definition trimEnd (s : str) : str := rev (trimStart (rev s)).

Definition trim (s : str) : str := trimEnd (trimStart s).

(** Truthiness of a string value: only the empty string is falsy. *)
Definition truthy (s : str) : bool :=
  match s with [] => false | _ => true end.

End JS.

(* ===================================================================== *)
(** * Regular expressions                                                 *)
(* ===================================================================== *)

(** The one regex of the script has no captures, back references or
    look-around, so [RegExp.prototype.test] on the pattern between [^] and
    [$] decides membership of the whole string in the regular language.
    Matching is by derivatives. *)
Module Regex.

Inductive regex : Type :=
| RNone
| REps
| RSet (p : N -> bool)
| RCat (r s : regex)
| RAlt (r s : regex)
| RStar (r : regex).

(** [r+] *)
Definition RPlus (r : regex) : regex := RCat r (RStar r).

(** a literal code unit *)
Definition RChr (c : N) : regex := RSet (N.eqb c).

Fixpoint nullable (r : regex) : bool :=
  match r with
  | RNone => false
  | REps => true
  | RSet _ => false
  | RCat r s => nullable r && nullable s
  | RAlt r s => nullable r || nullable s
  | RStar _ => true
  end.

Fixpoint deriv (c : N) (r : regex) : regex :=
  match r with
  | RNone => RNone
  | REps => RNone
  | RSet p => if p c then REps else RNone
  | RCat r s =>
      if nullable r then RAlt (RCat (deriv c r) s) (deriv c s)
      else RCat (deriv c r) s
  | RAlt r s => RAlt (deriv c r) (deriv c s)
  | RStar r => RCat (deriv c r) (RStar r)
  end.

(** [/^r$/.test(s)] *)
Fixpoint test (r : regex) (s : JS.str) : bool :=
  match s with
  | [] => nullable r
  | c :: s' => test (deriv c r) s'
  end.

(** The language of a regex, as a relation. *)
Inductive lang : regex -> JS.str -> Prop :=
| LEps : lang REps []
| LSet p c : p c = true -> lang (RSet p) [c]
| LCat r s u v : lang r u -> lang s v -> lang (RCat r s) (u ++ v)
| LAltL r s u : lang r u -> lang (RAlt r s) u
| LAltR r s u : lang s u -> lang (RAlt r s) u
| LStarNil r : lang (RStar r) []
| LStarApp r u v : lang r u -> lang (RStar r) v -> lang (RStar r) (u ++ v).

End Regex.

(** [[^\s@]]: any code unit that is neither white space nor the at sign. *)
Definition notSpaceAt (c : N) : bool :=
  negb (JS.isWhiteSpace c || (c =? 64)%N).

(** [const emailRegex = /^[^\s@]+@[^\s@]+\.[^\s@]+$/] *)
Definition emailRegex : Regex.regex :=
  Regex.RCat (Regex.RPlus (Regex.RSet notSpaceAt))
    (Regex.RCat (Regex.RChr 64)
       (Regex.RCat (Regex.RPlus (Regex.RSet notSpaceAt))
          (Regex.RCat (Regex.RChr 46)
             (Regex.RPlus (Regex.RSet notSpaceAt))))).

(* ===================================================================== *)
(** * JavaScript numbers                                                  *)
(* ===================================================================== *)

(** A JavaScript number is an IEEE 754 binary64 value.  The finite ones are
    kept as the rationals they denote, and an arithmetic operation rounds
    its exact result to the nearest of them, ties to the even significand.
    Every number the script computes is far below [2^1024] in magnitude, so
    overflow to infinity is left out. *)
Module Number.

Definition pow2 (k : Z) : Q := Qpower 2 k.

(** [floor (log2 x)] of a positive [x] *)
Definition ilog2 (x : Q) : Z :=
  let e := Z.log2 (Qnum x) - Z.log2 (Zpos (Qden x)) in
  if Qle_bool (pow2 e) x then e else e - 1.

(** The nearest integer, the even one of two equally near. *)
Definition nearestEven (x : Q) : Z :=
  let f := Qfloor x in
  match Qcompare (x - inject_Z f) (1 # 2) with
  | Lt => f
  | Gt => f + 1
  | Eq => if Z.even f then f else f + 1
  end.

(** Rounding to binary64: 53 significant bits, and no unit in the last
    place below that of the subnormal numbers, [2^-1074]. *)
Definition round (x : Q) : Q :=
  if Qeq_bool x 0 then 0%Q
  else
    let q := Z.max (ilog2 (Qabs x) - 52) (-1074) in
    (inject_Z (nearestEven (x / pow2 q)) * pow2 q)%Q.

(** [x * y] and [x + y] *)
Definition mul (x y : Q) : Q := round (x * y).
Definition add (x y : Q) : Q := round (x + y).

End Number.

(* ===================================================================== *)
(** * The controller and the browser around it                            *)
(* ===================================================================== *)

(** [this.config] *)
Module Cfg.
Record Particles := { count : Q; maxCount : Q; minCount : Q }.
Record Typing := { speed : Z; pauseBetweenTexts : Z; initialDelay : Z }.
Record Scroll := { navbarThreshold : Q; revealOffset : Q }.
Record t := { particles : Particles; typing : Typing; scroll : Scroll }.
End Cfg.

(** The elements the script looks up by id.  The page is static, so a
    reference to an element is its identity. *)
Inductive Elem := ElBgAnimation | ElTypingText | ElNavbar | ElContactForm.

(** What a lookup in the plain object [this.elements] can give: an element
    stored there, or the value of a property that every object inherits
    from [Object.prototype] (a function, or the prototype itself). *)
Inductive Value :=
| VElem (e : Elem)
| VInherited (key : string).

(** An entry of a [FormData]: a string, or a [File]. *)
Inductive FormEntry :=
| FText (s : JS.str)
| FFile.

(** Function objects registered as window listeners.  [handleScroll.bind]
    and [handleResize.bind] make a new function object on every call; [n]
    tells them apart.  [Foreign] stands for listeners of other scripts. *)
Inductive Callback :=
| BoundHandleScroll (n : nat)
| BoundHandleResize (n : nat)
| Foreign (n : nat).

#[global] Instance Elem_eq_dec : EqDecision Elem.
Proof. solve_decision. Defined.
#[global] Instance Callback_eq_dec : EqDecision Callback.
Proof. solve_decision. Defined.

(** [this.handlers] *)
Record Handlers := { h_scroll : option Callback; h_resize : option Callback }.

(** The fields of a [PortfolioManager]; [this.elements] is [elementCache]. *)
Record Controller := mkController {
  isInitialized : bool;
  isDestroyed : bool;
  activeAnimations : gset Z;
  typingController : option nat;
  particleContainer : option Elem;
  elementCache : gmap string Elem;
  handlers : Handlers;
  scrollTicking : bool;
  resizeTicking : bool;
  config : Cfg.t
}.

(** ** The page *)

Record Particle := { p_left : Q; p_top : Q; p_delay : Q; p_duration : Q }.

Record Button := { textContent : string; disabled : bool; background : string }.

(** The contact form: current and default values of its named text fields,
    its [.submit-btn] if any, and how many submit listeners it carries. *)
Record Form := {
  fields : list (string * JS.str);
  defaults : list (string * JS.str);
  submitBtn : option Button;
  submitListeners : nat
}.

(** An element of class [fade-in]: its offset in the document and whether
    it carries class [visible]. *)
Record FadeIn := { offsetTop : Q; visible : bool }.

Record Dom := mkDom {
  bgAnimation : option (list Particle);   (* children of #bgAnimation *)
  typingText : option string;             (* innerHTML of #typingText *)
  navbar : option bool;                   (* #navbar has class scrolled *)
  contactForm : option Form;
  fadeIns : list FadeIn;
  anchors : list nat;        (* click listeners on each a[href^="#"] *)
  projectCards : list nat;   (* mouseenter/mouseleave pairs on each card *)
  skillCards : list (bool * nat)  (* has a .skill-icon, listener pairs *)
}.

Record Listener := { l_callback : Callback; l_capture : bool; l_passive : bool }.

Record Window := mkWindow {
  innerWidth : Z;
  innerHeight : Q;
  devicePixelRatio : option Q;   (* [None]: undefined *)
  scrollY : Q;
  scrollListeners : list Listener;
  resizeListeners : list Listener
}.

(** What the page was loaded with; it does not change. *)
Record Platform := {
  hasAOS : bool;                   (* [typeof AOS !== 'undefined'] *)
  aosInitThrows : bool;
  hasPerformanceObserver : bool;
  perfObserveThrows : bool;
  random : nat -> Q                (* successive results of Math.random() *)
}.

(** ** Timers, frames and suspended async functions *)

(** The closures handed to [setTimeout].  A closure carries the variables it
    captured: the cycle's [animationId] and [currentIndex], the submit
    button's original label. *)
Inductive TimerCb :=
| TStart (animationId : Z)                     (* initial delay of a cycle *)
| TPause (animationId : Z) (currentIndex : nat) (* pause between texts *)
| TChar                                        (* [resolve] of a reveal wait *)
| TSubmitWait (originalText : string)          (* [resolve] of the fake submit *)
| TSubmitRevert (originalText : string)
| TSubmitErrorRevert (originalText : string)
| TOrientation.

Record Timer := { tm_id : nat; tm_delay : Z; tm_cb : TimerCb }.

(** The closures handed to [requestAnimationFrame]. *)
Inductive FrameCb := FScroll | FResize.

#[global] Instance FrameCb_eq_dec : EqDecision FrameCb.
Proof. solve_decision. Defined.

(** A [typeWriter] call suspended at its [await], together with the
    [runCycle] that awaits it.  The awaited promise is identified with the
    timer that resolves it. *)
Record Loop := {
  lp_await : nat;      (* the pending promise *)
  lp_ctrl : nat;       (* [controller] *)
  lp_text : string;    (* [text] *)
  lp_i : nat;          (* [i], the index of the character just written *)
  lp_speed : Z;
  lp_anim : Z;         (* [animationId] of the awaiting runCycle *)
  lp_index : nat       (* [currentIndex] of the awaiting runCycle *)
}.

Inductive Exn :=
| TypeError (msg : string)
| Error (msg : string).

Inductive ConsoleEntry :=
| Log (msg : string)
| LogCreated (particleCount : Q)
| Warn (msg : string)
| ErrorLog (msg : string) (e : Exn)
| Uncaught (e : Exn).

Record World := mkWorld {
  pm : Controller;
  dom : Dom;
  win : Window;
  platform : Platform;
  clock : Z;                          (* what Date.now() returns *)
  rngPos : nat;
  nextId : nat;
  timers : list Timer;
  frames : list FrameCb;
  abortedSignals : gset nat;          (* aborted AbortControllers *)
  abortListeners : list (nat * nat);  (* controller, timer and promise *)
  loops : list Loop;
  microtasks : list (nat * bool);     (* settled promise, fulfilled? *)
  console : list ConsoleEntry;
  alerts : list string
}.

(** ** Field updates *)

Definition set_isInitialized (b : bool) (c : Controller) : Controller :=
  mkController b (isDestroyed c) (activeAnimations c) (typingController c)
    (particleContainer c) (elementCache c) (handlers c) (scrollTicking c)
    (resizeTicking c) (config c).
Definition set_isDestroyed (b : bool) (c : Controller) : Controller :=
  mkController (isInitialized c) b (activeAnimations c) (typingController c)
    (particleContainer c) (elementCache c) (handlers c) (scrollTicking c)
    (resizeTicking c) (config c).
Definition set_activeAnimations (s : gset Z) (c : Controller) : Controller :=
  mkController (isInitialized c) (isDestroyed c) s (typingController c)
    (particleContainer c) (elementCache c) (handlers c) (scrollTicking c)
    (resizeTicking c) (config c).
Definition set_typingController (o : option nat) (c : Controller) : Controller :=
  mkController (isInitialized c) (isDestroyed c) (activeAnimations c) o
    (particleContainer c) (elementCache c) (handlers c) (scrollTicking c)
    (resizeTicking c) (config c).
Definition set_particleContainer (o : option Elem) (c : Controller) : Controller :=
  mkController (isInitialized c) (isDestroyed c) (activeAnimations c)
    (typingController c) o (elementCache c) (handlers c) (scrollTicking c)
    (resizeTicking c) (config c).
Definition set_elementCache (m : gmap string Elem) (c : Controller) : Controller :=
  mkController (isInitialized c) (isDestroyed c) (activeAnimations c)
    (typingController c) (particleContainer c) m (handlers c) (scrollTicking c)
    (resizeTicking c) (config c).
Definition set_handlers (h : Handlers) (c : Controller) : Controller :=
  mkController (isInitialized c) (isDestroyed c) (activeAnimations c)
    (typingController c) (particleContainer c) (elementCache c) h
    (scrollTicking c) (resizeTicking c) (config c).
Definition set_scrollTicking (b : bool) (c : Controller) : Controller :=
  mkController (isInitialized c) (isDestroyed c) (activeAnimations c)
    (typingController c) (particleContainer c) (elementCache c) (handlers c) b
    (resizeTicking c) (config c).
Definition set_resizeTicking (b : bool) (c : Controller) : Controller :=
  mkController (isInitialized c) (isDestroyed c) (activeAnimations c)
    (typingController c) (particleContainer c) (elementCache c) (handlers c)
    (scrollTicking c) b (config c).

Definition upd_pm (f : Controller -> Controller) (w : World) : World :=
  mkWorld (f (pm w)) (dom w) (win w) (platform w) (clock w) (rngPos w)
    (nextId w) (timers w) (frames w) (abortedSignals w) (abortListeners w)
    (loops w) (microtasks w) (console w) (alerts w).
Definition upd_dom (f : Dom -> Dom) (w : World) : World :=
  mkWorld (pm w) (f (dom w)) (win w) (platform w) (clock w) (rngPos w)
    (nextId w) (timers w) (frames w) (abortedSignals w) (abortListeners w)
    (loops w) (microtasks w) (console w) (alerts w).
Definition upd_win (f : Window -> Window) (w : World) : World :=
  mkWorld (pm w) (dom w) (f (win w)) (platform w) (clock w) (rngPos w)
    (nextId w) (timers w) (frames w) (abortedSignals w) (abortListeners w)
    (loops w) (microtasks w) (console w) (alerts w).
Definition set_clock (t : Z) (w : World) : World :=
  mkWorld (pm w) (dom w) (win w) (platform w) t (rngPos w)
    (nextId w) (timers w) (frames w) (abortedSignals w) (abortListeners w)
    (loops w) (microtasks w) (console w) (alerts w).
Definition set_rngPos (n : nat) (w : World) : World :=
  mkWorld (pm w) (dom w) (win w) (platform w) (clock w) n
    (nextId w) (timers w) (frames w) (abortedSignals w) (abortListeners w)
    (loops w) (microtasks w) (console w) (alerts w).
Definition set_nextId (n : nat) (w : World) : World :=
  mkWorld (pm w) (dom w) (win w) (platform w) (clock w) (rngPos w)
    n (timers w) (frames w) (abortedSignals w) (abortListeners w)
    (loops w) (microtasks w) (console w) (alerts w).
Definition upd_timers (f : list Timer -> list Timer) (w : World) : World :=
  mkWorld (pm w) (dom w) (win w) (platform w) (clock w) (rngPos w)
    (nextId w) (f (timers w)) (frames w) (abortedSignals w) (abortListeners w)
    (loops w) (microtasks w) (console w) (alerts w).
Definition upd_frames (f : list FrameCb -> list FrameCb) (w : World) : World :=
  mkWorld (pm w) (dom w) (win w) (platform w) (clock w) (rngPos w)
    (nextId w) (timers w) (f (frames w)) (abortedSignals w) (abortListeners w)
    (loops w) (microtasks w) (console w) (alerts w).
Definition upd_abortedSignals (f : gset nat -> gset nat) (w : World) : World :=
  mkWorld (pm w) (dom w) (win w) (platform w) (clock w) (rngPos w)
    (nextId w) (timers w) (frames w) (f (abortedSignals w)) (abortListeners w)
    (loops w) (microtasks w) (console w) (alerts w).
Definition upd_abortListeners (f : list (nat * nat) -> list (nat * nat))
    (w : World) : World :=
  mkWorld (pm w) (dom w) (win w) (platform w) (clock w) (rngPos w)
    (nextId w) (timers w) (frames w) (abortedSignals w) (f (abortListeners w))
    (loops w) (microtasks w) (console w) (alerts w).
Definition upd_loops (f : list Loop -> list Loop) (w : World) : World :=
  mkWorld (pm w) (dom w) (win w) (platform w) (clock w) (rngPos w)
    (nextId w) (timers w) (frames w) (abortedSignals w) (abortListeners w)
    (f (loops w)) (microtasks w) (console w) (alerts w).
Definition upd_microtasks (f : list (nat * bool) -> list (nat * bool))
    (w : World) : World :=
  mkWorld (pm w) (dom w) (win w) (platform w) (clock w) (rngPos w)
    (nextId w) (timers w) (frames w) (abortedSignals w) (abortListeners w)
    (loops w) (f (microtasks w)) (console w) (alerts w).
Definition upd_console (f : list ConsoleEntry -> list ConsoleEntry)
    (w : World) : World :=
  mkWorld (pm w) (dom w) (win w) (platform w) (clock w) (rngPos w)
    (nextId w) (timers w) (frames w) (abortedSignals w) (abortListeners w)
    (loops w) (microtasks w) (f (console w)) (alerts w).
Definition upd_alerts (f : list string -> list string) (w : World) : World :=
  mkWorld (pm w) (dom w) (win w) (platform w) (clock w) (rngPos w)
    (nextId w) (timers w) (frames w) (abortedSignals w) (abortListeners w)
    (loops w) (microtasks w) (console w) (f (alerts w)).

(* ===================================================================== *)
(** * Computations: state and exceptions                                  *)
(* ===================================================================== *)

Inductive Outcome (A : Type) :=
| Normal (a : A)
| Thrown (e : Exn).
Arguments Normal {A} a.
Arguments Thrown {A} e.

Definition M (A : Type) : Type := World -> Outcome A * World.

Definition ret {A} (a : A) : M A := fun w => (Normal a, w).

Definition bind {A B} (m : M A) (k : A -> M B) : M B :=
  fun w =>
    match m w with
    | (Normal a, w') => k a w'
    | (Thrown e, w') => (Thrown e, w')
    end.

Definition throw {A} (e : Exn) : M A := fun w => (Thrown e, w).

(** [try { m } catch (e) { h e }] *)
Definition try_catch {A} (m : M A) (h : Exn -> M A) : M A :=
  fun w =>
    match m w with
    | (Normal a, w') => (Normal a, w')
    | (Thrown e, w') => h e w'
    end.

Definition get : M World := fun w => (Normal w, w).
Definition modify (f : World -> World) : M unit := fun w => (Normal tt, f w).

Declare Scope js_scope.
Delimit Scope js_scope with js.
Notation "x <- m ;; k" := (bind m (fun x => k))
  (at level 100, m at next level, k at level 200, right associativity) : js_scope.
Notation "m ;; k" := (bind m (fun _ => k))
  (at level 100, k at level 200, right associativity) : js_scope.
Open Scope js_scope.

(** The world a computation ends in, and whether it ended normally. *)
Definition post {A} (m : M A) (w : World) : World := snd (m w).
Definition returns {A} (m : M A) (w : World) : Prop :=
  exists a, fst (m w) = Normal a.

(* ===================================================================== *)
(** * Browser primitives                                                  *)
(* ===================================================================== *)

Definition console_log (s : string) : M unit :=
  modify (upd_console (fun c => c ++ [Log s])).
Definition console_warn (s : string) : M unit :=
  modify (upd_console (fun c => c ++ [Warn s])).
Definition console_error (s : string) (e : Exn) : M unit :=
  modify (upd_console (fun c => c ++ [ErrorLog s e])).
Definition alert (s : string) : M unit :=
  modify (upd_alerts (fun a => a ++ [s])).

(** A call of an [async] function never throws to its caller: an exception
    in its body rejects the returned promise, which nobody handles here. *)
Definition async (m : M unit) : M unit :=
  try_catch m (fun e => modify (upd_console (fun c => c ++ [Uncaught e]))).

(** A new identity for a timer, a function object or an abort controller. *)
Definition fresh : M nat :=
  w <- get;; modify (set_nextId (S (nextId w)));; ret (nextId w).
Definition mathRandom : M Q :=
  w <- get;; modify (set_rngPos (S (rngPos w)));;
  ret (random (platform w) (rngPos w)).
Definition dateNow : M Z := w <- get;; ret (clock w).

Definition setTimeout (cb : TimerCb) (delay : Z) : M nat :=
  t <- fresh;;
  modify (upd_timers (fun l => l ++ [{| tm_id := t; tm_delay := delay; tm_cb := cb |}]));;
  ret t.
Definition clearTimeout (t : nat) : M unit :=
  modify (upd_timers (filter (fun tm => tm_id tm <> t))).
Definition requestAnimationFrame (cb : FrameCb) : M unit :=
  modify (upd_frames (fun l => l ++ [cb])).

(** A method call or property access on [null] throws a [TypeError]. *)
Definition recv {A} (o : option A) : M A :=
  match o with
  | Some a => ret a
  | None => throw (TypeError "Cannot read properties of null")
  end.

Definition isNull {A} (o : option A) : bool :=
  match o with Some _ => false | None => true end.

(** The names under which [Object.prototype] has a property; every one of
    the values is truthy. *)
Definition objectPrototypeHas (key : string) : bool :=
  existsb (String.eqb key)
    ["constructor"; "hasOwnProperty"; "isPrototypeOf"; "propertyIsEnumerable";
     "toLocaleString"; "toString"; "valueOf"; "__proto__";
     "__defineGetter__"; "__defineSetter__"; "__lookupGetter__";
     "__lookupSetter__"]%string.
Arguments objectPrototypeHas !key /.

(** The receiver of a call [v.method(...)] of a method that elements have:
    [null] and the values inherited from [Object.prototype] lack it, and
    the call throws a [TypeError]. *)
Definition asElement (v : option Value) : M Elem :=
  match v with
  | Some (VElem e) => ret e
  | Some (VInherited _) => throw (TypeError "is not a function")
  | None => throw (TypeError "Cannot read properties of null")
  end.

(** ** Elements *)

Definition elemOfId (id : string) : option Elem :=
  if String.eqb id "bgAnimation" then Some ElBgAnimation
  else if String.eqb id "typingText" then Some ElTypingText
  else if String.eqb id "navbar" then Some ElNavbar
  else if String.eqb id "contactForm" then Some ElContactForm
  else None.

Definition present (d : Dom) (e : Elem) : bool :=
  match e with
  | ElBgAnimation => negb (isNull (bgAnimation d))
  | ElTypingText => negb (isNull (typingText d))
  | ElNavbar => negb (isNull (navbar d))
  | ElContactForm => negb (isNull (contactForm d))
  end.

(** [document.getElementById(id)] *)
Definition getElementById (id : string) : M (option Elem) :=
  w <- get;;
  ret (match elemOfId id with
       | Some e => if present (dom w) e then Some e else None
       | None => None
       end).

Definition set_bgAnimation (f : list Particle -> list Particle) (d : Dom) : Dom :=
  mkDom (f <$> bgAnimation d) (typingText d) (navbar d) (contactForm d)
    (fadeIns d) (anchors d) (projectCards d) (skillCards d).
Definition set_typingText (f : string -> string) (d : Dom) : Dom :=
  mkDom (bgAnimation d) (f <$> typingText d) (navbar d) (contactForm d)
    (fadeIns d) (anchors d) (projectCards d) (skillCards d).
Definition set_navbar (f : bool -> bool) (d : Dom) : Dom :=
  mkDom (bgAnimation d) (typingText d) (f <$> navbar d) (contactForm d)
    (fadeIns d) (anchors d) (projectCards d) (skillCards d).
Definition set_contactForm (f : Form -> Form) (d : Dom) : Dom :=
  mkDom (bgAnimation d) (typingText d) (navbar d) (f <$> contactForm d)
    (fadeIns d) (anchors d) (projectCards d) (skillCards d).
Definition set_fadeIns (f : list FadeIn -> list FadeIn) (d : Dom) : Dom :=
  mkDom (bgAnimation d) (typingText d) (navbar d) (contactForm d)
    (f (fadeIns d)) (anchors d) (projectCards d) (skillCards d).
Definition set_anchors (f : list nat -> list nat) (d : Dom) : Dom :=
  mkDom (bgAnimation d) (typingText d) (navbar d) (contactForm d)
    (fadeIns d) (f (anchors d)) (projectCards d) (skillCards d).
Definition set_projectCards (f : list nat -> list nat) (d : Dom) : Dom :=
  mkDom (bgAnimation d) (typingText d) (navbar d) (contactForm d)
    (fadeIns d) (anchors d) (f (projectCards d)) (skillCards d).
Definition set_skillCards (f : list (bool * nat) -> list (bool * nat)) (d : Dom) : Dom :=
  mkDom (bgAnimation d) (typingText d) (navbar d) (contactForm d)
    (fadeIns d) (anchors d) (projectCards d) (f (skillCards d)).

(** [el.appendChild(fragment)] for a fragment of particles. *)
Definition appendChild (el : option Elem) (fragment : list Particle) : M unit :=
  e <- recv el;;
  match e with
  | ElBgAnimation => modify (upd_dom (set_bgAnimation (fun ps => ps ++ fragment)))
  | _ => ret tt
  end.

(** [el.innerHTML = s] (only the empty string is ever assigned). *)
Definition set_innerHTML (el : option Elem) (s : string) : M unit :=
  e <- recv el;;
  match e with
  | ElBgAnimation => modify (upd_dom (set_bgAnimation (fun _ => [])))
  | ElTypingText => modify (upd_dom (set_typingText (fun _ => s)))
  | _ => ret tt
  end.

(** [el.innerHTML += c]; the texts typed hold no markup characters. *)
Definition append_innerHTML (el : option Elem) (c : string) : M unit :=
  e <- recv el;;
  match e with
  | ElTypingText => modify (upd_dom (set_typingText (fun s => String.append s c)))
  | _ => ret tt
  end.

(** [el.classList.toggle('scrolled', force)] *)
Definition classList_toggle_scrolled (el : option Elem) (force : bool) : M unit :=
  e <- recv el;;
  match e with
  | ElNavbar => modify (upd_dom (set_navbar (fun _ => force)))
  | _ => ret tt
  end.

(** ** Window listeners *)

Definition sameListener (cb : Callback) (capture : bool) (l : Listener) : Prop :=
  l_callback l = cb /\ l_capture l = capture.

#[global] Instance sameListener_dec cb capture l : Decision (sameListener cb capture l).
Proof. unfold sameListener. apply _. Defined.

(** [addEventListener]: a listener with the same callback and capture flag
    is not added twice. *)
Definition addListener (l : Listener) (ls : list Listener) : list Listener :=
  if decide (Exists (sameListener (l_callback l) (l_capture l)) ls) then ls
  else ls ++ [l].

(** [removeEventListener(type, cb)]: matches on callback and capture flag
    (false when no options are given). *)
Definition removeListener (cb : Callback) (ls : list Listener) : list Listener :=
  filter (fun l => ~ sameListener cb false l) ls.

Definition addScrollListener (cb : option Callback) (passive : bool) : M unit :=
  match cb with
  | None => ret tt
  | Some f =>
      modify (upd_win (fun v =>
        mkWindow (innerWidth v) (innerHeight v) (devicePixelRatio v) (scrollY v)
          (addListener {| l_callback := f; l_capture := false; l_passive := passive |}
             (scrollListeners v))
          (resizeListeners v)))
  end.
Definition addResizeListener (cb : option Callback) (passive : bool) : M unit :=
  match cb with
  | None => ret tt
  | Some f =>
      modify (upd_win (fun v =>
        mkWindow (innerWidth v) (innerHeight v) (devicePixelRatio v) (scrollY v)
          (scrollListeners v)
          (addListener {| l_callback := f; l_capture := false; l_passive := passive |}
             (resizeListeners v))))
  end.
Definition removeScrollListener (cb : Callback) : M unit :=
  modify (upd_win (fun v =>
    mkWindow (innerWidth v) (innerHeight v) (devicePixelRatio v) (scrollY v)
      (removeListener cb (scrollListeners v)) (resizeListeners v))).
Definition removeResizeListener (cb : Callback) : M unit :=
  modify (upd_win (fun v =>
    mkWindow (innerWidth v) (innerHeight v) (devicePixelRatio v) (scrollY v)
      (scrollListeners v) (removeListener cb (resizeListeners v)))).

(** ** Abort controllers and promises *)

Definition newAbortController : M nat := fresh.

Definition signal_aborted (c : nat) : M bool :=
  w <- get;; ret (bool_decide (c ∈ abortedSignals w)).

(** Settling the promise that timer [t] resolves: if a suspended function
    awaits it and it is still pending, its continuation becomes a
    microtask; a settled promise ignores further [resolve]/[reject]. *)
Definition settle (t : nat) (fulfilled : bool) : M unit :=
  w <- get;;
  if bool_decide (Exists (fun l => lp_await l = t) (loops w))
     && negb (bool_decide (Exists (fun mt => fst mt = t) (microtasks w)))
  then modify (upd_microtasks (fun q => q ++ [(t, fulfilled)]))
  else ret tt.

(** The abort listener [() => { clearTimeout(timeout); reject(...) }] *)
Definition abortListener (timeout : nat) : M unit :=
  clearTimeout timeout;; settle timeout false.

Fixpoint runAbortListeners (ls : list (nat * nat)) (c : nat) : M unit :=
  match ls with
  | [] => ret tt
  | (c', t) :: ls' =>
      (if decide (c' = c) then abortListener t else ret tt);;
      runAbortListeners ls' c
  end.

(** [controller.abort()] *)
Definition abort (c : nat) : M unit :=
  w <- get;;
  if bool_decide (c ∈ abortedSignals w) then ret tt
  else
    modify (upd_abortedSignals (fun s => {[ c ]} ∪ s));;
    runAbortListeners (abortListeners w) c.

(* ===================================================================== *)
(** * The methods of PortfolioManager                                     *)
(* ===================================================================== *)

(** The state [new PortfolioManager()] leaves. *)
Definition defaultConfig : Cfg.t :=
  {| Cfg.particles := {| Cfg.count := 50; Cfg.maxCount := 100; Cfg.minCount := 20 |};
     Cfg.typing := {| Cfg.speed := 150; Cfg.pauseBetweenTexts := 2000;
                      Cfg.initialDelay := 2000 |};
     Cfg.scroll := {| Cfg.navbarThreshold := 50; Cfg.revealOffset := 150 |} |}.

Definition constructor : Controller :=
  {| isInitialized := false;
     isDestroyed := false;
     activeAnimations := ∅;
     typingController := None;
     particleContainer := None;
     elementCache := ∅;
     handlers := {| h_scroll := None; h_resize := None |};
     scrollTicking := false;
     resizeTicking := false;
     config := defaultConfig |}.

(** ** getElement *)

(** [this.elements] is a plain object: [this.elements[id]] is the element
    stored under [id], or else what [Object.prototype] has under that
    name, which is truthy too and is returned like a cached element. *)
Definition getElement (id : string) (cache : bool) : M (option Value) :=
  w <- get;;
  match (if cache then elementCache (pm w) !! id else None) with
  | Some e => ret (Some (VElem e))
  | None =>
      if cache && objectPrototypeHas id then ret (Some (VInherited id)) else
      element <- getElementById id;;
      match element with
      | None =>
          console_warn (String.append "Element with id '"
                          (String.append id "' not found"));;
          ret None
      | Some e =>
          (if cache
           then modify (upd_pm (fun c => set_elementCache (<[id := e]> (elementCache c)) c))
           else ret tt);;
          ret (Some (VElem e))
      end
  end.

(** ** createParticles *)

Definition Qlt_bool (a b : Q) : bool := negb (Qle_bool b a).

(** [window.devicePixelRatio || 1] *)
Definition orOne (d : option Q) : Q :=
  match d with
  | Some q => if Qeq_bool q 0 then 1%Q else q
  | None => 1%Q
  end.

(** The count [createParticles] computes before its loop. *)
Definition particleCount (cfg : Cfg.Particles) (screenWidth : Z) (dpr : option Q) : Q :=
  let devicePixelRatio := orOne dpr in
  let isLowEndDevice := Qlt_bool devicePixelRatio 2 && (screenWidth <? 1024) in
  let particleCount := Cfg.count cfg in
  if isLowEndDevice then Qmax (Cfg.minCount cfg) (particleCount / 2)
  else if 1920 <? screenWidth then Qmin (Cfg.maxCount cfg) (particleCount * (3 # 2))
  else particleCount.

(** How often [for (let i = 0; i < n; i++)] runs its body. *)
Definition iterations (n : Q) : nat := Z.to_nat (Qceiling n).

Definition makeParticle : M Particle :=
  r1 <- mathRandom;; r2 <- mathRandom;; r3 <- mathRandom;; r4 <- mathRandom;;
  ret {| p_left := Number.mul r1 100; p_top := Number.mul r2 100;
         p_delay := Number.mul r3 6;
         p_duration := Number.add (Number.mul r4 3) 3 |}.

Fixpoint makeParticles (n : nat) : M (list Particle) :=
  match n with
  | O => ret []
  | S n' => p <- makeParticle;; ps <- makeParticles n';; ret (p :: ps)
  end.

Definition createParticles : M unit :=
  bgAnimation <- getElement "bgAnimation" true;;
  if isNull bgAnimation then ret tt else
  w <- get;;
  let n := particleCount (Cfg.particles (config (pm w)))
             (innerWidth (win w)) (devicePixelRatio (win w)) in
  fragment <- makeParticles (iterations n);;
  bgAnimation <- asElement bgAnimation;;
  appendChild (Some bgAnimation) fragment;;
  modify (upd_pm (set_particleContainer (Some bgAnimation)));;
  modify (upd_console (fun c => c ++ [LogCreated n])).

(** ** typeWriter and the typing cycle *)

Definition texts : list string :=
  ["Junior Front-end Developer"; "React Enthusiast";
   "Creative Problem Solver"; "UI/UX Designer"].

Definition charAt (s : string) (i : nat) : string :=
  match String.get i s with
  | Some a => String a EmptyString
  | None => EmptyString
  end.

(** The [catch] clause of [typeWriter]. *)
Definition typeWriterCatch (error : Exn) : M (option bool) :=
  (match error with
   | Error "Animation aborted" => ret tt
   | _ => console_error "TypeWriter error:" error
   end);;
  ret (Some false).

(** The [for] loop of [typeWriter], entered at index [lp_i l].  The result
    is [Some b] when the function returns [b], [None] when it suspends at
    the [await] (the suspended call is then recorded in [loops]). *)
Definition typeWriterLoop (element : option Elem) (l : Loop) : M (option bool) :=
  if (lp_i l <? String.length (lp_text l))%nat then
    aborted <- signal_aborted (lp_ctrl l);;
    w <- get;;
    if aborted || isDestroyed (pm w) then ret (Some false)
    else
      append_innerHTML element (charAt (lp_text l) (lp_i l));;
      timeout <- setTimeout TChar (lp_speed l);;
      modify (upd_abortListeners (fun ls => ls ++ [(lp_ctrl l, timeout)]));;
      modify (upd_loops (fun ls => ls ++
        [{| lp_await := timeout; lp_ctrl := lp_ctrl l; lp_text := lp_text l;
            lp_i := lp_i l; lp_speed := lp_speed l; lp_anim := lp_anim l;
            lp_index := lp_index l |}]));;
      ret None
  else ret (Some true).

(** [typeWriter(text, element, speed)], called from the [runCycle] whose
    captured variables are [animationId] and [currentIndex]. *)
Definition typeWriter (text : string) (element : option Elem) (speed : Z)
    (animationId : Z) (currentIndex : nat) : M (option bool) :=
  w <- get;;
  if isNull element || isDestroyed (pm w) then ret (Some false) else
  set_innerHTML element "";;
  controller <- newAbortController;;
  modify (upd_pm (set_typingController (Some controller)));;
  try_catch
    (typeWriterLoop element
       {| lp_await := O; lp_ctrl := controller; lp_text := text; lp_i := O;
          lp_speed := speed; lp_anim := animationId; lp_index := currentIndex |})
    typeWriterCatch.

(** What [runCycle] does once [typeWriter] has returned [success]. *)
Definition runCycleAfter (animationId : Z) (currentIndex : nat) (success : bool) : M unit :=
  w <- get;;
  if success && negb (isDestroyed (pm w)) then
    let currentIndex := ((currentIndex + 1) mod length texts)%nat in
    _ <- setTimeout (TPause animationId currentIndex)
           (Cfg.pauseBetweenTexts (Cfg.typing (config (pm w))));;
    ret tt
  else ret tt.

Definition runCycle (animationId : Z) (currentIndex : nat) : M unit :=
  async (
    w <- get;;
    if isDestroyed (pm w) || negb (bool_decide (animationId ∈ activeAnimations (pm w)))
    then ret tt
    else
      r <- typeWriter (nth currentIndex texts EmptyString) (Some ElTypingText)
             (Cfg.speed (Cfg.typing (config (pm w)))) animationId currentIndex;;
      match r with
      | None => ret tt
      | Some success => runCycleAfter animationId currentIndex success
      end).

(** The continuation of a suspended [typeWriter] once its promise is
    settled: the loop goes on with [i + 1], or the rejection is thrown
    inside the [try]; when the function returns, its [runCycle] resumes. *)
Definition typeWriterResume (l : Loop) (fulfilled : bool) : M unit :=
  async (
    r <- try_catch
           (if fulfilled
            then typeWriterLoop (Some ElTypingText)
                   {| lp_await := lp_await l; lp_ctrl := lp_ctrl l;
                      lp_text := lp_text l; lp_i := S (lp_i l);
                      lp_speed := lp_speed l; lp_anim := lp_anim l;
                      lp_index := lp_index l |}
            else throw (Error "Animation aborted"))
           typeWriterCatch;;
    match r with
    | None => ret tt
    | Some success => runCycleAfter (lp_anim l) (lp_index l) success
    end).

Definition initTypingAnimation : M unit :=
  async (
    typingElement <- getElement "typingText" true;;
    if isNull typingElement then ret tt else
    animationId <- dateNow;;
    modify (upd_pm (fun c =>
      set_activeAnimations ({[ animationId ]} ∪ activeAnimations c) c));;
    w <- get;;
    _ <- setTimeout (TStart animationId)
           (Cfg.initialDelay (Cfg.typing (config (pm w))));;
    ret tt).

(** The two timer closures of the cycle. *)
Definition startCallback (animationId : Z) : M unit :=
  w <- get;;
  if negb (isDestroyed (pm w)) then runCycle animationId 0 else ret tt.

Definition pauseCallback (animationId : Z) (currentIndex : nat) : M unit :=
  w <- get;;
  if negb (isDestroyed (pm w))
     && bool_decide (animationId ∈ activeAnimations (pm w))
  then runCycle animationId currentIndex
  else ret tt.

(** ** Scroll handling *)

Definition updateNavbar : M unit :=
  navbar <- getElement "navbar" true;;
  if isNull navbar then ret tt else
  w <- get;;
  let shouldBeScrolled :=
    Qlt_bool (Cfg.navbarThreshold (Cfg.scroll (config (pm w)))) (scrollY (win w)) in
  navbar <- asElement navbar;;
  classList_toggle_scrolled (Some navbar) shouldBeScrolled.

Definition revealOnScroll : M unit :=
  w <- get;;
  let reveals := filter (fun f => visible f = false) (fadeIns (dom w)) in
  if (length reveals =? 0)%nat then ret tt else
  let windowHeight := innerHeight (win w) in
  let threshold := Cfg.revealOffset (Cfg.scroll (config (pm w))) in
  modify (upd_dom (set_fadeIns (map (fun f =>
    if visible f then f
    else if Qlt_bool (offsetTop f - scrollY (win w)) (windowHeight - threshold)
         then {| offsetTop := offsetTop f; visible := true |}
         else f)))).

Definition handleScroll : M unit :=
  w <- get;;
  if scrollTicking (pm w) || isDestroyed (pm w) then ret tt else
  modify (upd_pm (set_scrollTicking true));;
  requestAnimationFrame FScroll.

(** The closure [handleScroll] hands to [requestAnimationFrame]. *)
Definition scrollFrame : M unit :=
  updateNavbar;;
  revealOnScroll;;
  modify (upd_pm (set_scrollTicking false)).

(** ** Resize handling *)

Definition handleResize : M unit :=
  w <- get;;
  if resizeTicking (pm w) then ret tt else
  modify (upd_pm (set_resizeTicking true));;
  requestAnimationFrame FResize.

Definition resizeFrame : M unit :=
  w <- get;;
  (if negb (isNull (particleContainer (pm w))) then
     set_innerHTML (particleContainer (pm w)) "";;
     createParticles
   else ret tt);;
  modify (upd_pm (set_resizeTicking false)).

(** ** Links, cards, third-party setup *)

(** One more click listener on every same-page anchor. *)
Definition initSmoothScrolling : M unit :=
  modify (upd_dom (set_anchors (map S))).

(** One more pair of hover listeners on every project card, and on every
    skill card that has an icon. *)
Definition initCardEffects : M unit :=
  modify (upd_dom (set_projectCards (map S)));;
  modify (upd_dom (set_skillCards
    (map (fun c : bool * nat => if fst c then (fst c, S (snd c)) else c)))).

Definition initAOS : M unit :=
  w <- get;;
  if negb (hasAOS (platform w)) then
    console_warn "AOS library not loaded, skipping AOS initialization"
  else
    try_catch
      ((if aosInitThrows (platform w) then throw (Error "AOS.init") else ret tt);;
       console_log "AOS initialized successfully")
      (fun error => console_error "Failed to initialize AOS:" error).

Definition initPerformanceMonitoring : M unit :=
  w <- get;;
  if hasPerformanceObserver (platform w) then
    try_catch
      (if perfObserveThrows (platform w)
       then throw (TypeError "PerformanceObserver.observe") else ret tt)
      (fun _ => console_log "Performance monitoring not available")
  else ret tt.

(** ** The contact form *)

(** [formData.get(name)]: the first value of that name, or [null]. *)
Fixpoint formData_get (formData : list (string * JS.str)) (name : string)
    : option JS.str :=
  match formData with
  | [] => None
  | (k, v) :: rest => if String.eqb k name then Some v else formData_get rest name
  end.

Definition truthyOpt (o : option JS.str) : bool :=
  match o with Some s => JS.truthy s | None => false end.

(** [emailRegex.test(x)] converts its argument to a string first. *)
Definition toString (o : option JS.str) : JS.str :=
  match o with Some s => s | None => JS.of_string "undefined" end.

Definition validateForm (formData : list (string * JS.str)) : M bool :=
  let name := JS.trim <$> formData_get formData "name" in
  let email := JS.trim <$> formData_get formData "email" in
  let message := JS.trim <$> formData_get formData "message" in
  if negb (truthyOpt name) || negb (truthyOpt email) || negb (truthyOpt message)
  then alert "Mohon isi semua field yang diperlukan";; ret false
  else if negb (Regex.test emailRegex (toString email))
  then alert "Format email tidak valid";; ret false
  else ret true.

(** [validateForm] as any caller may call it.  [formData] is [None] when
    the argument has no [get] method ([null], [undefined], a number); a
    [File] entry has no [trim] method, and [?.] guards against [null] and
    [undefined] only.  On the data of text fields this is [validateForm]. *)
Fixpoint entries_get (entries : list (string * FormEntry)) (name : string)
    : option FormEntry :=
  match entries with
  | [] => None
  | (k, v) :: rest => if String.eqb k name then Some v else entries_get rest name
  end.

Definition trimEntry (o : option FormEntry) : M (option JS.str) :=
  match o with
  | None => ret None
  | Some (FText s) => ret (Some (JS.trim s))
  | Some FFile => throw (TypeError "formData.get(...)?.trim is not a function")
  end.

Definition validateForm_any (formData : option (list (string * FormEntry))) : M bool :=
  entries <- recv formData;;
  name <- trimEntry (entries_get entries "name");;
  email <- trimEntry (entries_get entries "email");;
  message <- trimEntry (entries_get entries "message");;
  if negb (truthyOpt name) || negb (truthyOpt email) || negb (truthyOpt message)
  then alert "Mohon isi semua field yang diperlukan";; ret false
  else if negb (Regex.test emailRegex (toString email))
  then alert "Format email tidak valid";; ret false
  else ret true.

Definition upd_button (f : Button -> Button) : M unit :=
  modify (upd_dom (set_contactForm (fun fm =>
    {| fields := fields fm; defaults := defaults fm;
       submitBtn := f <$> submitBtn fm; submitListeners := submitListeners fm |}))).

Definition form_reset : M unit :=
  modify (upd_dom (set_contactForm (fun fm =>
    {| fields := defaults fm; defaults := defaults fm;
       submitBtn := submitBtn fm; submitListeners := submitListeners fm |}))).

(** The [catch] clause of the submit handler. *)
Definition submitCatch (originalText : string) (error : Exn) : M unit :=
  console_error "Form submission error:" error;;
  upd_button (fun b =>
    {| textContent := "Error! Coba lagi"; disabled := disabled b;
       background := "linear-gradient(45deg, #ff4444, #cc0000)" |});;
  _ <- setTimeout (TSubmitErrorRevert originalText) 3000;;
  ret tt.

(** The submit listener, up to its [await]. *)
Definition submitHandler : M unit :=
  async (
    w <- get;;
    form <- recv (contactForm (dom w));;
    let submitBtn := submitBtn form in
    if isNull submitBtn then ret tt else
    btn <- recv submitBtn;;
    let originalText := textContent btn in
    let formData := fields form in
    isValid <- validateForm formData;;
    if negb isValid then ret tt else
    try_catch
      (upd_button (fun _ =>
         {| textContent := "Mengirim..."; disabled := true;
            background := "linear-gradient(45deg, #888, #666)" |});;
       _ <- setTimeout (TSubmitWait originalText) 1500;;
       ret tt)
      (submitCatch originalText)).

(** The submit listener after its [await]. *)
Definition submitResume (originalText : string) : M unit :=
  async (
    try_catch
      (upd_button (fun b =>
         {| textContent := "Terkirim!"; disabled := disabled b;
            background := "linear-gradient(45deg, #00ff88, #0088ff)" |});;
       _ <- setTimeout (TSubmitRevert originalText) 2000;;
       ret tt)
      (submitCatch originalText)).

Definition submitRevert (originalText : string) : M unit :=
  upd_button (fun _ =>
    {| textContent := originalText; disabled := false; background := "" |});;
  form_reset.

Definition submitErrorRevert (originalText : string) : M unit :=
  upd_button (fun _ =>
    {| textContent := originalText; disabled := false; background := "" |}).

Definition initContactForm : M unit :=
  form <- getElement "contactForm" true;;
  if isNull form then ret tt else
  modify (upd_dom (set_contactForm (fun fm =>
    {| fields := fields fm; defaults := defaults fm; submitBtn := submitBtn fm;
       submitListeners := S (submitListeners fm) |}))).

(** ** init and destroy *)

(** The body of the [try] block of [init]. *)
Definition initSetup : M unit :=
  initPerformanceMonitoring;;
  createParticles;;
  initAOS;;
  initTypingAnimation;;
  initSmoothScrolling;;
  initContactForm;;
  initCardEffects;;
  n <- fresh;;
  modify (upd_pm (fun c => set_handlers
    {| h_scroll := Some (BoundHandleScroll n); h_resize := h_resize (handlers c) |} c));;
  n' <- fresh;;
  modify (upd_pm (fun c => set_handlers
    {| h_scroll := h_scroll (handlers c); h_resize := Some (BoundHandleResize n') |} c));;
  w <- get;;
  addScrollListener (h_scroll (handlers (pm w))) true;;
  addResizeListener (h_resize (handlers (pm w))) true;;
  revealOnScroll;;
  updateNavbar;;
  modify (upd_pm (set_isInitialized true));;
  console_log "Portfolio initialized successfully".

(** [init] around the body of its [try] block. *)
Definition init_with (setup : M unit) : M unit :=
  async (
    w <- get;;
    if isInitialized (pm w) then console_warn "Portfolio already initialized"
    else
      console_log "Initializing Portfolio...";;
      try_catch setup
        (fun error => console_error "Failed to initialize portfolio:" error)).

Definition init : M unit := init_with initSetup.

Definition destroy : M unit :=
  console_log "Destroying Portfolio...";;
  modify (upd_pm (set_isDestroyed true));;
  w <- get;;
  (match typingController (pm w) with
   | Some c => abort c;; modify (upd_pm (set_typingController None))
   | None => ret tt
   end);;
  modify (upd_pm (set_activeAnimations ∅));;
  w <- get;;
  (match h_scroll (handlers (pm w)) with
   | Some f => removeScrollListener f
   | None => ret tt
   end);;
  (match h_resize (handlers (pm w)) with
   | Some f => removeResizeListener f
   | None => ret tt
   end);;
  modify (upd_pm (set_elementCache ∅));;
  modify (upd_pm (set_isInitialized false));;
  console_log "Portfolio destroyed".

(** ** The global listeners of the script *)

(** [visibilitychange]: [document.hidden] decides the flag. *)
Definition onVisibilityChange (hidden : bool) : M unit :=
  modify (upd_pm (set_isDestroyed hidden)).

(** [orientationchange] *)
Definition onOrientationChange : M unit :=
  _ <- setTimeout TOrientation 100;; ret tt.

(* ===================================================================== *)
(** * The event loop                                                      *)
(* ===================================================================== *)

(** An exception that leaves a callback is reported, not propagated. *)
Definition report (r : Outcome unit * World) : World :=
  match r with
  | (Normal _, w) => w
  | (Thrown e, w) => upd_console (fun c => c ++ [Uncaught e]) w
  end.

Definition runMicrotask (mt : nat * bool) : M unit :=
  w <- get;;
  match List.find (fun l => Nat.eqb (lp_await l) (fst mt)) (loops w) with
  | None => ret tt
  | Some l =>
      modify (upd_loops (filter (fun l' => lp_await l' <> fst mt)));;
      typeWriterResume l (snd mt)
  end.

Fixpoint runMicrotasks (q : list (nat * bool)) (w : World) : World :=
  match q with
  | [] => w
  | mt :: q' => runMicrotasks q' (report (runMicrotask mt w))
  end.

(** The microtask checkpoint after a callback. *)
Definition drain (w : World) : World :=
  runMicrotasks (microtasks w) (upd_microtasks (fun _ => []) w).

(** Running one callback from the event loop. *)
Definition invoke (m : M unit) (w : World) : World := drain (report (m w)).

Definition timerCallback (id : nat) (cb : TimerCb) : M unit :=
  match cb with
  | TStart a => startCallback a
  | TPause a i => pauseCallback a i
  | TChar => settle id true
  | TSubmitWait t => submitResume t
  | TSubmitRevert t => submitRevert t
  | TSubmitErrorRevert t => submitErrorRevert t
  | TOrientation => handleResize
  end.

Definition frameCallback (cb : FrameCb) : M unit :=
  match cb with
  | FScroll => scrollFrame
  | FResize => resizeFrame
  end.

Definition listenerCallback (l : Listener) : M unit :=
  match l_callback l with
  | BoundHandleScroll _ => handleScroll
  | BoundHandleResize _ => handleResize
  | Foreign _ => ret tt
  end.

Inductive Event :=
| EvInit                                   (* portfolioManager.init() *)
| EvDestroy                                (* beforeunload, or destroy() *)
| EvVisibility (hidden : bool)             (* visibilitychange *)
| EvOrientation                            (* orientationchange *)
| EvTimer (id : nat)                       (* a pending timer fires *)
| EvFrame                                  (* an animation frame *)
| EvScroll (y : Q)                         (* the page scrolls to y *)
| EvResize (width : Z) (height : Q) (dpr : option Q)
| EvSubmit                                 (* the form is submitted *)
| EvInput (name : string) (value : JS.str) (* the user edits a field *)
| EvClock (t : Z).                         (* time passes *)

Definition setField (name : string) (value : JS.str) (fm : Form) : Form :=
  {| fields := map (fun kv : string * JS.str => if String.eqb (fst kv) name then (fst kv, value) else kv)
                 (fields fm);
     defaults := defaults fm; submitBtn := submitBtn fm;
     submitListeners := submitListeners fm |}.

Definition step (ev : Event) (w : World) : World :=
  match ev with
  | EvInit => invoke init w
  | EvDestroy => invoke destroy w
  | EvVisibility hidden => invoke (onVisibilityChange hidden) w
  | EvOrientation => invoke onOrientationChange w
  | EvTimer id =>
      match List.find (fun tm => Nat.eqb (tm_id tm) id) (timers w) with
      | None => w
      | Some tm =>
          invoke (timerCallback id (tm_cb tm))
            (upd_timers (filter (fun tm' => tm_id tm' <> id)) w)
      end
  | EvFrame =>
      fold_left (fun w' cb => invoke (frameCallback cb) w') (frames w)
        (upd_frames (fun _ => []) w)
  | EvScroll y =>
      let w1 := upd_win (fun v =>
        mkWindow (innerWidth v) (innerHeight v) (devicePixelRatio v) y
          (scrollListeners v) (resizeListeners v)) w in
      fold_left (fun w' l => invoke (listenerCallback l) w') (scrollListeners (win w)) w1
  | EvResize width height dpr =>
      let w1 := upd_win (fun v =>
        mkWindow width height dpr (scrollY v)
          (scrollListeners v) (resizeListeners v)) w in
      fold_left (fun w' l => invoke (listenerCallback l) w') (resizeListeners (win w)) w1
  | EvSubmit =>
      match contactForm (dom w) with
      | None => w
      | Some fm => Nat.iter (submitListeners fm) (invoke submitHandler) w
      end
  | EvInput name value => upd_dom (set_contactForm (setField name value)) w
  | EvClock t => set_clock t w
  end.

Definition run (evs : list Event) (w : World) : World :=
  fold_left (fun w' ev => step ev w') evs w.

(** The world when the script has constructed its manager: any page, any
    window, no timer, frame or listener of the script yet. *)
Definition initialWorld (d : Dom) (v : Window) (p : Platform) (now : Z) : World :=
  {| pm := constructor; dom := d; win := v; platform := p; clock := now;
     rngPos := O; nextId := O; timers := []; frames := [];
     abortedSignals := ∅; abortListeners := []; loops := []; microtasks := [];
     console := []; alerts := [] |}.

(* ===================================================================== *)
(** * The specification's vocabulary                                      *)
(* ===================================================================== *)

(** A field is filled in: present and non-empty after trimming. *)
Definition FilledIn (formData : list (string * JS.str)) (name : string) : Prop :=
  exists v, formData_get formData name = Some v /\ JS.trim v <> [].

(** The code units that are white space: TAB, LF, VT, FF, CR, the space,
    the no-break space, the other space separators of Unicode, the line
    and paragraph separators and the byte order mark. *)
Definition whiteSpace : list N :=
  [9; 10; 11; 12; 13; 32; 160; 5760;
   8192; 8193; 8194; 8195; 8196; 8197; 8198; 8199; 8200; 8201; 8202;
   8232; 8233; 8239; 8287; 12288; 65279]%N.

Definition Blank (c : N) : Prop := In c whiteSpace.

(** A field is non-empty after trimming, in the specification's words: it
    is present and holds a character that is not white space. *)
Definition Filled (formData : list (string * JS.str)) (name : string) : Prop :=
  exists v, formData_get formData name = Some v /\ exists c, In c v /\ ~ Blank c.

(** [s] is [v] without white space at its two ends. *)
Definition TrimmedTo (v s : JS.str) : Prop :=
  exists pre post, v = pre ++ s ++ post /\ Forall Blank pre /\ Forall Blank post.

(** The address pattern in the specification's words, local-part@domain.tld
    with no white space: three non-empty parts, none holding white space or
    an at sign (code unit 64), joined by an at sign and a dot (46). *)
Definition EmailShape (s : JS.str) : Prop :=
  exists localPart domain tld : JS.str,
    s = localPart ++ [64%N] ++ domain ++ [46%N] ++ tld /\
    localPart <> [] /\ domain <> [] /\ tld <> [] /\
    Forall (fun c => ~ Blank c /\ c <> 64%N) localPart /\
    Forall (fun c => ~ Blank c /\ c <> 64%N) domain /\
    Forall (fun c => ~ Blank c /\ c <> 64%N) tld.

(** Form data of text fields as a [FormData] object. *)
Definition textEntries (formData : list (string * JS.str)) : list (string * FormEntry) :=
  map (fun kv => (fst kv, FText (snd kv))) formData.

(** The three fields the form is validated on hold text, where present. *)
Definition TextFields (entries : list (string * FormEntry)) : Prop :=
  Forall (fun name => entries_get entries name <> Some FFile)
    ["name"; "email"; "message"]%string.

(** Form data with the three fields of the contact form. *)
Definition contactData (name email message : string) : list (string * JS.str) :=
  [("name"%string, JS.of_string name); ("email"%string, JS.of_string email);
   ("message"%string, JS.of_string message)].

(** The two device tests of [createParticles]. *)
Definition isLowEndDevice (screenWidth : Z) (dpr : option Q) : bool :=
  Qlt_bool (orOne dpr) 2 && (screenWidth <? 1024).
Definition isVeryWide (screenWidth : Z) : bool := 1920 <? screenWidth.

(** A low-end device in the specification's words: the pixel ratio is
    below 2 and the width below 1024.  A browser that reports no pixel
    ratio ([None]) counts as one of ratio 1. *)
Definition LowEnd (screenWidth : Z) (dpr : option Q) : Prop :=
  match dpr with Some ratio => (ratio < 2)%Q | None => True end /\
  screenWidth < 1024.

(** The particle count in the specification's words: half the base count
    of 50 on a low-end device, one and a half times it on a width above
    1920, the base count otherwise. *)
Definition CountFor (screenWidth : Z) (dpr : option Q) (n : Q) : Prop :=
  (LowEnd screenWidth dpr -> (n == 25)%Q) /\
  (~ LowEnd screenWidth dpr -> 1920 < screenWidth -> (n == 75)%Q) /\
  (~ LowEnd screenWidth dpr -> screenWidth <= 1920 -> (n == 50)%Q).

(* ===================================================================== *)
(** * Views and invariants of the world                                   *)
(* ===================================================================== *)

(** [m] never throws. *)
Definition nothrow {A} (m : M A) : Prop :=
  forall w, exists a, fst (m w) = Normal a.

(** Whatever its outcome, [m] takes a world to an [R]-related one. *)
Definition steps {A} (R : World -> World -> Prop) (m : M A) : Prop :=
  forall w, R w (snd (m w)).

(** [m] leaves the view [V] of the world as it was. *)
Definition keeps {A T} (V : World -> T) (m : M A) : Prop :=
  steps (fun w w' => V w' = V w) m.

(** [m] keeps the property [P] of the world. *)
Definition preserves {A} (P : World -> Prop) (m : M A) : Prop :=
  steps (fun w w' => P w -> P w') m.

(** What the methods that only decorate the page leave alone: everything
    but the element cache, the particle container, the random source, the
    console and the page outside the typing target. *)
Definition V_core (w : World) :=
  (isInitialized (pm w), isDestroyed (pm w), activeAnimations (pm w),
   typingController (pm w), handlers (pm w), scrollTicking (pm w),
   resizeTicking (pm w), config (pm w),
   (win w, platform w, clock w, nextId w, timers w, frames w),
   (abortedSignals w, abortListeners w, loops w, microtasks w, alerts w,
    typingText (dom w))).

(** Timers of the typing cycle: its initial delay and its pauses. *)
Definition isCycleCb (cb : TimerCb) : bool :=
  match cb with
  | TStart _ | TPause _ _ => true
  | _ => false
  end.

Definition cycleTimers (w : World) : list Timer :=
  filter (fun tm => isCycleCb (tm_cb tm) = true) (timers w).

(** The flags, handlers and window listeners of the controller. *)
Definition fview (w : World) :=
  (isInitialized (pm w), isDestroyed (pm w), activeAnimations (pm w),
   handlers (pm w), config (pm w),
   scrollListeners (win w), resizeListeners (win w), abortedSignals w).

(** The state of the typing cycle, on top of [fview]: typing controller,
    abort listeners, suspended reveals, microtasks, cycle timers and the
    typed text. *)
Definition sview (w : World) :=
  (fview w, typingController (pm w), abortListeners w, loops w, microtasks w,
   cycleTimers w, typingText (dom w)).

(** Scroll coalescing: the ticking flag and the requested frames. *)
Definition kview (w : World) := (scrollTicking (pm w), frames w).

(** What the cache and the controller know of [bgAnimation]. *)
Definition wview (w : World) :=
  (elementCache (pm w) !! "bgAnimation"%string, particleContainer (pm w)).

(** All three, and the two a scroll or resize event leaves alone. *)
Definition qview (w : World) := (sview w, kview w, wview w).
Definition hview (w : World) := (sview w, wview w).

(** The cache and the particle container know [bgAnimation] only. *)
Definition WF (w : World) : Prop :=
  (elementCache (pm w) !! "bgAnimation"%string = None \/
   elementCache (pm w) !! "bgAnimation"%string = Some ElBgAnimation) /\
  (particleContainer (pm w) = None \/
   particleContainer (pm w) = Some ElBgAnimation).

(** Every suspended reveal has its abort listener registered on its own
    controller, which is not aborted; between callbacks no microtask is
    left. *)
Definition LoopsOK (w : World) : Prop :=
  microtasks w = [] /\
  Forall (fun l => (lp_ctrl l, lp_await l) ∈ abortListeners w /\
                   lp_ctrl l ∉ abortedSignals w) (loops w).

(** The scroll-ticking flag says whether a scroll frame is requested. *)
Definition scrollFrames (w : World) : nat :=
  length (filter (fun cb => cb = FScroll) (frames w)).

Definition TickOK (w : World) : Prop :=
  scrollFrames w = if scrollTicking (pm w) then 1%nat else 0%nat.

(** Listeners on the window that are bound methods of the controller. *)
Definition isForeign (cb : Callback) : bool :=
  match cb with Foreign _ => true | _ => false end.

Definition controllerListeners (ls : list Listener) : list Listener :=
  filter (fun l => isForeign (l_callback l) = false) ls.

Definition passiveListener (cb : Callback) : Listener :=
  {| l_callback := cb; l_capture := false; l_passive := true |}.

(** An initialized controller has exactly its two handlers on the window,
    one that is not initialized has none. *)
Definition ListenersOK (w : World) : Prop :=
  if isInitialized (pm w) then
    exists hs hr,
      handlers (pm w) = {| h_scroll := Some hs; h_resize := Some hr |} /\
      isForeign hs = false /\ isForeign hr = false /\
      controllerListeners (scrollListeners (win w)) = [passiveListener hs] /\
      controllerListeners (resizeListeners (win w)) = [passiveListener hr]
  else
    controllerListeners (scrollListeners (win w)) = [] /\
    controllerListeners (resizeListeners (win w)) = [].

(** What holds after every event. *)
Definition Good (w : World) : Prop :=
  WF w /\ LoopsOK w /\ TickOK w /\ ListenersOK w.

(** The typing cycle is sequential: as long as the tab-visibility handler
    has not touched the destroyed flag, a destroyed controller has no reveal
    in flight, and a live one has at most one continuation of its cycle (a
    reveal in flight or a cycle timer), none before its first [init]. *)
Definition Sequential (w : World) : Prop :=
  (isDestroyed (pm w) = true -> loops w = []) /\
  (isDestroyed (pm w) = false ->
   (length (loops w) + length (cycleTimers w) <= 1)%nat /\
   (isInitialized (pm w) = false -> loops w = [] /\ cycleTimers w = [])) /\
  (size (activeAnimations (pm w)) <= 1)%nat /\
  (isInitialized (pm w) = false -> activeAnimations (pm w) = ∅) /\
  Forall (fun l => typingController (pm w) = Some (lp_ctrl l)) (loops w).

(** Cycle timers whose callback would start a reveal if it fired now. *)
Definition runnableCb (active : gset Z) (cb : TimerCb) : bool :=
  match cb with
  | TStart a | TPause a _ => bool_decide (a ∈ active)
  | _ => false
  end.

Definition runnableTimers (w : World) : list Timer :=
  if isDestroyed (pm w) then []
  else filter (fun tm => runnableCb (activeAnimations (pm w)) (tm_cb tm) = true)
         (timers w).


Definition isVisibility (ev : Event) : bool :=
  match ev with EvVisibility _ => true | _ => false end.
Definition isInit (ev : Event) : bool :=
  match ev with EvInit => true | _ => false end.

(** A window on which the controller has registered nothing yet. *)
Definition pristine (v : Window) : Prop :=
  controllerListeners (scrollListeners v) = [] /\
  controllerListeners (resizeListeners v) = [].

(** [removeEventListener] with the handler a field holds, if any. *)
Definition removeHandler (h : option Callback) (ls : list Listener) : list Listener :=
  match h with
  | Some f => removeListener f ls
  | None => ls
  end.

(** The world [destroy] leaves, given the world [wa] its abort step left:
    flags set, animation set and cache emptied, handlers removed from the
    window, two lines logged. *)
Definition destroyed (w wa : World) : World :=
  {| pm := {| isInitialized := false;
              isDestroyed := true;
              activeAnimations := ∅;
              typingController := None;
              particleContainer := particleContainer (pm w);
              elementCache := ∅;
              handlers := handlers (pm w);
              scrollTicking := scrollTicking (pm w);
              resizeTicking := resizeTicking (pm w);
              config := config (pm w) |};
     dom := dom w;
     win := mkWindow (innerWidth (win w)) (innerHeight (win w))
              (devicePixelRatio (win w)) (scrollY (win w))
              (removeHandler (h_scroll (handlers (pm w))) (scrollListeners (win w)))
              (removeHandler (h_resize (handlers (pm w))) (resizeListeners (win w)));
     platform := platform w;
     clock := clock w;
     rngPos := rngPos w;
     nextId := nextId w;
     timers := timers wa;
     frames := frames w;
     abortedSignals := abortedSignals wa;
     abortListeners := abortListeners w;
     loops := loops w;
     microtasks := microtasks wa;
     console := (console w ++ [Log "Destroying Portfolio..."]) ++ [Log "Portfolio destroyed"];
     alerts := alerts w |}.

(** What running abort listeners leaves alone, and what [abort] does. *)
Definition aview (w : World) :=
  (pm w, dom w, win w, platform w, clock w, rngPos w, nextId w, frames w,
   abortedSignals w, abortListeners w, loops w, console w, alerts w).
Definition bview (w : World) :=
  (pm w, dom w, win w, platform w, clock w, rngPos w, nextId w, frames w,
   abortListeners w, loops w, console w, alerts w).

(** What [init] never touches. *)
Definition uview (w : World) :=
  (isDestroyed (pm w), config (pm w), abortedSignals w, typingController (pm w),
   abortListeners w, loops w, microtasks w, typingText (dom w)).

(** A timer of a typing cycle started at time [now] was appended, or the
    page has no typing target and nothing was. *)
Definition CycleStarted (w w' : World) : Prop :=
  (activeAnimations (pm w') = activeAnimations (pm w) /\
   cycleTimers w' = cycleTimers w) \/
  (activeAnimations (pm w') = {[ clock w ]} ∪ activeAnimations (pm w) /\
   exists t d, cycleTimers w' =
     cycleTimers w ++ [{| tm_id := t; tm_delay := d; tm_cb := TStart (clock w) |}]).

(** What the setup sequence of [init] does to the state the theorems are
    about: two fresh bound handlers registered as passive listeners, the
    initialized flag set, possibly a typing cycle started. *)
Definition InitRel (w w' : World) : Prop :=
  uview w' = uview w /\ kview w' = kview w /\
  isInitialized (pm w') = true /\
  (exists n n',
     handlers (pm w') = {| h_scroll := Some (BoundHandleScroll n);
                           h_resize := Some (BoundHandleResize n') |} /\
     scrollListeners (win w') =
       addListener (passiveListener (BoundHandleScroll n)) (scrollListeners (win w)) /\
     resizeListeners (win w') =
       addListener (passiveListener (BoundHandleResize n')) (resizeListeners (win w))) /\
  CycleStarted w w'.

(* ===================================================================== *)
(** * Vocabulary of the event-level statements                            *)
(* ===================================================================== *)

(** The world once timer [id] has been taken off the timer list. *)
Definition fired (id : nat) (w : World) : World :=
  upd_timers (filter (fun tm => tm_id tm <> id)) w.

(** Events that are no call of [init] or [destroy], no visibility change
    and no timer. *)
Definition isQuiet (ev : Event) : bool :=
  match ev with
  | EvInit | EvDestroy | EvVisibility _ | EvTimer _ => false
  | _ => true
  end.

(** Event sequences without a call of [init], without a visibility change. *)
Definition noInit (evs : list Event) : bool :=
  forallb (fun ev => negb (isInit ev)) evs.
Definition noVisibility (evs : list Event) : bool :=
  forallb (fun ev => negb (isVisibility ev)) evs.


(** Only [init], [destroy] and the visibility listener write the flags,
    the animation set, the handlers or the window's listeners. *)
Definition isLifecycle (ev : Event) : bool :=
  match ev with
  | EvInit | EvDestroy | EvVisibility _ => true
  | _ => false
  end.

(** The warning of [getElement] for a missing element. *)
Definition notFound (id : string) : ConsoleEntry :=
  Warn (String.append "Element with id '" (String.append id "' not found")).

(** The first [init] followed by [n] pairs of [destroy] and [init]. *)
Definition reinits (n : nat) : list Event :=
  EvInit :: concat (replicate n [EvDestroy; EvInit]).

(** After any number of destroy-init pairs the controller is initialized
    with the two handlers its last [init] bound. *)
Definition Registered (w : World) : Prop :=
  exists k k',
    handlers (pm w) = {| h_scroll := Some (BoundHandleScroll k);
                         h_resize := Some (BoundHandleResize k') |} /\
    controllerListeners (scrollListeners (win w)) =
      [passiveListener (BoundHandleScroll k)] /\
    controllerListeners (resizeListeners (win w)) =
      [passiveListener (BoundHandleResize k')].

(** How the methods treat timers and reveals, [clearTimeout] and the
    settling of a promise apart: no microtask is posted, identities only
    grow, timers stay and new ones carry new identities, reveals stay and a
    new one waits for a new timer of its own. *)
Definition Extends (w w' : World) : Prop :=
  microtasks w' = microtasks w /\
  (nextId w <= nextId w')%nat /\
  (forall tm, tm ∈ timers w -> tm ∈ timers w') /\
  (forall tm, tm ∈ timers w' ->
     tm ∈ timers w \/ (nextId w <= tm_id tm < nextId w')%nat) /\
  exists new,
    loops w' = loops w ++ new /\
    Forall (fun l =>
      (nextId w <= lp_await l < nextId w')%nat /\
      (exists tm, tm ∈ timers w' /\ tm_id tm = lp_await l) /\
      (forall tm, tm ∈ timers w' -> tm_id tm = lp_await l ->
         tm ∈ timers w \/ tm_cb tm = TChar)) new.

(** Timer identities are below the next fresh one, and every suspended
    reveal waits for a pending timer that resolves its promise. *)
Definition Timed (w : World) : Prop :=
  (forall tm, tm ∈ timers w -> (tm_id tm < nextId w)%nat) /\
  Forall (fun l =>
    (lp_await l < nextId w)%nat /\
    (exists tm, tm ∈ timers w /\ tm_id tm = lp_await l) /\
    (forall tm, tm ∈ timers w -> tm_id tm = lp_await l -> tm_cb tm = TChar))
    (loops w).

(** Cycle timers whose identifier is in the animation set. *)
Definition activeTimers (w : World) : list Timer :=
  filter (fun tm => runnableCb (activeAnimations (pm w)) (tm_cb tm) = true) (timers w).

(** No pending cycle timer carries the present time as its identifier. *)
Definition freshClock (w : World) : bool :=
  forallb (fun tm => negb (runnableCb {[ clock w ]} (tm_cb tm))) (timers w).

(** Event sequences in which every [init] that sets up a cycle finds the
    clock fresh. *)
Fixpoint paced (evs : list Event) (w : World) : bool :=
  match evs with
  | [] => true
  | ev :: evs' =>
      (if isInit ev && negb (isInitialized (pm w)) then freshClock w else true)
      && paced evs' (step ev w)
  end.

(** At most one continuation of the active cycle, whatever the destroyed
    flag says. *)
Definition OneCycle (w : World) : Prop :=
  (size (activeAnimations (pm w)) <= 1)%nat /\
  (isInitialized (pm w) = false -> activeAnimations (pm w) = ∅ /\ loops w = []) /\
  (length (loops w) + length (activeTimers w) <= 1)%nat /\
  Forall (fun l => typingController (pm w) = Some (lp_ctrl l)) (loops w).

(** No continuation of the active cycle is left. *)
Definition Dormant (w : World) : Prop :=
  loops w = [] /\ activeTimers w = [] /\ microtasks w = [].

(* ===================================================================== *)
(** * A small page to run the model on                                    *)
(* ===================================================================== *)

(** A page with every element the script looks up but the contact form. *)
Definition demoDom : Dom :=
  {| bgAnimation := Some []; typingText := Some EmptyString; navbar := Some false;
     contactForm := None;
     fadeIns := [ {| offsetTop := 100; visible := false |} ];
     anchors := [O]; projectCards := [O]; skillCards := [(true, O)] |}.
Definition demoWindow : Window := mkWindow 1280 800 (Some 1%Q) 0 [] [].
Definition demoPlatform : Platform :=
  {| hasAOS := false; aosInitThrows := false; hasPerformanceObserver := false;
     perfObserveThrows := false; random := fun _ => (1 # 2)%Q |}.
Definition demoWorld : World := initialWorld demoDom demoWindow demoPlatform 1000.

(** The reveal of the first character, suspended on timer 4. *)
Definition demoLoop : Loop :=
  {| lp_await := 4; lp_ctrl := 3; lp_text := "Junior Front-end Developer";
     lp_i := 0; lp_speed := 150; lp_anim := 1000; lp_index := 0 |}.

(* ===================================================================== *)
(** * Vocabulary of the further properties                               *)
(* ===================================================================== *)

(** The ranges of the four style values of a particle, ends included. *)
Definition inRange (p : Particle) : Prop :=
  (0 <= p_left p <= 100)%Q /\ (0 <= p_top p <= 100)%Q /\
  (0 <= p_delay p <= 6)%Q /\ (3 <= p_duration p <= 6)%Q.

(** The submit button of the page, if the form and the button exist. *)
Definition button (w : World) : option Button :=
  match contactForm (dom w) with
  | Some fm => submitBtn fm
  | None => None
  end.

(** The three looks of the button after a valid submission. *)
Definition pendingButton : Button :=
  {| textContent := "Mengirim..."; disabled := true;
     background := "linear-gradient(45deg, #888, #666)" |}.

Definition successButton : Button :=
  {| textContent := "Terkirim!"; disabled := true;
     background := "linear-gradient(45deg, #00ff88, #0088ff)" |}.

Definition restoredButton (originalText : string) : Button :=
  {| textContent := originalText; disabled := false; background := "" |}.

(** A page with a filled-in contact form. *)
Definition contactPage : Dom :=
  {| bgAnimation := None; typingText := None; navbar := None;
     contactForm := Some
       {| fields := contactData "Hasan" "hasan@example.com" "Halo";
          defaults := contactData "" "" "";
          submitBtn := Some {| textContent := "Kirim Pesan"; disabled := false;
                               background := "" |};
          submitListeners := 0 |};
     fadeIns := []; anchors := []; projectCards := []; skillCards := [] |}.

(** The first [k] characters of [text]. *)
Definition prefix (k : nat) (text : string) : string := String.substring 0 k text.

(** The typing target shows what the suspended reveal [l] has written: the
    characters of its text up to index [lp_i l]; the text is the one of the
    cycle's current index, and the cycle is a live one. *)
Definition Shows (w : World) (l : Loop) : Prop :=
  typingText (dom w) = Some (prefix (S (lp_i l)) (lp_text l)) /\
  (lp_i l < String.length (lp_text l))%nat /\
  lp_text l = nth (lp_index l) texts EmptyString /\
  lp_anim l ∈ activeAnimations (pm w).

Definition Showing (w : World) : Prop := Forall (Shows w) (loops w).

(** The reveal that follows [l] when its wait ends on timer [t]. *)
Definition nextReveal (t : nat) (l : Loop) : Loop :=
  {| lp_await := t; lp_ctrl := lp_ctrl l; lp_text := lp_text l; lp_i := S (lp_i l);
     lp_speed := lp_speed l; lp_anim := lp_anim l; lp_index := lp_index l |}.

(** The world in which the continuation of the only reveal [l] runs. *)
Definition resumed (l : Loop) (w : World) : World :=
  upd_loops (filter (fun l' => lp_await l' <> lp_await l))
    (upd_microtasks (fun _ => []) (fired (lp_await l) w)).

(** The listeners [init] registers on the page itself: the click listeners
    of the anchors, the hover pairs of the cards, the submit listeners of
    the form. *)
Definition PageView (w : World) :=
  (anchors (dom w), projectCards (dom w), skillCards (dom w),
   submitListeners <$> contactForm (dom w)).

(** One more of each, as [initSmoothScrolling], [initCardEffects] and
    [initContactForm] add them. *)
Definition decorate
    (pv : list nat * list nat * list (bool * nat) * option nat) :=
  let '(a, p, s, f) := pv in
  (map S a, map S p,
   map (fun c : bool * nat => if fst c then (fst c, S (snd c)) else c) s,
   S <$> f).

(** The calls of [init] in a history that find the controller not
    initialized. *)
Fixpoint freshInits (evs : list Event) (w : World) : nat :=
  match evs with
  | [] => O
  | ev :: evs' =>
      ((if isInit ev && negb (isInitialized (pm w)) then 1 else 0) +
       freshInits evs' (step ev w))%nat
  end.

Definition PageKept (w w' : World) : Prop := PageView w' = PageView w.

(** [m] ends normally and changes the listeners on the page by [f]. *)
Definition acts {A} (f : _ -> _) (m : M A) : Prop :=
  forall w, (exists a, fst (m w) = Normal a) /\ PageView (snd (m w)) = f (PageView w).

(** The cache holds, under an id, the element of that id. *)
Definition CacheOK (w : World) : Prop :=
  forall id e, elementCache (pm w) !! id = Some e -> elemOfId id = Some e.

Definition CacheKept (w w' : World) : Prop := CacheOK w -> CacheOK w'.

(** The handler kept for scroll events is a bound [handleScroll], the one
    kept for resize events a bound [handleResize]. *)
Definition HandlersOK (w : World) : Prop :=
  (forall hs, h_scroll (handlers (pm w)) = Some hs ->
     exists n, hs = BoundHandleScroll n) /\
  (forall hr, h_resize (handlers (pm w)) = Some hr ->
     exists n, hr = BoundHandleResize n).

Definition HandlersKept (w w' : World) : Prop := HandlersOK w -> HandlersOK w'.

(** A fade-in element after a pass of [revealOnScroll] at scroll position
    [y] in a window of height [h]. *)
Definition revealAt (y h offset : Q) (f : FadeIn) : FadeIn :=
  if visible f then f
  else if Qlt_bool (offsetTop f - y) (h - offset)
       then {| offsetTop := offsetTop f; visible := true |}
       else f.

(** The navbar and the fade-in elements after a pass of the scroll
    frame. *)
Definition scrollPass (v : Window) (cfg : Cfg.Scroll)
    (page : option bool * list FadeIn) : option bool * list FadeIn :=
  ((fun _ => Qlt_bool (Cfg.navbarThreshold cfg) (scrollY v)) <$> fst page,
   map (revealAt (scrollY v) (innerHeight v) (Cfg.revealOffset cfg)) (snd page)).

(** What the frame callbacks read and what a scroll pass writes. *)
Definition ScrollView (w : World) :=
  (win w, config (pm w), microtasks w, isDestroyed (pm w)).

Definition scrolled (w : World) := (navbar (dom w), fadeIns (dom w)).

(** The resize frame leaves all of that alone. *)
Definition FrameKept (w w' : World) : Prop :=
  scrolled w' = scrolled w /\ ScrollView w' = ScrollView w.

(** The fade-in elements of [w'] are those of [w], each where it was, and
    visible if it was. *)
Definition Revealed (w w' : World) : Prop :=
  Forall2 (fun f f' => offsetTop f' = offsetTop f /\
                       (visible f = true -> visible f' = true))
    (fadeIns (dom w)) (fadeIns (dom w')).

(** A batch of particles for the window of [w]: as many as the count
    computed from its width and pixel ratio, each in range if the random
    source is. *)
Definition Batch (w : World) (fragment : list Particle) : Prop :=
  length fragment =
    iterations (particleCount (Cfg.particles (config (pm w)))
                  (innerWidth (win w)) (devicePixelRatio (win w))) /\
  ((forall k, 0 <= random (platform w) k < 1)%Q -> Forall inRange fragment).

(** What the frame callbacks read of the world when they rebuild the
    particles. *)
Definition ResizeView (w : World) :=
  (win w, config (pm w), platform w, microtasks w).

(** The scroll frame leaves the particles and their container alone. *)
Definition BgKept (w w' : World) : Prop :=
  bgAnimation (dom w') = bgAnimation (dom w) /\
  particleContainer (pm w') = particleContainer (pm w) /\
  platform w' = platform w /\ resizeTicking (pm w') = resizeTicking (pm w) /\
  wview w' = wview w.

(** Aborted signals and the typing controller carry identities that have
    been handed out. *)
Definition SignalsOK (w : World) : Prop :=
  (forall c, c ∈ abortedSignals w -> (c < nextId w)%nat) /\
  (forall c, typingController (pm w) = Some c -> (c < nextId w)%nat).

(** How the callbacks treat signals: identities only grow, the typing
    controller stays or is a new one, and a signal is aborted only if it was
    or is the typing controller's or a new one's. *)
Definition Sig (w w' : World) : Prop :=
  (nextId w <= nextId w')%nat /\
  (forall c, typingController (pm w') = Some c ->
     typingController (pm w) = Some c \/ (nextId w <= c < nextId w')%nat) /\
  (forall c, c ∈ abortedSignals w' ->
     c ∈ abortedSignals w \/ typingController (pm w) = Some c \/
     (nextId w <= c < nextId w')%nat).

(** The reveal that [runCycle] leaves suspended after the first character
    of the text at [currentIndex]. *)
Definition firstReveal (animationId : Z) (currentIndex : nat) (w : World) : Loop :=
  {| lp_await := S (nextId w); lp_ctrl := nextId w;
     lp_text := nth currentIndex texts EmptyString; lp_i := 0;
     lp_speed := Cfg.speed (Cfg.typing (config (pm w)));
     lp_anim := animationId; lp_index := currentIndex |}.

(** What the start of a cycle reads and writes. *)
Definition TypingView (w : World) :=
  (timers w, nextId w, activeAnimations (pm w), clock w, Cfg.typing (config (pm w))).

(** [initTypingAnimation] on a page with a typing target. *)
Definition startCycle (tv : list Timer * nat * gset Z * Z * Cfg.Typing) :=
  let '(ts, n, act, clk, cfg) := tv in
  (ts ++ [{| tm_id := n; tm_delay := Cfg.initialDelay cfg; tm_cb := TStart clk |}],
   S n, {[ clk ]} ∪ act, clk, cfg).

(** [m], run on a page with a typing target, ends normally, changes the
    typing view by [f] and leaves the target on the page. *)
Definition actsT {A} (f : _ -> _) (m : M A) : Prop :=
  forall w, typingText (dom w) <> None ->
    (exists a, fst (m w) = Normal a) /\
    TypingView (snd (m w)) = f (TypingView w) /\
    typingText (dom (snd (m w))) <> None.

Definition TargetKept (w w' : World) : Prop :=
  isNull (typingText (dom w')) = isNull (typingText (dom w)).

(** Every cached element is on the page. *)
Definition CacheLive (w : World) : Prop :=
  forall id e, elementCache (pm w) !! id = Some e -> present (dom w) e = true.

(** How the callbacks treat the page and the cache: no element comes or
    goes, and what enters the cache is on the page. *)
Definition Caching (w w' : World) : Prop :=
  (forall e, present (dom w') e = present (dom w) e) /\
  (forall id e, elementCache (pm w') !! id = Some e ->
     elementCache (pm w) !! id = Some e \/ present (dom w') e = true).

(** A console entry that is not an error report, or is the one of
    [initAOS]. *)
Definition expectedEntry (c : ConsoleEntry) : bool :=
  match c with
  | ErrorLog msg _ => String.eqb msg "Failed to initialize AOS:"
  | _ => true
  end.

(** The timer that the [catch] clause of the submit handler sets. *)
Definition isErrorRevert (cb : TimerCb) : bool :=
  match cb with TSubmitErrorRevert _ => true | _ => false end.

(** No error was reported but by [initAOS], and the submit handler's
    [catch] clause has left no timer. *)
Definition Quiet (w : World) : Prop :=
  forallb expectedEntry (console w) = true /\
  forallb (fun tm => negb (isErrorRevert (tm_cb tm))) (timers w) = true.

Definition QuietKept (w w' : World) : Prop := Quiet w -> Quiet w'.

(* ===================================================================== *)
(** * Proofs                                                              *)
(* ===================================================================== *)

(* ===================================================================== *)
(** * The regex matcher decides the language                              *)
(* ===================================================================== *)

Section RegexFacts.
Import Regex.

Lemma lang_cat r q s :
  lang (RCat r q) s <-> exists u v, s = u ++ v /\ lang r u /\ lang q v.
Proof.
  split.
  - inversion 1; subst. eauto.
  - intros (u & v & -> & Hu & Hv). constructor; assumption.
Qed.

Lemma lang_alt r q s : lang (RAlt r q) s <-> lang r s \/ lang q s.
Proof.
  split.
  - inversion 1; subst; auto.
  - intros [H | H]; [apply LAltL | apply LAltR]; exact H.
Qed.

Lemma lang_set p s : lang (RSet p) s <-> exists c, s = [c] /\ p c = true.
Proof.
  split.
  - inversion 1; subst. eauto.
  - intros (c & -> & Hc). constructor; exact Hc.
Qed.

Lemma nullable_lang r : nullable r = true <-> lang r [].
Proof.
  induction r as [| |p|r IHr s IHs|r IHr s IHs|r IHr]; simpl.
  - split; [discriminate | inversion 1].
  - split; [constructor | reflexivity].
  - split; [discriminate | inversion 1].
  - rewrite andb_true_iff, IHr, IHs, lang_cat. split.
    + intros [Hr Hs]. exists [], []. auto.
    + intros (u & v & Heq & Hu & Hv). symmetry in Heq.
      apply app_eq_nil in Heq as [-> ->]. auto.
  - rewrite orb_true_iff, IHr, IHs, lang_alt. reflexivity.
  - split; [constructor | reflexivity].
Qed.

(** A non-empty word of [r*] starts with a non-empty word of [r]. *)
Lemma lang_star_cons r c s :
  lang (RStar r) (c :: s) ->
  exists u v, s = u ++ v /\ lang r (c :: u) /\ lang (RStar r) v.
Proof.
  intros H. remember (RStar r) as e eqn:He. remember (c :: s) as w eqn:Hw.
  revert c s Hw.
  induction H as [| | | | | |r' u v Hu _ Hv IHv]; intros a t Hw; try discriminate.
  injection He as ->.
  destruct u as [|a' u]; simpl in Hw.
  - apply IHv; [reflexivity | exact Hw].
  - injection Hw as -> <-. exists u, v. auto.
Qed.

Lemma deriv_lang r : forall c s, lang (deriv c r) s <-> lang r (c :: s).
Proof.
  induction r as [| |p|r IHr q IHq|r IHr q IHq|r IHr]; intros c s; simpl.
  - split; inversion 1.
  - split; inversion 1.
  - rewrite lang_set. destruct (p c) eqn:Hp; split.
    + inversion 1; subst. eauto.
    + intros (c' & Heq & _). injection Heq as -> ->. constructor.
    + inversion 1.
    + intros (c' & Heq & Hc). injection Heq as -> ->. congruence.
  - assert (Hcat : lang (RCat (deriv c r) q) s <->
                   exists u v, s = u ++ v /\ lang r (c :: u) /\ lang q v).
    { rewrite lang_cat. split; intros (u & v & -> & Hu & Hv); exists u, v;
        (split; [reflexivity | split; [apply IHr; exact Hu | exact Hv]]). }
    assert (Hsplit : lang (RCat r q) (c :: s) <->
              (exists u v, s = u ++ v /\ lang r (c :: u) /\ lang q v) \/
              (lang r [] /\ lang q (c :: s))).
    { rewrite lang_cat. split.
      - intros (u & v & Heq & Hu & Hv). destruct u as [|c' u]; simpl in Heq.
        + right. subst v. auto.
        + injection Heq as -> ->. left. eauto.
      - intros [(u & v & -> & Hu & Hv) | [Hr Hq]].
        + exists (c :: u), v. auto.
        + exists [], (c :: s). auto. }
    rewrite Hsplit. destruct (nullable r) eqn:Hn.
    + rewrite lang_alt, Hcat, IHq. apply nullable_lang in Hn. tauto.
    + rewrite Hcat. split; [tauto |]. intros [H | [H _]]; [exact H |].
      apply nullable_lang in H. congruence.
  - rewrite !lang_alt, IHr, IHq. reflexivity.
  - rewrite lang_cat. split.
    + intros (u & v & -> & Hu & Hv). apply IHr in Hu.
      apply (LStarApp _ (c :: u) v Hu Hv).
    + intros H. apply lang_star_cons in H as (u & v & -> & Hu & Hv).
      exists u, v. split; [reflexivity | split; [apply IHr; exact Hu | exact Hv]].
Qed.

Lemma test_lang s : forall r, test r s = true <-> lang r s.
Proof.
  induction s as [|c s IH]; intros r; simpl.
  - apply nullable_lang.
  - rewrite IH. apply deriv_lang.
Qed.

Lemma lang_star_set p s :
  lang (RStar (RSet p)) s <-> Forall (fun c => p c = true) s.
Proof.
  split.
  - induction s as [|c s IH]; intros H; [constructor |].
    apply lang_star_cons in H as (u & v & -> & Hu & Hv).
    apply lang_set in Hu as (c' & Heq & Hc). injection Heq as -> ->.
    constructor; [exact Hc | apply IH; exact Hv].
  - induction 1 as [|c s Hc _ IH]; [constructor |].
    apply (LStarApp _ [c] s); [constructor; exact Hc | exact IH].
Qed.

Lemma lang_plus_set p s :
  lang (RPlus (RSet p)) s <-> s <> [] /\ Forall (fun c => p c = true) s.
Proof.
  unfold RPlus. rewrite lang_cat. split.
  - intros (u & v & -> & Hu & Hv).
    apply lang_set in Hu as (c & -> & Hc). apply lang_star_set in Hv.
    split; [discriminate | constructor; assumption].
  - intros [Hne Hall]. destruct s as [|c s]; [congruence |].
    inversion Hall; subst. exists [c], s.
    split; [reflexivity | split; [constructor; assumption | apply lang_star_set; assumption]].
Qed.

Lemma lang_chr c s : lang (RChr c) s <-> s = [c].
Proof.
  unfold RChr. rewrite lang_set. split.
  - intros (c' & -> & Hc). apply N.eqb_eq in Hc. congruence.
  - intros ->. exists c. split; [reflexivity | apply N.eqb_refl].
Qed.

Lemma isWhiteSpace_Blank c : JS.isWhiteSpace c = true <-> Blank c.
Proof.
  unfold JS.isWhiteSpace, Blank, whiteSpace. cbn [In].
  rewrite !orb_true_iff, !andb_true_iff, !N.leb_le, !N.eqb_eq. lia.
Qed.

Lemma trimStart_split s :
  exists pre, s = pre ++ JS.trimStart s /\ Forall Blank pre /\
    match JS.trimStart s with [] => True | c :: _ => ~ Blank c end.
Proof.
  induction s as [|c s IH]; cbn [JS.trimStart].
  - exists []. repeat split. constructor.
  - destruct (JS.isWhiteSpace c) eqn:Hc.
    + destruct IH as (pre & E & Hpre & Hhead). exists (c :: pre).
      split; [cbn; congruence |]. split; [| exact Hhead].
      constructor; [apply isWhiteSpace_Blank, Hc | exact Hpre].
    + exists []. split; [reflexivity |]. split; [constructor |].
      intros Hb. apply isWhiteSpace_Blank in Hb. congruence.
Qed.

Lemma trimStart_blank s : Forall Blank s -> JS.trimStart s = [].
Proof.
  induction 1 as [|c s Hc _ IH]; [reflexivity |]. cbn.
  apply isWhiteSpace_Blank in Hc. rewrite Hc. exact IH.
Qed.

Lemma trimStart_app pre s : Forall Blank pre -> JS.trimStart (pre ++ s) = JS.trimStart s.
Proof.
  induction 1 as [|c pre Hc _ IH]; [reflexivity |]. cbn.
  apply isWhiteSpace_Blank in Hc. rewrite Hc. exact IH.
Qed.

Lemma trimStart_head c s : ~ Blank c -> JS.trimStart (c :: s) = c :: s.
Proof.
  intros Hc. cbn. destruct (JS.isWhiteSpace c) eqn:E; [| reflexivity].
  apply isWhiteSpace_Blank in E. contradiction.
Qed.

(** [trim] removes white space at both ends and nothing else. *)
Lemma trim_split s :
  exists pre post, s = pre ++ JS.trim s ++ post /\ Forall Blank pre /\ Forall Blank post.
Proof.
  destruct (trimStart_split s) as (pre & E & Hpre & _).
  destruct (trimStart_split (rev (JS.trimStart s))) as (tsop & E' & Hpost & _).
  exists pre, (rev tsop). unfold JS.trim, JS.trimEnd.
  split; [| split; [exact Hpre | apply Forall_rev, Hpost]].
  rewrite E at 1. f_equal. rewrite <- rev_app_distr, <- E', rev_involutive. reflexivity.
Qed.

Lemma trim_core pre s post :
  Forall Blank pre -> Forall Blank post ->
  (exists c s', s = c :: s' /\ ~ Blank c) ->
  (exists c s', s = s' ++ [c] /\ ~ Blank c) ->
  JS.trim (pre ++ s ++ post) = s.
Proof.
  intros Hpre Hpost (c & s' & -> & Hc) (c' & s'' & E & Hc').
  unfold JS.trim, JS.trimEnd. rewrite trimStart_app by exact Hpre.
  change ((c :: s') ++ post) with (c :: (s' ++ post)). rewrite trimStart_head by exact Hc.
  change (c :: s' ++ post) with ((c :: s') ++ post). rewrite E.
  rewrite rev_app_distr, trimStart_app by (apply Forall_rev, Hpost).
  rewrite rev_app_distr. cbn [rev app]. rewrite trimStart_head by exact Hc'.
  change (c' :: rev s'') with (rev [c'] ++ rev s''). rewrite <- rev_app_distr.
  apply rev_involutive.
Qed.

Lemma trim_nonempty s : JS.trim s <> [] <-> exists c, In c s /\ ~ Blank c.
Proof.
  split.
  - intros Hne. destruct (trim_split s) as (pre & post & E & Hpre & Hpost).
    assert (Hex : Exists (fun c => ~ Blank c) (JS.trim s)).
    { unfold JS.trim, JS.trimEnd in *.
      destruct (trimStart_split (rev (JS.trimStart s))) as (p & Ep & _ & Hhead).
      destruct (JS.trimStart (rev (JS.trimStart s))) as [|c r] eqn:Et; [contradiction Hne; reflexivity |].
      apply Exists_exists. exists c. split; [| exact Hhead].
      apply list_elem_of_In, in_rev. rewrite rev_involutive. left. reflexivity. }
    apply Exists_exists in Hex as (c & Hin & Hc). exists c. split; [| exact Hc].
    rewrite E. apply in_or_app. right. apply in_or_app. left. apply list_elem_of_In, Hin.
  - intros (c & Hin & Hc) Hnil.
    destruct (trim_split s) as (pre & post & E & Hpre & Hpost).
    rewrite Hnil in E. cbn in E. rewrite E in Hin. apply in_app_or in Hin as [Hin | Hin].
    + rewrite Forall_forall in Hpre. apply Hc, Hpre, list_elem_of_In, Hin.
    + rewrite Forall_forall in Hpost. apply Hc, Hpost, list_elem_of_In, Hin.
Qed.

Lemma notSpaceAt_spec c : notSpaceAt c = true <-> ~ Blank c /\ c <> 64%N.
Proof.
  unfold notSpaceAt. rewrite negb_true_iff, orb_false_iff, N.eqb_neq.
  rewrite <- isWhiteSpace_Blank. destruct (JS.isWhiteSpace c); intuition congruence.
Qed.

Lemma notSpaceAt_Forall s :
  Forall (fun c => notSpaceAt c = true) s <-> Forall (fun c => ~ Blank c /\ c <> 64%N) s.
Proof.
  split; intros H; (eapply Forall_impl; [exact H |]); intros c Hc;
    apply notSpaceAt_spec, Hc.
Qed.

Lemma emailRegex_shape s : Regex.lang emailRegex s <-> EmailShape s.
Proof.
  unfold emailRegex, EmailShape. split.
  - intros H.
    apply lang_cat in H as (l & r1 & -> & Hl & H).
    apply lang_cat in H as (a & r2 & -> & Ha & H).
    apply lang_cat in H as (d & r3 & -> & Hd & H).
    apply lang_cat in H as (p & t & -> & Hp & Ht).
    apply lang_chr in Ha as ->. apply lang_chr in Hp as ->.
    apply lang_plus_set in Hl as [? Al], Hd as [? Ad], Ht as [? At].
    apply notSpaceAt_Forall in Al, Ad, At.
    exists l, d, t. auto 10.
  - intros (l & d & t & -> & Hl & Hd & Ht & Al & Ad & At).
    apply notSpaceAt_Forall in Al, Ad, At.
    apply Regex.LCat; [apply lang_plus_set; auto |].
    apply Regex.LCat; [apply lang_chr; reflexivity |].
    apply Regex.LCat; [apply lang_plus_set; auto |].
    apply Regex.LCat; [apply lang_chr; reflexivity | apply lang_plus_set; auto].
Qed.

(** An address of the shape neither starts nor ends with white space. *)
Lemma EmailShape_ends s :
  EmailShape s ->
  (exists c s', s = c :: s' /\ ~ Blank c) /\ (exists c s', s = s' ++ [c] /\ ~ Blank c).
Proof.
  intros (l & d & t & -> & Hl & _ & Ht & Al & _ & At). split.
  - destruct l as [|c l]; [congruence |]. apply Forall_inv in Al as [Hc _].
    exists c, (l ++ [64%N] ++ d ++ [46%N] ++ t). split; [reflexivity | exact Hc].
  - destruct (exists_last Ht) as (t' & c & ->).
    apply Forall_app in At as [_ At]. apply Forall_inv in At as [Hc _].
    exists c, (l ++ [64%N] ++ d ++ [46%N] ++ t'). split; [| exact Hc].
    rewrite <- !app_assoc. reflexivity.
Qed.

Lemma EmailShape_trim e :
  EmailShape (JS.trim e) <-> exists s, TrimmedTo e s /\ EmailShape s.
Proof.
  split.
  - intros H. exists (JS.trim e). split; [apply trim_split | exact H].
  - intros (s & (pre & post & -> & Hpre & Hpost) & H).
    destruct (EmailShape_ends s H) as [Hfirst Hlast].
    rewrite (trim_core pre s post Hpre Hpost Hfirst Hlast). exact H.
Qed.

Lemma FilledIn_Filled formData name : FilledIn formData name <-> Filled formData name.
Proof.
  unfold FilledIn, Filled. split; intros (v & Hv & H); exists v; (split; [exact Hv |]);
    apply trim_nonempty, H.
Qed.

Lemma truthyOpt_trim formData name :
  truthyOpt (JS.trim <$> formData_get formData name) = true <-> FilledIn formData name.
Proof.
  unfold FilledIn. destruct (formData_get formData name) as [v|]; simpl.
  - destruct (JS.trim v) eqn:E; simpl; split.
    + discriminate.
    + intros (v' & [= <-] & Hne). congruence.
    + intros _. exists v. rewrite E. split; [reflexivity | discriminate].
    + reflexivity.
  - split; [discriminate | intros (v & [=] & _)].
Qed.

End RegexFacts.

Lemma particleCount_cases cfg screenWidth dpr :
  particleCount cfg screenWidth dpr =
  if isLowEndDevice screenWidth dpr
  then Qmax (Cfg.minCount cfg) (Cfg.count cfg / 2)
  else if isVeryWide screenWidth
       then Qmin (Cfg.maxCount cfg) (Cfg.count cfg * (3 # 2))
       else Cfg.count cfg.
Proof. reflexivity. Qed.

(** With any configuration whose base count lies between its bounds, the
    computed count lies between them too. *)
Lemma particleCount_bounds cfg screenWidth dpr :
  (0 <= Cfg.count cfg)%Q ->
  (Cfg.minCount cfg <= Cfg.count cfg)%Q ->
  (Cfg.count cfg <= Cfg.maxCount cfg)%Q ->
  (Cfg.minCount cfg <= particleCount cfg screenWidth dpr <= Cfg.maxCount cfg)%Q.
Proof.
  intros H0 Hmin Hmax. rewrite particleCount_cases.
  assert (Hhalf : (Cfg.count cfg / 2 <= Cfg.count cfg)%Q)
    by (unfold Qdiv; change (/ 2)%Q with (1 # 2)%Q; lra).
  assert (Hmore : (Cfg.count cfg <= Cfg.count cfg * (3 # 2))%Q) by lra.
  destruct (isLowEndDevice screenWidth dpr); [| destruct (isVeryWide screenWidth)].
  - split; [apply Q.le_max_l |].
    apply Q.max_lub; [eapply Qle_trans; eassumption | eapply Qle_trans; eassumption].
  - split; [| apply Q.le_min_l].
    apply Q.min_glb; [eapply Qle_trans; eassumption | eapply Qle_trans; eassumption].
  - split; assumption.
Qed.

(** The device test of the code against the specification's words. *)
Lemma Qlt_bool_iff a b : Qlt_bool a b = true <-> (a < b)%Q.
Proof.
  unfold Qlt_bool. rewrite negb_true_iff. split.
  - intros H. apply Qnot_le_lt. intros Hle. apply Qle_bool_iff in Hle. congruence.
  - intros H. destruct (Qle_bool b a) eqn:E; [| reflexivity].
    apply Qle_bool_iff in E. exfalso. apply (Qlt_not_le _ _ H E).
Qed.

Lemma isLowEndDevice_LowEnd screenWidth dpr :
  Qlt_bool (orOne dpr) 2 && (screenWidth <? 1024) = true <-> LowEnd screenWidth dpr.
Proof.
  unfold LowEnd. rewrite andb_true_iff, Qlt_bool_iff, Z.ltb_lt.
  destruct dpr as [ratio|]; cbn [orOne]; [| split; intros [_ H]; split; [exact I | exact H | reflexivity | exact H]].
  destruct (Qeq_bool ratio 0) eqn:E; [| reflexivity].
  apply Qeq_bool_iff in E. rewrite E. split; intros [_ H]; split; (reflexivity || exact H).
Qed.

(* ===================================================================== *)
(** * Rounding keeps integer bounds                                       *)
(* ===================================================================== *)

Section NumberFacts.
Import Number.

Lemma nearestEven_floor x : Qfloor x <= nearestEven x <= Qfloor x + 1.
Proof.
  unfold nearestEven. destruct (Qcompare _ _); [destruct (Z.even _) | |]; lia.
Qed.

Lemma nearestEven_ge k x : (inject_Z k <= x)%Q -> k <= nearestEven x.
Proof.
  intros H. apply Qfloor_resp_le in H. rewrite Qfloor_Z in H.
  pose proof (nearestEven_floor x). lia.
Qed.

Lemma nearestEven_le k x : (x <= inject_Z k)%Q -> nearestEven x <= k.
Proof.
  intros H. destruct (Qlt_le_dec x (inject_Z k)) as [Hlt | Hge].
  - assert (Hf : Qfloor x < k).
    { apply Z.lt_nge. intros Hk. rewrite Zle_Qle in Hk.
      pose proof (Qfloor_le x). apply (Qlt_irrefl x).
      eapply Qlt_le_trans; [exact Hlt |]. eapply Qle_trans; eassumption. }
    pose proof (nearestEven_floor x). lia.
  - assert (Hx : (x == inject_Z k)%Q) by (apply Qle_antisym; assumption).
    unfold nearestEven.
    assert (Hf : Qfloor x = k) by (rewrite Hx; apply Qfloor_Z).
    rewrite Hf.
    assert (Hc : Qcompare (x - inject_Z k) (1 # 2) = Lt).
    { apply Qlt_alt. rewrite Hx. unfold Qminus. rewrite Qplus_opp_r. reflexivity. }
    rewrite Hc. lia.
Qed.

Lemma pow2_pos k : (0 < pow2 k)%Q.
Proof. apply Qpower_0_lt. reflexivity. Qed.

Lemma pow2_nonneg k : 0 <= k -> (pow2 k == inject_Z (2 ^ k))%Q.
Proof. intros H. unfold pow2. rewrite Zpower_Qpower by exact H. reflexivity. Qed.

(** The exponent of a number below [2^53] is at most 52: the unit in the
    last place is then at most 1. *)
Lemma ilog2_small x : (0 < x)%Q -> (x < inject_Z (2 ^ 53))%Q -> ilog2 x <= 52.
Proof.
  intros Hpos Hlt. unfold ilog2.
  destruct (Qle_bool _ x) eqn:Ht.
  - apply Qle_bool_iff in Ht.
    assert (H : (pow2 (Z.log2 (Qnum x) - Z.log2 (Z.pos (Qden x))) < pow2 53)%Q).
    { eapply Qle_lt_trans; [exact Ht |]. rewrite (pow2_nonneg 53) by lia. exact Hlt. }
    apply Qpower_lt_compat_l_inv in H; [lia | reflexivity].
  - destruct x as [n d]. unfold Qlt in Hpos, Hlt.
    cbn [Qnum Qden inject_Z] in Hpos, Hlt |- *.
    assert (Hn : 0 < n) by lia.
    assert (Hle : n <= Z.pos d * 2 ^ 53) by lia.
    apply Z.log2_le_mono in Hle. rewrite Z.log2_mul_pow2 in Hle by lia. lia.
Qed.

(** Rounding is between any two integers the number is between, as long as
    they are below [2^53] in magnitude: those are binary64 numbers. *)
Lemma round_between (a b : Z) (x : Q) :
  (inject_Z a <= x <= inject_Z b)%Q -> - 2 ^ 53 < a -> b < 2 ^ 53 ->
  (inject_Z a <= round x <= inject_Z b)%Q.
Proof.
  intros [Ha Hb] Hlo Hhi. unfold round.
  destruct (Qeq_bool x 0) eqn:H0.
  - apply Qeq_bool_iff in H0. rewrite H0 in Ha, Hb. split; assumption.
  - assert (Hx : ~ (x == 0)%Q) by (intros E; apply Qeq_bool_iff in E; congruence).
    assert (Habs : (0 < Qabs x)%Q).
    { destruct (Qlt_le_dec x 0) as [Hneg | Hnn].
      - rewrite Qabs_neg by (apply Qlt_le_weak, Hneg). lra.
      - rewrite Qabs_pos by exact Hnn.
        apply Qle_lt_or_eq in Hnn as [Hn | Hn]; [exact Hn |].
        exfalso. apply Hx. symmetry. exact Hn. }
    assert (Hsmall : (Qabs x < inject_Z (2 ^ 53))%Q).
    { apply Qabs_Qlt_condition. split.
      - eapply Qlt_le_trans; [| exact Ha]. rewrite <- inject_Z_opp, <- Zlt_Qlt. exact Hlo.
      - eapply Qle_lt_trans; [exact Hb |]. rewrite <- Zlt_Qlt. exact Hhi. }
    pose proof (ilog2_small (Qabs x) Habs Hsmall) as He. cbv zeta.
    set (q := Z.max (ilog2 (Qabs x) - 52) (-1074)).
    assert (Hq : q <= 0) by (unfold q; lia).
    set (P := 2 ^ (- q)).
    assert (HP : 0 < P) by (apply Z.pow_pos_nonneg; lia).
    assert (Hpow : (pow2 q == / inject_Z P)%Q).
    { unfold P. rewrite <- (Z.opp_involutive q) at 1. unfold pow2.
      rewrite Qpower_opp. rewrite <- (pow2_nonneg (- q)) by lia. reflexivity. }
    assert (HPq : (0 < inject_Z P)%Q)
      by (change 0%Q with (inject_Z 0); rewrite <- Zlt_Qlt; exact HP).
    assert (Hdiv : (x / pow2 q == x * inject_Z P)%Q).
    { rewrite Hpow. unfold Qdiv. rewrite Qinv_involutive. reflexivity. }
    assert (Hlo' : a * P <= nearestEven (x / pow2 q)).
    { apply nearestEven_ge. rewrite Hdiv, inject_Z_mult.
      apply Qmult_le_compat_r; [exact Ha | apply Qlt_le_weak, HPq]. }
    assert (Hhi' : nearestEven (x / pow2 q) <= b * P).
    { apply nearestEven_le. rewrite Hdiv, inject_Z_mult.
      apply Qmult_le_compat_r; [exact Hb | apply Qlt_le_weak, HPq]. }
    rewrite Zle_Qle, inject_Z_mult in Hlo', Hhi'.
    set (m := nearestEven (x / pow2 q)) in *.
    assert (E : (inject_Z m * pow2 q == inject_Z m / inject_Z P)%Q)
      by (rewrite Hpow; reflexivity).
    rewrite E. split.
    + apply Qle_shift_div_l; [exact HPq | exact Hlo'].
    + apply Qle_shift_div_r; [exact HPq | exact Hhi'].
Qed.

End NumberFacts.

(** A product of a number in [0, 1] and a positive integer constant, as the
    script computes it, is between 0 and the constant. *)
Lemma mul_range (r : Q) (k : Z) :
  (0 <= r <= 1)%Q -> 0 < k < 2 ^ 53 ->
  (0 <= Number.mul r (inject_Z k) <= inject_Z k)%Q.
Proof.
  intros [H0 H1] [Hk Hk']. unfold Number.mul.
  assert (Hkq : (0 < inject_Z k)%Q)
    by (change 0%Q with (inject_Z 0); rewrite <- Zlt_Qlt; exact Hk).
  apply (round_between 0 k); [| lia | exact Hk'].
  split; [apply Qmult_le_0_compat; [exact H0 | apply Qlt_le_weak, Hkq] |].
  rewrite <- (Qmult_1_l (inject_Z k)) at 2.
  apply Qmult_le_compat_r; [exact H1 | apply Qlt_le_weak, Hkq].
Qed.

(** [Math.random() * 3 + 3] is between 3 and 6, and in binary64 it is 6
    for the largest number below 1. *)
Lemma duration_range (r : Q) :
  (0 <= r <= 1)%Q -> (3 <= Number.add (Number.mul r 3) 3 <= 6)%Q.
Proof.
  intros Hr. pose proof (mul_range r 3 Hr ltac:(lia)) as [Hlo Hhi].
  change (inject_Z 3) with 3%Q in Hlo, Hhi.
  unfold Number.add. apply (round_between 3 6); [| lia | lia].
  change (inject_Z 3) with 3%Q. change (inject_Z 6) with 6%Q. lra.
Qed.

Lemma duration_reaches_6 :
  (Number.add (Number.mul (1 - (1 # 9007199254740992)) 3) 3 == 6)%Q.
Proof. vm_compute. reflexivity. Qed.

(* ===================================================================== *)
(** * Reasoning about computations                                        *)
(* ===================================================================== *)

Section Rules.
Context {A B : Type}.

Lemma nothrow_ret (a : A) : nothrow (ret a).
Proof. intros w. exists a. reflexivity. Qed.

Lemma nothrow_get : nothrow get.
Proof. intros w. exists w. reflexivity. Qed.

Lemma nothrow_modify f : nothrow (modify f).
Proof. intros w. exists tt. reflexivity. Qed.

Lemma nothrow_bind (m : M A) (k : A -> M B) :
  nothrow m -> (forall a, nothrow (k a)) -> nothrow (bind m k).
Proof.
  intros Hm Hk w. unfold bind. destruct (Hm w) as [a Ha].
  destruct (m w) as [[a'|e] w']; simpl in Ha; [| discriminate].
  apply Hk.
Qed.

Lemma nothrow_try (m : M A) (h : Exn -> M A) :
  (forall e, nothrow (h e)) -> nothrow (try_catch m h).
Proof.
  intros Hh w. unfold try_catch. destruct (m w) as [[a|e] w']; [| apply Hh].
  exists a. reflexivity.
Qed.

Lemma nothrow_recv (a : A) : nothrow (recv (Some a)).
Proof. apply nothrow_ret. Qed.

Context (R : World -> World -> Prop) (HR : PreOrder R).

Lemma steps_ret (a : A) : steps R (ret a).
Proof. intros w. simpl. reflexivity. Qed.

Lemma steps_throw e : steps R (@throw A e).
Proof. intros w. simpl. reflexivity. Qed.

Lemma steps_recv (o : option A) : steps R (recv o).
Proof. destruct o; [apply steps_ret | apply steps_throw]. Qed.

Lemma steps_bind (m : M A) (k : A -> M B) :
  steps R m -> (forall a, steps R (k a)) -> steps R (bind m k).
Proof.
  intros Hm Hk w. unfold bind. specialize (Hm w).
  destruct (m w) as [[a|e] w']; simpl in *; [| exact Hm].
  etransitivity; [exact Hm | apply Hk].
Qed.

Lemma steps_try (m : M A) (h : Exn -> M A) :
  steps R m -> (forall e, steps R (h e)) -> steps R (try_catch m h).
Proof.
  intros Hm Hh w. unfold try_catch. specialize (Hm w).
  destruct (m w) as [[a|e] w']; simpl in *; [exact Hm |].
  etransitivity; [exact Hm | apply Hh].
Qed.

End Rules.

Lemma steps_get R (HR : PreOrder R) : steps R get.
Proof. intros w. simpl. reflexivity. Qed.

Lemma steps_modify (R : World -> World -> Prop) f :
  (forall w, R w (f w)) -> steps R (modify f).
Proof. intros H w. apply H. Qed.

#[global] Instance keeps_preorder {T} (V : World -> T) :
  PreOrder (fun w w' => V w' = V w).
Proof. split; [intros w; reflexivity | intros a b c H1 H2; congruence]. Qed.

(** When [m] ends normally, [bind] goes on from its result. *)
Lemma bind_exec {A B} (m : M A) (k : A -> M B) w a w' :
  m w = (Normal a, w') -> bind m k w = k a w'.
Proof. intros E. unfold bind. rewrite E. reflexivity. Qed.

Lemma exec_of {A} (m : M A) w :
  nothrow m -> exists a, m w = (Normal a, snd (m w)).
Proof.
  intros H. destruct (H w) as [a Ha]. exists a.
  destruct (m w) as [o w']. simpl in *. congruence.
Qed.

(** [bind] goes on from results of [m] only: what holds of them may be
    used for the rest. *)
Lemma nothrow_bind_post {A B} (P : A -> Prop) (m : M A) (k : A -> M B) :
  nothrow m -> (forall w a, fst (m w) = Normal a -> P a) ->
  (forall a, P a -> nothrow (k a)) -> nothrow (bind m k).
Proof.
  intros Hm HP Hk w. unfold bind. destruct (Hm w) as [a Ha].
  specialize (HP w a Ha).
  destruct (m w) as [[a'|e] w']; simpl in Ha; [| discriminate].
  injection Ha as ->. apply Hk, HP.
Qed.

(** Taking a computation apart along its syntax. *)
Ltac nothrow_step :=
  first
    [ solve [auto with js_nothrow]
    | apply nothrow_ret | apply nothrow_get | apply nothrow_modify
    | apply nothrow_recv
    | apply nothrow_try; intros ?
    | apply nothrow_bind; [| intros ?]
    | match goal with
      | |- nothrow (if isNull ?x then _ else _) => destruct x; cbn [isNull]
      | |- nothrow (if negb (isNull ?x) then _ else _) =>
          destruct x; cbn [isNull negb]
      | |- nothrow (if ?b then _ else _) => destruct b
      | |- nothrow (match ?x with _ => _ end) => destruct x
      end
    | solve [auto with js_nothrow] ].

Ltac steps_step leaf :=
  first
    [ solve [auto with js_steps]
    | match goal with
      | |- steps (fun w w' => ?V w' = ?V w) ?m =>
          change (keeps V m); solve [auto with js_steps]
      end
    | apply steps_ret; apply _ | apply steps_get; apply _
    | apply steps_throw; apply _ | apply steps_recv; apply _
    | apply steps_modify; intros ?; leaf
    | apply steps_try; [apply _ | | intros ?]
    | apply steps_bind; [apply _ | | intros ?]
    | match goal with
      | |- steps _ (if ?b then _ else _) => destruct b
      | |- steps _ (match ?x with _ => _ end) => destruct x
      end
    | solve [auto with js_steps]
    | match goal with
      | |- steps (fun w w' => ?V w' = ?V w) ?m =>
          change (keeps V m); solve [auto with js_steps]
      end ].

Create HintDb js_nothrow.
Create HintDb js_steps.

(** ** The page methods *)

Ltac leaf_refl := cbn; reflexivity.

(** The browser primitives, unfolded to [get] and [modify]. *)
Ltac unfold_prims :=
  unfold console_log, console_warn, console_error, alert, async, fresh,
    mathRandom, dateNow, setTimeout, clearTimeout, requestAnimationFrame,
    getElementById, appendChild, set_innerHTML, append_innerHTML,
    classList_toggle_scrolled, asElement, addScrollListener, addResizeListener,
    removeScrollListener, removeResizeListener, newAbortController,
    signal_aborted, upd_button, form_reset.

Ltac nothrow_go := unfold_prims; repeat nothrow_step.
Ltac keeps_go := unfold keeps; unfold_prims; repeat steps_step leaf_refl.

Lemma getElement_nothrow id cache : nothrow (getElement id cache).
Proof. unfold getElement. nothrow_go. Qed.
#[global] Hint Resolve getElement_nothrow : js_nothrow.

(** Under an id that is no property of [Object.prototype], [getElement]
    returns an element or [null]. *)
Lemma getElement_value id cache w a :
  objectPrototypeHas id = false -> fst (getElement id cache w) = Normal a ->
  a = None \/ exists e, a = Some (VElem e).
Proof.
  intros Hid. unfold getElement, bind, get, ret.
  unfold getElementById, console_warn, bind, get, ret, modify. cbn [fst snd].
  rewrite Hid, andb_false_r.
  destruct (if cache then elementCache (pm w) !! id else None) as [e|];
    [intros [= <-]; right; exists e; reflexivity |].
  destruct (elemOfId id) as [e|]; [| intros [= <-]; left; reflexivity].
  destruct (present (dom w) e); [| intros [= <-]; left; reflexivity].
  intros H. right. exists e. destruct cache; cbn in H; congruence.
Qed.

Lemma asElement_nothrow e : nothrow (asElement (Some (VElem e))).
Proof. intros w. exists e. reflexivity. Qed.
#[global] Hint Resolve asElement_nothrow : js_nothrow.

(** The first step of the methods that look an element up. *)
Ltac nothrow_lookup :=
  apply (nothrow_bind_post (fun a => a = None \/ exists e, a = Some (VElem e)));
  [ apply getElement_nothrow
  | intros ? ?; apply getElement_value; reflexivity
  | intros ? [-> | [? ->]]; cbn [isNull] ].

Lemma getElement_core id cache : keeps V_core (getElement id cache).
Proof. unfold getElement. keeps_go. Qed.
#[global] Hint Resolve getElement_core : js_steps.

Lemma makeParticles_nothrow n : nothrow (makeParticles n).
Proof.
  induction n as [|n IH]; simpl; [apply nothrow_ret |].
  unfold makeParticle. nothrow_go.
Qed.
#[global] Hint Resolve makeParticles_nothrow : js_nothrow.

Lemma makeParticles_core n : keeps V_core (makeParticles n).
Proof.
  induction n as [|n IH]; simpl; [apply steps_ret; apply _ |].
  unfold makeParticle. keeps_go.
Qed.
#[global] Hint Resolve makeParticles_core : js_steps.

Lemma createParticles_nothrow : nothrow createParticles.
Proof. unfold createParticles. nothrow_lookup; nothrow_go. Qed.

Lemma createParticles_core : keeps V_core createParticles.
Proof. unfold createParticles. keeps_go. Qed.

Lemma initAOS_nothrow : nothrow initAOS.
Proof. unfold initAOS. nothrow_go. Qed.
Lemma initAOS_core : keeps V_core initAOS.
Proof. unfold initAOS. keeps_go. Qed.

Lemma initPerformanceMonitoring_nothrow : nothrow initPerformanceMonitoring.
Proof. unfold initPerformanceMonitoring. nothrow_go. Qed.
Lemma initPerformanceMonitoring_core : keeps V_core initPerformanceMonitoring.
Proof. unfold initPerformanceMonitoring. keeps_go. Qed.

Lemma initSmoothScrolling_nothrow : nothrow initSmoothScrolling.
Proof. unfold initSmoothScrolling. nothrow_go. Qed.
Lemma initSmoothScrolling_core : keeps V_core initSmoothScrolling.
Proof. unfold initSmoothScrolling. keeps_go. Qed.

Lemma initCardEffects_nothrow : nothrow initCardEffects.
Proof. unfold initCardEffects. nothrow_go. Qed.
Lemma initCardEffects_core : keeps V_core initCardEffects.
Proof. unfold initCardEffects. keeps_go. Qed.

Lemma initContactForm_nothrow : nothrow initContactForm.
Proof. unfold initContactForm. nothrow_go. Qed.
Lemma initContactForm_core : keeps V_core initContactForm.
Proof. unfold initContactForm. keeps_go. Qed.

Lemma updateNavbar_nothrow : nothrow updateNavbar.
Proof. unfold updateNavbar. nothrow_lookup; nothrow_go. Qed.
Lemma updateNavbar_core : keeps V_core updateNavbar.
Proof. unfold updateNavbar. keeps_go. Qed.

Lemma revealOnScroll_nothrow : nothrow revealOnScroll.
Proof. unfold revealOnScroll. nothrow_go. Qed.
Lemma revealOnScroll_core : keeps V_core revealOnScroll.
Proof. unfold revealOnScroll. keeps_go. Qed.

(* ===================================================================== *)
(** * Cancelling: abort listeners and rejected continuations              *)
(* ===================================================================== *)

(** Unfolding a computation on a world. *)
Ltac scbn := cbn -[lookup insert Nat.ltb].
Ltac exec :=
  repeat (unfold bind, get, modify, ret, throw, try_catch; unfold_prims; scbn).

(** Reducing field projections and updates only. *)
Ltac proj :=
  cbn [pm dom win platform clock rngPos nextId timers frames abortedSignals
       abortListeners loops microtasks console alerts
       isInitialized isDestroyed activeAnimations typingController
       particleContainer elementCache handlers scrollTicking resizeTicking
       config h_scroll h_resize
       innerWidth innerHeight devicePixelRatio scrollY scrollListeners
       resizeListeners
       bgAnimation typingText navbar contactForm fadeIns anchors projectCards
       skillCards
       upd_pm upd_dom upd_win set_clock set_rngPos set_nextId upd_timers
       upd_frames upd_abortedSignals upd_abortListeners upd_loops
       upd_microtasks upd_console upd_alerts
       set_isInitialized set_isDestroyed set_activeAnimations
       set_typingController set_particleContainer set_elementCache
       set_handlers set_scrollTicking set_resizeTicking
       set_bgAnimation set_typingText set_navbar set_contactForm set_fadeIns
       set_anchors set_projectCards set_skillCards
       fst snd] in *.

Lemma World_ext (w1 w2 : World) :
  pm w1 = pm w2 -> dom w1 = dom w2 -> win w1 = win w2 ->
  platform w1 = platform w2 -> clock w1 = clock w2 -> rngPos w1 = rngPos w2 ->
  nextId w1 = nextId w2 -> timers w1 = timers w2 -> frames w1 = frames w2 ->
  abortedSignals w1 = abortedSignals w2 -> abortListeners w1 = abortListeners w2 ->
  loops w1 = loops w2 -> microtasks w1 = microtasks w2 ->
  console w1 = console w2 -> alerts w1 = alerts w2 -> w1 = w2.
Proof. destruct w1, w2; cbn; intros; subst; reflexivity. Qed.

Lemma Controller_ext (c1 c2 : Controller) :
  isInitialized c1 = isInitialized c2 -> isDestroyed c1 = isDestroyed c2 ->
  activeAnimations c1 = activeAnimations c2 ->
  typingController c1 = typingController c2 ->
  particleContainer c1 = particleContainer c2 ->
  elementCache c1 = elementCache c2 -> handlers c1 = handlers c2 ->
  scrollTicking c1 = scrollTicking c2 -> resizeTicking c1 = resizeTicking c2 ->
  config c1 = config c2 -> c1 = c2.
Proof. destruct c1, c2; cbn; intros; subst; reflexivity. Qed.

(** Two worlds are equal when their fields are. *)
Ltac world_eq :=
  apply World_ext; cbn;
  try reflexivity;
  try (apply Controller_ext; cbn; try reflexivity).

Lemma upd_loops_ext f g w :
  f (loops w) = g (loops w) -> upd_loops f w = upd_loops g w.
Proof. unfold upd_loops. intros ->. reflexivity. Qed.

Lemma upd_loops_same f w : f (loops w) = loops w -> upd_loops f w = w.
Proof. unfold upd_loops. intros ->. destruct w; reflexivity. Qed.

Lemma find_none_filter (ls : list Loop) t :
  List.find (fun l => Nat.eqb (lp_await l) t) ls = None ->
  filter (fun l => lp_await l <> t) ls = ls.
Proof.
  induction ls as [|l ls IH]; simpl; [reflexivity |].
  destruct (Nat.eqb (lp_await l) t) eqn:E; [discriminate |].
  intros H. apply Nat.eqb_neq in E.
  rewrite filter_cons_True by exact E. f_equal. apply IH, H.
Qed.

Lemma find_some_await (ls : list Loop) t l :
  List.find (fun l => Nat.eqb (lp_await l) t) ls = Some l ->
  In l ls /\ lp_await l = t.
Proof.
  intros H. apply List.find_some in H as [Hin Heq].
  apply Nat.eqb_eq in Heq. auto.
Qed.

(** A rejected reveal returns false through its [catch], and the cycle
    that awaited it schedules nothing. *)
Lemma typeWriterResume_rejected l w :
  typeWriterResume l false w = (Normal tt, w).
Proof. reflexivity. Qed.

Lemma runMicrotask_rejected t w :
  report (runMicrotask (t, false) w) =
  upd_loops (filter (fun l => lp_await l <> t)) w.
Proof.
  unfold runMicrotask. exec.
  destruct (List.find _ (loops w)) as [l|] eqn:E; cbn.
  - reflexivity.
  - symmetry. apply upd_loops_same, find_none_filter, E.
Qed.

Lemma filter_all {A} (P : A -> Prop) `{forall x, Decision (P x)} (l : list A) :
  (forall x, x ∈ l -> P x) -> filter P l = l.
Proof.
  induction l as [|x l IH]; intros Hall; [reflexivity |].
  rewrite filter_cons_True by (apply Hall; left). f_equal.
  apply IH. intros y Hy. apply Hall. right. exact Hy.
Qed.

Lemma runMicrotasks_rejected q : forall w,
  Forall (fun mt => snd mt = false) q ->
  runMicrotasks q w =
  upd_loops (filter (fun l => lp_await l ∉ q.*1)) w.
Proof.
  induction q as [|[t b] q IH]; intros w Hq; simpl.
  - symmetry. apply upd_loops_same, filter_all. intros; apply not_elem_of_nil.
  - apply Forall_cons in Hq as [Hb Hq']. simpl in Hb. subst b.
    rewrite runMicrotask_rejected, IH by exact Hq'.
    change (upd_loops ?f (upd_loops ?g w)) with (upd_loops (fun ls => f (g ls)) w).
    apply upd_loops_ext. cbv beta. rewrite list_filter_filter. apply list_filter_iff. intros l.
    rewrite not_elem_of_cons. tauto.
Qed.

(** ** The abort listeners of one controller *)

Lemma filter_listeners_hit (ls : list (nat * nat)) c t (tms : list Timer) :
  filter (fun tm => (c, tm_id tm) ∉ ls) (filter (fun tm => tm_id tm <> t) tms) =
  filter (fun tm => (c, tm_id tm) ∉ (c, t) :: ls) tms.
Proof.
  rewrite list_filter_filter. apply list_filter_iff. intros tm.
  rewrite not_elem_of_cons. split; intros [H1 H2]; split; try assumption; congruence.
Qed.

Lemma runAbortListeners_spec ls c : forall w,
  exists w',
    runAbortListeners ls c w = (Normal tt, w') /\
    aview w' = aview w /\
    timers w' = filter (fun tm => (c, tm_id tm) ∉ ls) (timers w) /\
    (exists q, microtasks w' = microtasks w ++ q /\
               Forall (fun mt => snd mt = false) q) /\
    (forall t, (c, t) ∈ ls ->
               Exists (fun l => lp_await l = t) (loops w) ->
               t ∈ (microtasks w').*1).
Proof.
  induction ls as [|[c' t] ls IH]; intros w; simpl.
  - exists w. split; [reflexivity |]. split; [reflexivity |]. split.
    { symmetry. apply filter_all. intros; apply not_elem_of_nil. }
    split; [exists []; rewrite app_nil_r; auto |].
    intros t Ht. apply elem_of_nil in Ht as [].
  - destruct (decide (c' = c)) as [->|Hne].
    + unfold abortListener, settle. exec.
      set (pending := bool_decide (Exists (fun l => lp_await l = t) (loops w))
                      && negb (bool_decide (Exists (fun mt => fst mt = t) (microtasks w)))).
      destruct pending eqn:Hp; cbn;
        match goal with |- context [runAbortListeners ls c ?w1] =>
          destruct (IH w1) as (w' & E & Hv & Ht & (q & Hq & Hf) & Hin) end;
        cbn in *; exists w'; rewrite E;
        (split; [reflexivity |]); (split; [exact Hv |]); (split; [|split]).
      * rewrite Ht. apply filter_listeners_hit.
      * exists ((t, false) :: q). rewrite Hq, <- app_assoc. split; [reflexivity |].
        constructor; [reflexivity | exact Hf].
      * intros t' Ht' Hex. apply elem_of_cons in Ht' as [Heq|Hin'];
          [| apply Hin; assumption].
        injection Heq as ->. rewrite Hq, !fmap_app.
        apply elem_of_app. left. apply elem_of_app. right. left.
      * rewrite Ht. apply filter_listeners_hit.
      * exists q. auto.
      * intros t' Ht' Hex. apply elem_of_cons in Ht' as [Heq|Hin'];
          [| apply Hin; assumption].
        injection Heq as ->. rewrite Hq, fmap_app. apply elem_of_app. left.
        subst pending. apply andb_false_iff in Hp as [Hp|Hp].
        { apply bool_decide_eq_false in Hp. contradiction. }
        apply negb_false_iff, bool_decide_eq_true in Hp.
        apply Exists_exists in Hp as (mt & Hmt & Heq).
        apply list_elem_of_fmap. exists mt. auto.
    + exec. destruct (IH w) as (w' & E & Hv & Ht & Hq & Hin).
      exists w'. split; [exact E |]. split; [exact Hv |]. split; [| split].
      * rewrite Ht. apply list_filter_iff. intros tm.
        rewrite not_elem_of_cons. split; [| tauto].
        intros Hn. split; [congruence | exact Hn].
      * exact Hq.
      * intros t' Ht' Hex. apply elem_of_cons in Ht' as [Heq|Hin'];
          [congruence | apply Hin; assumption].
Qed.

Lemma abort_spec c w :
  exists w',
    abort c w = (Normal tt, w') /\
    bview w' = bview w /\
    abortedSignals w' = {[ c ]} ∪ abortedSignals w /\
    (exists q, microtasks w' = microtasks w ++ q /\
               Forall (fun mt => snd mt = false) q) /\
    (c ∈ abortedSignals w -> w' = w) /\
    (c ∉ abortedSignals w ->
     timers w' = filter (fun tm => (c, tm_id tm) ∉ abortListeners w) (timers w) /\
     forall t, (c, t) ∈ abortListeners w ->
               Exists (fun l => lp_await l = t) (loops w) ->
               t ∈ (microtasks w').*1).
Proof.
  unfold abort. exec. destruct (bool_decide (c ∈ abortedSignals w)) eqn:Hc; cbn.
  - apply bool_decide_eq_true in Hc. exists w.
    split; [reflexivity |]. split; [reflexivity |].
    split; [symmetry; apply subseteq_union_1_L, singleton_subseteq_l, Hc |].
    split; [exists []; rewrite app_nil_r; auto |]. split; [reflexivity | tauto].
  - apply bool_decide_eq_false in Hc.
    destruct (runAbortListeners_spec (abortListeners w) c
                (upd_abortedSignals (fun s => {[ c ]} ∪ s) w))
      as (w' & E & Hv & Ht & Hq & Hin).
    exists w'. split; [exact E |]. unfold aview in Hv. cbn in *.
    injection Hv as ? ? ? ? ? ? ? ? Ha ? ? ? ?.
    split; [unfold bview; congruence |]. split; [exact Ha |]. split; [exact Hq |].
    split; [tauto |]. intros _. split; [exact Ht | exact Hin].
Qed.

(** ** destroy *)

#[local] Opaque abort.

Lemma set_typingController_none c :
  typingController c = None -> set_typingController None c = c.
Proof. destruct c; cbn; intros ->; reflexivity. Qed.

Lemma destroy_exec w :
  exists wa,
    destroy w = (Normal tt, destroyed w wa) /\
    abortedSignals wa =
      match typingController (pm w) with
      | Some c => {[ c ]} ∪ abortedSignals w
      | None => abortedSignals w
      end /\
    (exists q, microtasks wa = microtasks w ++ q /\
               Forall (fun mt => snd mt = false) q) /\
    (exists (P : Timer -> Prop) (_ : forall tm, Decision (P tm)),
       timers wa = filter P (timers w)) /\
    (forall c, typingController (pm w) = Some c -> c ∉ abortedSignals w ->
       timers wa = filter (fun tm => (c, tm_id tm) ∉ abortListeners w) (timers w) /\
       forall t, (c, t) ∈ abortListeners w ->
                 Exists (fun l => lp_await l = t) (loops w) ->
                 t ∈ (microtasks wa).*1).
Proof.
  unfold destroy. exec. destruct (typingController (pm w)) as [c|] eqn:Htc; cbn.
  - match goal with |- context [abort c ?w0] =>
      destruct (abort_spec c w0) as (wa & E & Hv & Ha & Hq & _ & Hn) end.
    rewrite E. cbn in *. unfold bview in Hv. cbn in Hv.
    injection Hv as Hpm Hdom Hwin Hpl Hcl Hrng Hnx Hfr Hal Hlp Hco Halr.
    exists wa. split.
    + unfold destroyed. rewrite Hpm. cbn.
      destruct (h_scroll (handlers (pm w))), (h_resize (handlers (pm w))); cbn;
        f_equal; apply World_ext; cbn;
        rewrite ?Hpm, ?Hdom, ?Hwin, ?Hpl, ?Hcl, ?Hrng, ?Hnx, ?Hfr, ?Hal, ?Hlp, ?Hco, ?Halr;
        try reflexivity; destruct (win w); reflexivity.
    + split; [exact Ha |]. split; [exact Hq |]. split.
      * destruct (decide (c ∈ abortedSignals w)) as [Hin|Hnin].
        -- exists (fun _ => True), _.
           destruct (abort_spec c (upd_pm (set_isDestroyed true)
             (upd_console (fun c0 => c0 ++ [Log "Destroying Portfolio..."]) w)))
             as (wa' & E' & _ & _ & _ & Hsame & _).
           rewrite E in E'. injection E' as <-. rewrite (Hsame Hin). cbn.
           symmetry. apply filter_all. auto.
        -- exists (fun tm => (c, tm_id tm) ∉ abortListeners w), _.
           apply (Hn Hnin).
      * intros c' [= <-] Hnin. apply (Hn Hnin).
  - exists w. split.
    + unfold destroyed.
      destruct (h_scroll (handlers (pm w))), (h_resize (handlers (pm w))); cbn;
        f_equal; world_eq; rewrite ?Htc; try reflexivity;
        destruct (win w); reflexivity.
    + split; [reflexivity |]. split; [exists []; rewrite app_nil_r; auto |].
      split; [| intros c [=]].
      exists (fun _ => True), _. symmetry. apply filter_all. auto.
Qed.

#[local] Transparent abort.

(* ===================================================================== *)
(** * What each handler leaves alone                                      *)
(* ===================================================================== *)

Lemma core_sview w w' : V_core w' = V_core w -> sview w' = sview w.
Proof.
  unfold V_core, sview, fview, cycleTimers. intros H.
  injection H as ? ? ? ? ? ? ? ? Hw ? ? ? Ht ? ? ? ? ? ? ?.
  congruence.
Qed.

Lemma core_kview w w' : V_core w' = V_core w -> kview w' = kview w.
Proof. unfold V_core, kview. intros H. injection H. congruence. Qed.

Lemma keeps_core_sview {A} (m : M A) : keeps V_core m -> keeps sview m.
Proof. intros H w. apply core_sview, H. Qed.

Lemma keeps_core_kview {A} (m : M A) : keeps V_core m -> keeps kview m.
Proof. intros H w. apply core_kview, H. Qed.

(** A terminating computation: its result and its frame facts at once. *)
Lemma run_of {A} (m : M A) w :
  nothrow m -> exists a, m w = (Normal a, post m w).
Proof. apply exec_of. Qed.

#[global] Instance preserves_preorder (P : World -> Prop) :
  PreOrder (fun w w' => P w -> P w').
Proof. split; [intros w; auto | intros a b c H1 H2; auto]. Qed.

(** ** The cache stays well-formed *)

Ltac leaf_w :=
  unfold wview; proj; rewrite ?lookup_insert_ne by done; reflexivity.
Ltac keeps_w := unfold keeps; unfold_prims; repeat steps_step leaf_w.

Lemma getElement_wview id cache :
  id <> "bgAnimation"%string -> keeps wview (getElement id cache).
Proof.
  intros Hid. unfold getElement. keeps_w.
Qed.

Lemma getElement_bg_WF cache w :
  WF w ->
  WF (post (getElement "bgAnimation" cache) w) /\
  (fst (getElement "bgAnimation" cache w) = Normal None \/
   fst (getElement "bgAnimation" cache w) = Normal (Some (VElem ElBgAnimation))).
Proof.
  intros [Hc Hp]. unfold post, getElement, WF. exec.
  destruct cache; scbn.
  - destruct (elementCache (pm w) !! "bgAnimation"%string) as [e|] eqn:E; scbn.
    + destruct Hc as [Hc|Hc]; [discriminate |]. injection Hc as ->.
      rewrite E. auto.
    + destruct (negb (isNull (bgAnimation (dom w)))); scbn.
      * rewrite lookup_insert_eq. auto.
      * rewrite E. auto.
  - destruct (negb (isNull (bgAnimation (dom w)))); scbn; auto.
Qed.

Lemma makeParticles_wview n : keeps wview (makeParticles n).
Proof.
  induction n as [|n IH]; simpl; [apply steps_ret; apply _ |].
  unfold makeParticle. keeps_w.
Qed.
#[global] Hint Resolve makeParticles_wview : js_steps.

Lemma createParticles_WF w : WF w -> WF (post createParticles w).
Proof.
  intros HWF. pose proof (getElement_bg_WF true w HWF) as [HWF1 Hres].
  unfold post in *. unfold createParticles. unfold bind at 1.
  destruct (getElement "bgAnimation" true w) as [o w1].
  cbn [fst snd] in *. destruct Hres as [-> | ->]; cbn [isNull]; [exact HWF1 |].
  exec.
  set (n := iterations _).
  destruct (run_of (makeParticles n) w1 (makeParticles_nothrow n)) as [ps Eps].
  pose proof (makeParticles_wview n w1) as Hw. fold (post (makeParticles n) w1) in Hw.
  rewrite Eps. scbn. unfold wview in Hw. injection Hw as Hc Hp.
  destruct HWF1 as [Hc1 Hp1]. unfold WF. scbn. rewrite Hc. auto.
Qed.

Lemma getElement_WF id cache w : WF w -> WF (post (getElement id cache) w).
Proof.
  intros HWF. destruct (decide (id = "bgAnimation"%string)) as [->|Hne].
  - apply getElement_bg_WF, HWF.
  - pose proof (getElement_wview id cache Hne w) as H. unfold wview in H.
    injection H as Hc Hp. destruct HWF as [H1 H2]. unfold post, WF.
    rewrite Hc, Hp. auto.
Qed.

Lemma wview_WF w w' : wview w' = wview w -> WF w -> WF w'.
Proof.
  unfold wview, WF. intros H. injection H as -> ->. auto.
Qed.

Lemma initAOS_wview : keeps wview initAOS.
Proof. unfold initAOS. keeps_w. Qed.
Lemma initPerformanceMonitoring_wview : keeps wview initPerformanceMonitoring.
Proof. unfold initPerformanceMonitoring. keeps_w. Qed.
Lemma initSmoothScrolling_wview : keeps wview initSmoothScrolling.
Proof. unfold initSmoothScrolling. keeps_w. Qed.
Lemma initCardEffects_wview : keeps wview initCardEffects.
Proof. unfold initCardEffects. keeps_w. Qed.
Lemma initContactForm_wview : keeps wview initContactForm.
Proof.
  unfold initContactForm. unfold keeps. apply steps_bind; [apply _ | | intros ?].
  - apply getElement_wview. discriminate.
  - keeps_w.
Qed.
Lemma updateNavbar_wview : keeps wview updateNavbar.
Proof.
  unfold updateNavbar. unfold keeps. apply steps_bind; [apply _ | | intros ?].
  - apply getElement_wview. discriminate.
  - keeps_w.
Qed.
Lemma revealOnScroll_wview : keeps wview revealOnScroll.
Proof. unfold revealOnScroll. keeps_w. Qed.

(** ** Handlers that leave the controller alone *)

Lemma cycleTimers_app_other (l : list Timer) tm :
  isCycleCb (tm_cb tm) = false ->
  filter (fun tm => isCycleCb (tm_cb tm) = true) (l ++ [tm]) =
  filter (fun tm => isCycleCb (tm_cb tm) = true) l.
Proof.
  intros H. rewrite filter_app, filter_cons_False by (rewrite H; discriminate).
  rewrite filter_nil. apply app_nil_r.
Qed.

Lemma cycleTimers_app_cycle (l : list Timer) tm :
  isCycleCb (tm_cb tm) = true ->
  filter (fun tm => isCycleCb (tm_cb tm) = true) (l ++ [tm]) =
  filter (fun tm => isCycleCb (tm_cb tm) = true) l ++ [tm].
Proof.
  intros H. rewrite filter_app, filter_cons_True by exact H.
  rewrite filter_nil. reflexivity.
Qed.

Ltac leaf_s :=
  unfold qview, hview, sview, fview, kview, wview, cycleTimers; proj;
  rewrite ?cycleTimers_app_other by reflexivity; reflexivity.
Ltac keeps_s := unfold keeps; unfold_prims; repeat steps_step leaf_s.

Lemma validateForm_nothrow formData : nothrow (validateForm formData).
Proof. unfold validateForm. nothrow_go. Qed.
#[global] Hint Resolve validateForm_nothrow : js_nothrow.

Lemma entries_get_text formData name :
  entries_get (textEntries formData) name = FText <$> formData_get formData name.
Proof.
  induction formData as [|[k v] rest IH]; [reflexivity |]. cbn.
  destruct (String.eqb k name); [reflexivity | exact IH].
Qed.

(** On the data of text fields the general method is [validateForm]. *)
Lemma validateForm_any_text formData w :
  validateForm_any (Some (textEntries formData)) w = validateForm formData w.
Proof.
  unfold validateForm_any, validateForm, recv, bind, ret. cbn [fst snd].
  rewrite !entries_get_text.
  destruct (formData_get formData "name"), (formData_get formData "email"),
    (formData_get formData "message"); reflexivity.
Qed.

Lemma validateForm_any_nothrow entries :
  TextFields entries -> nothrow (validateForm_any (Some entries)).
Proof.
  intros H. unfold TextFields in H. rewrite !Forall_cons in H.
  destruct H as (Hn & He & Hm & _). unfold validateForm_any.
  apply (nothrow_bind_post (fun a => a = entries));
    [apply nothrow_recv | intros w a [= <-]; reflexivity | intros ? ->].
  destruct (entries_get entries "name") as [[n|]|]; [| congruence |];
  destruct (entries_get entries "email") as [[e|]|]; try congruence;
  destruct (entries_get entries "message") as [[m|]|]; try congruence;
  unfold trimEntry; nothrow_go.
Qed.

Lemma validateForm_views formData :
  keeps qview (validateForm formData).
Proof. unfold validateForm. keeps_s. Qed.
#[global] Hint Resolve validateForm_views : js_steps.

Lemma submitCatch_nothrow t e : nothrow (submitCatch t e).
Proof. unfold submitCatch. nothrow_go. Qed.
#[global] Hint Resolve submitCatch_nothrow : js_nothrow.

Lemma submitCatch_views t e :
  keeps qview (submitCatch t e).
Proof. unfold submitCatch. keeps_s. Qed.
#[global] Hint Resolve submitCatch_views : js_steps.

Lemma submitHandler_nothrow : nothrow submitHandler.
Proof. unfold submitHandler. nothrow_go. Qed.

Lemma submitHandler_views :
  keeps qview submitHandler.
Proof. unfold submitHandler. keeps_s. Qed.

Lemma submitResume_nothrow t : nothrow (submitResume t).
Proof. unfold submitResume. nothrow_go. Qed.

Lemma submitResume_views t :
  keeps qview (submitResume t).
Proof. unfold submitResume. keeps_s. Qed.

Lemma submitRevert_nothrow t : nothrow (submitRevert t).
Proof. unfold submitRevert. nothrow_go. Qed.

Lemma submitRevert_views t :
  keeps qview (submitRevert t).
Proof. unfold submitRevert. keeps_s. Qed.

Lemma submitErrorRevert_nothrow t : nothrow (submitErrorRevert t).
Proof. unfold submitErrorRevert. nothrow_go. Qed.

Lemma submitErrorRevert_views t :
  keeps qview (submitErrorRevert t).
Proof. unfold submitErrorRevert. keeps_s. Qed.

Lemma onOrientationChange_nothrow : nothrow onOrientationChange.
Proof. unfold onOrientationChange. nothrow_go. Qed.

Lemma onOrientationChange_views :
  keeps qview onOrientationChange.
Proof. unfold onOrientationChange. keeps_s. Qed.

(** ** Scroll and resize handling *)

Lemma handleScroll_nothrow : nothrow handleScroll.
Proof. unfold handleScroll. nothrow_go. Qed.

Lemma handleResize_nothrow : nothrow handleResize.
Proof. unfold handleResize. nothrow_go. Qed.

Lemma handleScroll_views : keeps hview handleScroll.
Proof. unfold handleScroll. keeps_s. Qed.

Lemma handleResize_views : keeps hview handleResize.
Proof. unfold handleResize. keeps_s. Qed.

(** [handleScroll], spelled out. *)
Lemma handleScroll_exec w :
  handleScroll w =
  (Normal tt,
   if scrollTicking (pm w) || isDestroyed (pm w) then w
   else upd_frames (fun l => l ++ [FScroll]) (upd_pm (set_scrollTicking true) w)).
Proof.
  unfold handleScroll. exec.
  destruct (scrollTicking (pm w) || isDestroyed (pm w)); reflexivity.
Qed.

Lemma handleScroll_TickOK w : TickOK w -> TickOK (post handleScroll w).
Proof.
  unfold post. rewrite handleScroll_exec. cbn [snd]. unfold TickOK, scrollFrames.
  intros H. destruct (scrollTicking (pm w)) eqn:Ht; cbn [orb]; [rewrite Ht; exact H |].
  destruct (isDestroyed (pm w)); [rewrite Ht; exact H |].
  proj. rewrite filter_app, length_app, H. reflexivity.
Qed.

Lemma handleResize_TickOK w : TickOK w -> TickOK (post handleResize w).
Proof.
  unfold post, handleResize, TickOK, scrollFrames. exec.
  destruct (resizeTicking (pm w)); scbn; [auto |].
  intros H. rewrite filter_app, length_app, H.
  rewrite filter_cons_False by discriminate. rewrite filter_nil. cbn. lia.
Qed.

(** ** The frame callbacks *)

Lemma updateNavbar_sview : keeps sview updateNavbar.
Proof. apply keeps_core_sview, updateNavbar_core. Qed.
Lemma updateNavbar_kview : keeps kview updateNavbar.
Proof. apply keeps_core_kview, updateNavbar_core. Qed.
Lemma revealOnScroll_sview : keeps sview revealOnScroll.
Proof. apply keeps_core_sview, revealOnScroll_core. Qed.
Lemma revealOnScroll_kview : keeps kview revealOnScroll.
Proof. apply keeps_core_kview, revealOnScroll_core. Qed.
Lemma createParticles_sview : keeps sview createParticles.
Proof. apply keeps_core_sview, createParticles_core. Qed.
Lemma createParticles_kview : keeps kview createParticles.
Proof. apply keeps_core_kview, createParticles_core. Qed.

#[global] Hint Resolve updateNavbar_nothrow revealOnScroll_nothrow
  createParticles_nothrow initAOS_nothrow initPerformanceMonitoring_nothrow
  initSmoothScrolling_nothrow initCardEffects_nothrow initContactForm_nothrow
  : js_nothrow.
#[global] Hint Resolve updateNavbar_sview updateNavbar_kview updateNavbar_wview
  revealOnScroll_sview revealOnScroll_kview revealOnScroll_wview
  createParticles_sview createParticles_kview : js_steps.

Lemma scrollFrame_nothrow : nothrow scrollFrame.
Proof. unfold scrollFrame. nothrow_go. Qed.

Lemma scrollFrame_sview : keeps sview scrollFrame.
Proof. unfold scrollFrame. keeps_s. Qed.

Lemma scrollFrame_wview : keeps wview scrollFrame.
Proof. unfold scrollFrame. keeps_s. Qed.

Lemma scrollFrame_frames : keeps frames scrollFrame.
Proof.
  unfold scrollFrame, keeps.
  apply steps_bind; [apply _ | | intros ?].
  { intros w. pose proof (updateNavbar_kview w) as H. unfold kview in H. congruence. }
  apply steps_bind; [apply _ | | intros ?].
  { intros w. pose proof (revealOnScroll_kview w) as H. unfold kview in H. congruence. }
  apply steps_modify. reflexivity.
Qed.

Lemma scrollFrame_ticking w : scrollTicking (pm (post scrollFrame w)) = false.
Proof.
  unfold post, scrollFrame.
  destruct (run_of updateNavbar w updateNavbar_nothrow) as [[] E1].
  rewrite (bind_exec _ _ _ _ _ E1).
  destruct (run_of revealOnScroll (post updateNavbar w) revealOnScroll_nothrow) as [[] E2].
  rewrite (bind_exec _ _ _ _ _ E2). reflexivity.
Qed.

Lemma resizeFrame_nothrow : nothrow resizeFrame.
Proof. unfold resizeFrame. nothrow_go. Qed.

Lemma resizeFrame_kview : keeps kview resizeFrame.
Proof. unfold resizeFrame. keeps_s. Qed.

Lemma resizeFrame_WF w :
  WF w -> WF (post resizeFrame w) /\ sview (post resizeFrame w) = sview w.
Proof.
  intros HWF. pose proof HWF as [Hc Hp]. unfold post, resizeFrame. exec.
  destruct (particleContainer (pm w)) as [e|] eqn:Epc; scbn.
  - destruct Hp as [Hp|Hp]; [discriminate |]. injection Hp as ->. scbn.
    set (w1 := upd_dom _ w).
    assert (HWF1 : WF w1) by (unfold WF; subst w1; scbn; rewrite Epc; auto).
    destruct (run_of createParticles w1 createParticles_nothrow) as [[] E1].
    change (createParticles w1) with (createParticles w1) in E1.
    pose proof (createParticles_WF w1 HWF1) as HWF2.
    pose proof (createParticles_sview w1) as Hs. fold (post createParticles w1) in Hs.
    rewrite E1. scbn. split.
    + destruct HWF2 as [H1 H2]. unfold WF. scbn. auto.
    + transitivity (sview (post createParticles w1)); [reflexivity |].
      rewrite Hs. reflexivity.
  - split; [unfold WF; scbn; rewrite Epc; auto | reflexivity].
Qed.

(** ** Callbacks that settle no promise *)

Lemma report_post m w : nothrow m -> report (m w) = post m w.
Proof.
  intros H. destruct (H w) as [a Ha]. unfold post.
  destruct (m w) as [[a'|e] w']; [reflexivity | discriminate].
Qed.

Lemma drain_nil w : microtasks w = [] -> drain w = upd_microtasks (fun _ => []) w.
Proof. unfold drain. intros ->. reflexivity. Qed.

Lemma qview_drain_nil w :
  microtasks w = [] -> qview (drain w) = qview w /\ microtasks (drain w) = [].
Proof.
  intros H. rewrite drain_nil by exact H.
  unfold qview, sview, fview, kview, wview, cycleTimers. proj. rewrite H. auto.
Qed.

Lemma qview_parts a b :
  qview a = qview b -> sview a = sview b /\ kview a = kview b /\ wview a = wview b.
Proof.
  unfold qview. intros H.
  exact (conj (f_equal (fun x => fst (fst x)) H)
          (conj (f_equal (fun x => snd (fst x)) H) (f_equal snd H))).
Qed.

Lemma hview_parts a b : hview a = hview b -> sview a = sview b /\ wview a = wview b.
Proof.
  unfold hview. intros H. exact (conj (f_equal fst H) (f_equal snd H)).
Qed.

Lemma sview_microtasks a b : sview a = sview b -> microtasks a = microtasks b.
Proof.
  unfold sview. intros H.
  exact (f_equal (fun x => snd (fst (fst x))) H).
Qed.

(** A callback that cannot throw and keeps the typing state leaves, once
    the (empty) microtask queue is drained, the views as they were. *)
Lemma invoke_quiet m w :
  nothrow m -> microtasks w = [] -> sview (post m w) = sview w ->
  sview (invoke m w) = sview w /\
  kview (invoke m w) = kview (post m w) /\
  wview (invoke m w) = wview (post m w).
Proof.
  intros Hn Hm Hs. unfold invoke. rewrite report_post by exact Hn.
  assert (Hm' : microtasks (post m w) = [])
    by (rewrite (sview_microtasks _ _ Hs); exact Hm).
  destruct (qview_drain_nil _ Hm') as [Hq _].
  apply qview_parts in Hq as (H1 & H2 & H3). rewrite H1, H2, H3. auto.
Qed.

(* ===================================================================== *)
(** * init                                                                *)
(* ===================================================================== *)

(** The components of an equation between core views. *)
Ltac core_parts H :=
  unfold V_core in H;
  injection H as ? ? ? ? ? ? ? ? ? ? ? ? ? ? ? ? ? ? ? ?.

Lemma initTypingAnimation_nothrow : nothrow initTypingAnimation.
Proof. unfold initTypingAnimation. nothrow_go. Qed.

Lemma initTypingAnimation_spec w :
  exists w',
    initTypingAnimation w = (Normal tt, w') /\
    uview w' = uview w /\ kview w' = kview w /\ wview w' = wview w /\
    isInitialized (pm w') = isInitialized (pm w) /\
    handlers (pm w') = handlers (pm w) /\ win w' = win w /\
    clock w' = clock w /\
    CycleStarted w w'.
Proof.
  unfold initTypingAnimation, async, try_catch. unfold bind at 1.
  destruct (run_of (getElement "typingText" true) w (getElement_nothrow _ _)) as [o E].
  pose proof (getElement_core "typingText" true w) as Hc.
  pose proof (getElement_wview "typingText" true ltac:(discriminate) w) as Hw.
  fold (post (getElement "typingText" true) w) in Hc, Hw.
  rewrite E. set (w1 := post (getElement "typingText" true) w) in *.
  core_parts Hc.
  destruct o as [e|]; cbn [isNull]; exec.
  - eexists. split; [reflexivity |].
    unfold uview, kview, wview, CycleStarted, cycleTimers in *. scbn.
    injection Hw as Hw1 Hw2.
    repeat split; try congruence.
    right. split; [congruence |].
    exists (nextId w1), (Cfg.initialDelay (Cfg.typing (config (pm w1)))).
    rewrite cycleTimers_app_cycle by reflexivity. congruence.
  - exists w1. split; [reflexivity |].
    unfold uview, kview, wview, CycleStarted, cycleTimers in *.
    injection Hw as Hw1 Hw2.
    repeat split; try congruence. left. split; congruence.
Qed.

(** Running one page method inside a sequence: it ends normally, keeps the
    core view and the cache fact. *)
Ltac page_step m Hn Hc :=
  match goal with
  | |- context [bind m ?k ?w0] =>
      let E := fresh "E" in
      let C := fresh "C" in
      destruct (run_of m w0 Hn) as [[] E];
      pose proof (Hc w0) as C; cbv beta in C; fold (post m w0) in C;
      rewrite (bind_exec _ _ _ _ _ E); cbv beta
  end.

Lemma core_uview w w' : V_core w' = V_core w -> uview w' = uview w.
Proof. unfold uview. intros H. core_parts H. congruence. Qed.

Lemma core_win w w' : V_core w' = V_core w -> win w' = win w.
Proof. intros H. core_parts H. congruence. Qed.

#[local] Opaque revealOnScroll updateNavbar createParticles initAOS
  initPerformanceMonitoring initSmoothScrolling initContactForm initCardEffects
  initTypingAnimation.

Lemma CycleStarted_ext a b a' b' :
  activeAnimations (pm a) = activeAnimations (pm a') ->
  cycleTimers a = cycleTimers a' -> clock a = clock a' ->
  activeAnimations (pm b') = activeAnimations (pm b) ->
  cycleTimers b' = cycleTimers b ->
  CycleStarted a b -> CycleStarted a' b'.
Proof.
  unfold CycleStarted. intros -> -> -> -> ->. auto.
Qed.

Lemma initSetup_spec w :
  exists w',
    initSetup w = (Normal tt, w') /\ InitRel w w' /\ (WF w -> WF w').
Proof.
  unfold initSetup.
  page_step initPerformanceMonitoring initPerformanceMonitoring_nothrow
    initPerformanceMonitoring_core.
  pose proof (initPerformanceMonitoring_wview w) as W1. cbv beta in W1.
  fold (post initPerformanceMonitoring w) in W1.
  set (w1 := post initPerformanceMonitoring w) in *. clearbody w1.
  page_step createParticles createParticles_nothrow createParticles_core.
  pose proof (createParticles_WF w1) as W2.
  set (w2 := post createParticles w1) in *. clearbody w2.
  page_step initAOS initAOS_nothrow initAOS_core.
  pose proof (initAOS_wview w2) as W3. cbv beta in W3.
  fold (post initAOS w2) in W3.
  set (w3 := post initAOS w2) in *. clearbody w3.
  destruct (initTypingAnimation_spec w3)
    as (w4 & E4 & U4 & K4 & W4 & I4 & H4 & Win4 & Clk4 & S4).
  rewrite (bind_exec _ _ _ _ _ E4); cbv beta.
  page_step initSmoothScrolling initSmoothScrolling_nothrow initSmoothScrolling_core.
  pose proof (initSmoothScrolling_wview w4) as W5. cbv beta in W5.
  fold (post initSmoothScrolling w4) in W5.
  set (w5 := post initSmoothScrolling w4) in *. clearbody w5.
  page_step initContactForm initContactForm_nothrow initContactForm_core.
  pose proof (initContactForm_wview w5) as W6. cbv beta in W6.
  fold (post initContactForm w5) in W6.
  set (w6 := post initContactForm w5) in *. clearbody w6.
  page_step initCardEffects initCardEffects_nothrow initCardEffects_core.
  pose proof (initCardEffects_wview w6) as W7. cbv beta in W7.
  fold (post initCardEffects w6) in W7.
  set (w7 := post initCardEffects w6) in *. clearbody w7.
  exec.
  match goal with |- context [revealOnScroll ?x] => set (w8 := x) end.
  destruct (run_of revealOnScroll w8 revealOnScroll_nothrow) as [[] E8].
  pose proof (revealOnScroll_core w8) as C8. cbv beta in C8.
  fold (post revealOnScroll w8) in C8.
  pose proof (revealOnScroll_wview w8) as W8. cbv beta in W8.
  fold (post revealOnScroll w8) in W8.
  rewrite E8. set (w9 := post revealOnScroll w8) in *. clearbody w9.
  destruct (run_of updateNavbar w9 updateNavbar_nothrow) as [[] E9].
  pose proof (updateNavbar_core w9) as C9. cbv beta in C9.
  fold (post updateNavbar w9) in C9.
  pose proof (updateNavbar_wview w9) as W9. cbv beta in W9.
  fold (post updateNavbar w9) in W9.
  rewrite E9. set (w10 := post updateNavbar w9) in *. clearbody w10.
  eexists. split; [reflexivity |].
  assert (U7 : uview w7 = uview w /\ kview w7 = kview w /\ win w7 = win w /\
               clock w3 = clock w).
  { pose proof (core_uview _ _ C) as ?. pose proof (core_uview _ _ C0) as ?.
    pose proof (core_uview _ _ C1) as ?. pose proof (core_uview _ _ C2) as ?.
    pose proof (core_uview _ _ C3) as ?. pose proof (core_uview _ _ C4) as ?.
    pose proof (core_kview _ _ C) as ?. pose proof (core_kview _ _ C0) as ?.
    pose proof (core_kview _ _ C1) as ?. pose proof (core_kview _ _ C2) as ?.
    pose proof (core_kview _ _ C3) as ?. pose proof (core_kview _ _ C4) as ?.
    pose proof (core_win _ _ C) as ?. pose proof (core_win _ _ C0) as ?.
    pose proof (core_win _ _ C1) as ?. pose proof (core_win _ _ C2) as ?.
    pose proof (core_win _ _ C3) as ?. pose proof (core_win _ _ C4) as ?.
    core_parts C. core_parts C0. core_parts C1.
    repeat split; congruence. }
  destruct U7 as (U7 & K7 & Win7 & Clk3).
  split; [| intros HWF].
  - unfold InitRel.
    pose proof (core_uview _ _ C8) as U8. pose proof (core_uview _ _ C9) as U9.
    pose proof (core_kview _ _ C8) as K8. pose proof (core_kview _ _ C9) as K9.
    pose proof (core_win _ _ C8) as Win8. pose proof (core_win _ _ C9) as Win9.
    core_parts C8. core_parts C9.
    split; [| split; [| split; [| split]]].
    + transitivity (uview w10); [reflexivity |]. rewrite U9, U8.
      transitivity (uview w7); [reflexivity | exact U7].
    + transitivity (kview w10); [reflexivity |]. rewrite K9, K8.
      transitivity (kview w7); [reflexivity | exact K7].
    + reflexivity.
    + exists (nextId w7), (S (nextId w7)). scbn.
      split; [subst w8; cbn -[lookup insert] in *; congruence |].
      rewrite Win9, Win8. subst w8. scbn. rewrite Win7. auto.
    + assert (Hact : activeAnimations (pm w10) = activeAnimations (pm w4) /\
                     cycleTimers w10 = cycleTimers w4).
      { core_parts C2. core_parts C3. core_parts C4.
        unfold cycleTimers. subst w8. cbn -[lookup insert] in *. split; congruence. }
      assert (Hpre : activeAnimations (pm w3) = activeAnimations (pm w) /\
                     cycleTimers w3 = cycleTimers w).
      { core_parts C. core_parts C0. core_parts C1.
        unfold cycleTimers. split; congruence. }
      destruct Hact as [Ha1 Ha2], Hpre as [Hp1 Hp2].
      apply (CycleStarted_ext w3 w4); try assumption; exact S4.
  - assert (HW7 : WF w7).
    { apply (wview_WF _ _ W7), (wview_WF _ _ W6), (wview_WF _ _ W5).
      apply (wview_WF _ _ W4), (wview_WF _ _ W3), W2, (wview_WF _ _ W1), HWF. }
    assert (HW10 : WF w10).
    { apply (wview_WF _ _ W9), (wview_WF _ _ W8). subst w8.
      destruct HW7 as [H1 H2]. unfold WF. scbn. auto. }
    destruct HW10 as [H1 H2]. unfold WF. scbn. auto.
Qed.

#[local] Opaque initSetup.

Lemma init_initialized w :
  isInitialized (pm w) = true ->
  init w = (Normal tt,
            upd_console (fun c => c ++ [Warn "Portfolio already initialized"]) w).
Proof. intros H. unfold init, init_with. exec. rewrite H. reflexivity. Qed.

Lemma init_fresh w :
  isInitialized (pm w) = false ->
  exists w', init w = (Normal tt, w') /\ InitRel w w' /\ (WF w -> WF w').
Proof.
  intros H. unfold init, init_with. exec. rewrite H. scbn.
  match goal with |- context [initSetup ?x] =>
    destruct (initSetup_spec x) as (w' & E & HR & HW) end.
  rewrite E. exists w'. split; [reflexivity |]. split; [exact HR |].
  intros HWF. apply HW. exact HWF.
Qed.

(** [init] around any setup sequence: it returns normally, and an exception
    of the sequence ends up in the console. *)
Lemma init_with_nothrow setup : nothrow (init_with setup).
Proof. unfold init_with. nothrow_go. Qed.

Lemma init_with_caught setup w e w1 :
  isInitialized (pm w) = false ->
  setup (upd_console (fun c => c ++ [Log "Initializing Portfolio..."]) w) = (Thrown e, w1) ->
  init_with setup w =
  (Normal tt,
   upd_console (fun c => c ++ [ErrorLog "Failed to initialize portfolio:" e]) w1).
Proof.
  intros H E. unfold init_with. exec. rewrite H. scbn. rewrite E. reflexivity.
Qed.

Lemma init_nothrow : nothrow init.
Proof. apply init_with_nothrow. Qed.

#[local] Transparent revealOnScroll updateNavbar createParticles initAOS
  initPerformanceMonitoring initSmoothScrolling initContactForm initCardEffects
  initTypingAnimation initSetup.

(* ===================================================================== *)
(** * The callbacks of the typing cycle                                   *)
(* ===================================================================== *)

Ltac views := unfold sview, fview, kview, wview, uview, cycleTimers; proj.

(** [runCycle] does nothing, or takes a new controller and then either
    suspends a reveal under it or (the controller already aborted, the text
    empty) at most schedules the pause. *)
Lemma runCycle_spec a i w :
  exists w',
    runCycle a i w = (Normal tt, w') /\
    fview w' = fview w /\ kview w' = kview w /\ wview w' = wview w /\
    microtasks w' = microtasks w /\
    (sview w' = sview w \/
     (isDestroyed (pm w) = false /\ loops w' = loops w /\
      abortListeners w' = abortListeners w /\
      (cycleTimers w' = cycleTimers w \/
       exists tm, cycleTimers w' = cycleTimers w ++ [tm])) \/
     (isDestroyed (pm w) = false /\
      exists l, loops w' = loops w ++ [l] /\
                typingController (pm w') = Some (lp_ctrl l) /\
                abortListeners w' = abortListeners w ++ [(lp_ctrl l, lp_await l)] /\
                (lp_ctrl l ∉ abortedSignals w) /\
                cycleTimers w' = cycleTimers w)).
Proof.
  unfold runCycle, typeWriter, typeWriterLoop, runCycleAfter.
  set (text := nth i texts EmptyString). clearbody text.
  exec. destruct (isDestroyed (pm w)) eqn:Hd; scbn.
  { exists w. repeat split; auto. }
  destruct (bool_decide (a ∈ activeAnimations (pm w))) eqn:Ha; scbn.
  2: { exists w. repeat split; auto. }
  rewrite Hd. scbn.
  destruct (0 <? String.length text)%nat eqn:Hlen; scbn.
  - destruct (bool_decide (nextId w ∈ abortedSignals w)) eqn:Hab; scbn.
    + eexists. split; [reflexivity |]. views.
      do 4 (split; [reflexivity |]). right. left. auto.
    + rewrite Hd. scbn. eexists. split; [reflexivity |]. views.
      do 4 (split; [reflexivity |]). right. right. split; [reflexivity |].
      eexists. split; [reflexivity |]. scbn.
      apply bool_decide_eq_false in Hab.
      rewrite cycleTimers_app_other by reflexivity. auto.
  - rewrite Hd. scbn. eexists. split; [reflexivity |]. views.
    do 4 (split; [reflexivity |]). right. left.
    split; [reflexivity |]. split; [reflexivity |]. split; [reflexivity |].
    right. eexists. apply cycleTimers_app_cycle. reflexivity.
Qed.

Lemma startCallback_spec a w :
  exists w',
    startCallback a w = (Normal tt, w') /\
    fview w' = fview w /\ kview w' = kview w /\ wview w' = wview w /\
    microtasks w' = microtasks w /\
    (sview w' = sview w \/
     (isDestroyed (pm w) = false /\ loops w' = loops w /\
      abortListeners w' = abortListeners w /\
      (cycleTimers w' = cycleTimers w \/
       exists tm, cycleTimers w' = cycleTimers w ++ [tm])) \/
     (isDestroyed (pm w) = false /\
      exists l, loops w' = loops w ++ [l] /\
                typingController (pm w') = Some (lp_ctrl l) /\
                abortListeners w' = abortListeners w ++ [(lp_ctrl l, lp_await l)] /\
                (lp_ctrl l ∉ abortedSignals w) /\
                cycleTimers w' = cycleTimers w)).
Proof.
  unfold startCallback. unfold bind, get.
  destruct (negb (isDestroyed (pm w))); [apply runCycle_spec |].
  exists w. repeat split; auto.
Qed.

Lemma pauseCallback_spec a i w :
  exists w',
    pauseCallback a i w = (Normal tt, w') /\
    fview w' = fview w /\ kview w' = kview w /\ wview w' = wview w /\
    microtasks w' = microtasks w /\
    (sview w' = sview w \/
     (isDestroyed (pm w) = false /\ loops w' = loops w /\
      abortListeners w' = abortListeners w /\
      (cycleTimers w' = cycleTimers w \/
       exists tm, cycleTimers w' = cycleTimers w ++ [tm])) \/
     (isDestroyed (pm w) = false /\
      exists l, loops w' = loops w ++ [l] /\
                typingController (pm w') = Some (lp_ctrl l) /\
                abortListeners w' = abortListeners w ++ [(lp_ctrl l, lp_await l)] /\
                (lp_ctrl l ∉ abortedSignals w) /\
                cycleTimers w' = cycleTimers w)).
Proof.
  unfold pauseCallback. unfold bind, get.
  destruct (negb (isDestroyed (pm w)) && _); [apply runCycle_spec |].
  exists w. repeat split; auto.
Qed.

(** ** A reveal wait ends *)

Lemma settle_spec id b w :
  microtasks w = [] ->
  settle id b w =
  (Normal tt,
   if bool_decide (Exists (fun l => lp_await l = id) (loops w))
   then upd_microtasks (fun _ => [(id, b)]) w else w).
Proof.
  intros Hm. unfold settle. exec. rewrite Hm.
  destruct (bool_decide (Exists (fun l => lp_await l = id) (loops w))); scbn;
    [| reflexivity].
  unfold upd_microtasks. rewrite Hm. reflexivity.
Qed.

Lemma find_exists (ls : list Loop) id :
  Exists (fun l => lp_await l = id) ls ->
  exists l, List.find (fun l => Nat.eqb (lp_await l) id) ls = Some l.
Proof.
  intros H. induction H as [l ls Hl | l ls _ IH]; simpl.
  - rewrite (proj2 (Nat.eqb_eq _ _) Hl). eauto.
  - destruct (Nat.eqb (lp_await l) id); eauto.
Qed.

(** The resolved reveal writes its next character and waits again, or it
    is over: stopped by the destroyed flag, or complete, in which case the
    pause before the next text is scheduled unless the controller is
    destroyed. *)
Lemma resolve_spec id w :
  microtasks w = [] ->
  let w' := invoke (settle id true) w in
  fview w' = fview w /\ kview w' = kview w /\ wview w' = wview w /\
  microtasks w' = [] /\ typingController (pm w') = typingController (pm w) /\
  (sview w' = sview w \/
   exists l, l ∈ loops w /\ lp_await l = id /\
     ((loops w' = filter (fun l' => lp_await l' <> id) (loops w) /\
       abortListeners w' = abortListeners w /\
       (cycleTimers w' = cycleTimers w \/
        (isDestroyed (pm w) = false /\
         exists tm, cycleTimers w' = cycleTimers w ++ [tm]))) \/
      (isDestroyed (pm w) = false /\
       exists l', loops w' = filter (fun l' => lp_await l' <> id) (loops w) ++ [l'] /\
                  lp_ctrl l' = lp_ctrl l /\
                  abortListeners w' = abortListeners w ++ [(lp_ctrl l', lp_await l')] /\
                  (lp_ctrl l ∉ abortedSignals w) /\
                  cycleTimers w' = cycleTimers w))).
Proof.
  intros Hm. unfold invoke. rewrite settle_spec by exact Hm. cbn [report].
  destruct (bool_decide (Exists (fun l => lp_await l = id) (loops w))) eqn:Hex.
  2: { rewrite drain_nil by exact Hm. cbv zeta. views. rewrite Hm.
       repeat split; auto. }
  apply bool_decide_eq_true in Hex.
  destruct (find_exists _ _ Hex) as [l Hfind].
  pose proof (find_some_await _ _ _ Hfind) as [Hin Hawait].
  unfold drain. cbn [microtasks upd_microtasks runMicrotasks].
  unfold runMicrotask. exec. rewrite Hfind. scbn.
  unfold typeWriterResume, typeWriterLoop, runCycleAfter. exec.
  destruct (S (lp_i l) <? String.length (lp_text l))%nat eqn:Hlen; scbn.
  - destruct (bool_decide (lp_ctrl l ∈ abortedSignals w)) eqn:Hab; scbn.
    + views. do 5 (split; [reflexivity |]). right. exists l.
      split; [apply list_elem_of_In; exact Hin |]. split; [exact Hawait |].
      left. auto.
    + destruct (isDestroyed (pm w)) eqn:Hd; scbn.
      * views. rewrite Hd. do 5 (split; [reflexivity |]). right. exists l.
        split; [apply list_elem_of_In; exact Hin |]. split; [exact Hawait |].
        left. auto.
      * views. rewrite Hd. do 5 (split; [reflexivity |]). right. exists l.
        split; [apply list_elem_of_In; exact Hin |]. split; [exact Hawait |].
        right. split; [reflexivity |]. eexists. split; [reflexivity |]. scbn.
        apply bool_decide_eq_false in Hab.
        rewrite cycleTimers_app_other by reflexivity. auto.
  - destruct (isDestroyed (pm w)) eqn:Hd; scbn.
    + views. rewrite Hd. do 5 (split; [reflexivity |]). right. exists l.
      split; [apply list_elem_of_In; exact Hin |]. split; [exact Hawait |].
      left. auto.
    + views. rewrite Hd. do 5 (split; [reflexivity |]). right. exists l.
      split; [apply list_elem_of_In; exact Hin |]. split; [exact Hawait |].
      left. split; [reflexivity |]. split; [reflexivity |].
      right. split; [reflexivity |]. eexists. apply cycleTimers_app_cycle. reflexivity.
Qed.

(* ===================================================================== *)
(** * Invariants read off the views                                       *)
(* ===================================================================== *)

Lemma sview_parts a b :
  sview a = sview b ->
  fview a = fview b /\ typingController (pm a) = typingController (pm b) /\
  abortListeners a = abortListeners b /\ loops a = loops b /\
  microtasks a = microtasks b /\ cycleTimers a = cycleTimers b /\
  typingText (dom a) = typingText (dom b).
Proof.
  unfold sview. intros H. injection H as H1 H2 H3 H4 H5 H6 H7.
  repeat split; try assumption.
  unfold fview. congruence.
Qed.

Lemma fview_parts a b :
  fview a = fview b ->
  isInitialized (pm a) = isInitialized (pm b) /\
  isDestroyed (pm a) = isDestroyed (pm b) /\
  activeAnimations (pm a) = activeAnimations (pm b) /\
  handlers (pm a) = handlers (pm b) /\
  scrollListeners (win a) = scrollListeners (win b) /\
  resizeListeners (win a) = resizeListeners (win b) /\
  abortedSignals a = abortedSignals b.
Proof.
  unfold fview. intros H. injection H as H1 H2 H3 H4 H5 H6 H7 H8. auto 10.
Qed.

Lemma LoopsOK_view a b :
  microtasks a = microtasks b -> loops a = loops b ->
  abortListeners a = abortListeners b -> abortedSignals a = abortedSignals b ->
  LoopsOK b -> LoopsOK a.
Proof. unfold LoopsOK. intros -> -> -> ->. auto. Qed.

Lemma LoopsOK_sview a b : sview a = sview b -> LoopsOK b -> LoopsOK a.
Proof.
  intros H. apply sview_parts in H as (Hf & _ & ? & ? & ? & _).
  apply fview_parts in Hf as (_ & _ & _ & _ & _ & _ & ?).
  apply LoopsOK_view; assumption.
Qed.

Lemma TickOK_kview a b : kview a = kview b -> TickOK b -> TickOK a.
Proof.
  unfold kview, TickOK, scrollFrames. intros H. injection H as -> ->. auto.
Qed.

Lemma ListenersOK_fview a b : fview a = fview b -> ListenersOK b -> ListenersOK a.
Proof.
  intros H. apply fview_parts in H as (H1 & _ & _ & H2 & H3 & H4 & _).
  unfold ListenersOK. rewrite H1, H2, H3, H4. auto.
Qed.

Lemma Sequential_sview a b : sview a = sview b -> Sequential b -> Sequential a.
Proof.
  intros H. apply sview_parts in H as (Hf & H1 & _ & H2 & _ & H3 & _).
  apply fview_parts in Hf as (H4 & H5 & H6 & _).
  unfold Sequential. rewrite H1, H2, H3, H4, H5, H6. auto.
Qed.


Lemma Good_views a b :
  sview a = sview b -> kview a = kview b -> wview a = wview b ->
  Good b -> Good a.
Proof.
  intros Hs Hk Hw (H1 & H2 & H3 & H4). split; [| split; [| split]].
  - eapply wview_WF; eassumption.
  - eapply LoopsOK_sview; eassumption.
  - eapply TickOK_kview; eassumption.
  - eapply ListenersOK_fview; [| eassumption].
    apply sview_parts in Hs as [Hf _]. exact Hf.
Qed.

(* ===================================================================== *)
(** * Events that leave the typing state alone                            *)
(* ===================================================================== *)

(** A callback that cannot throw and keeps all three views. *)
Lemma invoke_qview m w :
  nothrow m -> keeps qview m -> microtasks w = [] ->
  qview (invoke m w) = qview w.
Proof.
  intros Hn Hk Hm. pose proof (Hk w) as Hq. cbv beta in Hq.
  fold (post m w) in Hq. apply qview_parts in Hq as (Hs & Hk' & Hw).
  destruct (invoke_quiet m w Hn Hm Hs) as (H1 & H2 & H3).
  unfold qview. rewrite H1, H2, H3, Hk', Hw. reflexivity.
Qed.

Lemma qview_microtasks a b : qview a = qview b -> microtasks a = microtasks b.
Proof. intros H. apply qview_parts in H as [H _]. apply sview_microtasks, H. Qed.

Lemma iter_invoke_qview m n w :
  nothrow m -> keeps qview m -> microtasks w = [] ->
  qview (Nat.iter n (invoke m) w) = qview w.
Proof.
  intros Hn Hk Hm. induction n as [|n IH]; [reflexivity |].
  rewrite Nat.iter_succ. rewrite invoke_qview; try assumption.
  rewrite (qview_microtasks _ _ IH). exact Hm.
Qed.

(** ** Window events *)

Lemma listenerCallback_nothrow l : nothrow (listenerCallback l).
Proof.
  unfold listenerCallback. destruct (l_callback l);
    [apply handleScroll_nothrow | apply handleResize_nothrow | apply nothrow_ret].
Qed.

Lemma listenerCallback_hview l : keeps hview (listenerCallback l).
Proof.
  unfold listenerCallback. destruct (l_callback l);
    [apply handleScroll_views | apply handleResize_views |].
  apply steps_ret. apply _.
Qed.

Lemma listenerCallback_TickOK l w :
  TickOK w -> TickOK (post (listenerCallback l) w).
Proof.
  unfold listenerCallback. destruct (l_callback l);
    [apply handleScroll_TickOK | apply handleResize_TickOK | auto].
Qed.

(** Dispatching an event to the window's listeners keeps the typing state
    and the cache, and the ticking flag stays in step with the frames. *)
Lemma dispatch_spec ls : forall w,
  microtasks w = [] -> TickOK w ->
  let w' := fold_left (fun w' l => invoke (listenerCallback l) w') ls w in
  hview w' = hview w /\ TickOK w'.
Proof.
  induction ls as [|l ls IH]; intros w Hm Ht; cbn [fold_left]; [auto |].
  pose proof (listenerCallback_hview l w) as Hh. cbv beta in Hh.
  fold (post (listenerCallback l) w) in Hh.
  apply hview_parts in Hh as [Hs Hw].
  destruct (invoke_quiet _ w (listenerCallback_nothrow l) Hm Hs) as (H1 & H2 & H3).
  set (w1 := invoke (listenerCallback l) w) in *.
  assert (Hm1 : microtasks w1 = []) by (rewrite (sview_microtasks _ _ H1); exact Hm).
  assert (Ht1 : TickOK w1).
  { apply (TickOK_kview _ _ H2), listenerCallback_TickOK, Ht. }
  destruct (IH w1 Hm1 Ht1) as [Hh' Ht']. split; [| exact Ht'].
  apply hview_parts in Hh' as [Hs' Hw']. unfold hview.
  rewrite Hs', Hw', H1, H3, Hw. reflexivity.
Qed.

(** ** Animation frames *)

Lemma frameCallback_nothrow cb : nothrow (frameCallback cb).
Proof.
  destruct cb; [apply scrollFrame_nothrow | apply resizeFrame_nothrow].
Qed.

Lemma frames_spec cbs : forall w,
  WF w -> microtasks w = [] -> frames w = [] ->
  let w' := fold_left (fun w' cb => invoke (frameCallback cb) w') cbs w in
  sview w' = sview w /\ WF w' /\ frames w' = [] /\
  (scrollTicking (pm w') = true -> scrollTicking (pm w) = true /\ FScroll ∉ cbs).
Proof.
  induction cbs as [|cb cbs IH]; intros w HWF Hm Hf; cbn [fold_left].
  { split; [reflexivity |]. split; [exact HWF |]. split; [exact Hf |].
    intros H. split; [exact H | apply not_elem_of_nil]. }
  assert (Hpost : sview (post (frameCallback cb) w) = sview w /\
                  WF (post (frameCallback cb) w) /\
                  frames (post (frameCallback cb) w) = frames w /\
                  (scrollTicking (pm (post (frameCallback cb) w)) = true ->
                   scrollTicking (pm w) = true /\ cb <> FScroll)).
  { destruct cb; cbn [frameCallback].
    - split; [apply scrollFrame_sview |].
      split; [apply (wview_WF _ _ (scrollFrame_wview w)), HWF |].
      split; [apply scrollFrame_frames |].
      rewrite scrollFrame_ticking. discriminate.
    - destruct (resizeFrame_WF w HWF) as [H1 H2].
      pose proof (resizeFrame_kview w) as Hk. cbv beta in Hk.
      unfold kview in Hk. injection Hk as Hk1 Hk2.
      split; [exact H2 |]. split; [exact H1 |]. split; [exact Hk2 |].
      unfold post. rewrite Hk1. intros ->. split; [reflexivity | discriminate]. }
  destruct Hpost as (Hs & HWF1 & Hf1 & Ht1).
  destruct (invoke_quiet _ w (frameCallback_nothrow cb) Hm Hs) as (H1 & H2 & H3).
  set (w1 := invoke (frameCallback cb) w) in *.
  unfold kview in H2. injection H2 as H2a H2b.
  assert (Hm1 : microtasks w1 = []) by (rewrite (sview_microtasks _ _ H1); exact Hm).
  assert (HWF2 : WF w1) by (apply (wview_WF _ _ H3), HWF1).
  assert (Hf2 : frames w1 = []) by congruence.
  destruct (IH w1 HWF2 Hm1 Hf2) as (Hs' & HWF' & Hf' & Ht').
  split; [congruence |]. split; [exact HWF' |]. split; [exact Hf' |].
  intros Htrue. destruct (Ht' Htrue) as [Ht1' Hnin]. rewrite H2a in Ht1'.
  destruct (Ht1 Ht1') as [Ht0 Hne]. split; [exact Ht0 |].
  rewrite not_elem_of_cons. split; [congruence | exact Hnin].
Qed.

Lemma scrollFrames_one (l : list FrameCb) :
  length (filter (fun cb => cb = FScroll) l) = 1%nat -> FScroll ∈ l.
Proof.
  induction l as [|cb l IH]; [discriminate |].
  destruct (decide (cb = FScroll)) as [->|Hne]; [intros _; left |].
  rewrite filter_cons_False by exact Hne. intros H. right. apply IH, H.
Qed.

Lemma frame_event_spec w :
  WF w -> microtasks w = [] -> TickOK w ->
  sview (step EvFrame w) = sview w /\ WF (step EvFrame w) /\
  frames (step EvFrame w) = [] /\ scrollTicking (pm (step EvFrame w)) = false.
Proof.
  intros HWF Hm Ht. cbn [step].
  destruct (frames_spec (frames w) (upd_frames (fun _ => []) w))
    as (Hs & HWF' & Hf & Htick); try assumption; try reflexivity.
  split; [exact Hs |]. split; [exact HWF' |]. split; [exact Hf |].
  destruct (scrollTicking (pm (fold_left _ _ _))) eqn:E; [| reflexivity].
  destruct (Htick eq_refl) as [Ht0 Hnin]. cbn in Ht0.
  unfold TickOK, scrollFrames in Ht. rewrite Ht0 in Ht.
  apply scrollFrames_one in Ht. contradiction.
Qed.

(* ===================================================================== *)
(** * Every event keeps the world good                                    *)
(* ===================================================================== *)

Lemma controllerListeners_remove cb ls :
  controllerListeners (removeListener cb ls) =
  filter (fun l => ~ sameListener cb false l) (controllerListeners ls).
Proof.
  unfold controllerListeners, removeListener.
  rewrite !list_filter_filter. apply list_filter_iff. intros l. tauto.
Qed.

Lemma controllerListeners_removeHandler_nil h ls :
  controllerListeners ls = [] -> controllerListeners (removeHandler h ls) = [].
Proof.
  intros H. destruct h as [cb|]; cbn [removeHandler]; [| exact H].
  rewrite controllerListeners_remove, H. reflexivity.
Qed.

Lemma controllerListeners_removeHandler_own cb ls :
  controllerListeners ls = [passiveListener cb] ->
  controllerListeners (removeHandler (Some cb) ls) = [].
Proof.
  intros H. cbn [removeHandler]. rewrite controllerListeners_remove, H.
  apply filter_singleton_False; [exact [] |].
  intros Hn. apply Hn. split; reflexivity.
Qed.

Lemma controllerListeners_add cb ls :
  isForeign cb = false -> controllerListeners ls = [] ->
  controllerListeners (addListener (passiveListener cb) ls) = [passiveListener cb].
Proof.
  intros Hcb Hnil. unfold addListener.
  destruct (decide (Exists _ ls)) as [Hex|_].
  - exfalso. apply Exists_exists in Hex as (l & Hl & Hc & _). cbn in Hc.
    assert (Hin : l ∈ controllerListeners ls).
    { apply list_elem_of_filter. split; [rewrite Hc; exact Hcb | exact Hl]. }
    rewrite Hnil in Hin. apply elem_of_nil in Hin as [].
  - unfold controllerListeners in *. rewrite filter_app, Hnil.
    rewrite filter_cons_True by exact Hcb. reflexivity.
Qed.

Lemma Good_microtasks w : Good w -> microtasks w = [].
Proof. intros (_ & [H _] & _). exact H. Qed.

Lemma LoopsOK_grow w w' l :
  LoopsOK w -> microtasks w' = [] -> abortedSignals w' = abortedSignals w ->
  loops w' = loops w ++ [l] ->
  abortListeners w' = abortListeners w ++ [(lp_ctrl l, lp_await l)] ->
  lp_ctrl l ∉ abortedSignals w ->
  LoopsOK w'.
Proof.
  intros [Hm Hall] Hm' Hab Hl Hal Hnin. split; [exact Hm' |].
  rewrite Hl, Hal, Hab. apply Forall_app. split.
  - eapply Forall_impl; [exact Hall |]. intros x [H1 H2]. cbv beta.
    split; [apply elem_of_app; left; exact H1 | exact H2].
  - apply Forall_singleton. split; [apply elem_of_app; right; left | exact Hnin].
Qed.

Lemma LoopsOK_shrink w w' (P : Loop -> Prop) `{forall l, Decision (P l)} :
  LoopsOK w -> microtasks w' = [] -> abortedSignals w' = abortedSignals w ->
  loops w' = filter P (loops w) -> abortListeners w' = abortListeners w ->
  LoopsOK w'.
Proof.
  intros [Hm Hall] Hm' Hab Hl Hal. split; [exact Hm' |].
  rewrite Hl, Hal, Hab. apply Forall_forall. intros x Hx.
  apply list_elem_of_filter in Hx as [_ Hx].
  rewrite Forall_forall in Hall. apply Hall, Hx.
Qed.

Lemma Good_init w : Good w -> Good (step EvInit w).
Proof.
  intros HG. pose proof HG as (HWF & HL & HT & HLis).
  pose proof (Good_microtasks w HG) as Hm. cbn [step]. unfold invoke.
  rewrite (report_post _ _ init_nothrow). unfold post.
  destruct (isInitialized (pm w)) eqn:Hi.
  - rewrite (init_initialized w Hi). cbn [snd].
    rewrite drain_nil by exact Hm.
    eapply Good_views; [| | | exact HG]; views; rewrite ?Hm; reflexivity.
  - destruct (init_fresh w Hi) as (w' & E & (HU & HK & Hi' & (n & n' & Hh & Hs & Hr) & _) & HW).
    rewrite E. cbn [snd].
    assert (Hm' : microtasks w' = []).
    { unfold uview in HU. injection HU as _ _ _ _ _ _ Hq _. congruence. }
    rewrite drain_nil by exact Hm'.
    split; [| split; [| split]].
    + destruct (HW HWF) as [H1 H2]. unfold WF. proj. auto.
    + unfold uview in HU. injection HU as _ _ Hab _ Hal Hlp _ _.
      eapply (LoopsOK_view _ w); [| | | | exact HL]; proj; congruence.
    + eapply TickOK_kview; [| exact HT]. rewrite <- HK. reflexivity.
    + unfold ListenersOK in *. proj. rewrite Hi', Hi in *. destruct HLis as [H1 H2].
      exists (BoundHandleScroll n), (BoundHandleResize n').
      split; [exact Hh |]. split; [reflexivity |]. split; [reflexivity |].
      rewrite Hs, Hr. split; apply controllerListeners_add; auto.
Qed.

Lemma Good_destroy w : Good w -> Good (step EvDestroy w).
Proof.
  intros HG. pose proof HG as (HWF & HL & HT & HLis).
  pose proof (Good_microtasks w HG) as Hm. cbn [step]. unfold invoke.
  destruct (destroy_exec w) as (wa & E & Hab & (q & Hq & Hrej) & _ & Hown).
  rewrite E. cbn [report]. unfold drain.
  assert (Hmq : microtasks (destroyed w wa) = q) by (cbn; rewrite Hq, Hm; reflexivity).
  rewrite Hmq, runMicrotasks_rejected by exact Hrej.
  split; [| split; [| split]].
  - destruct HWF as [_ H2]. unfold WF. cbn. rewrite lookup_empty. auto.
  - destruct HL as [_ Hall]. split; [reflexivity |]. cbn.
    apply Forall_forall. intros l Hl. apply list_elem_of_filter in Hl as [Hnq Hl].
    rewrite Forall_forall in Hall. destruct (Hall l Hl) as [H1 H2].
    split; [exact H1 |]. rewrite Hab.
    destruct (typingController (pm w)) as [c|] eqn:Htc; [| exact H2].
    intros Hin. apply elem_of_union in Hin as [Hin|Hin]; [| contradiction].
    apply elem_of_singleton in Hin.
    assert (Hc : c ∉ abortedSignals w) by congruence.
    destruct (Hown c eq_refl Hc) as [_ Hposted].
    apply Hnq. rewrite <- Hmq. cbn. apply Hposted.
    + rewrite <- Hin. exact H1.
    + apply Exists_exists. exists l. auto.
  - exact HT.
  - unfold ListenersOK in *. cbn.
    destruct (isInitialized (pm w)).
    + destruct HLis as (hs & hr & Hh & _ & _ & H1 & H2). rewrite Hh. cbn.
      split; apply controllerListeners_removeHandler_own; assumption.
    + destruct HLis as [H1 H2].
      split; apply controllerListeners_removeHandler_nil; assumption.
Qed.

Lemma Good_quiet m w :
  nothrow m -> keeps qview m -> Good w -> Good (invoke m w).
Proof.
  intros Hn Hk HG.
  pose proof (invoke_qview m w Hn Hk (Good_microtasks w HG)) as Hq.
  apply qview_parts in Hq as (Hs & Hk' & Hw).
  eapply Good_views; eassumption.
Qed.

Lemma Good_resize_callback w : Good w -> Good (invoke handleResize w).
Proof.
  intros HG. pose proof HG as (HWF & HL & HT & HLis).
  pose proof (handleResize_views w) as Hh. cbv beta in Hh.
  fold (post handleResize w) in Hh. apply hview_parts in Hh as [Hs Hw].
  destruct (invoke_quiet _ w handleResize_nothrow (Good_microtasks w HG) Hs)
    as (H1 & H2 & H3).
  split; [| split; [| split]].
  - apply (wview_WF w); [congruence | exact HWF].
  - apply (LoopsOK_sview _ w H1 HL).
  - apply (TickOK_kview _ _ H2), handleResize_TickOK, HT.
  - apply (ListenersOK_fview _ w); [| exact HLis].
    apply sview_parts in H1 as [Hf _]. exact Hf.
Qed.

(** A callback of the typing cycle that suspends at most one new reveal. *)
Lemma Good_typing w w' :
  Good w ->
  fview w' = fview w -> kview w' = kview w -> wview w' = wview w ->
  microtasks w' = microtasks w ->
  (sview w' = sview w \/
   (isDestroyed (pm w) = false /\ loops w' = loops w /\
    abortListeners w' = abortListeners w /\
    (cycleTimers w' = cycleTimers w \/
     exists tm, cycleTimers w' = cycleTimers w ++ [tm])) \/
   (isDestroyed (pm w) = false /\
    exists l, loops w' = loops w ++ [l] /\
              typingController (pm w') = Some (lp_ctrl l) /\
              abortListeners w' = abortListeners w ++ [(lp_ctrl l, lp_await l)] /\
              (lp_ctrl l ∉ abortedSignals w) /\
              cycleTimers w' = cycleTimers w)) ->
  Good (drain w').
Proof.
  intros HG Hf Hk Hw Hm Hcases. pose proof HG as (HWF & HL & HT & HLis).
  pose proof (Good_microtasks w HG) as Hm0.
  assert (Hm' : microtasks w' = []) by congruence.
  rewrite drain_nil by exact Hm'.
  pose proof (fview_parts _ _ Hf) as (_ & _ & _ & _ & _ & _ & Hab).
  split; [| split; [| split]].
  - apply (wview_WF w); [exact Hw | exact HWF].
  - destruct Hcases as [Hs | [(_ & Hl & Hal & _) | (_ & l & Hl & _ & Hal & Hnin & _)]].
    + apply (LoopsOK_sview _ w'); [views; rewrite Hm'; reflexivity |].
      apply (LoopsOK_sview _ w Hs HL).
    + eapply (LoopsOK_view _ w); [| | | | exact HL]; proj; congruence.
    + eapply (LoopsOK_grow w _ l); try exact HL; proj; try assumption; reflexivity.
  - apply (TickOK_kview _ w); [exact Hk | exact HT].
  - apply (ListenersOK_fview _ w); [exact Hf | exact HLis].
Qed.

Lemma Good_resolve id w : Good w -> Good (invoke (settle id true) w).
Proof.
  intros HG. pose proof HG as (HWF & HL & HT & HLis).
  pose proof (resolve_spec id w (Good_microtasks w HG)) as H. cbv zeta in H.
  destruct H as (Hf & Hk & Hw & Hm & Htc & Hcases).
  pose proof (fview_parts _ _ Hf) as (_ & _ & _ & _ & _ & _ & Hab).
  split; [| split; [| split]].
  - apply (wview_WF w); [exact Hw | exact HWF].
  - destruct Hcases as [Hs | (l & Hin & Hawait & [(Hl & Hal & _) | (_ & l' & Hl & Hc & Hal & Hnin & _)])].
    + apply (LoopsOK_sview _ w Hs HL).
    + eapply LoopsOK_shrink; try exact HL; eassumption.
    + destruct HL as [Hm0 Hall]. split; [exact Hm |].
      rewrite Hl, Hal, Hab. apply Forall_app. split.
      * apply Forall_forall. intros x Hx. apply list_elem_of_filter in Hx as [_ Hx].
        rewrite Forall_forall in Hall. destruct (Hall x Hx) as [H1 H2].
        split; [apply elem_of_app; left; exact H1 | exact H2].
      * apply Forall_singleton.
        split; [apply elem_of_app; right; left | rewrite Hc; exact Hnin].
  - apply (TickOK_kview _ w); [exact Hk | exact HT].
  - apply (ListenersOK_fview _ w); [exact Hf | exact HLis].
Qed.

Lemma Good_fired id w :
  Good w -> Good (upd_timers (filter (fun tm => tm_id tm <> id)) w).
Proof. intros H. exact H. Qed.

Lemma Good_timerCallback id cb w : Good w -> Good (invoke (timerCallback id cb) w).
Proof.
  intros HG. destruct cb as [a|a i| |t|t|t|]; cbn [timerCallback].
  - unfold invoke. destruct (startCallback_spec a w) as (w' & E & Hf & Hk & Hw & Hm & Hc).
    rewrite E. cbn [report]. eapply Good_typing; eassumption.
  - unfold invoke. destruct (pauseCallback_spec a i w) as (w' & E & Hf & Hk & Hw & Hm & Hc).
    rewrite E. cbn [report]. eapply Good_typing; eassumption.
  - apply Good_resolve, HG.
  - apply Good_quiet; [apply submitResume_nothrow | apply submitResume_views | exact HG].
  - apply Good_quiet; [apply submitRevert_nothrow | apply submitRevert_views | exact HG].
  - apply Good_quiet;
      [apply submitErrorRevert_nothrow | apply submitErrorRevert_views | exact HG].
  - apply Good_resize_callback, HG.
Qed.

Lemma Good_frame w : Good w -> Good (step EvFrame w).
Proof.
  intros HG. pose proof HG as (HWF & HL & HT & HLis).
  destruct (frame_event_spec w HWF (Good_microtasks w HG) HT) as (Hs & HWF' & Hf & Htick).
  split; [exact HWF' |]. split; [apply (LoopsOK_sview _ w Hs HL) |].
  split; [unfold TickOK, scrollFrames; rewrite Hf, Htick; reflexivity |].
  apply (ListenersOK_fview _ w); [| exact HLis].
  apply sview_parts in Hs as [Hf' _]. exact Hf'.
Qed.

Lemma Good_dispatch ls w :
  Good w -> Good (fold_left (fun w' l => invoke (listenerCallback l) w') ls w).
Proof.
  intros HG. pose proof HG as (HWF & HL & HT & HLis).
  destruct (dispatch_spec ls w (Good_microtasks w HG) HT) as [Hh Ht'].
  apply hview_parts in Hh as [Hs Hw].
  split; [apply (wview_WF w _ Hw HWF) |]. split; [apply (LoopsOK_sview _ w Hs HL) |].
  split; [exact Ht' |].
  apply (ListenersOK_fview _ w); [| exact HLis].
  apply sview_parts in Hs as [Hf' _]. exact Hf'.
Qed.

Lemma Good_submit n w : Good w -> Good (Nat.iter n (invoke submitHandler) w).
Proof.
  intros HG.
  pose proof (iter_invoke_qview submitHandler n w submitHandler_nothrow
                submitHandler_views (Good_microtasks w HG)) as Hq.
  apply qview_parts in Hq as (Hs & Hk & Hw). eapply Good_views; eassumption.
Qed.

Theorem step_Good ev w : Good w -> Good (step ev w).
Proof.
  intros HG. destruct ev as [| |hidden| |id| |y|width height dpr| |name value|t].
  - apply Good_init, HG.
  - apply Good_destroy, HG.
  - cbn [step]. unfold invoke, onVisibilityChange. cbn [modify report].
    rewrite drain_nil by (apply (Good_microtasks w HG)).
    destruct HG as (HWF & [Hm Hall] & HT & HLis).
    split; [exact HWF |]. split; [split; [reflexivity | exact Hall] |].
    split; [exact HT | exact HLis].
  - cbn [step].
    apply Good_quiet; [apply onOrientationChange_nothrow
                      | apply onOrientationChange_views | exact HG].
  - cbn [step]. destruct (List.find _ (timers w)) as [tm|]; [| exact HG].
    apply Good_timerCallback, Good_fired, HG.
  - apply Good_frame, HG.
  - cbn [step]. apply Good_dispatch. exact HG.
  - cbn [step]. apply Good_dispatch. exact HG.
  - cbn [step]. destruct (contactForm (dom w)); [| exact HG].
    apply Good_submit, HG.
  - exact HG.
  - exact HG.
Qed.

Lemma initialWorld_Good d v p now : pristine v -> Good (initialWorld d v p now).
Proof.
  intros [H1 H2]. split; [| split; [| split]].
  - split; left; [apply lookup_empty | reflexivity].
  - split; [reflexivity | constructor].
  - reflexivity.
  - split; assumption.
Qed.

Theorem run_Good evs : forall w, Good w -> Good (run evs w).
Proof.
  induction evs as [|ev evs IH]; intros w HG; [exact HG |].
  apply IH, step_Good, HG.
Qed.

(* ===================================================================== *)
(** * The typing cycle is sequential                                      *)
(* ===================================================================== *)

Lemma cycleTimers_fired id w :
  cycleTimers (fired id w) = filter (fun tm => tm_id tm <> id) (cycleTimers w).
Proof.
  unfold cycleTimers, fired. proj. rewrite !list_filter_filter.
  apply list_filter_iff. intros tm. tauto.
Qed.

Lemma find_timer id w tm :
  List.find (fun tm => Nat.eqb (tm_id tm) id) (timers w) = Some tm ->
  tm ∈ timers w /\ tm_id tm = id.
Proof.
  intros H. apply List.find_some in H as [Hin Heq].
  apply Nat.eqb_eq in Heq. split; [apply list_elem_of_In; exact Hin | exact Heq].
Qed.

Lemma cycle_timer_fired id w tm :
  tm ∈ timers w -> tm_id tm = id -> isCycleCb (tm_cb tm) = true ->
  (length (cycleTimers (fired id w)) < length (cycleTimers w))%nat.
Proof.
  intros Hin Hid Hc. rewrite cycleTimers_fired.
  apply (length_filter_lt _ _ tm).
  - apply list_elem_of_filter. auto.
  - intros Hne. apply Hne, Hid.
Qed.

Lemma cycleTimers_fired_le id w :
  (length (cycleTimers (fired id w)) <= length (cycleTimers w))%nat.
Proof. rewrite cycleTimers_fired. apply length_filter. Qed.

Lemma sview_fired id w :
  fview (fired id w) = fview w /\
  typingController (pm (fired id w)) = typingController (pm w) /\
  abortListeners (fired id w) = abortListeners w /\
  loops (fired id w) = loops w /\ microtasks (fired id w) = microtasks w /\
  typingText (dom (fired id w)) = typingText (dom w).
Proof. repeat split. Qed.

Lemma Sequential_fired id w : Sequential w -> Sequential (fired id w).
Proof.
  intros (H1 & H2 & H3 & H4 & H5). pose proof (cycleTimers_fired_le id w) as Hle.
  split; [exact H1 |]. split; [| split; [exact H3 | split; [exact H4 | exact H5]]].
  intros Hd. destruct (H2 Hd) as [Hlen Hinit]. change (loops (fired id w)) with (loops w).
  split; [lia |]. intros Hi. destruct (Hinit Hi) as [Hl Hc].
  split; [exact Hl |]. rewrite cycleTimers_fired, Hc. reflexivity.
Qed.

Lemma length_le_1_nil {A} (l : list A) : (length l <= 0)%nat -> l = [].
Proof. destruct l; cbn; [reflexivity | lia]. Qed.

(** A cycle timer fires: the cycle has no other continuation, and the
    callback leaves at most one. *)
Lemma Sequential_cycle_callback id tm w w' :
  Good w -> Sequential w ->
  tm ∈ timers w -> tm_id tm = id -> isCycleCb (tm_cb tm) = true ->
  fview w' = fview (fired id w) -> microtasks w' = microtasks (fired id w) ->
  (sview w' = sview (fired id w) \/
   (isDestroyed (pm (fired id w)) = false /\ loops w' = loops (fired id w) /\
    abortListeners w' = abortListeners (fired id w) /\
    (cycleTimers w' = cycleTimers (fired id w) \/
     exists tm, cycleTimers w' = cycleTimers (fired id w) ++ [tm])) \/
   (isDestroyed (pm (fired id w)) = false /\
    exists l, loops w' = loops (fired id w) ++ [l] /\
              typingController (pm w') = Some (lp_ctrl l) /\
              abortListeners w' = abortListeners (fired id w) ++ [(lp_ctrl l, lp_await l)] /\
              (lp_ctrl l ∉ abortedSignals (fired id w)) /\
              cycleTimers w' = cycleTimers (fired id w))) ->
  Sequential (drain w').
Proof.
  intros HG HS Hin Hid Hcyc Hf Hm Hcases.
  pose proof (Sequential_fired id w HS) as HS0.
  assert (Hm' : microtasks w' = []) by (rewrite Hm; apply (Good_microtasks w HG)).
  rewrite drain_nil by exact Hm'.
  apply (Sequential_sview _ w'); [views; rewrite Hm'; reflexivity |].
  destruct Hcases as [Hs | Hcases]; [apply (Sequential_sview _ _ Hs HS0) |].
  pose proof (cycle_timer_fired id w tm Hin Hid Hcyc) as Hlt.
  pose proof (fview_parts _ _ Hf) as (Hi & Hd & Ha & _).
  change (isDestroyed (pm (fired id w))) with (isDestroyed (pm w)) in *.
  change (isInitialized (pm (fired id w))) with (isInitialized (pm w)) in *.
  change (activeAnimations (pm (fired id w))) with (activeAnimations (pm w)) in *.
  change (loops (fired id w)) with (loops w) in *.
  destruct HS as (H1 & H2 & H3 & H4 & H5).
  assert (Hnd : isDestroyed (pm w) = false) by (destruct Hcases as [[? _] | [? _]]; assumption).
  destruct (H2 Hnd) as [Hlen Hinit].
  assert (Hl0 : loops w = []) by (apply length_le_1_nil; lia).
  assert (Hc0 : cycleTimers (fired id w) = []) by (apply length_le_1_nil; lia).
  assert (Hini : isInitialized (pm w) = true).
  { destruct (isInitialized (pm w)); [reflexivity |].
    destruct (Hinit eq_refl) as [_ Hc]. rewrite Hc in Hlt. cbn in Hlt. lia. }
  unfold Sequential. rewrite Hd, Hi, Ha, Hnd, Hini.
  split; [discriminate |].
  destruct Hcases as [(_ & Hl & _ & Hct) | (_ & l & Hl & Htc & _ & _ & Hct)].
  - rewrite Hl, Hl0. split.
    + intros _. split; [| discriminate]. cbn.
      destruct Hct as [-> | [tm' ->]]; rewrite Hc0; cbn; lia.
    + split; [exact H3 |]. split; [discriminate | constructor].
  - rewrite Hl, Hl0, Hct, Hc0. cbn. split; [intros _; split; [lia | discriminate] |].
    split; [exact H3 |]. split; [discriminate |].
    constructor; [exact Htc | constructor].
Qed.

Lemma Sequential_resolve id w :
  Good w -> Sequential w -> Sequential (invoke (settle id true) (fired id w)).
Proof.
  intros HG HS. pose proof (Sequential_fired id w HS) as HS0.
  pose proof (resolve_spec id (fired id w) (Good_microtasks w HG)) as H.
  cbv zeta in H. destruct H as (Hf & _ & _ & Hm & Htc & Hcases).
  set (w' := invoke (settle id true) (fired id w)) in *.
  destruct Hcases as [Hs | (l & Hin & Hawait & Hcases)];
    [apply (Sequential_sview _ _ Hs HS0) |].
  pose proof (fview_parts _ _ Hf) as (Hi & Hd & Ha & _).
  destruct HS0 as (H1 & H2 & H3 & H4 & H5).
  assert (Hnd : isDestroyed (pm (fired id w)) = false).
  { destruct (isDestroyed (pm (fired id w))); [| reflexivity].
    rewrite (H1 eq_refl) in Hin. apply elem_of_nil in Hin as []. }
  destruct (H2 Hnd) as [Hlen Hinit].
  destruct (loops (fired id w)) as [|l0 [|l1 ls]] eqn:Hl0;
    [apply elem_of_nil in Hin as [] | | cbn in Hlen; lia].
  apply list_elem_of_singleton in Hin. subst l0.
  assert (Hc0 : cycleTimers (fired id w) = []).
  { apply length_le_1_nil. cbn [length Nat.add] in Hlen. lia. }
  assert (Hini : isInitialized (pm (fired id w)) = true).
  { destruct (isInitialized (pm (fired id w))); [reflexivity |].
    destruct (Hinit eq_refl) as [Hl _]. discriminate. }
  assert (Hflt : filter (fun l' => lp_await l' <> id) [l] = []).
  { apply filter_singleton_False; [exact [] |]. intros Hn. apply Hn, Hawait. }
  unfold Sequential. rewrite Hd, Hi, Ha, Hnd, Hini, Htc.
  split; [discriminate |]. apply Forall_inv in H5.
  destruct Hcases as [(Hl & _ & Hct) | (_ & l' & Hl & Hc & _ & _ & Hct)].
  - rewrite Hl, Hflt. split.
    + intros _. split; [| discriminate]. cbn.
      destruct Hct as [-> | [_ [tm' ->]]]; rewrite Hc0; cbn; lia.
    + split; [exact H3 |]. split; [discriminate | constructor].
  - rewrite Hl, Hflt, Hct, Hc0. cbn.
    split; [intros _; split; [lia | discriminate] |].
    split; [exact H3 |]. split; [discriminate |].
    constructor; [rewrite Hc; exact H5 | constructor].
Qed.

Lemma Sequential_quiet m w :
  nothrow m -> keeps qview m -> Good w -> Sequential w -> Sequential (invoke m w).
Proof.
  intros Hn Hk HG HS.
  pose proof (invoke_qview m w Hn Hk (Good_microtasks w HG)) as Hq.
  apply qview_parts in Hq as (Hs & _). apply (Sequential_sview _ _ Hs HS).
Qed.

Lemma sview_resize_callback w :
  microtasks w = [] -> sview (invoke handleResize w) = sview w.
Proof.
  intros Hm. pose proof (handleResize_views w) as Hh. cbv beta in Hh.
  fold (post handleResize w) in Hh. apply hview_parts in Hh as [Hs Hw].
  apply (invoke_quiet _ w handleResize_nothrow Hm Hs).
Qed.

(** What a timer callback outside the typing cycle does to the typing
    state: nothing. *)
Lemma timerCallback_other id cb w :
  microtasks w = [] -> isCycleCb cb = false -> cb <> TChar ->
  sview (invoke (timerCallback id cb) w) = sview w.
Proof.
  intros Hm Hc Hne. destruct cb as [a|a i| |t|t|t|]; try discriminate;
    try congruence; cbn [timerCallback].
  - apply qview_parts, invoke_qview;
      [apply submitResume_nothrow | apply submitResume_views | exact Hm].
  - apply qview_parts, invoke_qview;
      [apply submitRevert_nothrow | apply submitRevert_views | exact Hm].
  - apply qview_parts, invoke_qview;
      [apply submitErrorRevert_nothrow | apply submitErrorRevert_views | exact Hm].
  - apply sview_resize_callback, Hm.
Qed.

Lemma Sequential_timer id w :
  Good w -> Sequential w -> Sequential (step (EvTimer id) w).
Proof.
  intros HG HS. cbn [step].
  destruct (List.find _ (timers w)) as [tm|] eqn:Hfind; [| exact HS].
  apply find_timer in Hfind as [Hin Hid]. fold (fired id w).
  destruct (isCycleCb (tm_cb tm)) eqn:Hc.
  - destruct (tm_cb tm) as [a|a i| |t|t|t|] eqn:Hcb; try discriminate;
      cbn [timerCallback]; unfold invoke.
    + destruct (startCallback_spec a (fired id w)) as (w' & E & Hf & _ & _ & Hm & Hcases).
      rewrite E. cbn [report].
      eapply (Sequential_cycle_callback id tm); try eassumption. rewrite Hcb. reflexivity.
    + destruct (pauseCallback_spec a i (fired id w)) as (w' & E & Hf & _ & _ & Hm & Hcases).
      rewrite E. cbn [report].
      eapply (Sequential_cycle_callback id tm); try eassumption. rewrite Hcb. reflexivity.
  - destruct (tm_cb tm) as [a|a i| |t|t|t|] eqn:Hcb; try discriminate.
    + cbn [timerCallback]. apply Sequential_resolve; assumption.
    + apply (Sequential_sview _ (fired id w)); [| apply Sequential_fired, HS].
      apply timerCallback_other; [apply (Good_microtasks w HG) | reflexivity | discriminate].
    + apply (Sequential_sview _ (fired id w)); [| apply Sequential_fired, HS].
      apply timerCallback_other; [apply (Good_microtasks w HG) | reflexivity | discriminate].
    + apply (Sequential_sview _ (fired id w)); [| apply Sequential_fired, HS].
      apply timerCallback_other; [apply (Good_microtasks w HG) | reflexivity | discriminate].
    + apply (Sequential_sview _ (fired id w)); [| apply Sequential_fired, HS].
      apply timerCallback_other; [apply (Good_microtasks w HG) | reflexivity | discriminate].
Qed.

(** ** Events that leave the typing state alone *)

Lemma quiet_sview ev w :
  isQuiet ev = true -> Good w -> sview (step ev w) = sview w.
Proof.
  intros Hq HG. pose proof HG as (HWF & HL & HT & HLis).
  pose proof (Good_microtasks w HG) as Hm.
  destruct ev as [| |hidden| |id| |y|width height dpr| |name value|t];
    try discriminate; cbn [step].
  - apply qview_parts, invoke_qview;
      [apply onOrientationChange_nothrow | apply onOrientationChange_views | exact Hm].
  - apply (frame_event_spec w HWF Hm HT).
  - match goal with |- sview (fold_left _ ?ls ?w1) = _ =>
      destruct (dispatch_spec ls w1 Hm HT) as [Hh _] end.
    apply hview_parts in Hh as [Hs _]. exact Hs.
  - match goal with |- sview (fold_left _ ?ls ?w1) = _ =>
      destruct (dispatch_spec ls w1 Hm HT) as [Hh _] end.
    apply hview_parts in Hh as [Hs _]. exact Hs.
  - destruct (contactForm (dom w)); [| reflexivity].
    apply qview_parts, iter_invoke_qview;
      [apply submitHandler_nothrow | apply submitHandler_views | exact Hm].
  - reflexivity.
  - reflexivity.
Qed.

(** ** [destroy] as an event *)

Lemma destroy_event w :
  Good w ->
  exists wa q,
    destroy w = (Normal tt, destroyed w wa) /\
    microtasks wa = q /\
    step EvDestroy w =
      upd_loops (filter (fun l => lp_await l ∉ q.*1))
        (upd_microtasks (fun _ => []) (destroyed w wa)) /\
    (forall c, typingController (pm w) = Some c -> c ∉ abortedSignals w ->
       timers wa = filter (fun tm => (c, tm_id tm) ∉ abortListeners w) (timers w) /\
       forall t, (c, t) ∈ abortListeners w ->
                 Exists (fun l => lp_await l = t) (loops w) -> t ∈ q.*1) /\
    (typingController (pm w) = None -> timers wa = timers w) /\
    abortedSignals wa =
      match typingController (pm w) with
      | Some c => {[ c ]} ∪ abortedSignals w
      | None => abortedSignals w
      end /\
    (exists (P : Timer -> Prop) (_ : forall tm, Decision (P tm)),
       timers wa = filter P (timers w)).
Proof.
  intros HG. pose proof (Good_microtasks w HG) as Hm.
  destruct (destroy_exec w) as (wa & E & Hab & (q & Hq & Hrej) & HP & Hown).
  exists wa, q. rewrite Hm in Hq. cbn [app] in Hq.
  split; [exact E |]. split; [exact Hq |]. split.
  { cbn [step]. unfold invoke. rewrite E. cbn [report]. unfold drain.
    assert (Hmq : microtasks (destroyed w wa) = q) by exact Hq.
    rewrite Hmq, runMicrotasks_rejected by exact Hrej. reflexivity. }
  split; [intros c Hc Hn; rewrite <- Hq; apply (Hown c Hc Hn) |].
  split; [| split; [exact Hab | exact HP]].
  intros Hnone. unfold destroy in E. revert E. exec. rewrite Hnone. scbn.
  destruct (h_scroll (handlers (pm w))), (h_resize (handlers (pm w))); scbn;
    intros E0; apply (f_equal (fun r => timers (snd r))) in E0; symmetry; exact E0.
Qed.

Lemma Sequential_destroy w :
  Good w -> Sequential w -> Sequential (step EvDestroy w).
Proof.
  intros HG HS. pose proof HG as (HWF & [Hm Hall] & HT & HLis).
  destruct (destroy_event w HG) as (wa & q & _ & _ & E & Hown & _ & _ & _).
  rewrite E. destruct HS as (H1 & H2 & H3 & H4 & H5).
  assert (Hnil : filter (fun l => lp_await l ∉ q.*1) (loops w) = []).
  { destruct (filter _ (loops w)) as [|l ls] eqn:Hf; [reflexivity | exfalso].
    assert (Hl : l ∈ filter (fun l => lp_await l ∉ q.*1) (loops w))
      by (rewrite Hf; left).
    apply list_elem_of_filter in Hl as [Hnq Hl].
    rewrite Forall_forall in Hall, H5.
    destruct (Hall l Hl) as [Hreg Hlive].
    destruct (Hown (lp_ctrl l) (H5 l Hl) Hlive) as [_ Hposted].
    apply Hnq, Hposted; [exact Hreg |].
    apply Exists_exists. exists l. auto. }
  unfold Sequential. cbn. rewrite Hnil.
  split; [reflexivity |]. split; [discriminate |].
  split; [rewrite size_empty; lia |]. split; [reflexivity | constructor].
Qed.

Lemma Sequential_init w :
  Good w -> Sequential w -> Sequential (step EvInit w).
Proof.
  intros HG HS. pose proof (Good_microtasks w HG) as Hm. cbn [step]. unfold invoke.
  rewrite (report_post _ _ init_nothrow). unfold post.
  destruct (isInitialized (pm w)) eqn:Hi.
  - rewrite (init_initialized w Hi). cbn [snd].
    rewrite drain_nil by exact Hm.
    eapply Sequential_sview; [| exact HS]. views. rewrite ?Hm. reflexivity.
  - destruct (init_fresh w Hi) as (w' & E & (HU & HK & Hi' & _ & HC) & _).
    rewrite E. cbn [snd].
    unfold uview in HU. injection HU as Hd _ _ Htc _ Hl Hq _.
    assert (Hm' : microtasks w' = []) by congruence.
    rewrite drain_nil by exact Hm'.
    apply (Sequential_sview _ w'); [views; rewrite ?Hm'; reflexivity |].
    destruct HS as (H1 & H2 & H3 & H4 & H5).
    unfold Sequential. rewrite Hd, Hl, Htc, Hi'.
    split; [exact H1 |]. split.
    { intros Hnd. destruct (H2 Hnd) as [_ Hz]. destruct (Hz Hi) as [Hl0 Hc0].
      split; [| discriminate]. rewrite Hl0. cbn [length Nat.add].
      destruct HC as [[_ ->] | [_ (t & d & ->)]]; rewrite Hc0; cbn; lia. }
    split.
    { destruct HC as [[-> _] | [-> _]]; rewrite (H4 Hi).
      - rewrite size_empty. lia.
      - rewrite union_empty_r_L, size_singleton. lia. }
    split; [discriminate | exact H5].
Qed.

Theorem step_Sequential ev w :
  isVisibility ev = false -> Good w -> Sequential w -> Sequential (step ev w).
Proof.
  intros Hv HG HS.
  destruct (isQuiet ev) eqn:Hq.
  { apply (Sequential_sview _ w); [apply quiet_sview; assumption | exact HS]. }
  destruct ev; try discriminate.
  - apply Sequential_init; assumption.
  - apply Sequential_destroy; assumption.
  - apply Sequential_timer; assumption.
Qed.

Lemma initialWorld_Sequential d v p now : Sequential (initialWorld d v p now).
Proof.
  unfold Sequential. cbn.
  split; [discriminate |]. split; [intros _; split; [lia | auto] |].
  split; [rewrite size_empty; lia |]. split; [reflexivity | constructor].
Qed.

Lemma run_Sequential evs : forall w,
  forallb (fun ev => negb (isVisibility ev)) evs = true ->
  Good w -> Sequential w -> Sequential (run evs w).
Proof.
  induction evs as [|ev evs IH]; intros w Hv HG HS; [exact HS |].
  cbn [forallb] in Hv. apply andb_true_iff in Hv as [Hv1 Hv2].
  apply negb_true_iff in Hv1. cbn [run fold_left].
  apply IH; [exact Hv2 | apply step_Good, HG | apply step_Sequential; assumption].
Qed.

(* ===================================================================== *)
(** * Cancellation                                                        *)
(* ===================================================================== *)


Lemma filter_posted (q : list (nat * bool)) (c : nat) (w : World) (l : Loop) :
  LoopsOK w ->
  (forall t, (c, t) ∈ abortListeners w ->
             Exists (fun l => lp_await l = t) (loops w) -> t ∈ q.*1) ->
  l ∈ filter (fun l => lp_await l ∉ q.*1) (loops w) ->
  l ∈ loops w /\ lp_ctrl l <> c.
Proof.
  intros [_ Hall] Hposted Hl.
  apply list_elem_of_filter in Hl as [Hnq Hl]. split; [exact Hl |].
  intros Hc. rewrite Forall_forall in Hall. destruct (Hall l Hl) as [Hreg _].
  apply Hnq, Hposted; [rewrite <- Hc; exact Hreg |].
  apply Exists_exists. exists l. auto.
Qed.







(** ** Nothing starts a cycle but [init] *)




(* ===================================================================== *)
(** * Flags, handlers and listeners across events                         *)
(* ===================================================================== *)

Lemma fview_drain_nil w : microtasks w = [] -> fview (drain w) = fview w.
Proof.
  intros H. destruct (qview_drain_nil w H) as [Hq _].
  apply qview_parts in Hq as [Hs _]. apply sview_parts in Hs as [Hf _]. exact Hf.
Qed.

Lemma timer_fview id w : Good w -> fview (step (EvTimer id) w) = fview w.
Proof.
  intros HG. pose proof (Good_microtasks w HG) as Hm. cbn [step].
  destruct (List.find _ (timers w)) as [tm|]; [| reflexivity]. fold (fired id w).
  change (fview w) with (fview (fired id w)).
  assert (Hm0 : microtasks (fired id w) = []) by exact Hm.
  destruct (tm_cb tm) as [a|a i| |t|t|t|]; cbn [timerCallback].
  - unfold invoke.
    destruct (startCallback_spec a (fired id w)) as (w' & E & Hf & _ & _ & Hq & _).
    rewrite E. cbn [report]. rewrite fview_drain_nil by congruence. exact Hf.
  - unfold invoke.
    destruct (pauseCallback_spec a i (fired id w)) as (w' & E & Hf & _ & _ & Hq & _).
    rewrite E. cbn [report]. rewrite fview_drain_nil by congruence. exact Hf.
  - pose proof (resolve_spec id (fired id w) Hm0) as H. cbv zeta in H. apply H.
  - apply sview_parts, (timerCallback_other id (TSubmitWait t));
      [exact Hm0 | reflexivity | discriminate].
  - apply sview_parts, (timerCallback_other id (TSubmitRevert t));
      [exact Hm0 | reflexivity | discriminate].
  - apply sview_parts, (timerCallback_other id (TSubmitErrorRevert t));
      [exact Hm0 | reflexivity | discriminate].
  - apply sview_parts, (timerCallback_other id TOrientation);
      [exact Hm0 | reflexivity | discriminate].
Qed.

Lemma step_fview ev w :
  isLifecycle ev = false -> Good w -> fview (step ev w) = fview w.
Proof.
  intros Hl HG. destruct (isQuiet ev) eqn:Hq.
  { apply sview_parts, quiet_sview; assumption. }
  destruct ev; try discriminate. apply timer_fview, HG.
Qed.

(** The state [init] leaves, as an event. *)
Lemma init_event_initialized w :
  Good w -> isInitialized (pm w) = true ->
  step EvInit w =
  upd_microtasks (fun _ => [])
    (upd_console (fun c => c ++ [Warn "Portfolio already initialized"]) w).
Proof.
  intros HG Hi. cbn [step]. unfold invoke. rewrite (init_initialized w Hi).
  cbn [report]. apply drain_nil. exact (Good_microtasks w HG).
Qed.

Lemma init_event_fresh w :
  Good w -> isInitialized (pm w) = false ->
  let w' := step EvInit w in
  isInitialized (pm w') = true /\
  isDestroyed (pm w') = isDestroyed (pm w) /\
  typingText (dom w') = typingText (dom w) /\
  loops w' = loops w /\
  (exists n n',
     handlers (pm w') = {| h_scroll := Some (BoundHandleScroll n);
                           h_resize := Some (BoundHandleResize n') |} /\
     controllerListeners (scrollListeners (win w')) =
       [passiveListener (BoundHandleScroll n)] /\
     controllerListeners (resizeListeners (win w')) =
       [passiveListener (BoundHandleResize n')]) /\
  (activeAnimations (pm w') = activeAnimations (pm w) \/
   activeAnimations (pm w') = {[ clock w ]} ∪ activeAnimations (pm w)).
Proof.
  intros HG Hi. pose proof HG as (HWF & HL & HT & HLis). cbv zeta.
  cbn [step]. unfold invoke.
  destruct (init_fresh w Hi) as (w' & E & (HU & HK & Hi' & (n & n' & Hh & Hs & Hr) & HC) & HW).
  rewrite E. cbn [report].
  unfold uview in HU. injection HU as Hd _ _ _ _ Hl Hq Ht.
  assert (Hm' : microtasks w' = []) by (rewrite Hq; apply (Good_microtasks w HG)).
  rewrite drain_nil by exact Hm'. proj.
  split; [exact Hi' |]. split; [exact Hd |]. split; [exact Ht |]. split; [exact Hl |].
  split.
  - unfold ListenersOK in HLis. rewrite Hi in HLis. destruct HLis as [H1 H2].
    exists n, n'. split; [exact Hh |]. rewrite Hs, Hr.
    split; apply controllerListeners_add; auto.
  - destruct HC as [[-> _] | [-> _]]; auto.
Qed.

Lemma destroy_event_flags w :
  Good w ->
  let w' := step EvDestroy w in
  isInitialized (pm w') = false /\ isDestroyed (pm w') = true /\
  activeAnimations (pm w') = ∅ /\ typingController (pm w') = None /\
  elementCache (pm w') = ∅ /\ handlers (pm w') = handlers (pm w) /\
  controllerListeners (scrollListeners (win w')) = [] /\
  controllerListeners (resizeListeners (win w')) = [] /\
  dom w' = dom w.
Proof.
  intros HG. cbv zeta. pose proof (step_Good EvDestroy w HG) as (_ & _ & _ & HLis).
  destruct (destroy_event w HG) as (wa & q & _ & _ & E & _).
  rewrite E in *. unfold ListenersOK in HLis. cbn in HLis. cbn.
  destruct HLis as [H1 H2]. repeat split; assumption.
Qed.

Lemma step_isDestroyed ev w :
  Good w -> isDestroyed (pm w) = true ->
  isDestroyed (pm (step ev w)) = true \/ ev = EvVisibility false.
Proof.
  intros HG Hd. destruct (isLifecycle ev) eqn:Hl.
  - destruct ev as [| |[|]| | | | | | | |]; try discriminate.
    + left. destruct (isInitialized (pm w)) eqn:Hi.
      * rewrite init_event_initialized by assumption. exact Hd.
      * destruct (init_event_fresh w HG Hi) as (_ & H & _). rewrite H. exact Hd.
    + left. apply (destroy_event_flags w HG).
    + left. cbn [step]. unfold invoke, onVisibilityChange. cbn [modify report].
      rewrite drain_nil by (apply (Good_microtasks w HG)). reflexivity.
    + right. reflexivity.
  - left. pose proof (step_fview ev w Hl HG) as Hf.
    apply fview_parts in Hf as (_ & H & _). rewrite H. exact Hd.
Qed.

(* ===================================================================== *)
(** * What single calls do                                                *)
(* ===================================================================== *)

(** ** destroy on a destroyed controller *)

Lemma removeListener_idem cb ls :
  removeListener cb (removeListener cb ls) = removeListener cb ls.
Proof.
  unfold removeListener. rewrite list_filter_filter.
  apply list_filter_iff. intros l. tauto.
Qed.

Lemma removeHandler_idem h ls :
  removeHandler h (removeHandler h ls) = removeHandler h ls.
Proof. destruct h; [apply removeListener_idem | reflexivity]. Qed.

Lemma destroy_destroyed w wa :
  destroy (destroyed w wa) =
  (Normal tt,
   upd_console (fun c => (c ++ [Log "Destroying Portfolio..."]) ++ [Log "Portfolio destroyed"])
     (destroyed w wa)).
Proof.
  destruct (destroy_exec (destroyed w wa)) as (wb & E & Hab & (q & Hq & _) & _ & _).
  rewrite E. f_equal.
  assert (Ht : timers wb = timers wa /\ microtasks wb = microtasks wa).
  { revert E. unfold destroy. exec.
    destruct (h_scroll (handlers (pm w))), (h_resize (handlers (pm w))); scbn;
      intros E0;
      (split; [apply (f_equal (fun r => timers (snd r))) in E0
              | apply (f_equal (fun r => microtasks (snd r))) in E0];
       symmetry; exact E0). }
  destruct Ht as [Ht Hm]. cbn in Hab.
  apply World_ext; cbn; try reflexivity; try assumption.
  f_equal; apply removeHandler_idem.
Qed.

(** ** Missing elements *)

Lemma getElement_missing id w :
  objectPrototypeHas id = false ->
  elementCache (pm w) !! id = None ->
  match elemOfId id with Some e => present (dom w) e | None => false end = false ->
  getElement id true w = (Normal None, upd_console (fun c => c ++ [notFound id]) w).
Proof.
  intros Hi Hc Hp. unfold getElement. exec. rewrite Hc, Hi. scbn.
  destruct (elemOfId id) as [e|]; [rewrite Hp |]; reflexivity.
Qed.

Lemma createParticles_missing w :
  elementCache (pm w) !! "bgAnimation"%string = None -> bgAnimation (dom w) = None ->
  createParticles w =
  (Normal tt, upd_console (fun c => c ++ [notFound "bgAnimation"]) w).
Proof.
  intros Hc Hd. unfold createParticles, bind at 1.
  rewrite (getElement_missing "bgAnimation" w eq_refl Hc) by (cbn; rewrite Hd; reflexivity).
  reflexivity.
Qed.

Lemma updateNavbar_missing w :
  elementCache (pm w) !! "navbar"%string = None -> navbar (dom w) = None ->
  updateNavbar w = (Normal tt, upd_console (fun c => c ++ [notFound "navbar"]) w).
Proof.
  intros Hc Hd. unfold updateNavbar, bind at 1.
  rewrite (getElement_missing "navbar" w eq_refl Hc) by (cbn; rewrite Hd; reflexivity).
  reflexivity.
Qed.

Lemma initContactForm_missing w :
  elementCache (pm w) !! "contactForm"%string = None -> contactForm (dom w) = None ->
  initContactForm w =
  (Normal tt, upd_console (fun c => c ++ [notFound "contactForm"]) w).
Proof.
  intros Hc Hd. unfold initContactForm, bind at 1.
  rewrite (getElement_missing "contactForm" w eq_refl Hc) by (cbn; rewrite Hd; reflexivity).
  reflexivity.
Qed.

Lemma initTypingAnimation_missing w :
  elementCache (pm w) !! "typingText"%string = None -> typingText (dom w) = None ->
  initTypingAnimation w =
  (Normal tt, upd_console (fun c => c ++ [notFound "typingText"]) w).
Proof.
  intros Hc Hd. unfold initTypingAnimation, async, try_catch, bind at 1.
  rewrite (getElement_missing "typingText" w eq_refl Hc) by (cbn; rewrite Hd; reflexivity).
  reflexivity.
Qed.

Lemma destroy_nothrow : nothrow destroy.
Proof.
  intros w. destruct (destroy_exec w) as (wa & E & _). rewrite E. exists tt. reflexivity.
Qed.

(** ** A destroyed controller *)

Lemma typeWriter_destroyed text element speed a i w :
  isDestroyed (pm w) = true ->
  typeWriter text element speed a i w = (Normal (Some false), w).
Proof.
  intros Hd. unfold typeWriter. exec. rewrite Hd, orb_true_r. reflexivity.
Qed.

Lemma typeWriterLoop_destroyed element l w :
  isDestroyed (pm w) = true ->
  typeWriterLoop element l w =
  (Normal (Some (negb (lp_i l <? String.length (lp_text l))%nat)), w).
Proof.
  intros Hd. unfold typeWriterLoop. exec.
  destruct (lp_i l <? String.length (lp_text l))%nat; scbn; [| reflexivity].
  rewrite Hd, orb_true_r. reflexivity.
Qed.

Lemma runCycle_destroyed a i w :
  isDestroyed (pm w) = true -> runCycle a i w = (Normal tt, w).
Proof. intros Hd. unfold runCycle. exec. rewrite Hd. reflexivity. Qed.

Lemma runCycle_superseded a i w :
  a ∉ activeAnimations (pm w) -> runCycle a i w = (Normal tt, w).
Proof.
  intros Ha. unfold runCycle. exec.
  rewrite (bool_decide_eq_false_2 _ Ha), orb_true_r. reflexivity.
Qed.

Lemma startCallback_destroyed a w :
  isDestroyed (pm w) = true -> startCallback a w = (Normal tt, w).
Proof. intros Hd. unfold startCallback. exec. rewrite Hd. reflexivity. Qed.

Lemma pauseCallback_destroyed a i w :
  isDestroyed (pm w) = true -> pauseCallback a i w = (Normal tt, w).
Proof. intros Hd. unfold pauseCallback. exec. rewrite Hd. reflexivity. Qed.

Lemma pauseCallback_superseded a i w :
  a ∉ activeAnimations (pm w) -> pauseCallback a i w = (Normal tt, w).
Proof.
  intros Ha. unfold pauseCallback. exec.
  rewrite (bool_decide_eq_false_2 _ Ha), andb_false_r. reflexivity.
Qed.

Lemma handleScroll_suppressed w :
  scrollTicking (pm w) = true \/ isDestroyed (pm w) = true ->
  handleScroll w = (Normal tt, w).
Proof.
  intros H. rewrite handleScroll_exec.
  destruct H as [-> | ->]; rewrite ?orb_true_r; reflexivity.
Qed.

(** ** Window events and the page *)

Lemma handleResize_exec w :
  handleResize w =
  (Normal tt,
   if resizeTicking (pm w) then w
   else upd_frames (fun l => l ++ [FResize]) (upd_pm (set_resizeTicking true) w)).
Proof. unfold handleResize. exec. destruct (resizeTicking (pm w)); reflexivity. Qed.

Lemma listener_dom l w :
  microtasks w = [] ->
  dom (invoke (listenerCallback l) w) = dom w /\
  microtasks (invoke (listenerCallback l) w) = [].
Proof.
  intros Hm. unfold invoke, listenerCallback.
  destruct (l_callback l); cbn [ret report].
  - rewrite handleScroll_exec. cbn [report].
    destruct (scrollTicking (pm w) || isDestroyed (pm w));
      rewrite drain_nil by exact Hm; auto.
  - rewrite handleResize_exec. cbn [report].
    destruct (resizeTicking (pm w)); rewrite drain_nil by exact Hm; auto.
  - rewrite drain_nil by exact Hm. auto.
Qed.

Lemma dispatch_dom ls : forall w,
  microtasks w = [] ->
  dom (fold_left (fun w' l => invoke (listenerCallback l) w') ls w) = dom w.
Proof.
  induction ls as [|l ls IH]; intros w Hm; cbn [fold_left]; [reflexivity |].
  destruct (listener_dom l w Hm) as [Hd Hm']. rewrite IH by exact Hm'. exact Hd.
Qed.

Lemma scrolls_dom ys : forall w,
  Good w -> dom (run (map EvScroll ys) w) = dom w.
Proof.
  induction ys as [|y ys IH]; intros w HG; [reflexivity |].
  cbn [map run fold_left]. fold (run (map EvScroll ys) (step (EvScroll y) w)).
  rewrite IH by (apply step_Good, HG). cbn [step].
  rewrite dispatch_dom by (apply (Good_microtasks w HG)). reflexivity.
Qed.

(* ===================================================================== *)
(** * Reachable worlds                                                    *)
(* ===================================================================== *)

Lemma run_app evs1 evs2 w : run (evs1 ++ evs2) w = run evs2 (run evs1 w).
Proof. unfold run. apply fold_left_app. Qed.

Lemma run_cons ev evs w : run (ev :: evs) w = run evs (step ev w).
Proof. reflexivity. Qed.

Lemma reachable_Good d v p now evs :
  pristine v -> Good (run evs (initialWorld d v p now)).
Proof. intros Hp. apply run_Good, initialWorld_Good, Hp. Qed.

Lemma reachable_Sequential d v p now evs :
  pristine v -> noVisibility evs = true ->
  Sequential (run evs (initialWorld d v p now)).
Proof.
  intros Hp Hv. apply run_Sequential;
    [exact Hv | apply initialWorld_Good, Hp | apply initialWorld_Sequential].
Qed.

Lemma runnable_le w :
  (length (runnableTimers w) <= length (cycleTimers w))%nat.
Proof.
  unfold runnableTimers, cycleTimers.
  destruct (isDestroyed (pm w)); [cbn; lia |].
  set (P := fun tm => runnableCb (activeAnimations (pm w)) (tm_cb tm) = true).
  set (Q := fun tm => isCycleCb (tm_cb tm) = true).
  assert (HPQ : forall tm, P tm -> Q tm).
  { intros tm. unfold P, Q. destruct (tm_cb tm); try discriminate; reflexivity. }
  induction (timers w) as [|tm ts IH]; [reflexivity |].
  destruct (decide (P tm)) as [Hr|Hr].
  - rewrite (filter_cons_True P) by exact Hr.
    rewrite (filter_cons_True Q) by (apply HPQ, Hr). cbn. lia.
  - rewrite (filter_cons_False P) by exact Hr.
    destruct (decide (Q tm)) as [Hc|Hc].
    + rewrite (filter_cons_True Q) by exact Hc. cbn. lia.
    + rewrite (filter_cons_False Q) by exact Hc. exact IH.
Qed.

Lemma step_activeAnimations ev w :
  isInit ev = false -> Good w ->
  activeAnimations (pm (step ev w)) ⊆ activeAnimations (pm w).
Proof.
  intros Hi HG. destruct (isLifecycle ev) eqn:Hl.
  - destruct ev; try discriminate.
    + destruct (destroy_event_flags w HG) as (_ & _ & -> & _).
      apply empty_subseteq.
    + cbn [step]. unfold invoke, onVisibilityChange. cbn [modify report].
      rewrite drain_nil by (apply (Good_microtasks w HG)). reflexivity.
  - pose proof (step_fview ev w Hl HG) as Hf.
    apply fview_parts in Hf as (_ & _ & -> & _). reflexivity.
Qed.

Lemma Registered_init w :
  Good w -> isInitialized (pm w) = false -> Registered (step EvInit w).
Proof. intros HG Hi. apply (init_event_fresh w HG Hi). Qed.

Lemma Registered_pairs n : forall w,
  Good w -> Registered w ->
  Registered (run (concat (replicate n [EvDestroy; EvInit])) w).
Proof.
  induction n as [|n IH]; intros w HG HR; [exact HR |].
  cbn [replicate concat]. rewrite run_app. apply IH.
  - apply run_Good, HG.
  - cbn [run fold_left]. apply Registered_init; [apply step_Good, HG |].
    apply (destroy_event_flags w HG).
Qed.

(** ** createParticles with its container *)

Lemma makeParticles_exec n : forall w,
  exists ps,
    length ps = n /\
    makeParticles n w = (Normal ps, set_rngPos (4 * n + rngPos w)%nat w).
Proof.
  induction n as [|n IH]; intros w.
  - exists []. split; [reflexivity |]. cbn. destruct w; reflexivity.
  - cbn [makeParticles]. unfold makeParticle. exec.
    match goal with |- context [makeParticles n ?w1] =>
      destruct (IH w1) as (ps & Hlen & E) end.
    rewrite E. eexists (_ :: ps). split; [cbn; rewrite Hlen; reflexivity |].
    f_equal. apply World_ext; cbn; try reflexivity. lia.
Qed.

Lemma createParticles_count w ps :
  bgAnimation (dom w) = Some ps ->
  elementCache (pm w) !! "bgAnimation"%string = None ->
  let n := particleCount (Cfg.particles (config (pm w)))
             (innerWidth (win w)) (devicePixelRatio (win w)) in
  exists fragment,
    length fragment = iterations n /\
    fst (createParticles w) = Normal tt /\
    bgAnimation (dom (post createParticles w)) = Some (ps ++ fragment) /\
    console (post createParticles w) = console w ++ [LogCreated n].
Proof.
  intros Hd Hc n. unfold post, createParticles, getElement. exec.
  rewrite Hc. scbn. rewrite Hd. scbn. fold n.
  match goal with |- context [makeParticles (iterations n) ?w1] =>
    destruct (makeParticles_exec (iterations n) w1) as (fragment & Hlen & E) end.
  rewrite E. scbn. exists fragment. rewrite Hd. auto.
Qed.

(* ===================================================================== *)
(** * Every reveal in flight has its timeout pending                      *)
(* ===================================================================== *)

#[global] Instance Extends_preorder : PreOrder Extends.
Proof.
  split.
  - intros w. split; [reflexivity |]. split; [lia |]. split; [auto |]. split; [auto |].
    exists []. rewrite app_nil_r. split; [reflexivity | constructor].
  - intros a b c (Hm1 & Hn1 & Hk1 & Hf1 & n1 & Hl1 & Ha1)
      (Hm2 & Hn2 & Hk2 & Hf2 & n2 & Hl2 & Ha2).
    split; [congruence |]. split; [lia |]. split; [auto |]. split.
    { intros tm Htm. destruct (Hf2 tm Htm) as [Hb | Hb]; [| right; lia].
      destruct (Hf1 tm Hb) as [Ha | Ha]; [left; exact Ha | right; lia]. }
    exists (n1 ++ n2). split; [rewrite Hl2, Hl1, app_assoc; reflexivity |].
    apply Forall_app. split.
    + eapply Forall_impl; [exact Ha1 |]. intros l (Hr & (tm & Htm & Hid) & Hall). cbv beta.
      split; [lia |]. split; [exists tm; auto |].
      intros tm' Htm' Hid'. destruct (Hf2 tm' Htm') as [Hb | Hb]; [apply Hall; auto | lia].
    + eapply Forall_impl; [exact Ha2 |]. intros l (Hr & Hex & Hall). cbv beta.
      split; [lia |]. split; [exact Hex |].
      intros tm' Htm' Hid'. destruct (Hall tm' Htm' Hid') as [Hb | Hb]; [| right; exact Hb].
      destruct (Hf1 tm' Hb) as [Ha | Ha]; [left; exact Ha | lia].
Qed.

Lemma Timed_Extends w w' : Timed w -> Extends w w' -> Timed w'.
Proof.
  intros [H0 Hall] (_ & Hn & Hk & Hf & new & Hl & Hnew). split.
  - intros tm Htm. destruct (Hf tm Htm) as [Ha | Ha]; [| lia].
    specialize (H0 tm Ha). lia.
  - rewrite Hl. apply Forall_app. split.
    + eapply Forall_impl; [exact Hall |]. intros l (Hr & (tm & Htm & Hid) & Hc). cbv beta.
      split; [lia |]. split; [exists tm; auto |].
      intros tm' Htm' Hid'. destruct (Hf tm' Htm') as [Ha | Ha]; [apply Hc; auto | lia].
    + eapply Forall_impl; [exact Hnew |]. intros l (Hr & Hex & Hc). cbv beta.
      split; [lia |]. split; [exact Hex |].
      intros tm' Htm' Hid'. destruct (Hc tm' Htm' Hid') as [Ha | Ha]; [| exact Ha].
      specialize (H0 tm' Ha). lia.
Qed.

(** A world that differs in neither timers, reveals, microtasks nor
    identities. *)
Lemma Extends_same w w' :
  microtasks w' = microtasks w -> nextId w' = nextId w ->
  timers w' = timers w -> loops w' = loops w -> Extends w w'.
Proof.
  intros Hm Hn Ht Hl. split; [exact Hm |]. split; [lia |]. rewrite Ht.
  split; [auto |]. split; [auto |].
  exists []. rewrite app_nil_r. split; [exact Hl | constructor].
Qed.

Lemma Timed_same w w' :
  nextId w' = nextId w -> timers w' = timers w -> loops w' = loops w ->
  Timed w -> Timed w'.
Proof.
  intros Hn Ht Hl [H0 Hall]. split; [rewrite Hn, Ht; exact H0 |].
  rewrite Hn, Ht, Hl. exact Hall.
Qed.

Lemma fresh_extends : steps Extends fresh.
Proof.
  intros w. unfold fresh. exec. split; [reflexivity |]. split; [cbn; lia |]. cbn.
  split; [auto |]. split; [auto |].
  exists []. rewrite app_nil_r. split; [reflexivity | constructor].
Qed.

Lemma setTimeout_extends cb delay : steps Extends (setTimeout cb delay).
Proof.
  intros w. unfold setTimeout. exec. split; [reflexivity |].
  split; [cbn; lia |]. cbn. split; [| split].
  - intros tm Htm. apply elem_of_app. left. exact Htm.
  - intros tm Htm. apply elem_of_app in Htm as [Htm | Htm]; [left; exact Htm |].
    apply list_elem_of_singleton in Htm. subst tm. cbn. right. lia.
  - exists []. rewrite app_nil_r. split; [reflexivity | constructor].
Qed.
#[global] Hint Resolve fresh_extends setTimeout_extends : js_steps.

Ltac leaf_t := apply Extends_same; reflexivity.

(** Unfolding the primitives that neither take an identity nor clear a
    timer. *)
Ltac unfold_quiet :=
  unfold console_log, console_warn, console_error, alert, async,
    mathRandom, dateNow, requestAnimationFrame,
    getElementById, appendChild, set_innerHTML, append_innerHTML,
    classList_toggle_scrolled, asElement, addScrollListener, addResizeListener,
    removeScrollListener, removeResizeListener, newAbortController,
    signal_aborted, upd_button, form_reset.

(** One rule, chosen by the head of the computation. *)
Ltac extends_step :=
  first
    [ solve [auto with js_steps]
    | match goal with
      | |- steps _ (bind _ _) => apply steps_bind; [apply _ | | intros ?]
      | |- steps _ (try_catch _ _) => apply steps_try; [apply _ | | intros ?]
      | |- steps _ (ret _) => apply steps_ret; apply _
      | |- steps _ get => apply steps_get; apply _
      | |- steps _ (throw _) => apply steps_throw; apply _
      | |- steps _ (recv _) => apply steps_recv; apply _
      | |- steps _ (modify _) => apply steps_modify; intros ?; leaf_t
      | |- steps _ (if ?b then _ else _) => destruct b
      | |- steps _ (match ?x with _ => _ end) => destruct x
      end ].

Ltac extends_go := unfold_quiet; repeat extends_step.

Lemma getElement_extends id cache : steps Extends (getElement id cache).
Proof. unfold getElement. extends_go. Qed.
#[global] Hint Resolve getElement_extends : js_steps.

Lemma makeParticles_extends n : steps Extends (makeParticles n).
Proof. induction n; cbn [makeParticles]; unfold makeParticle; extends_go. Qed.
#[global] Hint Resolve makeParticles_extends : js_steps.

Lemma createParticles_extends : steps Extends createParticles.
Proof. unfold createParticles. extends_go. Qed.

Lemma initAOS_extends : steps Extends initAOS.
Proof. unfold initAOS. extends_go. Qed.

Lemma initPerformanceMonitoring_extends : steps Extends initPerformanceMonitoring.
Proof. unfold initPerformanceMonitoring. extends_go. Qed.

Lemma initSmoothScrolling_extends : steps Extends initSmoothScrolling.
Proof. unfold initSmoothScrolling. extends_go. Qed.

Lemma initCardEffects_extends : steps Extends initCardEffects.
Proof. unfold initCardEffects. extends_go. Qed.

Lemma initContactForm_extends : steps Extends initContactForm.
Proof. unfold initContactForm. extends_go. Qed.

Lemma updateNavbar_extends : steps Extends updateNavbar.
Proof. unfold updateNavbar. extends_go. Qed.

Lemma revealOnScroll_extends : steps Extends revealOnScroll.
Proof. unfold revealOnScroll. extends_go. Qed.

Lemma initTypingAnimation_extends : steps Extends initTypingAnimation.
Proof. unfold initTypingAnimation. extends_go. Qed.
#[global] Hint Resolve createParticles_extends initAOS_extends
  initPerformanceMonitoring_extends initSmoothScrolling_extends initCardEffects_extends
  initContactForm_extends updateNavbar_extends revealOnScroll_extends
  initTypingAnimation_extends : js_steps.

Lemma initSetup_extends : steps Extends initSetup.
Proof. unfold initSetup. extends_go. Qed.

#[global] Hint Resolve initSetup_extends : js_steps.

Lemma init_extends : steps Extends init.
Proof. unfold init, init_with. extends_go. Qed.

(** ** The form, the window and the typing cycle *)

Lemma validateForm_extends formData : steps Extends (validateForm formData).
Proof. unfold validateForm. extends_go. Qed.
#[global] Hint Resolve validateForm_extends : js_steps.

Lemma submitCatch_extends t e : steps Extends (submitCatch t e).
Proof. unfold submitCatch. extends_go. Qed.
#[global] Hint Resolve submitCatch_extends : js_steps.

Lemma submitHandler_extends : steps Extends submitHandler.
Proof. unfold submitHandler. extends_go. Qed.

Lemma submitResume_extends t : steps Extends (submitResume t).
Proof. unfold submitResume. extends_go. Qed.

Lemma submitRevert_extends t : steps Extends (submitRevert t).
Proof. unfold submitRevert. extends_go. Qed.

Lemma submitErrorRevert_extends t : steps Extends (submitErrorRevert t).
Proof. unfold submitErrorRevert. extends_go. Qed.

Lemma onOrientationChange_extends : steps Extends onOrientationChange.
Proof. unfold onOrientationChange. extends_go. Qed.

Lemma handleScroll_extends : steps Extends handleScroll.
Proof. unfold handleScroll. extends_go. Qed.

Lemma handleResize_extends : steps Extends handleResize.
Proof. unfold handleResize. extends_go. Qed.

Lemma scrollFrame_extends : steps Extends scrollFrame.
Proof. unfold scrollFrame. extends_go. Qed.

Lemma resizeFrame_extends : steps Extends resizeFrame.
Proof. unfold resizeFrame. extends_go. Qed.

Lemma typeWriterCatch_extends e : steps Extends (typeWriterCatch e).
Proof. unfold typeWriterCatch. extends_go. Qed.

Lemma runCycleAfter_extends a i b : steps Extends (runCycleAfter a i b).
Proof. unfold runCycleAfter. extends_go. Qed.

(** The step that suspends a reveal sets its timer. *)
Lemma typeWriterLoop_extends element l : steps Extends (typeWriterLoop element l).
Proof.
  intros w. unfold typeWriterLoop.
  destruct (lp_i l <? String.length (lp_text l))%nat; [| reflexivity].
  exec. destruct (bool_decide (lp_ctrl l ∈ abortedSignals w) || isDestroyed (pm w));
    [reflexivity |].
  destruct element as [e|]; scbn; [| reflexivity].
  destruct e; scbn.
  all: split; [reflexivity |]; split; [cbn; lia |]; cbn; split; [| split].
  all: try (intros tm Htm; apply elem_of_app; left; exact Htm).
  all: try (intros tm Htm; apply elem_of_app in Htm as [Htm | Htm]; [left; exact Htm |];
            apply list_elem_of_singleton in Htm; subst tm; cbn; right; lia).
  all: eexists [_]; split; [reflexivity |]; constructor; [| constructor]; cbn;
       split; [lia |]; split;
       [eexists; split; [apply elem_of_app; right; left | reflexivity] |];
       intros tm Htm _; apply elem_of_app in Htm as [Htm | Htm]; [left; exact Htm |];
       apply list_elem_of_singleton in Htm; subst tm; right; reflexivity.
Qed.
#[global] Hint Resolve typeWriterCatch_extends runCycleAfter_extends typeWriterLoop_extends
  : js_steps.

Lemma typeWriter_extends text element speed a i :
  steps Extends (typeWriter text element speed a i).
Proof. unfold typeWriter. extends_go. Qed.
#[global] Hint Resolve typeWriter_extends : js_steps.

Lemma runCycle_extends a i : steps Extends (runCycle a i).
Proof. unfold runCycle. extends_go. Qed.
#[global] Hint Resolve runCycle_extends : js_steps.

Lemma startCallback_extends a : steps Extends (startCallback a).
Proof. unfold startCallback. extends_go. Qed.

Lemma pauseCallback_extends a i : steps Extends (pauseCallback a i).
Proof. unfold pauseCallback. extends_go. Qed.

Lemma typeWriterResume_extends l b : steps Extends (typeWriterResume l b).
Proof. unfold typeWriterResume. extends_go. Qed.

Lemma report_extends (m : M unit) w : steps Extends m -> Extends w (report (m w)).
Proof.
  intros H. specialize (H w). destruct (m w) as [[[]|e] w']; cbn in *; [exact H |].
  etransitivity; [exact H |]. apply Extends_same; reflexivity.
Qed.

(** ** The invariant across events *)

(** A callback that settles no promise. *)
Lemma Timed_invoke m w :
  steps Extends m -> microtasks w = [] -> Timed w ->
  Timed (invoke m w) /\ microtasks (invoke m w) = [].
Proof.
  intros Hs Hm HT. unfold invoke. pose proof (report_extends m w Hs) as Hty.
  assert (Hm' : microtasks (report (m w)) = []) by (destruct Hty as [-> _]; exact Hm).
  rewrite drain_nil by exact Hm'. split; [| reflexivity].
  apply (Timed_same (report (m w))); try reflexivity.
  apply (Timed_Extends w); assumption.
Qed.

Lemma Timed_shrink w w' :
  nextId w' = nextId w ->
  (forall tm, tm ∈ timers w' -> tm ∈ timers w) ->
  (forall l, l ∈ loops w' ->
     l ∈ loops w /\ forall tm, tm ∈ timers w -> tm_id tm = lp_await l -> tm ∈ timers w') ->
  Timed w -> Timed w'.
Proof.
  intros Hn Ht Hl [H0 Hall]. split.
  - intros tm Htm. rewrite Hn. apply H0, Ht, Htm.
  - apply Forall_forall. intros l Hin. destruct (Hl l Hin) as [Hin0 Hkeep].
    rewrite Forall_forall in Hall. destruct (Hall l Hin0) as (Hr & (tm & Htm & Hid) & Hc).
    rewrite Hn. split; [exact Hr |]. split; [exists tm; auto |].
    intros tm' Htm' Hid'. apply Hc; auto.
Qed.

Lemma initialWorld_Timed d v p now : Timed (initialWorld d v p now).
Proof.
  split; [intros tm Htm; apply elem_of_nil in Htm as [] | constructor].
Qed.

Lemma Timed_fold {X} (f : X -> M unit) (xs : list X) : forall w,
  (forall x, steps Extends (f x)) -> microtasks w = [] -> Timed w ->
  Timed (fold_left (fun w' x => invoke (f x) w') xs w).
Proof.
  induction xs as [|x xs IH]; intros w Hf Hm HT; cbn [fold_left]; [exact HT |].
  destruct (Timed_invoke (f x) w (Hf x) Hm HT) as [HT' Hm'].
  apply IH; assumption.
Qed.

Lemma frameCallback_extends cb : steps Extends (frameCallback cb).
Proof. destruct cb; [apply scrollFrame_extends | apply resizeFrame_extends]. Qed.

Lemma listenerCallback_extends l : steps Extends (listenerCallback l).
Proof.
  unfold listenerCallback. destruct (l_callback l);
    [apply handleScroll_extends | apply handleResize_extends | apply steps_ret; apply _].
Qed.

(** The timer [id] fired: reveals waiting for another timer keep it. *)
Lemma Timed_fired id w :
  Forall (fun l => lp_await l <> id) (loops w) -> Timed w -> Timed (fired id w).
Proof.
  intros Hne. apply Timed_shrink; [reflexivity | |].
  - intros tm Htm. cbn in Htm. apply list_elem_of_filter in Htm as [_ Htm]. exact Htm.
  - intros l Hl. split; [exact Hl |]. intros tm Htm Hid. cbn.
    apply list_elem_of_filter. split; [| exact Htm].
    rewrite Forall_forall in Hne. rewrite Hid. apply Hne, Hl.
Qed.

(** A resolved promise resumes the reveal that awaits it. *)
Lemma resolve_exec id w l :
  microtasks w = [] ->
  List.find (fun l => Nat.eqb (lp_await l) id) (loops w) = Some l ->
  invoke (settle id true) w =
  report (typeWriterResume l true
            (upd_loops (filter (fun l' => lp_await l' <> id))
               (upd_microtasks (fun _ => []) w))).
Proof.
  intros Hm Hfind. unfold invoke. rewrite settle_spec by exact Hm. cbn [report].
  pose proof (find_some_await _ _ _ Hfind) as [Hin Hawait].
  rewrite bool_decide_eq_true_2
    by (apply Exists_exists; exists l; split; [apply list_elem_of_In |]; assumption).
  unfold drain. cbn [microtasks upd_microtasks runMicrotasks].
  unfold runMicrotask, bind at 1, get. cbn [fst snd loops upd_microtasks].
  rewrite Hfind. unfold bind at 1, modify. reflexivity.
Qed.

Lemma resolve_none id w :
  microtasks w = [] ->
  List.find (fun l => Nat.eqb (lp_await l) id) (loops w) = None ->
  invoke (settle id true) w = upd_microtasks (fun _ => []) w.
Proof.
  intros Hm Hfind. unfold invoke. rewrite settle_spec by exact Hm. cbn [report].
  rewrite bool_decide_eq_false_2.
  - apply drain_nil, Hm.
  - intros Hex. apply Exists_exists in Hex as (l & Hl & Hid).
    apply list_elem_of_In in Hl.
    apply (List.find_none _ _ Hfind) in Hl. rewrite Hid, Nat.eqb_refl in Hl. discriminate.
Qed.

Lemma Timed_timer id w :
  Good w -> Timed w -> Timed (step (EvTimer id) w).
Proof.
  intros HG HT. pose proof (Good_microtasks w HG) as Hm. cbn [step].
  destruct (List.find _ (timers w)) as [tm|] eqn:Hfind; [| exact HT].
  apply find_timer in Hfind as [Hin Hid]. fold (fired id w).
  destruct (List.find (fun l => Nat.eqb (lp_await l) id) (loops w)) as [l|] eqn:Hl.
  - (* the timer of a reveal: its promise resolves *)
    pose proof (find_some_await _ _ _ Hl) as [Hlin Hawait].
    apply list_elem_of_In in Hlin.
    assert (Hcb : tm_cb tm = TChar).
    { destruct HT as [_ Hall]. rewrite Forall_forall in Hall.
      destruct (Hall l Hlin) as (_ & _ & Hc). apply Hc; [exact Hin | congruence]. }
    rewrite Hcb. cbn [timerCallback].
    rewrite (resolve_exec id (fired id w) l Hm Hl).
    eapply Timed_Extends; [| apply report_extends, typeWriterResume_extends].
    revert HT. apply Timed_shrink; [reflexivity | |].
    + intros tm' Htm'. cbn in Htm'. apply list_elem_of_filter in Htm' as [_ Htm']. exact Htm'.
    + intros l' Hl'. cbn in Hl'. apply list_elem_of_filter in Hl' as [Hne Hl'].
      split; [exact Hl' |]. intros tm' Htm' Hid'. cbn.
      apply list_elem_of_filter. split; [| exact Htm']. rewrite Hid'. exact Hne.
  - (* no reveal waits for this timer *)
    assert (Hne : Forall (fun l => lp_await l <> id) (loops w)).
    { apply Forall_forall. intros l Hlin Heq. apply list_elem_of_In in Hlin.
      apply (List.find_none _ _ Hl) in Hlin. rewrite Heq, Nat.eqb_refl in Hlin.
      discriminate. }
    pose proof (Timed_fired id w Hne HT) as HT'.
    destruct (tm_cb tm) as [a|a i| |t|t|t|]; cbn [timerCallback].
    + apply Timed_invoke; [apply startCallback_extends | exact Hm | exact HT'].
    + apply Timed_invoke; [apply pauseCallback_extends | exact Hm | exact HT'].
    + rewrite (resolve_none id (fired id w) Hm Hl).
      revert HT'. apply Timed_same; reflexivity.
    + apply Timed_invoke; [apply submitResume_extends | exact Hm | exact HT'].
    + apply Timed_invoke; [apply submitRevert_extends | exact Hm | exact HT'].
    + apply Timed_invoke; [apply submitErrorRevert_extends | exact Hm | exact HT'].
    + apply Timed_invoke; [apply handleResize_extends | exact Hm | exact HT'].
Qed.

#[local] Opaque abort.

(** [destroy] on a controller whose signal is already aborted clears no
    timer. *)
Lemma destroy_timers_aborted w wa c :
  typingController (pm w) = Some c -> c ∈ abortedSignals w ->
  destroy w = (Normal tt, destroyed w wa) -> timers wa = timers w.
Proof.
  intros Htc Hc E. revert E. unfold destroy. exec. rewrite Htc. scbn.
  match goal with |- context [abort c ?w0] =>
    destruct (abort_spec c w0) as (w' & Eab & _ & _ & _ & Hsame & _) end.
  rewrite Eab, (Hsame Hc). scbn.
  destruct (h_scroll (handlers (pm w))), (h_resize (handlers (pm w))); scbn;
    intros E0; apply (f_equal (fun r => timers (snd r))) in E0; symmetry; exact E0.
Qed.

#[local] Transparent abort.

Lemma Timed_destroy w : Good w -> Timed w -> Timed (step EvDestroy w).
Proof.
  intros HG. destruct (destroy_event w HG) as (wa & q & E & _ & Ew & Hown & Hnone & _ & (P & dec & HP)).
  rewrite Ew. apply Timed_shrink; [reflexivity | |].
  - intros tm Htm. cbn in Htm. rewrite HP in Htm.
    apply list_elem_of_filter in Htm as [_ Htm]. exact Htm.
  - intros l Hl. cbn in Hl. apply list_elem_of_filter in Hl as [Hnq Hl].
    split; [exact Hl |]. intros tm Htm Hid. cbn.
    destruct (typingController (pm w)) as [c|] eqn:Htc;
      [| rewrite (Hnone eq_refl); exact Htm].
    destruct (decide (c ∈ abortedSignals w)) as [Hc|Hc].
    + rewrite (destroy_timers_aborted w wa c Htc Hc E). exact Htm.
    + destruct (Hown c eq_refl Hc) as [-> Hposted].
      apply list_elem_of_filter. split; [| exact Htm].
      intros Hreg. apply Hnq, Hposted; [rewrite <- Hid; exact Hreg |].
      apply Exists_exists. exists l. auto.
Qed.

Lemma Timed_iter m n w :
  steps Extends m -> microtasks w = [] -> Timed w -> Timed (Nat.iter n (invoke m) w).
Proof.
  intros Hs Hm HT.
  assert (H : Timed (Nat.iter n (invoke m) w) /\ microtasks (Nat.iter n (invoke m) w) = []).
  { induction n as [|n [IH1 IH2]]; [auto |]. rewrite Nat.iter_succ.
    apply Timed_invoke; assumption. }
  apply H.
Qed.

Theorem step_Timed ev w : Good w -> Timed w -> Timed (step ev w).
Proof.
  intros HG HT. pose proof (Good_microtasks w HG) as Hm.
  destruct ev as [| |hidden| |id| |y|width height dpr| |name value|t]; cbn [step].
  - apply Timed_invoke; [apply init_extends | exact Hm | exact HT].
  - apply Timed_destroy; assumption.
  - unfold invoke, onVisibilityChange. cbn [modify report].
    rewrite drain_nil by exact Hm. revert HT. apply Timed_same; reflexivity.
  - apply Timed_invoke; [apply onOrientationChange_extends | exact Hm | exact HT].
  - apply Timed_timer; assumption.
  - apply Timed_fold; [apply frameCallback_extends | exact Hm |].
    revert HT. apply Timed_same; reflexivity.
  - apply Timed_fold; [apply listenerCallback_extends | exact Hm |].
    revert HT. apply Timed_same; reflexivity.
  - apply Timed_fold; [apply listenerCallback_extends | exact Hm |].
    revert HT. apply Timed_same; reflexivity.
  - destruct (contactForm (dom w)); [| exact HT].
    apply Timed_iter; [apply submitHandler_extends | exact Hm | exact HT].
  - revert HT. apply Timed_same; reflexivity.
  - revert HT. apply Timed_same; reflexivity.
Qed.

Lemma run_Timed evs : forall w, Good w -> Timed w -> Timed (run evs w).
Proof.
  induction evs as [|ev evs IH]; intros w HG HT; [exact HT |].
  apply IH; [apply step_Good, HG | apply step_Timed; assumption].
Qed.

Lemma reachable_Timed d v p now evs :
  pristine v -> Timed (run evs (initialWorld d v p now)).
Proof.
  intros Hp. apply run_Timed; [apply initialWorld_Good, Hp | apply initialWorld_Timed].
Qed.


(* ===================================================================== *)
(** * One cycle at a time, visibility changes included                    *)
(* ===================================================================== *)

Lemma activeTimers_cycle w :
  activeTimers w =
  filter (fun tm => runnableCb (activeAnimations (pm w)) (tm_cb tm) = true) (cycleTimers w).
Proof.
  unfold activeTimers, cycleTimers. rewrite list_filter_filter.
  apply list_filter_iff. intros tm. split; [| tauto].
  intros H. split; [exact H |]. destruct (tm_cb tm); try discriminate; reflexivity.
Qed.

Lemma activeTimers_view a b :
  activeAnimations (pm a) = activeAnimations (pm b) -> cycleTimers a = cycleTimers b ->
  activeTimers a = activeTimers b.
Proof. intros H1 H2. rewrite !activeTimers_cycle, H1, H2. reflexivity. Qed.

Lemma activeTimers_sview a b : sview a = sview b -> activeTimers a = activeTimers b.
Proof.
  intros H. apply sview_parts in H as (Hf & _ & _ & _ & _ & Hc & _).
  apply fview_parts in Hf as (_ & _ & Ha & _). apply activeTimers_view; assumption.
Qed.

Lemma OneCycle_sview a b : sview a = sview b -> OneCycle b -> OneCycle a.
Proof.
  intros H. pose proof (activeTimers_sview a b H) as Hat.
  apply sview_parts in H as (Hf & H1 & _ & H2 & _ & _ & _).
  apply fview_parts in Hf as (H4 & _ & H6 & _).
  unfold OneCycle. rewrite Hat, H1, H2, H4, H6. auto.
Qed.

Lemma Dormant_sview a b : sview a = sview b -> Dormant b -> Dormant a.
Proof.
  intros H. pose proof (activeTimers_sview a b H) as Hat.
  apply sview_parts in H as (_ & _ & _ & H2 & H4 & _ & _).
  unfold Dormant. rewrite Hat, H2, H4. auto.
Qed.

Lemma activeTimers_empty w : activeAnimations (pm w) = ∅ -> activeTimers w = [].
Proof.
  intros H. unfold activeTimers. rewrite H.
  induction (timers w) as [|tm ts IH]; [reflexivity |].
  rewrite filter_cons_False; [exact IH |].
  destruct (tm_cb tm); cbn; try discriminate;
    rewrite bool_decide_eq_false_2 by apply not_elem_of_empty; discriminate.
Qed.

Lemma activeTimers_fired id w :
  activeTimers (fired id w) = filter (fun tm => tm_id tm <> id) (activeTimers w).
Proof.
  unfold activeTimers, fired. proj. rewrite !list_filter_filter.
  apply list_filter_iff. intros tm. tauto.
Qed.

Lemma activeTimers_fired_le id w :
  (length (activeTimers (fired id w)) <= length (activeTimers w))%nat.
Proof. rewrite activeTimers_fired. apply length_filter. Qed.

Lemma active_timer_fired id w tm :
  tm ∈ activeTimers w -> tm_id tm = id ->
  (length (activeTimers (fired id w)) < length (activeTimers w))%nat.
Proof.
  intros Hin Hid. rewrite activeTimers_fired.
  apply (length_filter_lt _ _ tm); [exact Hin |]. intros Hne. apply Hne, Hid.
Qed.

(** One more cycle timer is at most one more active timer. *)
Lemma activeTimers_app a b tm :
  activeAnimations (pm a) = activeAnimations (pm b) ->
  cycleTimers a = cycleTimers b ++ [tm] ->
  (length (activeTimers a) <= length (activeTimers b) + 1)%nat.
Proof.
  intros H1 H2. rewrite !activeTimers_cycle, H1, H2, filter_app, length_app.
  pose proof (length_filter
    (fun tm0 => runnableCb (activeAnimations (pm b)) (tm_cb tm0) = true) [tm]) as Hle.
  cbn [length] in Hle. lia.
Qed.

Lemma OneCycle_fired id w : OneCycle w -> OneCycle (fired id w).
Proof.
  intros (H1 & H2 & H3 & H4). pose proof (activeTimers_fired_le id w) as Hle.
  split; [exact H1 |]. split; [exact H2 |]. split; [| exact H4].
  change (loops (fired id w)) with (loops w). lia.
Qed.

Lemma initialWorld_OneCycle d v p now : OneCycle (initialWorld d v p now).
Proof.
  unfold OneCycle. cbn. split; [rewrite size_empty; lia |].
  split; [auto |]. split; [lia | constructor].
Qed.

Lemma startCallback_superseded a w :
  a ∉ activeAnimations (pm w) -> startCallback a w = (Normal tt, w).
Proof.
  intros Ha. unfold startCallback, bind, get.
  destruct (negb (isDestroyed (pm w))); [apply runCycle_superseded, Ha | reflexivity].
Qed.

Lemma sview_drain_nil w : microtasks w = [] -> sview (drain w) = sview w.
Proof. intros H. destruct (qview_drain_nil w H) as [Hq _]. apply qview_parts in Hq. tauto. Qed.

(** A timer of the cycle fires. *)
Lemma OneCycle_cycle_callback id tm w w' :
  Good w -> OneCycle w ->
  tm ∈ timers w -> tm_id tm = id ->
  runnableCb (activeAnimations (pm w)) (tm_cb tm) = true ->
  fview w' = fview (fired id w) -> microtasks w' = microtasks (fired id w) ->
  (sview w' = sview (fired id w) \/
   (isDestroyed (pm (fired id w)) = false /\ loops w' = loops (fired id w) /\
    abortListeners w' = abortListeners (fired id w) /\
    (cycleTimers w' = cycleTimers (fired id w) \/
     exists tm, cycleTimers w' = cycleTimers (fired id w) ++ [tm])) \/
   (isDestroyed (pm (fired id w)) = false /\
    exists l, loops w' = loops (fired id w) ++ [l] /\
              typingController (pm w') = Some (lp_ctrl l) /\
              abortListeners w' = abortListeners (fired id w) ++ [(lp_ctrl l, lp_await l)] /\
              (lp_ctrl l ∉ abortedSignals (fired id w)) /\
              cycleTimers w' = cycleTimers (fired id w))) ->
  OneCycle (drain w').
Proof.
  intros HG HO Hin Hid Hrun Hf Hm Hcases.
  pose proof (OneCycle_fired id w HO) as HO0.
  assert (Hm' : microtasks w' = []) by (rewrite Hm; apply (Good_microtasks w HG)).
  apply (OneCycle_sview _ w'); [apply sview_drain_nil, Hm' |].
  destruct Hcases as [Hs | Hcases]; [apply (OneCycle_sview _ _ Hs HO0) |].
  assert (Hact : tm ∈ activeTimers w) by (apply list_elem_of_filter; auto).
  pose proof (active_timer_fired id w tm Hact Hid) as Hlt.
  pose proof (fview_parts _ _ Hf) as (Hi & _ & Ha & _).
  change (isInitialized (pm (fired id w))) with (isInitialized (pm w)) in *.
  change (activeAnimations (pm (fired id w))) with (activeAnimations (pm w)) in *.
  change (loops (fired id w)) with (loops w) in *.
  destruct HO as (H1 & H2 & H3 & H4).
  assert (Hl0 : loops w = []) by (apply length_le_1_nil; lia).
  assert (Hc0 : length (activeTimers (fired id w)) = 0%nat) by lia.
  assert (Hini : isInitialized (pm w) = true).
  { destruct (isInitialized (pm w)); [reflexivity |].
    destruct (H2 eq_refl) as [He _]. rewrite (activeTimers_empty w He) in Hlt.
    cbn in Hlt. lia. }
  unfold OneCycle. rewrite Hi, Ha, Hini.
  split; [exact H1 |]. split; [discriminate |].
  destruct Hcases as [(_ & Hl & _ & Hct) | (_ & l & Hl & Htc & _ & _ & Hct)].
  - rewrite Hl, Hl0. split; [| constructor]. cbn [length Nat.add].
    destruct Hct as [Hct | [tm' Hct]].
    + rewrite (activeTimers_view w' (fired id w) Ha Hct). lia.
    + pose proof (activeTimers_app w' (fired id w) tm' Ha Hct). lia.
  - rewrite Hl, Hl0, (activeTimers_view w' (fired id w) Ha Hct), Hc0. cbn.
    split; [lia |]. constructor; [exact Htc | constructor].
Qed.

Lemma OneCycle_resolve id w :
  Good w -> OneCycle w -> OneCycle (invoke (settle id true) (fired id w)).
Proof.
  intros HG HO. pose proof (OneCycle_fired id w HO) as HO0.
  pose proof (resolve_spec id (fired id w) (Good_microtasks w HG)) as H.
  cbv zeta in H. destruct H as (Hf & _ & _ & Hm & Htc & Hcases).
  set (w' := invoke (settle id true) (fired id w)) in *.
  destruct Hcases as [Hs | (l & Hin & Hawait & Hcases)];
    [apply (OneCycle_sview _ _ Hs HO0) |].
  pose proof (fview_parts _ _ Hf) as (Hi & _ & Ha & _).
  destruct HO0 as (H1 & H2 & H3 & H4).
  destruct (loops (fired id w)) as [|l0 [|l1 ls]] eqn:Hl0;
    [apply elem_of_nil in Hin as [] | | cbn in H3; lia].
  apply list_elem_of_singleton in Hin. subst l0.
  assert (Hc0 : length (activeTimers (fired id w)) = 0%nat)
    by (cbn [length Nat.add] in H3; lia).
  assert (Hini : isInitialized (pm (fired id w)) = true).
  { destruct (isInitialized (pm (fired id w))); [reflexivity |].
    destruct (H2 eq_refl) as [_ Hl]. discriminate. }
  assert (Hflt : filter (fun l' => lp_await l' <> id) [l] = []).
  { apply filter_singleton_False; [exact [] |]. intros Hn. apply Hn, Hawait. }
  unfold OneCycle. rewrite Hi, Ha, Hini, Htc.
  split; [exact H1 |]. split; [discriminate |]. apply Forall_inv in H4.
  destruct Hcases as [(Hl & _ & Hct) | (_ & l' & Hl & Hc & _ & _ & Hct)].
  - rewrite Hl, Hflt. split; [| constructor]. cbn [length Nat.add].
    destruct Hct as [Hct | [_ [tm' Hct]]].
    + rewrite (activeTimers_view w' (fired id w) Ha Hct). lia.
    + pose proof (activeTimers_app w' (fired id w) tm' Ha Hct). lia.
  - rewrite Hl, Hflt, (activeTimers_view w' (fired id w) Ha Hct), Hc0. cbn.
    split; [lia |]. constructor; [rewrite Hc; exact H4 | constructor].
Qed.

Lemma OneCycle_timer id w :
  Good w -> OneCycle w -> OneCycle (step (EvTimer id) w).
Proof.
  intros HG HO. pose proof (Good_microtasks w HG) as Hm. cbn [step].
  destruct (List.find _ (timers w)) as [tm|] eqn:Hfind; [| exact HO].
  apply find_timer in Hfind as [Hin Hid]. fold (fired id w).
  assert (Hm0 : microtasks (fired id w) = []) by exact Hm.
  assert (Hnoop : forall m, m (fired id w) = (Normal tt, fired id w) ->
            OneCycle (invoke m (fired id w))).
  { intros m E. unfold invoke. rewrite E. cbn [report].
    apply (OneCycle_sview _ (fired id w)); [apply sview_drain_nil, Hm0 |].
    apply OneCycle_fired, HO. }
  assert (Hother : forall cb, isCycleCb cb = false -> cb <> TChar ->
            OneCycle (invoke (timerCallback id cb) (fired id w))).
  { intros cb H1 H2. apply (OneCycle_sview _ (fired id w)); [| apply OneCycle_fired, HO].
    apply timerCallback_other; assumption. }
  destruct (tm_cb tm) as [a|a i| |t|t|t|] eqn:Hcb.
  - cbn [timerCallback].
    destruct (decide (a ∈ activeAnimations (pm w))) as [Ha|Ha];
      [| apply Hnoop, startCallback_superseded, Ha].
    unfold invoke.
    destruct (startCallback_spec a (fired id w)) as (w' & E & Hf & _ & _ & Hq & Hcases).
    rewrite E. cbn [report].
    eapply (OneCycle_cycle_callback id tm); try eassumption.
    rewrite Hcb. cbn. apply bool_decide_eq_true_2, Ha.
  - cbn [timerCallback].
    destruct (decide (a ∈ activeAnimations (pm w))) as [Ha|Ha];
      [| apply Hnoop, pauseCallback_superseded, Ha].
    unfold invoke.
    destruct (pauseCallback_spec a i (fired id w)) as (w' & E & Hf & _ & _ & Hq & Hcases).
    rewrite E. cbn [report].
    eapply (OneCycle_cycle_callback id tm); try eassumption.
    rewrite Hcb. cbn. apply bool_decide_eq_true_2, Ha.
  - cbn [timerCallback]. apply OneCycle_resolve; assumption.
  - apply Hother; [reflexivity | discriminate].
  - apply Hother; [reflexivity | discriminate].
  - apply Hother; [reflexivity | discriminate].
  - apply Hother; [reflexivity | discriminate].
Qed.

Lemma OneCycle_destroy w : Good w -> OneCycle w -> OneCycle (step EvDestroy w).
Proof.
  intros HG (_ & _ & _ & H4). pose proof HG as (_ & HL & _).
  destruct (destroy_event w HG) as (wa & q & _ & _ & E & Hown & _ & _ & _).
  rewrite E.
  assert (Hnil : filter (fun l => lp_await l ∉ q.*1) (loops w) = []).
  { destruct (filter _ (loops w)) as [|l ls] eqn:Hf; [reflexivity | exfalso].
    assert (Hl : l ∈ filter (fun l => lp_await l ∉ q.*1) (loops w))
      by (rewrite Hf; left).
    pose proof Hl as Hl'. apply list_elem_of_filter in Hl' as [_ Hl0].
    rewrite Forall_forall in H4. destruct HL as [_ Hall]. rewrite Forall_forall in Hall.
    destruct (Hall l Hl0) as [_ Hlive].
    destruct (Hown (lp_ctrl l) (H4 l Hl0) Hlive) as [_ Hposted].
    destruct (filter_posted q (lp_ctrl l) w l (conj (Good_microtasks w HG) (proj2 (Forall_forall _ _) Hall))
                Hposted Hl) as [_ Hne]. apply Hne. reflexivity. }
  unfold OneCycle. rewrite activeTimers_empty by reflexivity. cbn. rewrite Hnil.
  split; [rewrite size_empty; lia |]. split; [auto |]. split; [cbn; lia | constructor].
Qed.

Lemma freshClock_spec w :
  freshClock w = true ->
  filter (fun tm => runnableCb {[ clock w ]} (tm_cb tm) = true) (cycleTimers w) = [].
Proof.
  unfold freshClock, cycleTimers. intros H. rewrite list_filter_filter.
  induction (timers w) as [|tm ts IH]; [reflexivity |].
  cbn [forallb] in H. apply andb_true_iff in H as [H1 H2].
  apply negb_true_iff in H1.
  rewrite filter_cons_False by (rewrite H1; intros [? _]; discriminate).
  apply IH, H2.
Qed.

Lemma OneCycle_init w :
  Good w -> OneCycle w ->
  (isInitialized (pm w) = false -> freshClock w = true) ->
  OneCycle (step EvInit w).
Proof.
  intros HG HO Hfresh. pose proof (Good_microtasks w HG) as Hm.
  destruct (isInitialized (pm w)) eqn:Hi0.
  - rewrite init_event_initialized by assumption.
    apply (OneCycle_sview _ w); [| exact HO]. views. rewrite ?Hm. reflexivity.
  - assert (Hi : isInitialized (pm w) = false) by exact Hi0.
    specialize (Hfresh eq_refl). clear Hi0.
    cbn [step]. unfold invoke. rewrite (report_post _ _ init_nothrow). unfold post.
    destruct (init_fresh w Hi) as (w' & E & (HU & HK & Hi' & _ & HC) & _).
    rewrite E. cbn [snd].
    unfold uview in HU. injection HU as Hd _ _ Htc _ Hl Hq _.
    assert (Hm' : microtasks w' = []) by congruence.
    apply (OneCycle_sview _ w'); [apply sview_drain_nil, Hm' |].
    destruct HO as (H1 & H2 & H3 & H4). destruct (H2 Hi) as [He Hl0].
    unfold OneCycle. rewrite Hl, Htc, Hi', Hl0.
    split; [| split; [discriminate | split; [| constructor]]].
    + destruct HC as [[-> _] | [-> _]]; rewrite He.
      * rewrite size_empty. lia.
      * rewrite union_empty_r_L, size_singleton. lia.
    + cbn [length Nat.add]. destruct HC as [[Ha Hc] | [Ha (t & d & Hc)]].
      * rewrite (activeTimers_view w' w Ha Hc), (activeTimers_empty w He). cbn. lia.
      * rewrite activeTimers_cycle, Ha, He, union_empty_r_L, Hc, filter_app, length_app.
        rewrite (freshClock_spec w Hfresh).
        pose proof (length_filter
          (fun tm0 => runnableCb {[ clock w ]} (tm_cb tm0) = true)
          [{| tm_id := t; tm_delay := d; tm_cb := TStart (clock w) |}]) as Hle.
        cbn [length] in Hle. cbn [length Nat.add]. lia.
Qed.

Theorem step_OneCycle ev w :
  Good w -> OneCycle w ->
  (isInit ev && negb (isInitialized (pm w)) = true -> freshClock w = true) ->
  OneCycle (step ev w).
Proof.
  intros HG HO Hfresh.
  destruct (isQuiet ev) eqn:Hq.
  { apply (OneCycle_sview _ w); [apply quiet_sview; assumption | exact HO]. }
  destruct ev as [| |hidden| |id| | | | | |]; try discriminate.
  - apply OneCycle_init; [assumption | assumption |].
    intros Hi. apply Hfresh. rewrite Hi. reflexivity.
  - apply OneCycle_destroy; assumption.
  - cbn [step]. unfold invoke, onVisibilityChange. cbn [modify report].
    rewrite drain_nil by (apply (Good_microtasks w HG)). exact HO.
  - apply OneCycle_timer; assumption.
Qed.

Lemma run_OneCycle evs : forall w,
  paced evs w = true -> Good w -> OneCycle w -> OneCycle (run evs w).
Proof.
  induction evs as [|ev evs IH]; intros w Hp HG HO; [exact HO |].
  cbn [paced] in Hp. apply andb_true_iff in Hp as [Hp1 Hp2].
  cbn [run fold_left]. apply IH; [exact Hp2 | apply step_Good, HG |].
  apply step_OneCycle; [assumption | assumption |].
  intros Hc. rewrite Hc in Hp1. exact Hp1.
Qed.

Lemma reachable_OneCycle d v p now evs :
  pristine v -> paced evs (initialWorld d v p now) = true ->
  OneCycle (run evs (initialWorld d v p now)).
Proof.
  intros Hp Hpaced. apply run_OneCycle;
    [exact Hpaced | apply initialWorld_Good, Hp | apply initialWorld_OneCycle].
Qed.

(** ** After a cancellation *)


Lemma in_flight_paced l w :
  OneCycle w -> l ∈ loops w ->
  loops w = [l] /\ activeTimers w = [] /\ typingController (pm w) = Some (lp_ctrl l).
Proof.
  intros (_ & _ & H3 & H4) Hin. rewrite Forall_forall in H4. pose proof (H4 l Hin) as Htc.
  destruct (loops w) as [|l0 [|l1 ls]];
    [apply elem_of_nil in Hin as [] | | cbn in H3; lia].
  apply list_elem_of_singleton in Hin. subst l0.
  split; [reflexivity |]. split; [| exact Htc].
  apply length_le_1_nil. cbn [length Nat.add] in H3. lia.
Qed.


Lemma Dormant_timer id w :
  Good w -> Dormant w ->
  Dormant (step (EvTimer id) w) /\
  typingText (dom (step (EvTimer id) w)) = typingText (dom w).
Proof.
  intros HG HD0. pose proof HD0 as (Hl & Hc & Hm).
  assert (HD : Dormant (fired id w)).
  { split; [exact Hl |]. split; [| exact Hm].
    rewrite activeTimers_fired, Hc. reflexivity. }
  cbn [step].
  destruct (List.find _ (timers w)) as [tm|] eqn:Hfind; [| auto].
  apply find_timer in Hfind as [Hin Hid]. fold (fired id w).
  assert (Hm0 : microtasks (fired id w) = []) by exact Hm.
  assert (Hsv : forall w', sview w' = sview (fired id w) ->
            Dormant w' /\ typingText (dom w') = typingText (dom w)).
  { intros w' Hs. split; [apply (Dormant_sview _ _ Hs HD) |].
    apply sview_parts in Hs as (_ & _ & _ & _ & _ & _ & ->). reflexivity. }
  assert (Hnoop : forall m, m (fired id w) = (Normal tt, fired id w) ->
            sview (invoke m (fired id w)) = sview (fired id w)).
  { intros m E. unfold invoke. rewrite E. cbn [report]. apply sview_drain_nil, Hm0. }
  assert (Hout : forall a, runnableCb (activeAnimations (pm w)) (tm_cb tm) =
                           bool_decide (a ∈ activeAnimations (pm w)) ->
                           a ∉ activeAnimations (pm w)).
  { intros a Hr Ha. assert (Hx : tm ∈ activeTimers w).
    { apply list_elem_of_filter. split; [| exact Hin].
      rewrite Hr. apply bool_decide_eq_true_2, Ha. }
    rewrite Hc in Hx. apply elem_of_nil in Hx as []. }
  apply Hsv.
  destruct (tm_cb tm) as [a|a i| |t|t|t|] eqn:Hcb; cbn [timerCallback].
  - apply Hnoop, startCallback_superseded, (Hout a eq_refl).
  - apply Hnoop, pauseCallback_superseded, (Hout a eq_refl).
  - rewrite resolve_none; [views; rewrite ?Hm0; reflexivity | exact Hm0 |].
    change (loops (fired id w)) with (loops w). rewrite Hl. reflexivity.
  - apply (timerCallback_other id (TSubmitWait t)); [exact Hm0 | reflexivity | discriminate].
  - apply (timerCallback_other id (TSubmitRevert t)); [exact Hm0 | reflexivity | discriminate].
  - apply (timerCallback_other id (TSubmitErrorRevert t));
      [exact Hm0 | reflexivity | discriminate].
  - apply (timerCallback_other id TOrientation); [exact Hm0 | reflexivity | discriminate].
Qed.

Lemma step_Dormant ev w :
  isInit ev = false -> Good w -> Dormant w ->
  Dormant (step ev w) /\ typingText (dom (step ev w)) = typingText (dom w).
Proof.
  intros Hi HG HD. pose proof (Good_microtasks w HG) as Hm.
  assert (Hsv : forall w' w0, sview w' = sview w0 -> Dormant w0 ->
            typingText (dom w0) = typingText (dom w) ->
            Dormant w' /\ typingText (dom w') = typingText (dom w)).
  { intros w' w0 Hs HD0 Ht. split; [apply (Dormant_sview _ w0 Hs HD0) |].
    apply sview_parts in Hs as (_ & _ & _ & _ & _ & _ & ->). exact Ht. }
  destruct (isQuiet ev) eqn:Hq;
    [apply (Hsv _ w); [apply quiet_sview; assumption | exact HD | reflexivity] |].
  destruct ev; try discriminate.
  - destruct (destroy_event w HG) as (wa & q & _ & _ & E & _).
    destruct HD as (Hl & _ & _). rewrite E. split; [| reflexivity].
    split; [cbn; rewrite Hl; reflexivity |]. split; [| reflexivity].
    apply activeTimers_empty. reflexivity.
  - cbn [step]. unfold invoke, onVisibilityChange. cbn [modify report].
    rewrite drain_nil by exact Hm. split; [| reflexivity].
    destruct HD as (Hl & Hc & _). split; [exact Hl |]. split; [exact Hc | reflexivity].
  - apply Dormant_timer; assumption.
Qed.

Lemma run_Dormant evs : forall w,
  noInit evs = true -> Good w -> Dormant w ->
  Dormant (run evs w) /\ typingText (dom (run evs w)) = typingText (dom w).
Proof.
  induction evs as [|ev evs IH]; intros w Hn HG HD; [auto |].
  cbn [noInit forallb] in Hn. apply andb_true_iff in Hn as [Hn1 Hn2].
  apply negb_true_iff in Hn1. cbn [run fold_left].
  destruct (step_Dormant ev w Hn1 HG HD) as [HD' Ht].
  destruct (IH (step ev w) Hn2 (step_Good ev w HG) HD') as [H1 H2].
  split; [exact H1 |]. unfold run in H2. rewrite H2. exact Ht.
Qed.


Lemma runnable_active w :
  (length (runnableTimers w) <= length (activeTimers w))%nat.
Proof.
  unfold runnableTimers. destruct (isDestroyed (pm w)); [cbn; lia | reflexivity].
Qed.

(** What the two histories give: at most one cycle, one reveal, one
    continuation. *)
Lemma sequential_or_paced d v p now evs :
  pristine v ->
  noVisibility evs = true \/ paced evs (initialWorld d v p now) = true ->
  let w := run evs (initialWorld d v p now) in
  (size (activeAnimations (pm w)) <= 1)%nat /\
  (length (loops w) + length (runnableTimers w) <= 1)%nat /\
  Forall (fun l => typingController (pm w) = Some (lp_ctrl l)) (loops w).
Proof.
  intros Hp [Hv | Hpaced] w.
  - pose proof (reachable_Sequential d v p now evs Hp Hv) as HS. fold w in HS.
    destruct HS as (H1 & H2 & H3 & _ & H5).
    split; [exact H3 |]. split; [| exact H5].
    destruct (isDestroyed (pm w)) eqn:Hd.
    + rewrite (H1 eq_refl). unfold runnableTimers. rewrite Hd. cbn. lia.
    + destruct (H2 eq_refl) as [Hlen _]. pose proof (runnable_le w). lia.
  - pose proof (reachable_OneCycle d v p now evs Hp Hpaced) as HO. fold w in HO.
    destruct HO as (H1 & _ & H3 & H4).
    split; [exact H1 |]. split; [| exact H4].
    pose proof (runnable_active w). lia.
Qed.

(* ===================================================================== *)
(** * Main theorems                                                       *)
(* ===================================================================== *)




(** C2: after the first [init] and any number of destroy-init pairs, the
    window carries exactly one scroll listener and one resize listener of
    the controller, the two handlers its last [init] bound, both passive;
    a [destroy] then leaves none.  In every world the page can reach, the
    window carries at most one of each. *)
Theorem listeners_not_duplicated d v p now (n : nat) :
  pristine v ->
  let w := run (reinits n) (initialWorld d v p now) in
  (exists k k',
     handlers (pm w) = {| h_scroll := Some (BoundHandleScroll k);
                          h_resize := Some (BoundHandleResize k') |} /\
     controllerListeners (scrollListeners (win w)) =
       [passiveListener (BoundHandleScroll k)] /\
     controllerListeners (resizeListeners (win w)) =
       [passiveListener (BoundHandleResize k')]) /\
  controllerListeners (scrollListeners (win (step EvDestroy w))) = [] /\
  controllerListeners (resizeListeners (win (step EvDestroy w))) = [] /\
  (forall evs,
     let w1 := run evs (initialWorld d v p now) in
     length (controllerListeners (scrollListeners (win w1))) =
       (if isInitialized (pm w1) then 1 else 0)%nat /\
     length (controllerListeners (resizeListeners (win w1))) =
       (if isInitialized (pm w1) then 1 else 0)%nat).
Proof.
  intros Hp w. pose proof (initialWorld_Good d v p now Hp) as HG0.
  assert (HG : Good w) by (apply reachable_Good, Hp).
  split; [| split; [| split]].
  - unfold w, reinits. rewrite run_cons. apply Registered_pairs.
    + apply step_Good, HG0.
    + apply Registered_init; [exact HG0 | reflexivity].
  - apply (destroy_event_flags w HG).
  - apply (destroy_event_flags w HG).
  - intros evs w1.
    pose proof (reachable_Good d v p now evs Hp) as (_ & _ & _ & HLis).
    fold w1 in HLis. unfold ListenersOK in HLis.
    destruct (isInitialized (pm w1)).
    + destruct HLis as (hs & hr & _ & _ & _ & -> & ->). auto.
    + destruct HLis as [-> ->]. auto.
Qed.

Lemma listeners_not_duplicated_witness :
  scrollListeners (win (run (reinits 2) demoWorld)) =
    [passiveListener (BoundHandleScroll 7)] /\
  length (controllerListeners (resizeListeners (win (run (reinits 2) demoWorld)))) = 1%nat.
Proof.
  assert (Hp : pristine demoWindow) by (split; reflexivity).
  destruct (listeners_not_duplicated demoDom demoWindow demoPlatform 1000 2 Hp)
    as ((k & k' & _ & _ & Hr) & _).
  split; [vm_compute; reflexivity |].
  fold demoWorld in Hr. rewrite Hr. reflexivity.
Defined.

(** C3: under the configuration of the constructor the particle count is,
    for every viewport width and pixel ratio, between 20 and 100, and it is
    determined by the two inputs alone: 25 (half of 50, not below 20) on a
    low-end device (ratio below 2, or none reported, and width below
    1024), 75 (one and a half times 50, not above 100) on a width above
    1920 otherwise, and 50 in every other case; so on widths 800, 1023,
    1024, 1920 and 1921 with ratios 0, 1, 2 and 3.  The count is a whole
    number, the loop of [createParticles] runs that many times, and
    [createParticles] appends that many particles to its container and
    logs the count. *)
Theorem particleCount_default_range (screenWidth : Z) (dpr : option Q) :
  let cfg := Cfg.particles (config constructor) in
  let n := particleCount cfg screenWidth dpr in
  (Cfg.minCount cfg == 20)%Q /\ (Cfg.maxCount cfg == 100)%Q /\
  (Cfg.minCount cfg <= n <= Cfg.maxCount cfg)%Q /\
  CountFor screenWidth dpr n /\
  (inject_Z (Z.of_nat (iterations n)) == n)%Q /\
  ((particleCount cfg 800 (Some 1) == 25)%Q /\
   (particleCount cfg 800 (Some 0) == 25)%Q /\
   (particleCount cfg 800 None == 25)%Q /\
   (particleCount cfg 800 (Some 2) == 50)%Q /\
   (particleCount cfg 800 (Some 3) == 50)%Q /\
   (particleCount cfg 1023 (Some (3 # 2)) == 25)%Q /\
   (particleCount cfg 1024 (Some 1) == 50)%Q /\
   (particleCount cfg 1920 (Some 1) == 50)%Q /\
   (particleCount cfg 1921 (Some 1) == 75)%Q /\
   (particleCount cfg 1921 (Some 3) == 75)%Q) /\
  (forall w ps,
     config (pm w) = config constructor ->
     innerWidth (win w) = screenWidth -> devicePixelRatio (win w) = dpr ->
     bgAnimation (dom w) = Some ps ->
     elementCache (pm w) !! "bgAnimation"%string = None ->
     exists fragment,
       length fragment = iterations n /\
       fst (createParticles w) = Normal tt /\
       bgAnimation (dom (post createParticles w)) = Some (ps ++ fragment) /\
       console (post createParticles w) = console w ++ [LogCreated n]).
Proof.
  cbv zeta. split; [reflexivity | split; [reflexivity | split; [| split; [| split; [| split]]]]].
  - apply particleCount_bounds; discriminate.
  - pose proof (isLowEndDevice_LowEnd screenWidth dpr) as HL.
    unfold CountFor, particleCount.
    destruct (Qlt_bool (orOne dpr) 2 && (screenWidth <? 1024)) eqn:E.
    + assert (H : LowEnd screenWidth dpr) by (apply HL; reflexivity).
      split; [intros _; reflexivity |]. split; intros Hn; contradiction.
    + assert (H : ~ LowEnd screenWidth dpr) by (intros H; apply HL in H; discriminate).
      split; [intros H'; contradiction |].
      destruct (1920 <? screenWidth) eqn:E2;
        [apply Z.ltb_lt in E2 | apply Z.ltb_ge in E2];
        (split; intros _ Hw; [reflexivity || lia | reflexivity || lia]).
  - unfold particleCount.
    destruct (Qlt_bool (orOne dpr) 2 && (screenWidth <? 1024));
      [| destruct (1920 <? screenWidth)]; reflexivity.
  - repeat split; reflexivity.
  - intros w ps Hcfg <- <- Hd Hc. rewrite <- Hcfg.
    apply (createParticles_count w ps Hd Hc).
Qed.

Lemma particleCount_default_range_witness :
  exists fragment,
    length fragment = 50%nat /\
    bgAnimation (dom (post createParticles demoWorld)) = Some fragment.
Proof.
  destruct (particleCount_default_range 1280 (Some 1%Q))
    as (_ & _ & _ & _ & _ & _ & Hc).
  destruct (Hc demoWorld [] eq_refl eq_refl eq_refl eq_refl eq_refl)
    as (fragment & Hlen & _ & Hd & _).
  exists fragment. split; [rewrite Hlen; reflexivity | exact Hd].
Defined.

(** C4: [validateForm] succeeds exactly when name, email and message each
    hold a character that is not white space (they are non-empty once
    trimmed) and the email, without the white space at its two ends, has
    the shape local-part@domain.tld: three non-empty parts without white
    space or an at sign.  It always answers; it fails on an empty or blank
    name, an empty email or message, on the addresses bob@ and bob.com, on
    an address with a space inside and on one with two at signs; it
    succeeds on name A, email a@b.co, message hi, also when white space
    surrounds them; of two values under one name the first counts. *)
Theorem validateForm_spec :
  (forall formData w,
     fst (validateForm formData w) = Normal true <->
     Filled formData "name" /\ Filled formData "email" /\
     Filled formData "message" /\
     exists e s, formData_get formData "email" = Some e /\
                 TrimmedTo e s /\ EmailShape s) /\
  (forall formData w,
     fst (validateForm formData w) = Normal true \/
     fst (validateForm formData w) = Normal false) /\
  (forall w,
     fst (validateForm (contactData "" "a@b.co" "hi") w) = Normal false /\
     fst (validateForm (contactData "A" "" "hi") w) = Normal false /\
     fst (validateForm (contactData "A" "a@b.co" "") w) = Normal false /\
     fst (validateForm (contactData "A" "bob@" "hi") w) = Normal false /\
     fst (validateForm (contactData "A" "bob.com" "hi") w) = Normal false /\
     fst (validateForm (contactData "A" "a@b.co" "hi") w) = Normal true /\
     fst (validateForm (contactData "  " "a@b.co" "hi") w) = Normal false /\
     fst (validateForm (contactData "A" "a@b.co" " ") w) = Normal false /\
     fst (validateForm (contactData "A" "a b@c.de" "hi") w) = Normal false /\
     fst (validateForm (contactData "A" "a@b .de" "hi") w) = Normal false /\
     fst (validateForm (contactData "A" "a@b@c.de" "hi") w) = Normal false /\
     fst (validateForm (contactData " A " "  a@b.co " " hi ") w) = Normal true /\
     fst (validateForm
            [("name"%string, JS.of_string "A"); ("email"%string, JS.of_string "bob");
             ("email"%string, JS.of_string "a@b.co");
             ("message"%string, JS.of_string "hi")] w) = Normal false).
Proof.
  split; [| split].
  - intros formData w.
    assert (Hmail : (exists e s, formData_get formData "email" = Some e /\
                                 TrimmedTo e s /\ EmailShape s) <->
                    (exists e, formData_get formData "email" = Some e /\
                               EmailShape (JS.trim e))).
    { split.
      - intros (e & s & He & Ht & Hs). exists e. split; [exact He |].
        apply EmailShape_trim. exists s. split; assumption.
      - intros (e & He & Hs). apply EmailShape_trim in Hs as (s & Ht & Hs).
        exists e, s. auto. }
    rewrite Hmail, <- !FilledIn_Filled. clear Hmail.
    rewrite <- !truthyOpt_trim. unfold validateForm.
    destruct (truthyOpt (JS.trim <$> formData_get formData "name")); simpl;
      [| split; [discriminate | intros (? & _); discriminate]].
    destruct (truthyOpt (JS.trim <$> formData_get formData "email")) eqn:He; simpl;
      [| split; [discriminate | intros (_ & ? & _); discriminate]].
    destruct (truthyOpt (JS.trim <$> formData_get formData "message")); simpl;
      [| split; [discriminate | intros (_ & _ & ? & _); discriminate]].
    destruct (formData_get formData "email") as [e|]; [| discriminate He]. simpl.
    destruct (Regex.test emailRegex (JS.trim e)) eqn:Ht; simpl.
    + apply test_lang, emailRegex_shape in Ht. split; [| reflexivity].
      intros _. repeat split; try reflexivity. exists e. auto.
    + split; [discriminate |]. intros (_ & _ & _ & e' & [= <-] & Hs).
      apply emailRegex_shape, test_lang in Hs. congruence.
  - intros formData w. unfold validateForm.
    destruct (negb _ || negb _ || negb _); simpl; [right; reflexivity |].
    destruct (negb _); simpl; [right | left]; reflexivity.
  - intros w. repeat split; reflexivity.
Qed.

(** C5: in every world reached by calls of [init] and [destroy], timer
    callbacks and any other event but a visibility change, and in every
    world reached with visibility changes if every [init] that set up a
    cycle found the clock fresh, the animation set holds at most one
    cycle, at most one reveal is in flight, and a reveal in flight and the
    timers that would start one number at most one together.  No event but
    [init] adds a cycle, [init] on an initialized controller adds none, and
    a cycle whose identifier has left the animation set does nothing when
    it is resumed. *)
Theorem typing_cycle_sequential d v p now (evs : list Event) :
  pristine v ->
  noVisibility evs = true \/ paced evs (initialWorld d v p now) = true ->
  let w := run evs (initialWorld d v p now) in
  (size (activeAnimations (pm w)) <= 1)%nat /\
  (length (loops w) <= 1)%nat /\
  (length (loops w) + length (runnableTimers w) <= 1)%nat /\
  (forall ev, isInit ev = false ->
     activeAnimations (pm (step ev w)) ⊆ activeAnimations (pm w)) /\
  (isInitialized (pm w) = true ->
     activeAnimations (pm (step EvInit w)) = activeAnimations (pm w)) /\
  (forall a i w0, a ∉ activeAnimations (pm w0) ->
     runCycle a i w0 = (Normal tt, w0) /\ pauseCallback a i w0 = (Normal tt, w0)).
Proof.
  intros Hp Hhist w.
  pose proof (reachable_Good d v p now evs Hp) as HG. fold w in HG.
  destruct (sequential_or_paced d v p now evs Hp Hhist) as (H1 & Hsum & _).
  fold w in H1, Hsum.
  split; [exact H1 |]. split; [lia |]. split; [exact Hsum |].
  split; [intros ev Hi; apply step_activeAnimations; assumption |].
  split.
  - intros Hi. rewrite init_event_initialized by assumption. reflexivity.
  - intros a i w0 Ha.
    split; [apply runCycle_superseded | apply pauseCallback_superseded]; exact Ha.
Qed.

Lemma typing_cycle_sequential_witness :
  let w := run [EvInit; EvTimer 0%nat; EvVisibility true; EvDestroy; EvClock 5000;
                EvInit; EvVisibility false; EvTimer 5%nat; EvTimer 4%nat]
             demoWorld in
  (length (loops w) + length (runnableTimers w) <= 1)%nat /\
  (size (activeAnimations (pm w)) <= 1)%nat /\
  typingText (dom w) = Some "J"%string.
Proof.
  assert (Hp : pristine demoWindow) by (split; reflexivity).
  assert (Hpaced : paced [EvInit; EvTimer 0%nat; EvVisibility true; EvDestroy;
                          EvClock 5000; EvInit; EvVisibility false; EvTimer 5%nat;
                          EvTimer 4%nat]
                     (initialWorld demoDom demoWindow demoPlatform 1000) = true)
    by (vm_compute; reflexivity).
  destruct (typing_cycle_sequential demoDom demoWindow demoPlatform 1000
              [EvInit; EvTimer 0%nat; EvVisibility true; EvDestroy; EvClock 5000;
               EvInit; EvVisibility false; EvTimer 5%nat; EvTimer 4%nat]
              Hp (or_intror Hpaced)) as (H1 & _ & H3 & _).
  split; [exact H3 |]. split; [exact H1 |]. vm_compute. reflexivity.
Defined.

(** C6: in every world the page can reach, any number of scroll events
    leave the page as it is and at most one scroll pass requested for the
    next frame; the frame runs the requested passes and leaves none.  A
    call of [handleScroll] while the ticking flag is set, or on a destroyed
    controller, changes nothing, and no call of it touches the page. *)
Theorem scroll_coalesced d v p now (evs : list Event) (ys : list Q) :
  pristine v ->
  let w := run evs (initialWorld d v p now) in
  let w' := run (map EvScroll ys) w in
  dom w' = dom w /\
  (scrollFrames w' <= 1)%nat /\
  scrollFrames (step EvFrame w') = 0%nat /\
  scrollTicking (pm (step EvFrame w')) = false /\
  (forall w0, scrollTicking (pm w0) = true \/ isDestroyed (pm w0) = true ->
     handleScroll w0 = (Normal tt, w0)) /\
  (forall w0, dom (post handleScroll w0) = dom w0).
Proof.
  intros Hp w w'. pose proof (reachable_Good d v p now evs Hp) as HG. fold w in HG.
  assert (HG' : Good w') by (apply run_Good, HG).
  split; [apply scrolls_dom, HG |].
  pose proof HG' as (HWF & _ & HT & _).
  split; [unfold TickOK in HT; rewrite HT; destruct (scrollTicking (pm w')); lia |].
  destruct (frame_event_spec w' HWF (Good_microtasks w' HG') HT) as (_ & _ & Hf & Htick).
  split; [unfold scrollFrames; rewrite Hf; reflexivity |].
  split; [exact Htick |]. split; [apply handleScroll_suppressed |].
  intros w0. unfold post. rewrite handleScroll_exec. cbn [snd].
  destruct (scrollTicking (pm w0) || isDestroyed (pm w0)); reflexivity.
Qed.

Lemma scroll_coalesced_witness :
  let w := run (map EvScroll [100%Q; 200%Q; 300%Q]) (run [EvInit] demoWorld) in
  frames w = [FScroll] /\ navbar (dom w) = Some false /\
  navbar (dom (step EvFrame w)) = Some true /\
  scrollFrames (step EvFrame w) = 0%nat.
Proof.
  assert (Hp : pristine demoWindow) by (split; reflexivity).
  destruct (scroll_coalesced demoDom demoWindow demoPlatform 1000 [EvInit]
              [100%Q; 200%Q; 300%Q] Hp) as (_ & _ & H3 & _).
  fold demoWorld in H3. cbv zeta.
  split; [vm_compute; reflexivity |]. split; [vm_compute; reflexivity |].
  split; [vm_compute; reflexivity |]. exact H3.
Defined.

(** C7: [init], [destroy], [createParticles], [handleScroll],
    [handleResize], the submit handler, the two frame callbacks and
    [getElement] return normally in every world, and so does
    [validateForm] on form data whose name, email and message are text or
    absent, which the data of text fields always is.  [init] does so
    around any setup sequence: an exception of the sequence is logged with
    the world the sequence left.  A missing element makes
    [createParticles], [updateNavbar], [initContactForm] and
    [initTypingAnimation] log a warning and do nothing else. *)
Theorem entry_points_never_throw :
  (forall setup, nothrow (init_with setup)) /\
  nothrow init /\ nothrow destroy /\ nothrow createParticles /\
  nothrow handleScroll /\ nothrow handleResize /\
  (forall entries, TextFields entries -> nothrow (validateForm_any (Some entries))) /\
  (forall formData,
     TextFields (textEntries formData) /\
     forall w, validateForm_any (Some (textEntries formData)) w = validateForm formData w) /\
  nothrow submitHandler /\ nothrow scrollFrame /\ nothrow resizeFrame /\
  (forall id cache, nothrow (getElement id cache)) /\
  (forall setup w e w1,
     isInitialized (pm w) = false ->
     setup (upd_console (fun c => c ++ [Log "Initializing Portfolio..."]) w)
       = (Thrown e, w1) ->
     init_with setup w =
     (Normal tt,
      upd_console (fun c => c ++ [ErrorLog "Failed to initialize portfolio:" e]) w1)) /\
  (forall w,
     elementCache (pm w) !! "bgAnimation"%string = None -> bgAnimation (dom w) = None ->
     createParticles w =
     (Normal tt, upd_console (fun c => c ++ [notFound "bgAnimation"]) w)) /\
  (forall w,
     elementCache (pm w) !! "navbar"%string = None -> navbar (dom w) = None ->
     updateNavbar w = (Normal tt, upd_console (fun c => c ++ [notFound "navbar"]) w)) /\
  (forall w,
     elementCache (pm w) !! "contactForm"%string = None -> contactForm (dom w) = None ->
     initContactForm w =
     (Normal tt, upd_console (fun c => c ++ [notFound "contactForm"]) w)) /\
  (forall w,
     elementCache (pm w) !! "typingText"%string = None -> typingText (dom w) = None ->
     initTypingAnimation w =
     (Normal tt, upd_console (fun c => c ++ [notFound "typingText"]) w)).
Proof.
  split; [apply init_with_nothrow |]. split; [apply init_nothrow |].
  split; [apply destroy_nothrow |]. split; [apply createParticles_nothrow |].
  split; [apply handleScroll_nothrow |]. split; [apply handleResize_nothrow |].
  split; [apply validateForm_any_nothrow |].
  split.
  { intros formData. split; [| apply validateForm_any_text].
    unfold TextFields. rewrite !Forall_cons.
    repeat split; try constructor; rewrite entries_get_text;
      destruct (formData_get formData _); discriminate. }
  split; [apply submitHandler_nothrow |].
  split; [apply scrollFrame_nothrow |]. split; [apply resizeFrame_nothrow |].
  split; [apply getElement_nothrow |]. split; [apply init_with_caught |].
  split; [apply createParticles_missing |]. split; [apply updateNavbar_missing |].
  split; [apply initContactForm_missing | apply initTypingAnimation_missing].
Qed.

Lemma entry_points_never_throw_witness :
  init_with (throw (TypeError "x")) demoWorld =
    (Normal tt,
     upd_console (fun c => c ++ [ErrorLog "Failed to initialize portfolio:" (TypeError "x")])
       (upd_console (fun c => c ++ [Log "Initializing Portfolio..."]) demoWorld)) /\
  initContactForm demoWorld =
    (Normal tt, upd_console (fun c => c ++ [notFound "contactForm"]) demoWorld).
Proof.
  destruct entry_points_never_throw
    as (_ & _ & _ & _ & _ & _ & _ & _ & _ & _ & _ & _ & Hc & _ & _ & Hf & _).
  split; [apply Hc; reflexivity | apply Hf; reflexivity].
Defined.

(** Where [validateForm] throws to its caller: on form data with a file
    under one of the three names, and on an argument that is no form data. *)
Lemma validateForm_throws :
  validateForm_any (Some [("name"%string, FText (JS.of_string "A"));
                          ("email"%string, FFile)]) demoWorld =
    (Thrown (TypeError "formData.get(...)?.trim is not a function"), demoWorld) /\
  validateForm_any None demoWorld =
    (Thrown (TypeError "Cannot read properties of null"), demoWorld).
Proof.
  split.
  - unfold validateForm_any, recv, bind, ret. reflexivity.
  - reflexivity.
Qed.

(** C8: [destroy] returns normally in every world and leaves the destroyed
    flag set, the initialized flag reset, the signal of the typing
    controller it found aborted and the reference to it cleared, the
    animation set and the element cache empty, and neither handler among
    the listeners of the window.  Where the signal was not aborted before,
    the timeouts of its abort listeners are cleared and the reveals waiting
    for them are resumed with a rejection, unless already resolved.  A second [destroy] changes nothing but the
    console, to which it adds its two lines. *)
Theorem destroy_idempotent (w : World) :
  exists w1,
    destroy w = (Normal tt, w1) /\
    isDestroyed (pm w1) = true /\ isInitialized (pm w1) = false /\
    typingController (pm w1) = None /\
    (forall c, typingController (pm w) = Some c -> c ∈ abortedSignals w1) /\
    (exists q, microtasks w1 = microtasks w ++ q /\
               Forall (fun mt => snd mt = false) q) /\
    (forall c, typingController (pm w) = Some c -> c ∉ abortedSignals w ->
       timers w1 = filter (fun tm => (c, tm_id tm) ∉ abortListeners w) (timers w) /\
       forall l, l ∈ loops w -> (c, lp_await l) ∈ abortListeners w ->
                 lp_await l ∈ (microtasks w1).*1) /\
    activeAnimations (pm w1) = ∅ /\ elementCache (pm w1) = ∅ /\
    scrollListeners (win w1) =
      removeHandler (h_scroll (handlers (pm w))) (scrollListeners (win w)) /\
    resizeListeners (win w1) =
      removeHandler (h_resize (handlers (pm w))) (resizeListeners (win w)) /\
    (forall f, h_scroll (handlers (pm w)) = Some f ->
       Forall (fun l => ~ sameListener f false l) (scrollListeners (win w1))) /\
    (forall f, h_resize (handlers (pm w)) = Some f ->
       Forall (fun l => ~ sameListener f false l) (resizeListeners (win w1))) /\
    destroy w1 =
      (Normal tt,
       upd_console
         (fun c => (c ++ [Log "Destroying Portfolio..."]) ++ [Log "Portfolio destroyed"])
         w1).
Proof.
  destruct (destroy_exec w) as (wa & E & Hab & (q & Hq & Hrej) & _ & Hown).
  exists (destroyed w wa). split; [exact E |]. cbn.
  do 3 (split; [reflexivity |]). split.
  { intros c Hc. rewrite Hab, Hc. apply elem_of_union_l, elem_of_singleton. reflexivity. }
  split; [exists q; auto |]. split.
  { intros c Hc Hn. destruct (Hown c Hc Hn) as [Ht Hposted]. split; [exact Ht |].
    intros l Hl Hreg. apply Hposted; [exact Hreg |].
    apply Exists_exists. exists l. auto. }
  do 4 (split; [reflexivity |]). split; [| split].
  - intros f ->. cbn. apply Forall_forall. intros l Hl.
    apply list_elem_of_filter in Hl as [Hn _]. exact Hn.
  - intros f ->. cbn. apply Forall_forall. intros l Hl.
    apply list_elem_of_filter in Hl as [Hn _]. exact Hn.
  - apply destroy_destroyed.
Qed.

(** C9: on an initialized controller [init] returns normally and changes
    nothing but the console, to which it adds the warning: the controller,
    the page, the window with its listeners, the timers and the frames are
    as they were. *)
Theorem init_idempotent (w : World) :
  isInitialized (pm w) = true ->
  init w =
    (Normal tt,
     upd_console (fun c => c ++ [Warn "Portfolio already initialized"]) w) /\
  pm (post init w) = pm w /\ dom (post init w) = dom w /\
  win (post init w) = win w /\ timers (post init w) = timers w /\
  frames (post init w) = frames w /\
  console (post init w) = console w ++ [Warn "Portfolio already initialized"].
Proof.
  intros Hi. unfold post. rewrite (init_initialized w Hi). cbn [snd].
  repeat split.
Qed.

Lemma init_idempotent_witness :
  let w := run [EvInit] demoWorld in
  isInitialized (pm w) = true /\
  win (post init w) = win w /\ timers (post init w) = timers w.
Proof.
  cbv zeta.
  assert (Hi : isInitialized (pm (run [EvInit] demoWorld)) = true)
    by (vm_compute; reflexivity).
  destruct (init_idempotent (run [EvInit] demoWorld) Hi) as (_ & _ & _ & Hw & Ht & _).
  split; [exact Hi |]. split; [exact Hw | exact Ht].
Defined.

(** C10: [init] leaves the destroyed flag as it finds it; after [destroy]
    and [init] the flag is set and the controller initialized.  While the
    flag is set, [handleScroll], [typeWriter], a step of the reveal loop
    and the timer callbacks of the cycle change nothing, and in every world
    the page can reach no event but the page becoming visible clears the
    flag. *)
Theorem init_keeps_destroyed_flag (w : World) :
  isDestroyed (pm (post init w)) = isDestroyed (pm w) /\
  isDestroyed (pm (post init (post destroy w))) = true /\
  isInitialized (pm (post init (post destroy w))) = true /\
  (forall w0, isDestroyed (pm w0) = true ->
     handleScroll w0 = (Normal tt, w0) /\
     (forall text element speed a i,
        typeWriter text element speed a i w0 = (Normal (Some false), w0)) /\
     (forall element l, post (typeWriterLoop element l) w0 = w0) /\
     (forall a, startCallback a w0 = (Normal tt, w0)) /\
     (forall a i, pauseCallback a i w0 = (Normal tt, w0))) /\
  (forall d v p now evs ev,
     pristine v ->
     isDestroyed (pm (run evs (initialWorld d v p now))) = true ->
     isDestroyed (pm (step ev (run evs (initialWorld d v p now)))) = true \/
     ev = EvVisibility false).
Proof.
  assert (Hinit : forall w0, isDestroyed (pm (post init w0)) = isDestroyed (pm w0) /\
                             (isInitialized (pm w0) = false ->
                              isInitialized (pm (post init w0)) = true)).
  { intros w0. unfold post. destruct (isInitialized (pm w0)) eqn:Hi.
    - rewrite (init_initialized w0 Hi). split; [reflexivity | discriminate].
    - destruct (init_fresh w0 Hi) as (w' & E & (HU & _ & Hi' & _) & _).
      rewrite E. cbn [snd]. unfold uview in HU. injection HU as Hd _ _ _ _ _ _ _.
      split; [exact Hd | intros _; exact Hi']. }
  assert (Hdes : isDestroyed (pm (post destroy w)) = true /\
                 isInitialized (pm (post destroy w)) = false).
  { unfold post. destruct (destroy_exec w) as (wa & E & _). rewrite E. auto. }
  destruct Hdes as [Hd Hi].
  split; [apply Hinit |].
  split; [rewrite (proj1 (Hinit _)); exact Hd |].
  split; [apply (proj2 (Hinit _)), Hi |]. split.
  - intros w0 Hd0. split; [apply handleScroll_suppressed; auto |].
    split; [intros; apply typeWriter_destroyed, Hd0 |].
    split; [intros; unfold post; rewrite typeWriterLoop_destroyed by exact Hd0;
            reflexivity |].
    split; [intros; apply startCallback_destroyed, Hd0
           | intros; apply pauseCallback_destroyed, Hd0].
  - intros d v p now evs ev Hp Hd0.
    apply step_isDestroyed; [apply reachable_Good, Hp | exact Hd0].
Qed.

Lemma init_keeps_destroyed_flag_witness :
  let w := step EvFrame
             (run [EvDestroy; EvInit; EvScroll 100; EvTimer 0%nat] demoWorld) in
  isDestroyed (pm w) = true /\ isInitialized (pm w) = true /\
  frames w = [] /\ typingText (dom w) = Some EmptyString.
Proof.
  destruct (init_keeps_destroyed_flag demoWorld) as (_ & _ & _ & _ & Hflag).
  assert (Hp : pristine demoWindow) by (split; reflexivity).
  destruct (Hflag demoDom demoWindow demoPlatform 1000
              [EvDestroy; EvInit; EvScroll 100; EvTimer 0%nat] EvFrame Hp
              ltac:(vm_compute; reflexivity)) as [H | H]; [| discriminate].
  fold demoWorld in H. cbv zeta. split; [exact H |].
  repeat split; vm_compute; reflexivity.
Defined.

(** Where the clock is not fresh: after [init], [destroy] and [init]
    within one millisecond, the page becoming visible lets both
    initial-delay timers start a reveal, and two reveals are in flight
    under one cycle identifier, the first no longer under the typing
    controller. *)
Example visibility_interleaves_reveals :
  let w := run [EvInit; EvDestroy; EvInit; EvVisibility false;
                EvTimer 0%nat; EvTimer 3%nat] demoWorld in
  paced [EvInit; EvDestroy; EvInit; EvVisibility false;
         EvTimer 0%nat; EvTimer 3%nat] demoWorld = false /\
  length (loops w) = 2%nat /\
  elements (activeAnimations (pm w)) = [1000] /\
  map lp_ctrl (loops w) = [6%nat; 8%nat] /\
  typingController (pm w) = Some 8%nat.
Proof. vm_compute. repeat split. Qed.

(* ===================================================================== *)
(** * Further properties: lookups, validation messages, particles         *)
(* ===================================================================== *)

(** X2: [validateForm] changes nothing when it succeeds, and when it fails
    it shows exactly one alert and changes nothing else: the request to
    fill in all fields when one of the three is missing or blank, and only
    otherwise the complaint about the format of the email. *)
Theorem validateForm_alerts formData w :
  (fst (validateForm formData w) = Normal true -> snd (validateForm formData w) = w) /\
  (fst (validateForm formData w) = Normal false ->
   exists msg,
     snd (validateForm formData w) = upd_alerts (fun a => a ++ [msg]) w /\
     (FilledIn formData "name" /\ FilledIn formData "email" /\
      FilledIn formData "message" -> msg = "Format email tidak valid"%string) /\
     (~ (FilledIn formData "name" /\ FilledIn formData "email" /\
         FilledIn formData "message") ->
      msg = "Mohon isi semua field yang diperlukan"%string)).
Proof.
  pose proof (truthyOpt_trim formData "name") as Tn.
  pose proof (truthyOpt_trim formData "email") as Te.
  pose proof (truthyOpt_trim formData "message") as Tm.
  unfold validateForm.
  destruct (truthyOpt (JS.trim <$> formData_get formData "name")) eqn:Hn;
  destruct (truthyOpt (JS.trim <$> formData_get formData "email")) eqn:He;
  destruct (truthyOpt (JS.trim <$> formData_get formData "message")) eqn:Hm;
  cbn [negb orb].
  1: destruct (Regex.test emailRegex _); cbn [negb].
  all: exec; split; try discriminate; try reflexivity.
  all: intros _; eexists; split; [reflexivity |]; split.
  all: try reflexivity.
  all: try (intros (Fn & Fe & Fm); apply Tn in Fn; apply Te in Fe; apply Tm in Fm;
            discriminate).
  intros Hneg. exfalso. apply Hneg. split; [apply Tn | split; [apply Te | apply Tm]];
    reflexivity.
Qed.

(** X3: [getElement] with caching on answers with the element stored
    under the id, and otherwise, when the id names a property that every
    object inherits ([constructor], [toString], ...), with that property;
    in both cases it does not look at the page and changes nothing.  An
    element it finds on the page with caching on is stored, so that the
    next lookup is answered from the store; with caching off whatever it
    returns changes nothing; and it returns [null] only for an element it
    does not find, which is not stored: the lookup logs one warning and
    changes nothing else. *)
Theorem getElement_cache (id : string) (w : World) :
  (forall e, elementCache (pm w) !! id = Some e ->
     getElement id true w = (Normal (Some (VElem e)), w)) /\
  (elementCache (pm w) !! id = None -> objectPrototypeHas id = true ->
     getElement id true w = (Normal (Some (VInherited id)), w)) /\
  (forall e w', getElement id true w = (Normal (Some (VElem e)), w') ->
     elementCache (pm w') !! id = Some e /\
     getElement id true w' = (Normal (Some (VElem e)), w')) /\
  (forall v w', getElement id false w = (Normal (Some v), w') ->
     w' = w /\ exists e, v = VElem e /\ elemOfId id = Some e) /\
  (forall cache w', getElement id cache w = (Normal None, w') ->
     w' = upd_console (fun c => c ++ [notFound id]) w).
Proof.
  assert (Hhit : forall w0 e, elementCache (pm w0) !! id = Some e ->
            getElement id true w0 = (Normal (Some (VElem e)), w0)).
  { intros w0 e He. unfold getElement. exec. rewrite He. reflexivity. }
  split; [apply Hhit |]. split; [| split; [| split]].
  - intros Hc Hi. unfold getElement. exec. rewrite Hc, Hi. reflexivity.
  - intros e w' H.
    assert (Hin : elementCache (pm w') !! id = Some e);
      [| split; [exact Hin | apply Hhit, Hin]].
    revert H. unfold getElement. exec.
    destruct (elementCache (pm w) !! id) as [e0|] eqn:Hc; scbn.
    + intros [= <- <-]. exact Hc.
    + destruct (objectPrototypeHas id); scbn; [discriminate |].
      destruct (match elemOfId id with
                | Some e1 => if present (dom w) e1 then Some e1 else None
                | None => None
                end) as [e1|]; scbn; [| discriminate].
      intros [= <- <-]. cbn -[lookup insert]. apply lookup_insert_eq.
  - intros v w'. unfold getElement. exec.
    destruct (elemOfId id) as [e1|]; scbn; [| discriminate].
    destruct (present (dom w) e1); scbn; [| discriminate].
    intros [= <- <-]. split; [reflexivity |]. exists e1. split; reflexivity.
  - intros cache w'. unfold getElement. exec.
    destruct (if cache then elementCache (pm w) !! id else None) as [e0|]; scbn;
      [discriminate |].
    destruct (cache && objectPrototypeHas id); scbn; [discriminate |].
    destruct (match elemOfId id with
              | Some e1 => if present (dom w) e1 then Some e1 else None
              | None => None
              end) as [e1|]; scbn.
    + destruct cache; scbn; discriminate.
    + intros [= <-]. reflexivity.
Qed.

Lemma makeParticles_inRange n : forall w ps w',
  (forall k, 0 <= random (platform w) k < 1)%Q ->
  makeParticles n w = (Normal ps, w') -> Forall inRange ps.
Proof.
  induction n as [|n IH]; intros w ps w' Hr.
  - cbn. intros [= <- _]. constructor.
  - cbn [makeParticles]. unfold makeParticle. exec.
    match goal with |- context [makeParticles n ?w1] =>
      destruct (makeParticles_exec n w1) as (ps1 & _ & E);
      pose proof (IH w1 ps1 _ Hr E) as Hps end.
    rewrite E. intros [= <- _]. constructor; [| exact Hps].
    assert (Hr' : forall k, (0 <= random (platform w) k <= 1)%Q)
      by (intros k; destruct (Hr k); split; [assumption | apply Qlt_le_weak; assumption]).
    unfold inRange. cbn [p_left p_top p_delay p_duration].
    split; [apply (mul_range _ 100 (Hr' _)); lia |].
    split; [apply (mul_range _ 100 (Hr' _)); lia |].
    split; [apply (mul_range _ 6 (Hr' _)); lia | apply duration_range, Hr'].
Qed.

(** X4: when [Math.random] stays in [0, 1), every particle that
    [createParticles] appends has its left and top offsets between 0 and
    100, its delay between 0 and 6 and its duration between 3 and 6, ends
    included: the values are binary64 numbers, and for the largest number
    below 1 the duration is rounded to 6. *)
Theorem particles_in_range (w : World) (ps : list Particle) :
  (forall k, 0 <= random (platform w) k < 1)%Q ->
  WF w -> bgAnimation (dom w) = Some ps ->
  (exists fragment,
     bgAnimation (dom (post createParticles w)) = Some (ps ++ fragment) /\
     Forall inRange fragment) /\
  (Number.add (Number.mul (1 - (1 # 9007199254740992)) 3) 3 == 6)%Q.
Proof.
  intros Hr [Hcache _] Hd. split; [| apply duration_reaches_6].
  unfold post, createParticles, getElement. exec.
  destruct Hcache as [Hc | Hc]; rewrite Hc; scbn; rewrite ?Hd; scbn.
  all: match goal with |- context [makeParticles ?n ?w1] =>
         destruct (makeParticles_exec n w1) as (fragment & _ & E);
         pose proof (makeParticles_inRange n w1 fragment _ Hr E) as Hin
       end.
  all: rewrite E; scbn; rewrite Hd; exists fragment; split; [reflexivity | exact Hin].
Qed.

Lemma particles_in_range_witness :
  exists fragment,
    bgAnimation (dom (post createParticles demoWorld)) = Some fragment /\
    Forall inRange fragment.
Proof.
  assert (Hr : forall k, (0 <= random (platform demoWorld) k < 1)%Q)
    by (intros k; cbn; split; [discriminate | reflexivity]).
  assert (HWF : WF demoWorld) by (split; left; reflexivity).
  destruct (particles_in_range demoWorld [] Hr HWF eq_refl) as ((fragment & Hd & Hin) & _).
  exists fragment. split; [exact Hd | exact Hin].
Defined.

(* ===================================================================== *)
(** * Further properties: the contact form                                *)
(* ===================================================================== *)

(** The timer that was set last fires: it is found, and taking it off
    leaves the timers there were before. *)
Lemma find_new_timer ts tm :
  Forall (fun t => (tm_id t < tm_id tm)%nat) ts ->
  List.find (fun t => Nat.eqb (tm_id t) (tm_id tm)) (ts ++ [tm]) = Some tm /\
  filter (fun t => tm_id t <> tm_id tm) (ts ++ [tm]) = ts.
Proof.
  intros Hall. induction Hall as [|t ts Ht _ [IH1 IH2]].
  - cbn [app List.find]. rewrite Nat.eqb_refl. split; [reflexivity |].
    rewrite (filter_cons_False (fun t => tm_id t <> tm_id tm)) by (intros H; apply H; reflexivity).
    reflexivity.
  - cbn [app List.find]. destruct (Nat.eqb_spec (tm_id t) (tm_id tm)) as [E|E]; [lia |].
    split; [exact IH1 |].
    rewrite (filter_cons_True (fun t => tm_id t <> tm_id tm)) by exact E.
    rewrite IH2. reflexivity.
Qed.

Lemma Timed_ids w :
  Timed w -> Forall (fun t => (tm_id t < nextId w)%nat) (timers w).
Proof. intros [H _]. apply Forall_forall. exact H. Qed.

(** Firing the timer a callback has just set. *)
Lemma step_new_timer w0 w tm :
  Timed w0 -> timers w = timers w0 ++ [tm] -> tm_id tm = nextId w0 ->
  step (EvTimer (nextId w0)) w =
  invoke (timerCallback (nextId w0) (tm_cb tm)) (upd_timers (fun _ => timers w0) w).
Proof.
  intros HT Ht Hid. pose proof (Timed_ids w0 HT) as Hall. rewrite <- Hid in Hall.
  destruct (find_new_timer (timers w0) tm Hall) as [Hfind Hflt].
  cbn [step]. rewrite Ht, <- Hid, Hfind. f_equal.
  unfold upd_timers. rewrite Ht, Hflt. reflexivity.
Qed.

Lemma drain_id w : microtasks w = [] -> drain w = w.
Proof. intros H. rewrite drain_nil by exact H. destruct w. cbn in H. subst. reflexivity. Qed.

(** [validateForm] touches nothing but the alerts. *)
Lemma validateForm_world formData w :
  (fst (validateForm formData w) = Normal true -> snd (validateForm formData w) = w) /\
  (fst (validateForm formData w) = Normal false ->
   exists msg, snd (validateForm formData w) = upd_alerts (fun a => a ++ [msg]) w).
Proof.
  unfold validateForm.
  destruct (negb _ || negb _ || negb _); [| destruct (negb _)]; exec;
    (split; [try discriminate; reflexivity | try discriminate]);
    intros _; eexists; reflexivity.
Qed.

(** The listener's three stages, run on any world with a form and a button. *)
Lemma submitHandler_valid w fm btn :
  contactForm (dom w) = Some fm -> submitBtn fm = Some btn ->
  fst (validateForm (fields fm) w) = Normal true ->
  submitHandler w =
  (Normal tt,
   upd_timers (fun l => l ++ [{| tm_id := nextId w; tm_delay := 1500;
                                 tm_cb := TSubmitWait (textContent btn) |}])
     (set_nextId (S (nextId w))
        (upd_dom (set_contactForm (fun fm0 =>
           {| fields := fields fm0; defaults := defaults fm0;
              submitBtn := (fun _ => pendingButton) <$> submitBtn fm0;
              submitListeners := submitListeners fm0 |})) w))).
Proof.
  intros Hf Hb Hv.
  pose proof (validateForm_world (fields fm) w) as [Hva _]. specialize (Hva Hv).
  destruct (validateForm (fields fm) w) as [r w'] eqn:E. cbn in Hv, Hva. subst r w'.
  unfold submitHandler, async. exec. rewrite Hf. exec. rewrite Hb. exec. rewrite E. exec.
  reflexivity.
Qed.

Lemma submitHandler_invalid w fm btn :
  contactForm (dom w) = Some fm -> submitBtn fm = Some btn ->
  fst (validateForm (fields fm) w) = Normal false ->
  submitHandler w = (Normal tt, snd (validateForm (fields fm) w)).
Proof.
  intros Hf Hb Hv.
  destruct (validateForm (fields fm) w) as [r w'] eqn:E. cbn in Hv. subst r.
  unfold submitHandler, async. exec. rewrite Hf. exec. rewrite Hb. exec. rewrite E. exec.
  reflexivity.
Qed.

Lemma submitHandler_no_button w fm :
  contactForm (dom w) = Some fm -> submitBtn fm = None ->
  submitHandler w = (Normal tt, w).
Proof.
  intros Hf Hb. unfold submitHandler, async. exec. rewrite Hf. exec. rewrite Hb. exec.
  reflexivity.
Qed.

Lemma submitResume_exact originalText w :
  submitResume originalText w =
  (Normal tt,
   upd_timers (fun l => l ++ [{| tm_id := nextId w; tm_delay := 2000;
                                 tm_cb := TSubmitRevert originalText |}])
     (set_nextId (S (nextId w))
        (upd_dom (set_contactForm (fun fm0 =>
           {| fields := fields fm0; defaults := defaults fm0;
              submitBtn := (fun b =>
                {| textContent := "Terkirim!"; disabled := disabled b;
                   background := "linear-gradient(45deg, #00ff88, #0088ff)" |})
                <$> submitBtn fm0;
              submitListeners := submitListeners fm0 |})) w))).
Proof. unfold submitResume, async. exec. reflexivity. Qed.

Lemma submitRevert_exact originalText w :
  submitRevert originalText w =
  (Normal tt,
   upd_dom (set_contactForm (fun fm0 =>
     {| fields := defaults fm0; defaults := defaults fm0;
        submitBtn := (fun _ => restoredButton originalText) <$> submitBtn fm0;
        submitListeners := submitListeners fm0 |})) w).
Proof.
  unfold submitRevert. exec. destruct w as [c dm]. destruct dm as [? ? ? [f|]]; reflexivity.
Qed.

Lemma invoke_exact m w w' :
  m w = (Normal tt, w') -> microtasks w' = [] -> invoke m w = w'.
Proof. intros E Hm. unfold invoke. rewrite E. cbn [report]. apply drain_id, Hm. Qed.

(** X5: a valid submission, on a page whose form carries the one listener
    [initContactForm] registers.  The button reads [Mengirim...] and is
    disabled while a 1500 ms timer is pending; when that fires it reads
    [Terkirim!], still disabled, and a 2000 ms timer is pending; when that
    fires the button has its original label and is enabled again, the
    fields are back at their defaults, and no timer of the submission is
    left.  Nothing is alerted on the way. *)
Theorem submit_round_trip d v p now evs fm btn :
  pristine v ->
  let w := run evs (initialWorld d v p now) in
  contactForm (dom w) = Some fm -> submitListeners fm = 1%nat ->
  submitBtn fm = Some btn ->
  fst (validateForm (fields fm) w) = Normal true ->
  let w1 := step EvSubmit w in
  let w2 := step (EvTimer (nextId w)) w1 in
  let w3 := step (EvTimer (S (nextId w))) w2 in
  (button w1 = Some pendingButton /\
   timers w1 = timers w ++ [{| tm_id := nextId w; tm_delay := 1500;
                               tm_cb := TSubmitWait (textContent btn) |}]) /\
  (button w2 = Some successButton /\
   timers w2 = timers w ++ [{| tm_id := S (nextId w); tm_delay := 2000;
                               tm_cb := TSubmitRevert (textContent btn) |}]) /\
  (contactForm (dom w3) =
     Some {| fields := defaults fm; defaults := defaults fm;
             submitBtn := Some (restoredButton (textContent btn));
             submitListeners := 1 |} /\
   timers w3 = timers w) /\
  (forall name, formData_get (fields fm) name =
     match contactForm (dom w2) with
     | Some fm2 => formData_get (fields fm2) name
     | None => None
     end) /\
  alerts w3 = alerts w.
Proof.
  intros Hv w Hf Hn Hb Hval w1 w2 w3.
  assert (HG : Good w) by (apply reachable_Good, Hv).
  assert (HT : Timed w) by (apply reachable_Timed, Hv).
  assert (Hm : microtasks w = []) by (destruct HG as (_ & [Hm _] & _); exact Hm).
  clearbody w. clear HG.
  (* the submission *)
  pose proof (submitHandler_valid w fm btn Hf Hb Hval) as E1.
  apply invoke_exact in E1; [| exact Hm].
  assert (E1' : w1 = invoke submitHandler w)
    by (unfold w1; cbn [step]; rewrite Hf, Hn; reflexivity).
  rewrite E1 in E1'. clear E1. clearbody w1.
  assert (Ht1 : timers w1 = timers w ++ [{| tm_id := nextId w; tm_delay := 1500;
                               tm_cb := TSubmitWait (textContent btn) |}])
    by (rewrite E1'; reflexivity).
  (* the first timer *)
  assert (E2 : w2 = invoke (submitResume (textContent btn))
                      (upd_timers (fun _ => timers w) w1))
    by (unfold w2; rewrite (step_new_timer w w1 _ HT Ht1 eq_refl); reflexivity).
  rewrite (invoke_exact _ _ _ (submitResume_exact _ _)) in E2
    by (rewrite E1'; exact Hm).
  clearbody w2.
  assert (Hn1 : nextId w1 = S (nextId w)) by (rewrite E1'; reflexivity).
  assert (Ht2 : timers w2 = timers w ++ [{| tm_id := S (nextId w); tm_delay := 2000;
                               tm_cb := TSubmitRevert (textContent btn) |}]).
  { rewrite E2. cbn. rewrite Hn1. reflexivity. }
  (* the second timer *)
  assert (HT' : Timed (set_nextId (S (nextId w)) w)).
  { destruct HT as [Hids Hl]. split.
    - intros tm Htm. specialize (Hids tm Htm). cbn. lia.
    - eapply Forall_impl; [exact Hl |]. intros l (Ha & Hex & Hall). cbn. split; [lia | auto]. }
  assert (E3 : w3 = invoke (submitRevert (textContent btn))
                      (upd_timers (fun _ => timers w) w2))
    by (unfold w3;
        exact (step_new_timer (set_nextId (S (nextId w)) w) w2 _ HT' Ht2 eq_refl)).
  rewrite (invoke_exact _ _ _ (submitRevert_exact _ _)) in E3
    by (rewrite E2, E1'; exact Hm).
  clearbody w3.
  split; [split; [| exact Ht1] |].
  { unfold button. rewrite E1'. cbn. rewrite Hf. cbn. rewrite Hb. reflexivity. }
  split; [split; [| exact Ht2] |].
  { unfold button. rewrite E2, E1'. cbn. rewrite Hf. cbn. rewrite Hb. reflexivity. }
  split; [split |].
  { rewrite E3, E2, E1'. cbn. rewrite Hf. cbn. rewrite Hb, Hn. reflexivity. }
  { rewrite E3. reflexivity. }
  split.
  { intros name. rewrite E2, E1'. cbn. rewrite Hf. reflexivity. }
  rewrite E3, E2, E1'. reflexivity.
Qed.

Lemma submit_round_trip_witness :
  let w := run [EvInit] (initialWorld contactPage demoWindow demoPlatform 1000) in
  contactForm (dom (step (EvTimer (S (nextId w)))
                      (step (EvTimer (nextId w)) (step EvSubmit w)))) =
  Some {| fields := contactData "" "" ""; defaults := contactData "" "" "";
          submitBtn := Some (restoredButton "Kirim Pesan"); submitListeners := 1 |}.
Proof.
  assert (Hp : pristine demoWindow) by (split; reflexivity).
  exact (proj1 (proj1 (proj2 (proj2
    (submit_round_trip contactPage demoWindow demoPlatform 1000 [EvInit]
       {| fields := contactData "Hasan" "hasan@example.com" "Halo";
          defaults := contactData "" "" "";
          submitBtn := Some {| textContent := "Kirim Pesan"; disabled := false;
                               background := "" |};
          submitListeners := 1 |}
       {| textContent := "Kirim Pesan"; disabled := false; background := "" |}
       Hp ltac:(vm_compute; reflexivity) eq_refl eq_refl
       ltac:(vm_compute; reflexivity)))))).
Defined.

(** Whether a form passes does not depend on the world. *)
Lemma validateForm_result formData w w' :
  fst (validateForm formData w) = fst (validateForm formData w').
Proof.
  unfold validateForm.
  destruct (negb _ || negb _ || negb _); [reflexivity |].
  destruct (negb _); reflexivity.
Qed.

Lemma upd_alerts_app msgs msgs' w :
  upd_alerts (fun a => a ++ msgs') (upd_alerts (fun a => a ++ msgs) w) =
  upd_alerts (fun a => a ++ (msgs ++ msgs')) w.
Proof. destruct w. unfold upd_alerts. cbn. rewrite <- app_assoc. reflexivity. Qed.

Lemma upd_alerts_nil w : upd_alerts (fun a => a ++ []) w = w.
Proof. destruct w. unfold upd_alerts. cbn. rewrite app_nil_r. reflexivity. Qed.

Lemma submit_invalid_iter fm btn n : forall w,
  microtasks w = [] -> contactForm (dom w) = Some fm -> submitBtn fm = Some btn ->
  fst (validateForm (fields fm) w) = Normal false ->
  exists msgs, Nat.iter n (invoke submitHandler) w = upd_alerts (fun a => a ++ msgs) w /\
               length msgs = n.
Proof.
  intros w Hm Hf Hb Hv. induction n as [|n (msgs & E & Hlen)].
  - exists []. split; [symmetry; apply upd_alerts_nil | reflexivity].
  - rewrite Nat.iter_succ, E.
    set (w' := upd_alerts (fun a => a ++ msgs) w).
    assert (Hv' : fst (validateForm (fields fm) w') = Normal false)
      by (rewrite (validateForm_result _ w' w); exact Hv).
    assert (Hf' : contactForm (dom w') = Some fm) by exact Hf.
    pose proof (submitHandler_invalid w' fm btn Hf' Hb Hv') as Eh.
    destruct (validateForm_world (fields fm) w') as [_ Ha].
    destruct (Ha Hv') as (msg & Ew).
    rewrite Ew in Eh. apply invoke_exact in Eh; [| exact Hm].
    rewrite Eh. unfold w'. rewrite upd_alerts_app.
    exists (msgs ++ [msg]). split; [reflexivity |]. rewrite length_app. cbn. lia.
Qed.

(** X6: a submission that is not valid, or a form without a submit button.
    Every registered listener returns before it touches the button: the
    page, the timers and the controller are as they were; with a button,
    each listener has alerted once, without one nothing is alerted. *)
Theorem submit_rejected d v p now evs fm :
  pristine v ->
  let w := run evs (initialWorld d v p now) in
  contactForm (dom w) = Some fm ->
  submitBtn fm = None \/ fst (validateForm (fields fm) w) = Normal false ->
  exists msgs,
    step EvSubmit w = upd_alerts (fun a => a ++ msgs) w /\
    length msgs = match submitBtn fm with
                  | Some _ => submitListeners fm
                  | None => O
                  end.
Proof.
  intros Hv w Hf Hrej.
  assert (HG : Good w) by (apply reachable_Good, Hv).
  assert (Hm : microtasks w = []) by (destruct HG as (_ & [Hm _] & _); exact Hm).
  clearbody w. cbn [step]. rewrite Hf.
  destruct (submitBtn fm) as [btn|] eqn:Hb.
  - destruct Hrej as [Hrej | Hrej]; [discriminate |].
    exact (submit_invalid_iter fm btn (submitListeners fm) w Hm Hf Hb Hrej).
  - exists []. split; [| reflexivity]. rewrite upd_alerts_nil.
    induction (submitListeners fm) as [|n IH]; [reflexivity |].
    rewrite Nat.iter_succ, IH.
    apply invoke_exact; [apply submitHandler_no_button with fm; assumption | exact Hm].
Qed.

Lemma submit_rejected_witness :
  let w := run [EvInit; EvInput "email" (JS.of_string "hasan")]
             (initialWorld contactPage demoWindow demoPlatform 1000) in
  exists msgs,
    step EvSubmit w = upd_alerts (fun a => a ++ msgs) w /\ length msgs = 1%nat.
Proof.
  assert (Hp : pristine demoWindow) by (split; reflexivity).
  exact (submit_rejected contactPage demoWindow demoPlatform 1000
       [EvInit; EvInput "email" (JS.of_string "hasan")]
       {| fields := contactData "Hasan" "hasan" "Halo";
          defaults := contactData "" "" "";
          submitBtn := Some {| textContent := "Kirim Pesan"; disabled := false;
                               background := "" |};
          submitListeners := 1 |}
       Hp ltac:(vm_compute; reflexivity)
       ltac:(right; vm_compute; reflexivity)).
Defined.

(* ===================================================================== *)
(** * Further properties: what the typewriter shows                       *)
(* ===================================================================== *)

Lemma prefix_0 text : prefix 0 text = EmptyString.
Proof. destruct text; reflexivity. Qed.

Lemma prefix_snoc text : forall k,
  (k < String.length text)%nat ->
  String.append (prefix k text) (charAt text k) = prefix (S k) text.
Proof.
  unfold prefix, charAt. induction text as [|a s IH]; intros k Hk; [cbn in Hk; lia |].
  destruct k as [|k].
  - cbn. destruct s; reflexivity.
  - cbn [String.length] in Hk. specialize (IH k ltac:(lia)).
    change (String a (String.append (String.substring 0 k s)
                        match String.get k s with
                        | Some c => String c EmptyString
                        | None => EmptyString
                        end) = String a (String.substring 0 (S k) s)).
    f_equal. exact IH.
Qed.

Lemma prefix_full text : prefix (String.length text) text = text.
Proof. unfold prefix. induction text as [|a s IH]; [reflexivity |]. cbn. rewrite IH. reflexivity. Qed.

(** ** One step of a reveal *)

Lemma resume_continue l w :
  (S (lp_i l) <? String.length (lp_text l))%nat = true ->
  lp_ctrl l ∉ abortedSignals w -> isDestroyed (pm w) = false ->
  typeWriterResume l true w =
  (Normal tt,
   upd_loops (fun ls => ls ++ [nextReveal (nextId w) l])
     (upd_abortListeners (fun ls => ls ++ [(lp_ctrl l, nextId w)])
        (upd_timers (fun ts => ts ++ [{| tm_id := nextId w; tm_delay := lp_speed l;
                                         tm_cb := TChar |}])
           (set_nextId (S (nextId w))
              (upd_dom (set_typingText (fun s =>
                 String.append s (charAt (lp_text l) (S (lp_i l))))) w))))).
Proof.
  intros Hlen Hab Hd. unfold typeWriterResume, typeWriterLoop, runCycleAfter, async. exec.
  rewrite Hlen. scbn. rewrite bool_decide_eq_false_2 by exact Hab. scbn.
  rewrite Hd. scbn. reflexivity.
Qed.

Lemma resume_finish l w :
  (S (lp_i l) <? String.length (lp_text l))%nat = false ->
  isDestroyed (pm w) = false ->
  typeWriterResume l true w =
  (Normal tt,
   upd_timers (fun ts => ts ++
       [{| tm_id := nextId w;
           tm_delay := Cfg.pauseBetweenTexts (Cfg.typing (config (pm w)));
           tm_cb := TPause (lp_anim l) ((lp_index l + 1) mod length texts) |}])
     (set_nextId (S (nextId w)) w)).
Proof.
  intros Hlen Hd. unfold typeWriterResume, typeWriterLoop, runCycleAfter, async. exec.
  rewrite Hlen. scbn. rewrite Hd. scbn. reflexivity.
Qed.

Lemma resume_stopped l w :
  isDestroyed (pm w) = true \/ lp_ctrl l ∈ abortedSignals w ->
  (S (lp_i l) <? String.length (lp_text l))%nat = true \/ isDestroyed (pm w) = true ->
  typeWriterResume l true w = (Normal tt, w).
Proof.
  intros Hstop Hcase.
  unfold typeWriterResume, typeWriterLoop, runCycleAfter, async. exec.
  destruct (S (lp_i l) <? String.length (lp_text l))%nat eqn:Hlen; scbn.
  - destruct (bool_decide (lp_ctrl l ∈ abortedSignals w)) eqn:Hab; scbn; [reflexivity |].
    destruct Hstop as [Hd | Hin]; [rewrite Hd; reflexivity |].
    apply bool_decide_eq_false in Hab. contradiction.
  - destruct Hcase as [Hc | Hd]; [discriminate |]. rewrite Hd. reflexivity.
Qed.

(** ** The first step of a reveal *)

Lemma runCycle_shows a i w :
  let w' := post (runCycle a i) w in
  w' = w \/
  (isDestroyed (pm w) = false /\ a ∈ activeAnimations (pm w) /\
   (typingText (dom w') = None <-> typingText (dom w) = None) /\
   exists new, loops w' = loops w ++ new /\
     (typingText (dom w) <> None -> Forall (Shows w') new)).
Proof.
  cbv zeta. unfold post, runCycle, typeWriter, typeWriterLoop, runCycleAfter, async.
  remember (nth i texts EmptyString) as text eqn:Htext.
  exec. destruct (isDestroyed (pm w)) eqn:Hd; scbn; [left; reflexivity |].
  destruct (bool_decide (a ∈ activeAnimations (pm w))) eqn:Ha; scbn; [| left; reflexivity].
  apply bool_decide_eq_true in Ha. right. split; [reflexivity |]. split; [exact Ha |].
  rewrite Hd. scbn.
  destruct (0 <? String.length text)%nat eqn:Hlen; scbn.
  - destruct (bool_decide (nextId w ∈ abortedSignals w)) eqn:Hab; scbn.
    + split; [destruct (typingText (dom w)); cbn; split; congruence |].
      exists []. rewrite app_nil_r. split; [reflexivity | constructor].
    + rewrite Hd. scbn.
      split; [destruct (typingText (dom w)); cbn; split; congruence |].
      eexists [_]. split; [reflexivity |]. intros Hp. constructor; [| constructor].
      unfold Shows. scbn. apply Nat.ltb_lt in Hlen.
      destruct (typingText (dom w)) as [s|]; [| congruence]. cbn.
      split; [| split; [exact Hlen | split; [exact Htext | exact Ha]]].
      f_equal. rewrite <- (prefix_0 text). apply (prefix_snoc text 0 Hlen).
  - rewrite Hd. scbn.
    split; [destruct (typingText (dom w)); cbn; split; congruence |].
    exists []. rewrite app_nil_r. split; [reflexivity | constructor].
Qed.

Lemma startCallback_shows a w :
  let w' := post (startCallback a) w in
  w' = w \/
  (isDestroyed (pm w) = false /\ a ∈ activeAnimations (pm w) /\
   (typingText (dom w') = None <-> typingText (dom w) = None) /\
   exists new, loops w' = loops w ++ new /\
     (typingText (dom w) <> None -> Forall (Shows w') new)).
Proof.
  cbv zeta. unfold post, startCallback, bind, get. cbn [fst snd].
  destruct (negb (isDestroyed (pm w))); [apply runCycle_shows | left; reflexivity].
Qed.

Lemma pauseCallback_shows a i w :
  let w' := post (pauseCallback a i) w in
  w' = w \/
  (isDestroyed (pm w) = false /\ a ∈ activeAnimations (pm w) /\
   (typingText (dom w') = None <-> typingText (dom w) = None) /\
   exists new, loops w' = loops w ++ new /\
     (typingText (dom w) <> None -> Forall (Shows w') new)).
Proof.
  cbv zeta. unfold post, pauseCallback, bind, get. cbn [fst snd].
  destruct (negb (isDestroyed (pm w)) && _); [apply runCycle_shows | left; reflexivity].
Qed.

(** ** The events keep what is shown *)

(** What both kinds of history give for one world: at most one reveal, and
    none while a timer of a live cycle is pending. *)
Lemma one_reveal w :
  Sequential w \/ OneCycle w ->
  (length (loops w) <= 1)%nat /\
  (isDestroyed (pm w) = false ->
   (length (loops w) + length (activeTimers w) <= 1)%nat).
Proof.
  intros [(H1 & H2 & _) | (_ & _ & H3 & _)].
  - destruct (isDestroyed (pm w)) eqn:Hd.
    + rewrite (H1 eq_refl). cbn. split; [lia | discriminate].
    + destruct (H2 eq_refl) as [Hlen _].
      assert (Hle : (length (activeTimers w) <= length (cycleTimers w))%nat)
        by (rewrite activeTimers_cycle; apply length_filter).
      split; [lia | intros _; lia].
  - split; [lia | intros _; exact H3].
Qed.

Lemma Showing_same w w' :
  loops w' = loops w -> typingText (dom w') = typingText (dom w) ->
  activeAnimations (pm w) ⊆ activeAnimations (pm w') ->
  Showing w -> Showing w'.
Proof.
  unfold Showing, Shows. intros Hl Ht Ha H. rewrite Hl, Ht.
  eapply Forall_impl; [exact H |]. intros l (H1 & H2 & H3 & H4). auto.
Qed.

Lemma Showing_sview w w' :
  sview w' = sview w -> typingText (dom w) <> None -> Showing w ->
  Showing w' /\ typingText (dom w') <> None.
Proof.
  intros Hs Hp HS. apply sview_parts in Hs as (Hf & _ & _ & Hl & _ & _ & Ht).
  apply fview_parts in Hf as (_ & _ & Ha & _).
  split; [| rewrite Ht; exact Hp].
  apply (Showing_same w); [exact Hl | exact Ht | rewrite Ha; reflexivity | exact HS].
Qed.

(** A timer of the cycle fires. *)
Lemma Showing_cycle_callback id tm w w' :
  Sequential w \/ OneCycle w -> tm ∈ timers w ->
  typingText (dom w) <> None -> Showing w ->
  (w' = fired id w \/
   (isDestroyed (pm w) = false /\
    runnableCb (activeAnimations (pm w)) (tm_cb tm) = true /\
    (typingText (dom w') = None <-> typingText (dom w) = None) /\
    exists new, loops w' = loops w ++ new /\
      (typingText (dom w) <> None -> Forall (Shows w') new))) ->
  Showing w' /\ typingText (dom w') <> None.
Proof.
  intros HJ Hin Hp HS [-> | (Hd & Hrun & Hpres & new & Hl & Hnew)].
  - split; [apply (Showing_same w); [reflexivity | reflexivity | reflexivity | exact HS] |
            exact Hp].
  - destruct (one_reveal w HJ) as [_ Hone]. specialize (Hone Hd).
    assert (Hact : tm ∈ activeTimers w)
      by (apply list_elem_of_filter; split; [exact Hrun | exact Hin]).
    assert (Hl0 : loops w = []).
    { destruct (activeTimers w) as [|x xs]; [apply elem_of_nil in Hact as [] |].
      apply length_le_1_nil. cbn [length] in Hone. lia. }
    split; [| rewrite Hpres; exact Hp].
    unfold Showing. rewrite Hl, Hl0. apply Hnew, Hp.
Qed.

(** The wait of a reveal ends. *)
Lemma resume_shows l w :
  typingText (dom w) <> None -> Shows w l ->
  let w' := post (typeWriterResume l true) w in
  typingText (dom w') <> None /\
  exists new, loops w' = loops w ++ new /\ Forall (Shows w') new.
Proof.
  intros Hp (Ht & Hi & Htext & Hact). cbv zeta. unfold post.
  destruct (S (lp_i l) <? String.length (lp_text l))%nat eqn:Hlen.
  - destruct (isDestroyed (pm w)) eqn:Hd.
    { rewrite resume_stopped by auto. cbn [snd]. split; [exact Hp |].
      exists []. rewrite app_nil_r. split; [reflexivity | constructor]. }
    destruct (decide (lp_ctrl l ∈ abortedSignals w)) as [Hab | Hab].
    { rewrite resume_stopped by auto. cbn [snd]. split; [exact Hp |].
      exists []. rewrite app_nil_r. split; [reflexivity | constructor]. }
    rewrite resume_continue by assumption. cbn [snd]. proj.
    split; [cbn; rewrite Ht; discriminate |].
    eexists [_]. split; [reflexivity |]. constructor; [| constructor].
    apply Nat.ltb_lt in Hlen. unfold Shows, nextReveal. cbn. rewrite Ht. cbn.
    split; [| split; [exact Hlen | split; [exact Htext | exact Hact]]].
    f_equal. apply (prefix_snoc (lp_text l) (S (lp_i l)) Hlen).
  - destruct (isDestroyed (pm w)) eqn:Hd.
    { rewrite resume_stopped by auto. cbn [snd]. split; [exact Hp |].
      exists []. rewrite app_nil_r. split; [reflexivity | constructor]. }
    rewrite resume_finish by assumption. cbn [snd]. split; [exact Hp |].
    exists []. rewrite app_nil_r. split; [reflexivity | constructor].
Qed.

Lemma resume_report l w :
  report (typeWriterResume l true w) = post (typeWriterResume l true) w.
Proof.
  unfold post.
  destruct (S (lp_i l) <? String.length (lp_text l))%nat eqn:Hlen;
    destruct (isDestroyed (pm w)) eqn:Hd.
  - rewrite resume_stopped by auto. reflexivity.
  - destruct (decide (lp_ctrl l ∈ abortedSignals w)) as [Hab | Hab].
    + rewrite resume_stopped by auto. reflexivity.
    + rewrite resume_continue by assumption. reflexivity.
  - rewrite resume_stopped by auto. reflexivity.
  - rewrite resume_finish by assumption. reflexivity.
Qed.

Lemma Showing_timer id w :
  Good w -> Timed w -> Sequential w \/ OneCycle w ->
  typingText (dom w) <> None -> Showing w ->
  Showing (step (EvTimer id) w) /\ typingText (dom (step (EvTimer id) w)) <> None.
Proof.
  intros HG HT HJ Hp HS. pose proof (Good_microtasks w HG) as Hm. cbn [step].
  destruct (List.find _ (timers w)) as [tm|] eqn:Hfind; [| split; assumption].
  apply find_timer in Hfind as [Hin Hid]. fold (fired id w).
  assert (Hm0 : microtasks (fired id w) = []) by exact Hm.
  destruct (tm_cb tm) as [a|a i| |t|t|t|] eqn:Hcb; cbn [timerCallback].
  - unfold invoke.
    destruct (startCallback_spec a (fired id w)) as (w' & E & _ & _ & _ & Hmw & _).
    pose proof (startCallback_shows a (fired id w)) as Hsh. cbv zeta in Hsh.
    unfold post in Hsh. rewrite E in *. cbn [report snd] in *.
    rewrite drain_id by congruence.
    apply (Showing_cycle_callback id tm w w' HJ Hin Hp HS).
    destruct Hsh as [-> | (Hd & Ha & Hpres & Hnew)]; [left; reflexivity | right].
    split; [exact Hd |]. split; [| split; [exact Hpres | exact Hnew]].
    rewrite Hcb. cbn. apply bool_decide_eq_true_2, Ha.
  - unfold invoke.
    destruct (pauseCallback_spec a i (fired id w)) as (w' & E & _ & _ & _ & Hmw & _).
    pose proof (pauseCallback_shows a i (fired id w)) as Hsh. cbv zeta in Hsh.
    unfold post in Hsh. rewrite E in *. cbn [report snd] in *.
    rewrite drain_id by congruence.
    apply (Showing_cycle_callback id tm w w' HJ Hin Hp HS).
    destruct Hsh as [-> | (Hd & Ha & Hpres & Hnew)]; [left; reflexivity | right].
    split; [exact Hd |]. split; [| split; [exact Hpres | exact Hnew]].
    rewrite Hcb. cbn. apply bool_decide_eq_true_2, Ha.
  - destruct (List.find (fun l => Nat.eqb (lp_await l) id) (loops (fired id w)))
      as [l|] eqn:Hl.
    + rewrite (resolve_exec id (fired id w) l Hm0 Hl), resume_report.
      pose proof (find_some_await _ _ _ Hl) as [Hlin Hawait].
      change (loops (fired id w)) with (loops w) in Hlin.
      destruct (one_reveal w HJ) as [Hone _].
      assert (Hl1 : loops w = [l]).
      { apply list_elem_of_In in Hlin.
        destruct (loops w) as [|l0 [|l1 ls]]; [apply elem_of_nil in Hlin as [] | |
          cbn in Hone; lia].
        apply list_elem_of_singleton in Hlin. subst l0. reflexivity. }
      assert (Hsl : Shows w l).
      { unfold Showing in HS. rewrite Hl1 in HS. apply Forall_inv in HS. exact HS. }
      set (w1 := upd_loops _ _).
      assert (Hl0 : loops w1 = []).
      { unfold w1. cbn. rewrite Hl1.
        apply filter_singleton_False; [exact [] |]. intros Hn. apply Hn, Hawait. }
      destruct (resume_shows l w1 Hp Hsl) as (Hp' & new & Hnew & Hall).
      split; [| exact Hp']. unfold Showing. rewrite Hnew, Hl0. exact Hall.
    + rewrite (resolve_none id (fired id w) Hm0 Hl). split; assumption.
  - assert (Hs : sview (invoke (submitResume t) (fired id w)) = sview (fired id w))
      by (apply (timerCallback_other id (TSubmitWait t));
          [exact Hm0 | reflexivity | discriminate]).
    apply (Showing_sview (fired id w) _ Hs Hp HS).
  - assert (Hs : sview (invoke (submitRevert t) (fired id w)) = sview (fired id w))
      by (apply (timerCallback_other id (TSubmitRevert t));
          [exact Hm0 | reflexivity | discriminate]).
    apply (Showing_sview (fired id w) _ Hs Hp HS).
  - assert (Hs : sview (invoke (submitErrorRevert t) (fired id w)) = sview (fired id w))
      by (apply (timerCallback_other id (TSubmitErrorRevert t));
          [exact Hm0 | reflexivity | discriminate]).
    apply (Showing_sview (fired id w) _ Hs Hp HS).
  - assert (Hs : sview (invoke handleResize (fired id w)) = sview (fired id w))
      by (apply (timerCallback_other id TOrientation);
          [exact Hm0 | reflexivity | discriminate]).
    apply (Showing_sview (fired id w) _ Hs Hp HS).
Qed.

Lemma step_Showing ev w :
  Good w -> Timed w -> Sequential w \/ OneCycle w ->
  Sequential (step ev w) \/ OneCycle (step ev w) ->
  typingText (dom w) <> None -> Showing w ->
  Showing (step ev w) /\ typingText (dom (step ev w)) <> None.
Proof.
  intros HG HT HJ HJ' Hp HS. pose proof (Good_microtasks w HG) as Hm.
  destruct (isQuiet ev) eqn:Hq.
  { pose proof (quiet_sview ev w Hq HG) as Hs.
    apply (Showing_sview w _ Hs Hp HS). }
  destruct ev as [| |hidden| |id| | | | | |]; try discriminate.
  - destruct (isInitialized (pm w)) eqn:Hi.
    + rewrite (init_event_initialized w HG Hi).
      split; [apply (Showing_same w); [reflexivity | reflexivity | reflexivity | exact HS] |
              exact Hp].
    + destruct (init_event_fresh w HG Hi) as (_ & _ & Ht & Hl & _ & Ha).
      split; [| rewrite Ht; exact Hp].
      apply (Showing_same w); [exact Hl | exact Ht | | exact HS].
      destruct Ha as [-> | ->]; [reflexivity | apply union_subseteq_r].
  - destruct (destroy_event_flags w HG) as (Hi & Hd & _ & _ & _ & _ & _ & _ & Hdom).
    split; [| rewrite Hdom; exact Hp].
    assert (Hl : loops (step EvDestroy w) = []).
    { destruct HJ' as [(H1 & _) | (_ & H2 & _)]; [apply H1, Hd | apply H2, Hi]. }
    unfold Showing. rewrite Hl. constructor.
  - cbn [step]. unfold invoke, onVisibilityChange. cbn [modify report].
    rewrite drain_nil by exact Hm.
    split; [apply (Showing_same w); [reflexivity | reflexivity | reflexivity | exact HS] |
            exact Hp].
  - apply Showing_timer; assumption.
Qed.

Lemma run_Showing_sequential evs : forall w,
  noVisibility evs = true -> Good w -> Timed w -> Sequential w ->
  typingText (dom w) <> None -> Showing w ->
  Showing (run evs w).
Proof.
  induction evs as [|ev evs IH]; intros w Hv HG HT HJ Hp HS; [exact HS |].
  cbn [noVisibility forallb] in Hv. apply andb_true_iff in Hv as [Hv1 Hv2].
  apply negb_true_iff in Hv1. cbn [run fold_left].
  pose proof (step_Sequential ev w Hv1 HG HJ) as HJ'.
  destruct (step_Showing ev w HG HT (or_introl HJ) (or_introl HJ') Hp HS) as [HS' Hp'].
  apply IH; [exact Hv2 | apply step_Good, HG | apply step_Timed; assumption | | |];
    assumption.
Qed.

Lemma run_Showing_paced evs : forall w,
  paced evs w = true -> Good w -> Timed w -> OneCycle w ->
  typingText (dom w) <> None -> Showing w ->
  Showing (run evs w).
Proof.
  induction evs as [|ev evs IH]; intros w Hpaced HG HT HJ Hp HS; [exact HS |].
  cbn [paced] in Hpaced. apply andb_true_iff in Hpaced as [Hp1 Hp2].
  cbn [run fold_left].
  assert (HJ' : OneCycle (step ev w)).
  { apply step_OneCycle; [assumption | assumption |].
    intros Hc. rewrite Hc in Hp1. exact Hp1. }
  destruct (step_Showing ev w HG HT (or_intror HJ) (or_intror HJ') Hp HS) as [HS' Hp'].
  apply IH; [exact Hp2 | apply step_Good, HG | apply step_Timed; assumption | | |];
    assumption.
Qed.

Lemma reachable_Showing d v p now evs :
  pristine v -> typingText d <> None ->
  noVisibility evs = true \/ paced evs (initialWorld d v p now) = true ->
  Showing (run evs (initialWorld d v p now)).
Proof.
  intros Hv Hp [Hh | Hh].
  - apply run_Showing_sequential;
      [exact Hh | apply initialWorld_Good, Hv | apply initialWorld_Timed |
       apply initialWorld_Sequential | exact Hp | constructor].
  - apply run_Showing_paced;
      [exact Hh | apply initialWorld_Good, Hv | apply initialWorld_Timed |
       apply initialWorld_OneCycle | exact Hp | constructor].
Qed.

(** X7: on a page with a typing target, along a history on which one cycle
    runs at a time, the target shows exactly what the reveal in flight has
    written: the first [lp_i l + 1] characters of its text, which is one of
    the four texts, the one of the cycle's current index, and which has
    more than [lp_i l] characters; the reveal belongs to a cycle that is
    still in the animation set. *)
Theorem typewriter_shows_prefix d v p now evs l :
  pristine v -> typingText d <> None ->
  noVisibility evs = true \/ paced evs (initialWorld d v p now) = true ->
  let w := run evs (initialWorld d v p now) in
  l ∈ loops w ->
  typingText (dom w) = Some (prefix (S (lp_i l)) (lp_text l)) /\
  (lp_i l < String.length (lp_text l))%nat /\
  lp_text l = nth (lp_index l) texts EmptyString /\
  lp_text l ∈ texts /\
  lp_anim l ∈ activeAnimations (pm w).
Proof.
  intros Hv Hp Hh w Hl.
  pose proof (reachable_Showing d v p now evs Hv Hp Hh) as HS.
  unfold Showing in HS. rewrite Forall_forall in HS.
  destruct (HS l Hl) as (Ht & Hi & Htext & Hact).
  split; [exact Ht |]. split; [exact Hi |]. split; [exact Htext |].
  split; [| exact Hact].
  rewrite Htext in Hi |- *.
  destruct (lp_index l) as [|[|[|[|[|n]]]]]; cbn in Hi |- *;
    [repeat constructor .. | lia | lia].
Qed.

(** ** The timer of a reveal fires *)

Lemma reveal_timer_fires l w :
  Good w -> Timed w -> loops w = [l] ->
  step (EvTimer (lp_await l)) w = post (typeWriterResume l true) (resumed l w) /\
  loops (resumed l w) = [] /\
  lp_ctrl l ∉ abortedSignals (resumed l w).
Proof.
  intros HG HT Hl. pose proof (Good_microtasks w HG) as Hm.
  destruct HT as [_ HTl]. rewrite Hl in HTl. apply Forall_inv in HTl.
  destruct HTl as (_ & (tm & Htm & Hid) & Hchar).
  destruct HG as (_ & [_ HL] & _). rewrite Hl in HL. apply Forall_inv in HL.
  destruct HL as [_ Hlive].
  split; [| split; [| exact Hlive]].
  - cbn [step].
    destruct (List.find _ (timers w)) as [tm'|] eqn:Hfind.
    + apply find_timer in Hfind as [Hin' Hid'].
      rewrite (Hchar tm' Hin' Hid'). cbn [timerCallback]. fold (fired (lp_await l) w).
      rewrite (resolve_exec (lp_await l) (fired (lp_await l) w) l);
        [apply resume_report | exact Hm |].
      change (loops (fired (lp_await l) w)) with (loops w). rewrite Hl.
      cbn [List.find]. rewrite Nat.eqb_refl. reflexivity.
    + apply list_elem_of_In in Htm. apply (List.find_none _ _ Hfind) in Htm.
      rewrite Hid, Nat.eqb_refl in Htm. discriminate.
  - unfold resumed. cbn. rewrite Hl.
    apply filter_singleton_False; [exact [] |]. intros Hn. apply Hn. reflexivity.
Qed.

(** X8: a reveal's timer fires while the page is live, along a history on
    which one cycle runs at a time.  If characters are left the next one is
    appended, and the reveal waits on a new timer of the typing speed; if
    the text is complete it stays, no reveal is in flight, and a timer of
    the pause between texts is set for the next index, wrapping around the
    list of texts. *)
Theorem reveal_advances d v p now evs l :
  pristine v -> typingText d <> None ->
  noVisibility evs = true \/ paced evs (initialWorld d v p now) = true ->
  let w := run evs (initialWorld d v p now) in
  l ∈ loops w -> isDestroyed (pm w) = false ->
  let w' := step (EvTimer (lp_await l)) w in
  let rest := filter (fun tm => tm_id tm <> lp_await l) (timers w) in
  if (S (lp_i l) <? String.length (lp_text l))%nat
  then loops w' = [nextReveal (nextId w) l] /\
       typingText (dom w') = Some (prefix (S (S (lp_i l))) (lp_text l)) /\
       timers w' = rest ++ [{| tm_id := nextId w; tm_delay := lp_speed l;
                               tm_cb := TChar |}]
  else loops w' = [] /\
       typingText (dom w') = Some (lp_text l) /\
       timers w' = rest ++
         [{| tm_id := nextId w;
             tm_delay := Cfg.pauseBetweenTexts (Cfg.typing (config (pm w)));
             tm_cb := TPause (lp_anim l) ((lp_index l + 1) mod length texts) |}].
Proof.
  intros Hv Hp Hh w Hl Hd w' rest.
  pose proof (reachable_Showing d v p now evs Hv Hp Hh) as HS. fold w in HS.
  unfold Showing in HS. rewrite Forall_forall in HS. destruct (HS l Hl) as (Ht & Hi & _).
  assert (HG : Good w) by (apply reachable_Good, Hv).
  assert (HT : Timed w) by (apply reachable_Timed, Hv).
  assert (HJ : Sequential w \/ OneCycle w).
  { destruct Hh as [Hh | Hh];
      [left; apply reachable_Sequential | right; apply reachable_OneCycle]; assumption. }
  assert (Hl1 : loops w = [l]).
  { destruct (one_reveal w HJ) as [Hone _].
    destruct (loops w) as [|l0 [|l1 ls]]; [apply elem_of_nil in Hl as [] | |
      cbn in Hone; lia].
    apply list_elem_of_singleton in Hl. subst l0. reflexivity. }
  destruct (reveal_timer_fires l w HG HT Hl1) as (E & Hl0 & Hlive).
  unfold w'. clearbody w. rewrite E. unfold post.
  destruct (S (lp_i l) <? String.length (lp_text l))%nat eqn:Hlen.
  - rewrite resume_continue by assumption. cbn [snd]. proj. rewrite Hl0.
    split; [reflexivity |]. split; [| reflexivity].
    cbn. rewrite Ht. cbn. f_equal. apply prefix_snoc, Nat.ltb_lt, Hlen.
  - rewrite resume_finish by assumption. cbn [snd]. proj.
    split; [exact Hl0 |]. split; [| reflexivity].
    apply Nat.ltb_ge in Hlen.
    assert (Hfull : S (lp_i l) = String.length (lp_text l)) by lia.
    change (typingText (dom w) = Some (lp_text l)).
    rewrite Ht, Hfull, prefix_full. reflexivity.
Qed.

(** X9: a reveal's timer fires while the tab is hidden, along a history on
    which one cycle runs at a time (every [init] that set up a cycle found
    the clock fresh).  The reveal ends without writing, and the cycle ends
    with it: whatever happens later,
    the tab becoming visible again included, short of a new [init], no
    reveal is in flight, no timer that would continue a cycle is pending,
    and the typing target keeps its text. *)
Theorem hidden_tab_ends_cycle d v p now evs l :
  pristine v -> paced evs (initialWorld d v p now) = true ->
  let w := run evs (initialWorld d v p now) in
  l ∈ loops w -> isDestroyed (pm w) = true ->
  let w' := step (EvTimer (lp_await l)) w in
  forall later, noInit later = true ->
    Dormant (run later w') /\ typingText (dom (run later w')) = typingText (dom w).
Proof.
  intros Hv Hh w Hl Hd w' later Hlater.
  assert (HG : Good w) by (apply reachable_Good, Hv).
  assert (HT : Timed w) by (apply reachable_Timed, Hv).
  assert (HO : OneCycle w) by (apply reachable_OneCycle; assumption).
  destruct (in_flight_paced l w HO Hl) as (Hl1 & Hact & _).
  destruct (reveal_timer_fires l w HG HT Hl1) as (E & Hl0 & _).
  assert (E' : w' = resumed l w).
  { unfold w'. rewrite E. unfold post. rewrite resume_stopped; [reflexivity | |];
      auto. }
  assert (HD : Dormant w').
  { rewrite E'. split; [exact Hl0 |]. split; [| reflexivity].
    change (activeTimers (resumed l w)) with (activeTimers (fired (lp_await l) w)).
    rewrite activeTimers_fired, Hact. reflexivity. }
  assert (HG' : Good w') by (apply step_Good, HG).
  destruct (run_Dormant later w' Hlater HG' HD) as [H1 H2].
  split; [exact H1 |]. rewrite H2, E'. reflexivity.
Qed.

Lemma typewriter_shows_prefix_witness :
  typingText (dom (run [EvInit; EvTimer 0%nat] demoWorld)) = Some "J"%string.
Proof.
  assert (Hp : pristine demoWindow) by (split; reflexivity).
  exact (proj1 (typewriter_shows_prefix demoDom demoWindow demoPlatform 1000
    [EvInit; EvTimer 0%nat] demoLoop Hp ltac:(discriminate) (or_introl eq_refl)
    ltac:(vm_compute; left))).
Defined.

Lemma reveal_advances_witness :
  typingText (dom (step (EvTimer 4%nat) (run [EvInit; EvTimer 0%nat] demoWorld))) =
  Some "Ju"%string.
Proof.
  assert (Hp : pristine demoWindow) by (split; reflexivity).
  exact (proj1 (proj2 (reveal_advances demoDom demoWindow demoPlatform 1000
    [EvInit; EvTimer 0%nat] demoLoop Hp ltac:(discriminate) (or_introl eq_refl)
    ltac:(vm_compute; left) eq_refl))).
Defined.

Lemma hidden_tab_ends_cycle_witness :
  typingText (dom (run [EvVisibility false; EvTimer 4%nat; EvTimer 5%nat]
                     (step (EvTimer 4%nat)
                        (run [EvInit; EvTimer 0%nat; EvVisibility true] demoWorld)))) =
  typingText (dom (run [EvInit; EvTimer 0%nat; EvVisibility true] demoWorld)).
Proof.
  assert (Hp : pristine demoWindow) by (split; reflexivity).
  assert (Hpaced : paced [EvInit; EvTimer 0%nat; EvVisibility true] demoWorld = true)
    by (vm_compute; reflexivity).
  exact (proj2 (hidden_tab_ends_cycle demoDom demoWindow demoPlatform 1000
    [EvInit; EvTimer 0%nat; EvVisibility true] demoLoop Hp Hpaced
    ltac:(vm_compute; left) eq_refl
    [EvVisibility false; EvTimer 4%nat; EvTimer 5%nat] eq_refl)).
Defined.

(* ===================================================================== *)
(** * Further properties: the listeners on the page                       *)
(* ===================================================================== *)

#[global] Instance PageKept_preorder : PreOrder PageKept.
Proof. apply (keeps_preorder PageView). Qed.

(** One rule, chosen by the head of the computation. *)
Ltac rel_step leaf :=
  first
    [ solve [auto with js_steps]
    | match goal with
      | |- steps _ (bind _ _) => apply steps_bind; [apply _ | | intros ?]
      | |- steps _ (try_catch _ _) => apply steps_try; [apply _ | | intros ?]
      | |- steps _ (ret _) => apply steps_ret; apply _
      | |- steps _ get => apply steps_get; apply _
      | |- steps _ (throw _) => apply steps_throw; apply _
      | |- steps _ (recv _) => apply steps_recv; apply _
      | |- steps _ (modify _) => apply steps_modify; intros ?; leaf
      | |- steps _ (if ?b then _ else _) => destruct b
      | |- steps _ (match ?x with _ => _ end) => destruct x
      end ].

Ltac leaf_page :=
  unfold PageKept, PageView; proj;
  try match goal with |- context [contactForm (dom ?w)] =>
        destruct (contactForm (dom w)) end;
  reflexivity.
Ltac page_go := unfold_prims; unfold fresh; repeat rel_step leaf_page.

Lemma getElement_page id cache : steps PageKept (getElement id cache).
Proof. unfold getElement; page_go. Qed.
#[global] Hint Resolve getElement_page : js_steps.

Lemma makeParticles_page n : steps PageKept (makeParticles n).
Proof. induction n; cbn [makeParticles]; unfold makeParticle; page_go. Qed.
#[global] Hint Resolve makeParticles_page : js_steps.

Lemma createParticles_page : steps PageKept createParticles.
Proof. unfold createParticles; page_go. Qed.
#[global] Hint Resolve createParticles_page : js_steps.

Lemma initAOS_page : steps PageKept initAOS.
Proof. unfold initAOS; page_go. Qed.
#[global] Hint Resolve initAOS_page : js_steps.

Lemma initPerformanceMonitoring_page : steps PageKept initPerformanceMonitoring.
Proof. unfold initPerformanceMonitoring; page_go. Qed.
#[global] Hint Resolve initPerformanceMonitoring_page : js_steps.

Lemma updateNavbar_page : steps PageKept updateNavbar.
Proof. unfold updateNavbar; page_go. Qed.
#[global] Hint Resolve updateNavbar_page : js_steps.

Lemma revealOnScroll_page : steps PageKept revealOnScroll.
Proof. unfold revealOnScroll; page_go. Qed.
#[global] Hint Resolve revealOnScroll_page : js_steps.

Lemma initTypingAnimation_page : steps PageKept initTypingAnimation.
Proof. unfold initTypingAnimation; page_go. Qed.
#[global] Hint Resolve initTypingAnimation_page : js_steps.

Lemma validateForm_page formData : steps PageKept (validateForm formData).
Proof. unfold validateForm; page_go. Qed.
#[global] Hint Resolve validateForm_page : js_steps.

Lemma submitCatch_page t e : steps PageKept (submitCatch t e).
Proof. unfold submitCatch; page_go. Qed.
#[global] Hint Resolve submitCatch_page : js_steps.

Lemma submitHandler_page : steps PageKept submitHandler.
Proof. unfold submitHandler; page_go. Qed.
#[global] Hint Resolve submitHandler_page : js_steps.

Lemma submitResume_page t : steps PageKept (submitResume t).
Proof. unfold submitResume; page_go. Qed.
#[global] Hint Resolve submitResume_page : js_steps.

Lemma submitRevert_page t : steps PageKept (submitRevert t).
Proof. unfold submitRevert; page_go. Qed.
#[global] Hint Resolve submitRevert_page : js_steps.

Lemma submitErrorRevert_page t : steps PageKept (submitErrorRevert t).
Proof. unfold submitErrorRevert; page_go. Qed.
#[global] Hint Resolve submitErrorRevert_page : js_steps.

Lemma onOrientationChange_page : steps PageKept onOrientationChange.
Proof. unfold onOrientationChange; page_go. Qed.
#[global] Hint Resolve onOrientationChange_page : js_steps.

Lemma onVisibilityChange_page hidden : steps PageKept (onVisibilityChange hidden).
Proof. unfold onVisibilityChange; page_go. Qed.
#[global] Hint Resolve onVisibilityChange_page : js_steps.

Lemma handleScroll_page : steps PageKept handleScroll.
Proof. unfold handleScroll; page_go. Qed.
#[global] Hint Resolve handleScroll_page : js_steps.

Lemma handleResize_page : steps PageKept handleResize.
Proof. unfold handleResize; page_go. Qed.
#[global] Hint Resolve handleResize_page : js_steps.

Lemma scrollFrame_page : steps PageKept scrollFrame.
Proof. unfold scrollFrame; page_go. Qed.
#[global] Hint Resolve scrollFrame_page : js_steps.

Lemma resizeFrame_page : steps PageKept resizeFrame.
Proof. unfold resizeFrame; page_go. Qed.
#[global] Hint Resolve resizeFrame_page : js_steps.

Lemma typeWriterCatch_page e : steps PageKept (typeWriterCatch e).
Proof. unfold typeWriterCatch; page_go. Qed.
#[global] Hint Resolve typeWriterCatch_page : js_steps.

Lemma runCycleAfter_page a i b : steps PageKept (runCycleAfter a i b).
Proof. unfold runCycleAfter; page_go. Qed.
#[global] Hint Resolve runCycleAfter_page : js_steps.

Lemma typeWriterLoop_page element l : steps PageKept (typeWriterLoop element l).
Proof. unfold typeWriterLoop; page_go. Qed.
#[global] Hint Resolve typeWriterLoop_page : js_steps.

Lemma typeWriter_page text element speed a i : steps PageKept (typeWriter text element speed a i).
Proof. unfold typeWriter; page_go. Qed.
#[global] Hint Resolve typeWriter_page : js_steps.

Lemma runCycle_page a i : steps PageKept (runCycle a i).
Proof. unfold runCycle; page_go. Qed.
#[global] Hint Resolve runCycle_page : js_steps.

Lemma startCallback_page a : steps PageKept (startCallback a).
Proof. unfold startCallback; page_go. Qed.
#[global] Hint Resolve startCallback_page : js_steps.

Lemma pauseCallback_page a i : steps PageKept (pauseCallback a i).
Proof. unfold pauseCallback; page_go. Qed.
#[global] Hint Resolve pauseCallback_page : js_steps.

Lemma typeWriterResume_page l b : steps PageKept (typeWriterResume l b).
Proof. unfold typeWriterResume; page_go. Qed.
#[global] Hint Resolve typeWriterResume_page : js_steps.

Lemma settle_page t b : steps PageKept (settle t b).
Proof. unfold settle; page_go. Qed.
#[global] Hint Resolve settle_page : js_steps.

Lemma abortListener_page t : steps PageKept (abortListener t).
Proof. unfold abortListener; page_go. Qed.
#[global] Hint Resolve abortListener_page : js_steps.

Lemma runAbortListeners_page ls c : steps PageKept (runAbortListeners ls c).
Proof.
  induction ls as [|[c' t] ls IH]; cbn [runAbortListeners]; page_go.
Qed.
#[global] Hint Resolve runAbortListeners_page : js_steps.

Lemma abort_page c : steps PageKept (abort c).
Proof. unfold abort; page_go. Qed.
#[global] Hint Resolve abort_page : js_steps.

Lemma destroy_page : steps PageKept destroy.
Proof. unfold destroy; page_go. Qed.
#[global] Hint Resolve destroy_page : js_steps.

Lemma timerCallback_page id cb : steps PageKept (timerCallback id cb).
Proof. destruct cb; cbn [timerCallback]; page_go. Qed.
#[global] Hint Resolve timerCallback_page : js_steps.

Lemma frameCallback_page cb : steps PageKept (frameCallback cb).
Proof. destruct cb; cbn [frameCallback]; page_go. Qed.
#[global] Hint Resolve frameCallback_page : js_steps.

Lemma listenerCallback_page l : steps PageKept (listenerCallback l).
Proof. unfold listenerCallback; page_go. Qed.
#[global] Hint Resolve listenerCallback_page : js_steps.

Lemma runMicrotask_page mt : steps PageKept (runMicrotask mt).
Proof. unfold runMicrotask; page_go. Qed.
#[global] Hint Resolve runMicrotask_page : js_steps.
(** ** From callbacks to events *)

(** A relation that every callback steps along holds between the worlds
    before and after every event. *)
Section Lifting.
Context (R : World -> World -> Prop) {HR : PreOrder R}.
Hypothesis R_console : forall e w, R w (upd_console (fun c => c ++ [Uncaught e]) w).
Hypothesis R_microtasks : forall w, R w (upd_microtasks (fun _ => []) w).
Hypothesis R_resume : forall mt, steps R (runMicrotask mt).

Lemma report_rel (m : M unit) w : steps R m -> R w (report (m w)).
Proof.
  intros H. specialize (H w). destruct (m w) as [[[]|e] w']; cbn in *; [exact H |].
  etransitivity; [exact H | apply R_console].
Qed.

Lemma runMicrotasks_rel q : forall w, R w (runMicrotasks q w).
Proof.
  induction q as [|mt q IH]; intros w; cbn [runMicrotasks]; [reflexivity |].
  etransitivity; [apply (report_rel _ w (R_resume mt)) | apply IH].
Qed.

Lemma invoke_rel (m : M unit) w : steps R m -> R w (invoke m w).
Proof.
  intros H. unfold invoke, drain.
  etransitivity; [apply (report_rel m w H) |].
  etransitivity; [apply R_microtasks | apply runMicrotasks_rel].
Qed.

Lemma fold_rel {X} (f : X -> M unit) (xs : list X) : forall w,
  (forall x, steps R (f x)) -> R w (fold_left (fun w' x => invoke (f x) w') xs w).
Proof.
  induction xs as [|x xs IH]; intros w Hf; cbn [fold_left]; [reflexivity |].
  etransitivity; [apply (invoke_rel _ w (Hf x)) | apply IH, Hf].
Qed.

Lemma iter_rel (m : M unit) n w : steps R m -> R w (Nat.iter n (invoke m) w).
Proof.
  intros H. induction n as [|n IH]; [reflexivity |]. rewrite Nat.iter_succ.
  etransitivity; [exact IH | apply invoke_rel, H].
Qed.

Hypothesis R_timers : forall id w,
  R w (upd_timers (filter (fun tm' => tm_id tm' <> id)) w).
Hypothesis R_frames : forall w, R w (upd_frames (fun _ => []) w).
Hypothesis R_win : forall f w, R w (upd_win f w).
Hypothesis R_clock : forall t w, R w (set_clock t w).
Hypothesis R_input : forall name value w,
  R w (upd_dom (set_contactForm (setField name value)) w).
Hypothesis R_destroy : steps R destroy.
Hypothesis R_visibility : forall hidden, steps R (onVisibilityChange hidden).
Hypothesis R_orientation : steps R onOrientationChange.
Hypothesis R_timer : forall id cb, steps R (timerCallback id cb).
Hypothesis R_frame : forall cb, steps R (frameCallback cb).
Hypothesis R_listener : forall l, steps R (listenerCallback l).
Hypothesis R_submit : steps R submitHandler.

Lemma step_rel ev w : isInit ev = false -> R w (step ev w).
Proof.
  intros Hi.
  destruct ev as [| |hidden| |id| |y|width height dpr| |name value|t];
    try discriminate; cbn [step].
  - apply invoke_rel, R_destroy.
  - apply invoke_rel, R_visibility.
  - apply invoke_rel, R_orientation.
  - destruct (List.find _ (timers w)) as [tm|]; [| reflexivity].
    etransitivity; [apply R_timers | apply invoke_rel, R_timer].
  - etransitivity; [apply R_frames | apply fold_rel, R_frame].
  - etransitivity; [apply R_win | apply fold_rel, R_listener].
  - etransitivity; [apply R_win | apply fold_rel, R_listener].
  - destruct (contactForm (dom w)); [| reflexivity]. apply iter_rel, R_submit.
  - apply R_input.
  - apply R_clock.
Qed.

Lemma step_rel_all ev w : steps R init -> R w (step ev w).
Proof.
  intros Hinit. destruct (isInit ev) eqn:Hi; [| apply step_rel, Hi].
  destruct ev; try discriminate. cbn [step]. apply invoke_rel, Hinit.
Qed.

Lemma run_rel evs : forall w, steps R init -> R w (run evs w).
Proof.
  induction evs as [|ev evs IH]; intros w Hinit; [reflexivity |].
  cbn [run fold_left]. etransitivity; [apply (step_rel_all ev w Hinit) | apply IH, Hinit].
Qed.

End Lifting.

Lemma PageKept_same w w' : dom w' = dom w -> PageKept w w'.
Proof. unfold PageKept, PageView. intros ->. reflexivity. Qed.

(** Every event but a call of [init] leaves the listeners on the page as
    they are: [destroy] removes none of them. *)
Lemma step_page ev w : isInit ev = false -> PageView (step ev w) = PageView w.
Proof.
  apply (step_rel PageKept); try (intros; apply PageKept_same; reflexivity);
    auto with js_steps.
  intros name value w0. unfold PageKept, PageView. cbn.
  destruct (contactForm (dom w0)); reflexivity.
Qed.

(** ** What [init] adds *)

Lemma acts_bind {A B} f g (m : M A) (k : A -> M B) :
  acts f m -> (forall a, acts g (k a)) -> acts (fun pv => g (f pv)) (bind m k).
Proof.
  intros Hm Hk w. unfold bind. destruct (Hm w) as [[a Ha] Hf].
  destruct (m w) as [[a'|e] w']; cbn in Ha, Hf; [| discriminate].
  destruct (Hk a' w') as [Hn Hg]. split; [exact Hn |]. rewrite Hg, Hf. reflexivity.
Qed.

Lemma acts_kept {A} (m : M A) : nothrow m -> steps PageKept m -> acts (fun pv => pv) m.
Proof. intros Hn Hs w. split; [apply Hn | apply Hs]. Qed.

Lemma initSmoothScrolling_acts :
  acts (fun '(a, p, s, f) => (map S a, p, s, f)) initSmoothScrolling.
Proof. intros w. split; [exists tt; reflexivity | reflexivity]. Qed.

Lemma initCardEffects_acts :
  acts (fun '(a, p, s, f) =>
          (a, map S p,
           map (fun c : bool * nat => if fst c then (fst c, S (snd c)) else c) s, f))
    initCardEffects.
Proof. intros w. split; [exists tt; reflexivity | reflexivity]. Qed.

Lemma initContactForm_acts :
  acts (fun '(a, p, s, f) => (a, p, s, S <$> f)) initContactForm.
Proof.
  intros w. split; [apply initContactForm_nothrow |].
  unfold initContactForm, getElement, PageView. exec.
  destruct (elementCache (pm w) !! "contactForm"%string) as [e|]; scbn.
  - destruct (contactForm (dom w)); reflexivity.
  - destruct (contactForm (dom w)) eqn:Hf; scbn; rewrite ?Hf; reflexivity.
Qed.

Lemma acts_ext {A} f g (m : M A) : (forall pv, f pv = g pv) -> acts f m -> acts g m.
Proof. intros H Hm w. destruct (Hm w) as [Hn Hf]. split; [exact Hn | congruence]. Qed.

Lemma initSetup_acts : acts decorate initSetup.
Proof.
  eapply acts_ext; [| unfold initSetup].
  2: { eapply acts_bind;
         [apply acts_kept;
            [apply initPerformanceMonitoring_nothrow | apply initPerformanceMonitoring_page]
         | intros _].
       eapply acts_bind;
         [apply acts_kept; [apply createParticles_nothrow | apply createParticles_page]
         | intros _].
       eapply acts_bind;
         [apply acts_kept; [apply initAOS_nothrow | apply initAOS_page] | intros _].
       eapply acts_bind;
         [apply acts_kept; [apply initTypingAnimation_nothrow | apply initTypingAnimation_page]
         | intros _].
       eapply acts_bind; [apply initSmoothScrolling_acts | intros _].
       eapply acts_bind; [apply initContactForm_acts | intros _].
       eapply acts_bind; [apply initCardEffects_acts | intros _].
       apply acts_kept; [nothrow_go | page_go]. }
  intros [[[a p] s] f]. reflexivity.
Qed.

Lemma init_page w :
  PageView (post init w) =
  if isInitialized (pm w) then PageView w else decorate (PageView w).
Proof.
  unfold post. destruct (isInitialized (pm w)) eqn:Hi.
  - rewrite (init_initialized w Hi). reflexivity.
  - unfold init, init_with, async. exec. rewrite Hi. scbn.
    match goal with |- context [initSetup ?x] =>
      destruct (initSetup_acts x) as [[[] Hn] Hf]; destruct (initSetup x) as [[[]|e] w']
    end; cbn in Hn; [| discriminate].
    cbn. exact Hf.
Qed.

Lemma step_init_page w :
  PageView (step EvInit w) =
  if isInitialized (pm w) then PageView w else decorate (PageView w).
Proof.
  rewrite <- init_page. cbn [step]. unfold invoke, drain.
  rewrite (report_post _ _ init_nothrow).
  assert (Hc : forall e w0, PageKept w0 (upd_console (fun c => c ++ [Uncaught e]) w0))
    by (intros; apply PageKept_same; reflexivity).
  etransitivity; [apply (runMicrotasks_rel PageKept Hc runMicrotask_page) | reflexivity].
Qed.

Lemma run_page evs : forall w,
  PageView (run evs w) = Nat.iter (freshInits evs w) decorate (PageView w).
Proof.
  induction evs as [|ev evs IH]; intros w; [reflexivity |].
  cbn [run fold_left freshInits]. fold (run evs (step ev w)). rewrite IH.
  destruct (isInit ev) eqn:Hi.
  - destruct ev; try discriminate. rewrite step_init_page. cbn [andb].
    destruct (isInitialized (pm w)); cbn [negb Nat.add]; [reflexivity |].
    rewrite Nat.iter_succ_r. reflexivity.
  - rewrite (step_page ev w Hi). reflexivity.
Qed.

(** X10: the click listeners on the anchors, the hover pairs on the cards
    and the submit listeners on the form change with no event but a call
    of [init] that finds the controller not initialized, which adds one to
    each; [destroy] removes none.  After any history, from any world, there
    are as many more of each as the history has such calls. *)
Theorem page_listeners_count_inits :
  (forall ev w, isInit ev = false -> PageView (step ev w) = PageView w) /\
  (forall w, PageView (step EvInit w) =
             if isInitialized (pm w) then PageView w else decorate (PageView w)) /\
  (forall evs w,
     PageView (run evs w) = Nat.iter (freshInits evs w) decorate (PageView w)).
Proof.
  split; [exact step_page |]. split; [exact step_init_page |].
  intros evs w. apply run_page.
Qed.

Lemma iter_decorate k a p s f :
  Nat.iter k decorate (a, p, s, f) =
  (map (Nat.add k) a, map (Nat.add k) p,
   map (fun c : bool * nat => if fst c then (fst c, (k + snd c)%nat) else c) s,
   Nat.add k <$> f).
Proof.
  induction k as [|k IH].
  - cbn [Nat.iter]. rewrite !map_id.
    replace (map _ s) with s.
    + destruct f; reflexivity.
    + symmetry. transitivity (map (fun x => x) s); [| apply map_id].
      apply map_ext. intros [[] n]; reflexivity.
  - rewrite Nat.iter_succ, IH. cbn [decorate]. rewrite !map_map.
    f_equal; [f_equal |].
    + apply map_ext. intros [[] n]; reflexivity.
    + destruct f; reflexivity.
Qed.

Lemma freshInits_reinits n : forall w,
  Good w -> freshInits (concat (replicate n [EvDestroy; EvInit])) w = n.
Proof.
  induction n as [|n IH]; intros w HG; [reflexivity |].
  cbn [replicate concat app freshInits isInit andb Nat.add].
  destruct (destroy_event_flags w HG) as (Hi & _). rewrite Hi. cbn [negb].
  rewrite IH; [reflexivity |]. apply step_Good, step_Good, HG.
Qed.

(** X11: after the first [init] and [n] rounds of [destroy] and [init],
    every anchor carries [n + 1] click listeners more than the page came
    with, every project card and every skill card with an icon [n + 1]
    hover pairs more, and the form [n + 1] submit listeners more. *)
Theorem reinit_duplicates_listeners d v p now n :
  pristine v ->
  let w := run (reinits n) (initialWorld d v p now) in
  anchors (dom w) = map (Nat.add (S n)) (anchors d) /\
  projectCards (dom w) = map (Nat.add (S n)) (projectCards d) /\
  skillCards (dom w) =
    map (fun c : bool * nat => if fst c then (fst c, (S n + snd c)%nat) else c)
      (skillCards d) /\
  submitListeners <$> contactForm (dom w) =
    (fun fm => (S n + submitListeners fm)%nat) <$> contactForm d.
Proof.
  intros Hv w.
  pose proof (run_page (reinits n) (initialWorld d v p now)) as H.
  fold w in H. unfold reinits in H. cbn [freshInits isInit andb] in H.
  change (isInitialized (pm (initialWorld d v p now))) with false in H.
  cbn [negb] in H.
  rewrite freshInits_reinits in H
    by (apply step_Good, initialWorld_Good, Hv).
  change (1 + n)%nat with (S n) in H.
  unfold PageView at 2 in H. rewrite iter_decorate in H.
  unfold PageView in H. injection H as H1 H2 H3 H4.
  split; [exact H1 |]. split; [exact H2 |]. split; [exact H3 |].
  rewrite H4. cbn. destruct (contactForm d); reflexivity.
Qed.

Lemma reinit_duplicates_listeners_witness :
  anchors (dom (run (reinits 2) demoWorld)) = [3%nat].
Proof.
  assert (Hp : pristine demoWindow) by (split; reflexivity).
  exact (proj1 (reinit_duplicates_listeners demoDom demoWindow demoPlatform 1000 2 Hp)).
Defined.

(* ===================================================================== *)
(** * Further properties: the element cache                               *)
(* ===================================================================== *)

#[global] Instance CacheKept_preorder : PreOrder CacheKept.
Proof. apply (preserves_preorder CacheOK). Qed.

Ltac leaf_cacheok :=
  unfold CacheKept, CacheOK; proj;
  first [ intros H; exact H
        | intros _ ? ? Hl; rewrite lookup_empty in Hl; discriminate ].
Ltac cache_go := unfold_prims; unfold fresh; repeat rel_step leaf_cacheok.

Lemma getElement_cacheok id cache : steps CacheKept (getElement id cache).
Proof.
  intros w HC. unfold getElement. exec.
  destruct cache; scbn.
  - destruct (elementCache (pm w) !! id) as [e|] eqn:E; scbn; [exact HC |].
    destruct (objectPrototypeHas id); scbn; [exact HC |].
    destruct (elemOfId id) as [e|] eqn:Eid; scbn; [| exact HC].
    destruct (present (dom w) e); scbn; [| exact HC].
    intros id' e' Hl. unfold CacheOK in HC. proj.
    destruct (decide (id' = id)) as [-> | Hne].
    + rewrite lookup_insert_eq in Hl. congruence.
    + rewrite lookup_insert_ne in Hl by congruence. apply HC, Hl.
  - destruct (elemOfId id) as [e|]; scbn; [| exact HC].
    destruct (present (dom w) e); exact HC.
Qed.
#[global] Hint Resolve getElement_cacheok : js_steps.

Lemma makeParticles_cacheok n : steps CacheKept (makeParticles n).
Proof. induction n; cbn [makeParticles]; unfold makeParticle; cache_go. Qed.
#[global] Hint Resolve makeParticles_cacheok : js_steps.

Lemma createParticles_cacheok : steps CacheKept createParticles.
Proof. unfold createParticles; cache_go. Qed.
#[global] Hint Resolve createParticles_cacheok : js_steps.

Lemma initAOS_cacheok : steps CacheKept initAOS.
Proof. unfold initAOS; cache_go. Qed.
#[global] Hint Resolve initAOS_cacheok : js_steps.

Lemma initPerformanceMonitoring_cacheok : steps CacheKept initPerformanceMonitoring.
Proof. unfold initPerformanceMonitoring; cache_go. Qed.
#[global] Hint Resolve initPerformanceMonitoring_cacheok : js_steps.

Lemma initSmoothScrolling_cacheok : steps CacheKept initSmoothScrolling.
Proof. unfold initSmoothScrolling; cache_go. Qed.
#[global] Hint Resolve initSmoothScrolling_cacheok : js_steps.

Lemma initCardEffects_cacheok : steps CacheKept initCardEffects.
Proof. unfold initCardEffects; cache_go. Qed.
#[global] Hint Resolve initCardEffects_cacheok : js_steps.

Lemma initContactForm_cacheok : steps CacheKept initContactForm.
Proof. unfold initContactForm; cache_go. Qed.
#[global] Hint Resolve initContactForm_cacheok : js_steps.

Lemma updateNavbar_cacheok : steps CacheKept updateNavbar.
Proof. unfold updateNavbar; cache_go. Qed.
#[global] Hint Resolve updateNavbar_cacheok : js_steps.

Lemma revealOnScroll_cacheok : steps CacheKept revealOnScroll.
Proof. unfold revealOnScroll; cache_go. Qed.
#[global] Hint Resolve revealOnScroll_cacheok : js_steps.

Lemma initTypingAnimation_cacheok : steps CacheKept initTypingAnimation.
Proof. unfold initTypingAnimation; cache_go. Qed.
#[global] Hint Resolve initTypingAnimation_cacheok : js_steps.

Lemma initSetup_cacheok : steps CacheKept initSetup.
Proof. unfold initSetup; cache_go. Qed.
#[global] Hint Resolve initSetup_cacheok : js_steps.

Lemma init_cacheok : steps CacheKept init.
Proof. unfold init, init_with; cache_go. Qed.
#[global] Hint Resolve init_cacheok : js_steps.

Lemma validateForm_cacheok formData : steps CacheKept (validateForm formData).
Proof. unfold validateForm; cache_go. Qed.
#[global] Hint Resolve validateForm_cacheok : js_steps.

Lemma submitCatch_cacheok t e : steps CacheKept (submitCatch t e).
Proof. unfold submitCatch; cache_go. Qed.
#[global] Hint Resolve submitCatch_cacheok : js_steps.

Lemma submitHandler_cacheok : steps CacheKept submitHandler.
Proof. unfold submitHandler; cache_go. Qed.
#[global] Hint Resolve submitHandler_cacheok : js_steps.

Lemma submitResume_cacheok t : steps CacheKept (submitResume t).
Proof. unfold submitResume; cache_go. Qed.
#[global] Hint Resolve submitResume_cacheok : js_steps.

Lemma submitRevert_cacheok t : steps CacheKept (submitRevert t).
Proof. unfold submitRevert; cache_go. Qed.
#[global] Hint Resolve submitRevert_cacheok : js_steps.

Lemma submitErrorRevert_cacheok t : steps CacheKept (submitErrorRevert t).
Proof. unfold submitErrorRevert; cache_go. Qed.
#[global] Hint Resolve submitErrorRevert_cacheok : js_steps.

Lemma onOrientationChange_cacheok : steps CacheKept onOrientationChange.
Proof. unfold onOrientationChange; cache_go. Qed.
#[global] Hint Resolve onOrientationChange_cacheok : js_steps.

Lemma onVisibilityChange_cacheok hidden : steps CacheKept (onVisibilityChange hidden).
Proof. unfold onVisibilityChange; cache_go. Qed.
#[global] Hint Resolve onVisibilityChange_cacheok : js_steps.

Lemma handleScroll_cacheok : steps CacheKept handleScroll.
Proof. unfold handleScroll; cache_go. Qed.
#[global] Hint Resolve handleScroll_cacheok : js_steps.

Lemma handleResize_cacheok : steps CacheKept handleResize.
Proof. unfold handleResize; cache_go. Qed.
#[global] Hint Resolve handleResize_cacheok : js_steps.

Lemma scrollFrame_cacheok : steps CacheKept scrollFrame.
Proof. unfold scrollFrame; cache_go. Qed.
#[global] Hint Resolve scrollFrame_cacheok : js_steps.

Lemma resizeFrame_cacheok : steps CacheKept resizeFrame.
Proof. unfold resizeFrame; cache_go. Qed.
#[global] Hint Resolve resizeFrame_cacheok : js_steps.

Lemma typeWriterCatch_cacheok e : steps CacheKept (typeWriterCatch e).
Proof. unfold typeWriterCatch; cache_go. Qed.
#[global] Hint Resolve typeWriterCatch_cacheok : js_steps.

Lemma runCycleAfter_cacheok a i b : steps CacheKept (runCycleAfter a i b).
Proof. unfold runCycleAfter; cache_go. Qed.
#[global] Hint Resolve runCycleAfter_cacheok : js_steps.

Lemma typeWriterLoop_cacheok element l : steps CacheKept (typeWriterLoop element l).
Proof. unfold typeWriterLoop; cache_go. Qed.
#[global] Hint Resolve typeWriterLoop_cacheok : js_steps.

Lemma typeWriter_cacheok text element speed a i : steps CacheKept (typeWriter text element speed a i).
Proof. unfold typeWriter; cache_go. Qed.
#[global] Hint Resolve typeWriter_cacheok : js_steps.

Lemma runCycle_cacheok a i : steps CacheKept (runCycle a i).
Proof. unfold runCycle; cache_go. Qed.
#[global] Hint Resolve runCycle_cacheok : js_steps.

Lemma startCallback_cacheok a : steps CacheKept (startCallback a).
Proof. unfold startCallback; cache_go. Qed.
#[global] Hint Resolve startCallback_cacheok : js_steps.

Lemma pauseCallback_cacheok a i : steps CacheKept (pauseCallback a i).
Proof. unfold pauseCallback; cache_go. Qed.
#[global] Hint Resolve pauseCallback_cacheok : js_steps.

Lemma typeWriterResume_cacheok l b : steps CacheKept (typeWriterResume l b).
Proof. unfold typeWriterResume; cache_go. Qed.
#[global] Hint Resolve typeWriterResume_cacheok : js_steps.

Lemma settle_cacheok t b : steps CacheKept (settle t b).
Proof. unfold settle; cache_go. Qed.
#[global] Hint Resolve settle_cacheok : js_steps.

Lemma abortListener_cacheok t : steps CacheKept (abortListener t).
Proof. unfold abortListener; cache_go. Qed.
#[global] Hint Resolve abortListener_cacheok : js_steps.

Lemma runAbortListeners_cacheok ls c : steps CacheKept (runAbortListeners ls c).
Proof.
  induction ls as [|[c' t] ls IH]; cbn [runAbortListeners]; cache_go.
Qed.
#[global] Hint Resolve runAbortListeners_cacheok : js_steps.

Lemma abort_cacheok c : steps CacheKept (abort c).
Proof. unfold abort; cache_go. Qed.
#[global] Hint Resolve abort_cacheok : js_steps.

Lemma destroy_cacheok : steps CacheKept destroy.
Proof. unfold destroy; cache_go. Qed.
#[global] Hint Resolve destroy_cacheok : js_steps.

Lemma timerCallback_cacheok id cb : steps CacheKept (timerCallback id cb).
Proof. destruct cb; cbn [timerCallback]; cache_go. Qed.
#[global] Hint Resolve timerCallback_cacheok : js_steps.

Lemma frameCallback_cacheok cb : steps CacheKept (frameCallback cb).
Proof. destruct cb; cbn [frameCallback]; cache_go. Qed.
#[global] Hint Resolve frameCallback_cacheok : js_steps.

Lemma listenerCallback_cacheok l : steps CacheKept (listenerCallback l).
Proof. unfold listenerCallback; cache_go. Qed.
#[global] Hint Resolve listenerCallback_cacheok : js_steps.

Lemma runMicrotask_cacheok mt : steps CacheKept (runMicrotask mt).
Proof. unfold runMicrotask; cache_go. Qed.
#[global] Hint Resolve runMicrotask_cacheok : js_steps.

(** Every event keeps the cache sound. *)
Lemma step_CacheOK ev w : CacheOK w -> CacheOK (step ev w).
Proof.
  apply (step_rel_all CacheKept); try (intros; intros H; exact H); auto with js_steps.
Qed.

Lemma reachable_CacheOK d v p now evs : CacheOK (run evs (initialWorld d v p now)).
Proof.
  assert (H : forall w, CacheOK w -> CacheOK (run evs w)).
  { induction evs as [|ev evs IH]; intros w Hw; [exact Hw |].
    cbn [run fold_left]. apply IH, step_CacheOK, Hw. }
  apply H. intros id e Hl. cbn in Hl. rewrite lookup_empty in Hl. discriminate.
Qed.

(* ===================================================================== *)
(** * Further properties: the handlers are the bound methods              *)
(* ===================================================================== *)

#[global] Instance HandlersKept_preorder : PreOrder HandlersKept.
Proof. apply (preserves_preorder HandlersOK). Qed.

Ltac leaf_handlers :=
  unfold HandlersKept, HandlersOK; proj;
  first [ intros H; exact H
        | intros [H1 H2]; split; intros ? Hs;
          first [ exact (H1 _ Hs) | exact (H2 _ Hs)
                | injection Hs as <-; eexists; reflexivity ] ].
Ltac handlers_go := unfold_prims; unfold fresh; repeat rel_step leaf_handlers.

Lemma getElement_handlers id cache : steps HandlersKept (getElement id cache).
Proof. unfold getElement; handlers_go. Qed.
#[global] Hint Resolve getElement_handlers : js_steps.

Lemma makeParticles_handlers n : steps HandlersKept (makeParticles n).
Proof. induction n; cbn [makeParticles]; unfold makeParticle; handlers_go. Qed.
#[global] Hint Resolve makeParticles_handlers : js_steps.

Lemma createParticles_handlers : steps HandlersKept createParticles.
Proof. unfold createParticles; handlers_go. Qed.
#[global] Hint Resolve createParticles_handlers : js_steps.

Lemma initAOS_handlers : steps HandlersKept initAOS.
Proof. unfold initAOS; handlers_go. Qed.
#[global] Hint Resolve initAOS_handlers : js_steps.

Lemma initPerformanceMonitoring_handlers : steps HandlersKept initPerformanceMonitoring.
Proof. unfold initPerformanceMonitoring; handlers_go. Qed.
#[global] Hint Resolve initPerformanceMonitoring_handlers : js_steps.

Lemma initSmoothScrolling_handlers : steps HandlersKept initSmoothScrolling.
Proof. unfold initSmoothScrolling; handlers_go. Qed.
#[global] Hint Resolve initSmoothScrolling_handlers : js_steps.

Lemma initCardEffects_handlers : steps HandlersKept initCardEffects.
Proof. unfold initCardEffects; handlers_go. Qed.
#[global] Hint Resolve initCardEffects_handlers : js_steps.

Lemma initContactForm_handlers : steps HandlersKept initContactForm.
Proof. unfold initContactForm; handlers_go. Qed.
#[global] Hint Resolve initContactForm_handlers : js_steps.

Lemma updateNavbar_handlers : steps HandlersKept updateNavbar.
Proof. unfold updateNavbar; handlers_go. Qed.
#[global] Hint Resolve updateNavbar_handlers : js_steps.

Lemma revealOnScroll_handlers : steps HandlersKept revealOnScroll.
Proof. unfold revealOnScroll; handlers_go. Qed.
#[global] Hint Resolve revealOnScroll_handlers : js_steps.

Lemma initTypingAnimation_handlers : steps HandlersKept initTypingAnimation.
Proof. unfold initTypingAnimation; handlers_go. Qed.
#[global] Hint Resolve initTypingAnimation_handlers : js_steps.

Lemma initSetup_handlers : steps HandlersKept initSetup.
Proof. unfold initSetup; handlers_go. Qed.
#[global] Hint Resolve initSetup_handlers : js_steps.

Lemma init_handlers : steps HandlersKept init.
Proof. unfold init, init_with; handlers_go. Qed.
#[global] Hint Resolve init_handlers : js_steps.

Lemma validateForm_handlers formData : steps HandlersKept (validateForm formData).
Proof. unfold validateForm; handlers_go. Qed.
#[global] Hint Resolve validateForm_handlers : js_steps.

Lemma submitCatch_handlers t e : steps HandlersKept (submitCatch t e).
Proof. unfold submitCatch; handlers_go. Qed.
#[global] Hint Resolve submitCatch_handlers : js_steps.

Lemma submitHandler_handlers : steps HandlersKept submitHandler.
Proof. unfold submitHandler; handlers_go. Qed.
#[global] Hint Resolve submitHandler_handlers : js_steps.

Lemma submitResume_handlers t : steps HandlersKept (submitResume t).
Proof. unfold submitResume; handlers_go. Qed.
#[global] Hint Resolve submitResume_handlers : js_steps.

Lemma submitRevert_handlers t : steps HandlersKept (submitRevert t).
Proof. unfold submitRevert; handlers_go. Qed.
#[global] Hint Resolve submitRevert_handlers : js_steps.

Lemma submitErrorRevert_handlers t : steps HandlersKept (submitErrorRevert t).
Proof. unfold submitErrorRevert; handlers_go. Qed.
#[global] Hint Resolve submitErrorRevert_handlers : js_steps.

Lemma onOrientationChange_handlers : steps HandlersKept onOrientationChange.
Proof. unfold onOrientationChange; handlers_go. Qed.
#[global] Hint Resolve onOrientationChange_handlers : js_steps.

Lemma onVisibilityChange_handlers hidden : steps HandlersKept (onVisibilityChange hidden).
Proof. unfold onVisibilityChange; handlers_go. Qed.
#[global] Hint Resolve onVisibilityChange_handlers : js_steps.

Lemma handleScroll_handlers : steps HandlersKept handleScroll.
Proof. unfold handleScroll; handlers_go. Qed.
#[global] Hint Resolve handleScroll_handlers : js_steps.

Lemma handleResize_handlers : steps HandlersKept handleResize.
Proof. unfold handleResize; handlers_go. Qed.
#[global] Hint Resolve handleResize_handlers : js_steps.

Lemma scrollFrame_handlers : steps HandlersKept scrollFrame.
Proof. unfold scrollFrame; handlers_go. Qed.
#[global] Hint Resolve scrollFrame_handlers : js_steps.

Lemma resizeFrame_handlers : steps HandlersKept resizeFrame.
Proof. unfold resizeFrame; handlers_go. Qed.
#[global] Hint Resolve resizeFrame_handlers : js_steps.

Lemma typeWriterCatch_handlers e : steps HandlersKept (typeWriterCatch e).
Proof. unfold typeWriterCatch; handlers_go. Qed.
#[global] Hint Resolve typeWriterCatch_handlers : js_steps.

Lemma runCycleAfter_handlers a i b : steps HandlersKept (runCycleAfter a i b).
Proof. unfold runCycleAfter; handlers_go. Qed.
#[global] Hint Resolve runCycleAfter_handlers : js_steps.

Lemma typeWriterLoop_handlers element l : steps HandlersKept (typeWriterLoop element l).
Proof. unfold typeWriterLoop; handlers_go. Qed.
#[global] Hint Resolve typeWriterLoop_handlers : js_steps.

Lemma typeWriter_handlers text element speed a i : steps HandlersKept (typeWriter text element speed a i).
Proof. unfold typeWriter; handlers_go. Qed.
#[global] Hint Resolve typeWriter_handlers : js_steps.

Lemma runCycle_handlers a i : steps HandlersKept (runCycle a i).
Proof. unfold runCycle; handlers_go. Qed.
#[global] Hint Resolve runCycle_handlers : js_steps.

Lemma startCallback_handlers a : steps HandlersKept (startCallback a).
Proof. unfold startCallback; handlers_go. Qed.
#[global] Hint Resolve startCallback_handlers : js_steps.

Lemma pauseCallback_handlers a i : steps HandlersKept (pauseCallback a i).
Proof. unfold pauseCallback; handlers_go. Qed.
#[global] Hint Resolve pauseCallback_handlers : js_steps.

Lemma typeWriterResume_handlers l b : steps HandlersKept (typeWriterResume l b).
Proof. unfold typeWriterResume; handlers_go. Qed.
#[global] Hint Resolve typeWriterResume_handlers : js_steps.

Lemma settle_handlers t b : steps HandlersKept (settle t b).
Proof. unfold settle; handlers_go. Qed.
#[global] Hint Resolve settle_handlers : js_steps.

Lemma abortListener_handlers t : steps HandlersKept (abortListener t).
Proof. unfold abortListener; handlers_go. Qed.
#[global] Hint Resolve abortListener_handlers : js_steps.

Lemma runAbortListeners_handlers ls c : steps HandlersKept (runAbortListeners ls c).
Proof.
  induction ls as [|[c' t] ls IH]; cbn [runAbortListeners]; handlers_go.
Qed.
#[global] Hint Resolve runAbortListeners_handlers : js_steps.

Lemma abort_handlers c : steps HandlersKept (abort c).
Proof. unfold abort; handlers_go. Qed.
#[global] Hint Resolve abort_handlers : js_steps.

Lemma destroy_handlers : steps HandlersKept destroy.
Proof. unfold destroy; handlers_go. Qed.
#[global] Hint Resolve destroy_handlers : js_steps.

Lemma timerCallback_handlers id cb : steps HandlersKept (timerCallback id cb).
Proof. destruct cb; cbn [timerCallback]; handlers_go. Qed.
#[global] Hint Resolve timerCallback_handlers : js_steps.

Lemma frameCallback_handlers cb : steps HandlersKept (frameCallback cb).
Proof. destruct cb; cbn [frameCallback]; handlers_go. Qed.
#[global] Hint Resolve frameCallback_handlers : js_steps.

Lemma listenerCallback_handlers l : steps HandlersKept (listenerCallback l).
Proof. unfold listenerCallback; handlers_go. Qed.
#[global] Hint Resolve listenerCallback_handlers : js_steps.

Lemma runMicrotask_handlers mt : steps HandlersKept (runMicrotask mt).
Proof. unfold runMicrotask; handlers_go. Qed.
#[global] Hint Resolve runMicrotask_handlers : js_steps.

Lemma step_HandlersOK ev w : HandlersOK w -> HandlersOK (step ev w).
Proof.
  apply (step_rel_all HandlersKept); try (intros; intros H; exact H); auto with js_steps.
Qed.

Lemma reachable_HandlersOK d v p now evs : HandlersOK (run evs (initialWorld d v p now)).
Proof.
  assert (H : forall w, HandlersOK w -> HandlersOK (run evs w)).
  { induction evs as [|ev evs IH]; intros w Hw; [exact Hw |].
    cbn [run fold_left]. apply IH, step_HandlersOK, Hw. }
  apply H. split; intros hs Hs; discriminate.
Qed.

(* ===================================================================== *)
(** * Further properties: what a scroll does to the page                  *)
(* ===================================================================== *)

Lemma revealAt_idem y h offset f :
  revealAt y h offset (revealAt y h offset f) = revealAt y h offset f.
Proof.
  unfold revealAt. destruct (visible f) eqn:Hv; [rewrite Hv; reflexivity |].
  destruct (Qlt_bool _ _) eqn:Hq; cbn [visible]; [reflexivity |].
  rewrite Hv, Hq. reflexivity.
Qed.

Lemma scrollPass_idem v cfg page : scrollPass v cfg (scrollPass v cfg page) = scrollPass v cfg page.
Proof.
  destruct page as [nav fades]. unfold scrollPass. cbn [fst snd]. f_equal.
  - destruct nav; reflexivity.
  - rewrite map_map. apply map_ext. intros f. apply revealAt_idem.
Qed.

Lemma revealAt_visible y h offset fs :
  Forall (fun f => visible f = true) fs -> map (revealAt y h offset) fs = fs.
Proof.
  induction 1 as [|f fs Hf _ IH]; [reflexivity |]. cbn [map].
  unfold revealAt at 1. rewrite Hf, IH. reflexivity.
Qed.

Lemma revealOnScroll_exec w :
  revealOnScroll w =
  (Normal tt,
   upd_dom (set_fadeIns (map (revealAt (scrollY (win w)) (innerHeight (win w))
                                (Cfg.revealOffset (Cfg.scroll (config (pm w))))))) w).
Proof.
  unfold revealOnScroll. exec.
  destruct (length (filter (fun f => visible f = false) (fadeIns (dom w))) =? 0)%nat
    eqn:Hlen; [| reflexivity].
  f_equal. apply Nat.eqb_eq in Hlen.
  assert (Hall : Forall (fun f => visible f = true) (fadeIns (dom w))).
  { apply Forall_forall. intros f Hf. destruct (visible f) eqn:Hv; [reflexivity |].
    assert (Hin : f ∈ filter (fun f => visible f = false) (fadeIns (dom w)))
      by (apply list_elem_of_filter; auto).
    rewrite (nil_length_inv _ Hlen) in Hin. apply elem_of_nil in Hin as []. }
  pose proof (revealAt_visible (scrollY (win w)) (innerHeight (win w))
                (Cfg.revealOffset (Cfg.scroll (config (pm w)))) _ Hall) as Hmap.
  destruct w as [c dm]. destruct dm. unfold upd_dom, set_fadeIns. cbn in *.
  rewrite Hmap. reflexivity.
Qed.

Lemma updateNavbar_effect w :
  CacheOK w ->
  exists w',
    updateNavbar w = (Normal tt, w') /\
    navbar (dom w') =
      (fun _ => Qlt_bool (Cfg.navbarThreshold (Cfg.scroll (config (pm w)))) (scrollY (win w)))
        <$> navbar (dom w) /\
    fadeIns (dom w') = fadeIns (dom w) /\ ScrollView w' = ScrollView w.
Proof.
  intros HC. unfold updateNavbar, getElement. exec.
  destruct (elementCache (pm w) !! "navbar"%string) as [e|] eqn:E; scbn.
  - apply HC in E. injection E as <-. scbn. eexists. split; [reflexivity |]. auto.
  - destruct (navbar (dom w)) as [b|] eqn:Hn; scbn.
    + eexists. split; [reflexivity |]. scbn. rewrite Hn. auto.
    + eexists. split; [reflexivity |]. scbn. rewrite Hn. auto.
Qed.

Lemma scrollFrame_effect w :
  CacheOK w ->
  exists w',
    scrollFrame w = (Normal tt, w') /\
    scrolled w' = scrollPass (win w) (Cfg.scroll (config (pm w))) (scrolled w) /\
    ScrollView w' = ScrollView w /\ scrollTicking (pm w') = false.
Proof.
  intros HC. destruct (updateNavbar_effect w HC) as (w1 & E1 & Hn & Hf & Hv).
  unfold scrollFrame. rewrite (bind_exec _ _ _ _ _ E1).
  rewrite (bind_exec _ _ _ _ _ (revealOnScroll_exec w1)). exec.
  eexists. split; [reflexivity |]. unfold scrolled, scrollPass, ScrollView in *. scbn.
  injection Hv as Hwin Hcfg Hm Hd. rewrite Hn, Hf, Hwin, Hcfg, Hm, Hd. auto.
Qed.

#[global] Instance FrameKept_preorder : PreOrder FrameKept.
Proof.
  split; [intros w; split; reflexivity |].
  intros a b c [H1 H2] [H3 H4]. split; congruence.
Qed.

Ltac leaf_frame := split; reflexivity.
Ltac frame_go := unfold_prims; unfold fresh; repeat rel_step leaf_frame.

Lemma makeParticles_frame n : steps FrameKept (makeParticles n).
Proof. induction n; cbn [makeParticles]; unfold makeParticle; frame_go. Qed.
#[global] Hint Resolve makeParticles_frame : js_steps.

Lemma resizeFrame_frame : steps FrameKept resizeFrame.
Proof. unfold resizeFrame, createParticles, getElement; frame_go. Qed.

(** The frame callbacks, one after the other. *)
Lemma frames_scroll fs : forall w,
  microtasks w = [] -> CacheOK w ->
  let w' := fold_left (fun w' cb => invoke (frameCallback cb) w') fs w in
  ScrollView w' = ScrollView w /\
  scrolled w' =
    Nat.iter (length (filter (fun cb => cb = FScroll) fs))
      (scrollPass (win w) (Cfg.scroll (config (pm w)))) (scrolled w).
Proof.
  induction fs as [|cb fs IH]; intros w Hm HC; cbn [fold_left]; [split; reflexivity |].
  assert (Hstep : exists w1,
            frameCallback cb w = (Normal tt, w1) /\ ScrollView w1 = ScrollView w /\
            scrolled w1 = (if decide (cb = FScroll)
                           then scrollPass (win w) (Cfg.scroll (config (pm w))) (scrolled w)
                           else scrolled w)).
  { destruct cb; cbn [frameCallback].
    - destruct (scrollFrame_effect w HC) as (w1 & E & Hs & Hv & _).
      exists w1. rewrite decide_True by reflexivity. auto.
    - destruct (run_of resizeFrame w resizeFrame_nothrow) as [[] E].
      destruct (resizeFrame_frame w) as [Hs Hv].
      exists (post resizeFrame w). rewrite decide_False by discriminate. auto. }
  destruct Hstep as (w1 & E & Hv & Hs).
  assert (HC1 : CacheOK w1).
  { pose proof (frameCallback_cacheok cb w HC) as H. rewrite E in H. exact H. }
  assert (Hm1 : microtasks w1 = []).
  { unfold ScrollView in Hv. injection Hv as _ _ Hq _. congruence. }
  rewrite (invoke_exact _ _ _ E Hm1).
  destruct (IH w1 Hm1 HC1) as [Hv' Hs']. cbv zeta in Hv', Hs'.
  split; [congruence |]. rewrite Hs', Hs.
  assert (Hwin : win w1 = win w /\ config (pm w1) = config (pm w)).
  { unfold ScrollView in Hv. injection Hv as -> -> _ _. auto. }
  destruct Hwin as [-> ->].
  destruct (decide (cb = FScroll)) as [-> | Hne].
  - rewrite filter_cons_True by reflexivity. cbn [length]. rewrite Nat.iter_succ_r.
    reflexivity.
  - rewrite filter_cons_False by exact Hne. reflexivity.
Qed.

(** The listeners of a scroll event, one after the other. *)
Lemma dispatch_scroll ls : forall w,
  microtasks w = [] ->
  let w' := fold_left (fun w' l => invoke (listenerCallback l) w') ls w in
  dom w' = dom w /\ ScrollView w' = ScrollView w /\
  (scrollTicking (pm w) = true -> scrollTicking (pm w') = true) /\
  (isDestroyed (pm w) = false ->
   Exists (fun l => exists n, l_callback l = BoundHandleScroll n) ls ->
   scrollTicking (pm w') = true).
Proof.
  induction ls as [|l ls IH]; intros w Hm; cbn [fold_left].
  { split; [reflexivity |]. split; [reflexivity |]. split; [auto |].
    intros _ H. apply Exists_nil in H as []. }
  assert (Hstep : exists w1,
            listenerCallback l w = (Normal tt, w1) /\ dom w1 = dom w /\
            ScrollView w1 = ScrollView w /\
            (scrollTicking (pm w) = true -> scrollTicking (pm w1) = true) /\
            (isDestroyed (pm w) = false ->
             (exists n, l_callback l = BoundHandleScroll n) ->
             scrollTicking (pm w1) = true)).
  { unfold listenerCallback. destruct (l_callback l) as [n|n|n].
    - rewrite handleScroll_exec. eexists. split; [reflexivity |].
      destruct (scrollTicking (pm w)) eqn:Ht; cbn [orb].
      + repeat split; auto.
      + destruct (isDestroyed (pm w)) eqn:Hd; repeat split; auto; discriminate.
    - rewrite handleResize_exec. eexists. split; [reflexivity |].
      destruct (resizeTicking (pm w)); repeat split; auto;
        intros _ [n' Hn']; discriminate.
    - exists w. split; [reflexivity |]. repeat split; auto.
      intros _ [n' Hn']; discriminate. }
  destruct Hstep as (w1 & E & Hdom & Hv & Hmono & Hset).
  assert (Hm1 : microtasks w1 = []).
  { unfold ScrollView in Hv. injection Hv as _ _ Hq _. congruence. }
  rewrite (invoke_exact _ _ _ E Hm1).
  destruct (IH w1 Hm1) as (Hdom' & Hv' & Hmono' & Hset'). cbv zeta in *.
  split; [congruence |]. split; [congruence |]. split; [auto |].
  intros Hd Hex. apply Exists_cons in Hex as [Hl | Hls].
  - apply Hmono', Hset; assumption.
  - apply Hset'; [| exact Hls].
    unfold ScrollView in Hv. injection Hv as _ _ _ Hd1. congruence.
Qed.

(** X12: a scroll to position [y] on an initialized, live page, and the
    next animation frame.  The navbar, if the page has one, carries class
    [scrolled] exactly if [y] is beyond the navbar threshold; every fade-in
    element that was visible stays so, and every other one becomes visible
    exactly if its distance from the top of the window is less than the
    window height minus the reveal offset; the ticking flag is reset. *)
Theorem scroll_updates_page d v p now evs y :
  pristine v ->
  let w := run evs (initialWorld d v p now) in
  isInitialized (pm w) = true -> isDestroyed (pm w) = false ->
  let w' := step EvFrame (step (EvScroll y) w) in
  let cfg := Cfg.scroll (config (pm w)) in
  navbar (dom w') = (fun _ => Qlt_bool (Cfg.navbarThreshold cfg) y) <$> navbar (dom w) /\
  fadeIns (dom w') =
    map (revealAt y (innerHeight (win w)) (Cfg.revealOffset cfg)) (fadeIns (dom w)) /\
  scrollTicking (pm w') = false.
Proof.
  intros Hv w Hi Hd w' cfg.
  assert (HG : Good w) by (apply reachable_Good, Hv).
  assert (HC : CacheOK w) by apply reachable_CacheOK.
  assert (HH : HandlersOK w) by apply reachable_HandlersOK.
  pose proof (Good_microtasks w HG) as Hm.
  set (w1 := step (EvScroll y) w) in *.
  assert (HG1 : Good w1) by (apply step_Good, HG).
  assert (HC1 : CacheOK w1) by (apply step_CacheOK, HC).
  (* the listeners *)
  assert (Hex : Exists (fun l => exists n, l_callback l = BoundHandleScroll n)
                  (scrollListeners (win w))).
  { destruct HG as (_ & _ & _ & HL). unfold ListenersOK in HL. rewrite Hi in HL.
    destruct HL as (hs & hr & Hh & _ & _ & Hs & _).
    destruct (proj1 HH hs) as [n ->]; [rewrite Hh; reflexivity |].
    apply Exists_exists. exists (passiveListener (BoundHandleScroll n)).
    split; [| exists n; reflexivity].
    assert (Hin : passiveListener (BoundHandleScroll n) ∈
                  controllerListeners (scrollListeners (win w))) by (rewrite Hs; left).
    apply list_elem_of_filter in Hin as [_ Hin]. exact Hin. }
  set (w0 := upd_win (fun v0 => mkWindow (innerWidth v0) (innerHeight v0)
                                   (devicePixelRatio v0) y (scrollListeners v0)
                                   (resizeListeners v0)) w).
  destruct (dispatch_scroll (scrollListeners (win w)) w0 Hm)
    as (Hdom & Hview & _ & Htick).
  change (fold_left _ (scrollListeners (win w)) w0) with w1 in Hdom, Hview, Htick.
  specialize (Htick Hd Hex).
  (* the frame *)
  destruct HG1 as (HWF1 & [Hm1 _] & HT1 & _).
  destruct (frame_event_spec w1 HWF1 Hm1 HT1) as (_ & _ & _ & Hreset).
  split; [| split; [| exact Hreset]].
  all: destruct (frames_scroll (frames w1) (upd_frames (fun _ => []) w1) Hm1 HC1)
         as [_ Hs]; cbv zeta in Hs;
       change (fold_left _ (frames w1) (upd_frames (fun _ => []) w1)) with w' in Hs;
       unfold TickOK, scrollFrames in HT1; rewrite Htick in HT1; rewrite HT1 in Hs;
       cbn [Nat.iter] in Hs;
       change (win (upd_frames (fun _ => []) w1)) with (win w1) in Hs;
       change (config (pm (upd_frames (fun _ => []) w1))) with (config (pm w1)) in Hs;
       change (scrolled (upd_frames (fun _ => []) w1)) with (scrolled w1) in Hs;
       unfold ScrollView in Hview; injection Hview as Hwin Hcfg _ _;
       rewrite Hwin, Hcfg in Hs; unfold scrolled, scrollPass in Hs; rewrite Hdom in Hs;
       cbn [fst snd] in Hs; injection Hs as Hnav Hfade.
  - exact Hnav.
  - exact Hfade.
Qed.

Lemma scroll_updates_page_witness :
  let w' := step EvFrame (step (EvScroll 100) (run [EvInit] demoWorld)) in
  navbar (dom w') = Some true /\
  fadeIns (dom w') = [ {| offsetTop := 100; visible := true |} ].
Proof.
  assert (Hp : pristine demoWindow) by (split; reflexivity).
  destruct (scroll_updates_page demoDom demoWindow demoPlatform 1000 [EvInit] 100 Hp
              eq_refl eq_refl) as (H1 & H2 & _).
  fold demoWorld in H1, H2. cbv zeta. split; [exact H1 | exact H2].
Defined.

(* ===================================================================== *)
(** * Further properties: a revealed element stays revealed               *)
(* ===================================================================== *)

#[global] Instance Revealed_preorder : PreOrder Revealed.
Proof.
  split.
  - intros w. unfold Revealed. induction (fadeIns (dom w)); constructor; auto.
  - intros a b c. unfold Revealed.
    generalize (fadeIns (dom a)) (fadeIns (dom b)) (fadeIns (dom c)).
    intros la lb lc H1. revert lc. induction H1 as [|x y la lb [Hx1 Hx2] _ IH];
      intros lc H2; inversion H2 as [|? z ? lc' [Hy1 Hy2] H2']; subst; constructor.
    + split; [congruence | auto].
    + apply IH, H2'.
Qed.

Lemma Revealed_same w w' : fadeIns (dom w') = fadeIns (dom w) -> Revealed w w'.
Proof.
  intros H. unfold Revealed. rewrite H. clear H.
  induction (fadeIns (dom w)); constructor; auto.
Qed.

Ltac leaf_revealed := apply Revealed_same; reflexivity.
Ltac revealed_go := unfold_prims; unfold fresh; repeat rel_step leaf_revealed.

Lemma getElement_revealed id cache : steps Revealed (getElement id cache).
Proof. unfold getElement; revealed_go. Qed.
#[global] Hint Resolve getElement_revealed : js_steps.

Lemma makeParticles_revealed n : steps Revealed (makeParticles n).
Proof. induction n; cbn [makeParticles]; unfold makeParticle; revealed_go. Qed.
#[global] Hint Resolve makeParticles_revealed : js_steps.

Lemma createParticles_revealed : steps Revealed createParticles.
Proof. unfold createParticles; revealed_go. Qed.
#[global] Hint Resolve createParticles_revealed : js_steps.

Lemma initAOS_revealed : steps Revealed initAOS.
Proof. unfold initAOS; revealed_go. Qed.
#[global] Hint Resolve initAOS_revealed : js_steps.

Lemma initPerformanceMonitoring_revealed : steps Revealed initPerformanceMonitoring.
Proof. unfold initPerformanceMonitoring; revealed_go. Qed.
#[global] Hint Resolve initPerformanceMonitoring_revealed : js_steps.

Lemma initSmoothScrolling_revealed : steps Revealed initSmoothScrolling.
Proof. unfold initSmoothScrolling; revealed_go. Qed.
#[global] Hint Resolve initSmoothScrolling_revealed : js_steps.

Lemma initCardEffects_revealed : steps Revealed initCardEffects.
Proof. unfold initCardEffects; revealed_go. Qed.
#[global] Hint Resolve initCardEffects_revealed : js_steps.

Lemma initContactForm_revealed : steps Revealed initContactForm.
Proof. unfold initContactForm; revealed_go. Qed.
#[global] Hint Resolve initContactForm_revealed : js_steps.

Lemma updateNavbar_revealed : steps Revealed updateNavbar.
Proof. unfold updateNavbar; revealed_go. Qed.
#[global] Hint Resolve updateNavbar_revealed : js_steps.

Lemma revealOnScroll_revealed : steps Revealed revealOnScroll.
Proof.
  intros w. rewrite revealOnScroll_exec. unfold Revealed. cbn.
  induction (fadeIns (dom w)) as [|f fs IH]; constructor; [| exact IH].
  unfold revealAt. destruct (visible f) eqn:Hv; [auto |].
  destruct (Qlt_bool _ _); cbn; split; congruence.
Qed.
#[global] Hint Resolve revealOnScroll_revealed : js_steps.

Lemma initTypingAnimation_revealed : steps Revealed initTypingAnimation.
Proof. unfold initTypingAnimation; revealed_go. Qed.
#[global] Hint Resolve initTypingAnimation_revealed : js_steps.

Lemma initSetup_revealed : steps Revealed initSetup.
Proof. unfold initSetup; revealed_go. Qed.
#[global] Hint Resolve initSetup_revealed : js_steps.

Lemma init_revealed : steps Revealed init.
Proof. unfold init, init_with; revealed_go. Qed.
#[global] Hint Resolve init_revealed : js_steps.

Lemma validateForm_revealed formData : steps Revealed (validateForm formData).
Proof. unfold validateForm; revealed_go. Qed.
#[global] Hint Resolve validateForm_revealed : js_steps.

Lemma submitCatch_revealed t e : steps Revealed (submitCatch t e).
Proof. unfold submitCatch; revealed_go. Qed.
#[global] Hint Resolve submitCatch_revealed : js_steps.

Lemma submitHandler_revealed : steps Revealed submitHandler.
Proof. unfold submitHandler; revealed_go. Qed.
#[global] Hint Resolve submitHandler_revealed : js_steps.

Lemma submitResume_revealed t : steps Revealed (submitResume t).
Proof. unfold submitResume; revealed_go. Qed.
#[global] Hint Resolve submitResume_revealed : js_steps.

Lemma submitRevert_revealed t : steps Revealed (submitRevert t).
Proof. unfold submitRevert; revealed_go. Qed.
#[global] Hint Resolve submitRevert_revealed : js_steps.

Lemma submitErrorRevert_revealed t : steps Revealed (submitErrorRevert t).
Proof. unfold submitErrorRevert; revealed_go. Qed.
#[global] Hint Resolve submitErrorRevert_revealed : js_steps.

Lemma onOrientationChange_revealed : steps Revealed onOrientationChange.
Proof. unfold onOrientationChange; revealed_go. Qed.
#[global] Hint Resolve onOrientationChange_revealed : js_steps.

Lemma onVisibilityChange_revealed hidden : steps Revealed (onVisibilityChange hidden).
Proof. unfold onVisibilityChange; revealed_go. Qed.
#[global] Hint Resolve onVisibilityChange_revealed : js_steps.

Lemma handleScroll_revealed : steps Revealed handleScroll.
Proof. unfold handleScroll; revealed_go. Qed.
#[global] Hint Resolve handleScroll_revealed : js_steps.

Lemma handleResize_revealed : steps Revealed handleResize.
Proof. unfold handleResize; revealed_go. Qed.
#[global] Hint Resolve handleResize_revealed : js_steps.

Lemma scrollFrame_revealed : steps Revealed scrollFrame.
Proof. unfold scrollFrame; revealed_go. Qed.
#[global] Hint Resolve scrollFrame_revealed : js_steps.

Lemma resizeFrame_revealed : steps Revealed resizeFrame.
Proof. unfold resizeFrame; revealed_go. Qed.
#[global] Hint Resolve resizeFrame_revealed : js_steps.

Lemma typeWriterCatch_revealed e : steps Revealed (typeWriterCatch e).
Proof. unfold typeWriterCatch; revealed_go. Qed.
#[global] Hint Resolve typeWriterCatch_revealed : js_steps.

Lemma runCycleAfter_revealed a i b : steps Revealed (runCycleAfter a i b).
Proof. unfold runCycleAfter; revealed_go. Qed.
#[global] Hint Resolve runCycleAfter_revealed : js_steps.

Lemma typeWriterLoop_revealed element l : steps Revealed (typeWriterLoop element l).
Proof. unfold typeWriterLoop; revealed_go. Qed.
#[global] Hint Resolve typeWriterLoop_revealed : js_steps.

Lemma typeWriter_revealed text element speed a i : steps Revealed (typeWriter text element speed a i).
Proof. unfold typeWriter; revealed_go. Qed.
#[global] Hint Resolve typeWriter_revealed : js_steps.

Lemma runCycle_revealed a i : steps Revealed (runCycle a i).
Proof. unfold runCycle; revealed_go. Qed.
#[global] Hint Resolve runCycle_revealed : js_steps.

Lemma startCallback_revealed a : steps Revealed (startCallback a).
Proof. unfold startCallback; revealed_go. Qed.
#[global] Hint Resolve startCallback_revealed : js_steps.

Lemma pauseCallback_revealed a i : steps Revealed (pauseCallback a i).
Proof. unfold pauseCallback; revealed_go. Qed.
#[global] Hint Resolve pauseCallback_revealed : js_steps.

Lemma typeWriterResume_revealed l b : steps Revealed (typeWriterResume l b).
Proof. unfold typeWriterResume; revealed_go. Qed.
#[global] Hint Resolve typeWriterResume_revealed : js_steps.

Lemma settle_revealed t b : steps Revealed (settle t b).
Proof. unfold settle; revealed_go. Qed.
#[global] Hint Resolve settle_revealed : js_steps.

Lemma abortListener_revealed t : steps Revealed (abortListener t).
Proof. unfold abortListener; revealed_go. Qed.
#[global] Hint Resolve abortListener_revealed : js_steps.

Lemma runAbortListeners_revealed ls c : steps Revealed (runAbortListeners ls c).
Proof.
  induction ls as [|[c' t] ls IH]; cbn [runAbortListeners]; revealed_go.
Qed.
#[global] Hint Resolve runAbortListeners_revealed : js_steps.

Lemma abort_revealed c : steps Revealed (abort c).
Proof. unfold abort; revealed_go. Qed.
#[global] Hint Resolve abort_revealed : js_steps.

Lemma destroy_revealed : steps Revealed destroy.
Proof. unfold destroy; revealed_go. Qed.
#[global] Hint Resolve destroy_revealed : js_steps.

Lemma timerCallback_revealed id cb : steps Revealed (timerCallback id cb).
Proof. destruct cb; cbn [timerCallback]; revealed_go. Qed.
#[global] Hint Resolve timerCallback_revealed : js_steps.

Lemma frameCallback_revealed cb : steps Revealed (frameCallback cb).
Proof. destruct cb; cbn [frameCallback]; revealed_go. Qed.
#[global] Hint Resolve frameCallback_revealed : js_steps.

Lemma listenerCallback_revealed l : steps Revealed (listenerCallback l).
Proof. unfold listenerCallback; revealed_go. Qed.
#[global] Hint Resolve listenerCallback_revealed : js_steps.

Lemma runMicrotask_revealed mt : steps Revealed (runMicrotask mt).
Proof. unfold runMicrotask; revealed_go. Qed.
#[global] Hint Resolve runMicrotask_revealed : js_steps.
(** X13: along any history, from any world, the fade-in elements stay
    the same elements at the same offsets, and one that is visible stays
    visible: nothing hides an element again. *)
Theorem reveals_never_undone evs w :
  Forall2 (fun f f' => offsetTop f' = offsetTop f /\
                       (visible f = true -> visible f' = true))
    (fadeIns (dom w)) (fadeIns (dom (run evs w))).
Proof.
  apply (run_rel Revealed); try (intros; apply Revealed_same; reflexivity);
    auto with js_steps.
Qed.

(* ===================================================================== *)
(** * Further properties: a resize rebuilds the particles                 *)
(* ===================================================================== *)

Lemma createParticles_batch w ps :
  WF w -> bgAnimation (dom w) = Some ps ->
  exists fragment w',
    createParticles w = (Normal tt, w') /\
    bgAnimation (dom w') = Some (ps ++ fragment) /\ Batch w fragment /\
    particleContainer (pm w') = Some ElBgAnimation /\ WF w' /\
    ResizeView w' = ResizeView w /\ resizeTicking (pm w') = resizeTicking (pm w).
Proof.
  intros [Hcache Hpc] Hd. unfold createParticles, getElement. exec.
  destruct Hcache as [Hc | Hc]; rewrite Hc; scbn; rewrite ?Hd; scbn.
  all: match goal with |- context [makeParticles ?n ?w1] =>
         destruct (makeParticles_exec n w1) as (fragment & Hlen & E);
         pose proof (fun Hr => makeParticles_inRange n w1 fragment _ Hr E) as Hin
       end.
  all: rewrite E; scbn; exists fragment; eexists; split; [reflexivity |].
  all: scbn; rewrite ?Hd; split; [reflexivity |]; split; [split; [exact Hlen | exact Hin] |].
  all: split; [reflexivity |]; split; [| split; reflexivity].
  all: split; scbn; rewrite ?lookup_insert_eq; auto.
Qed.

#[local] Opaque createParticles.

Lemma resizeFrame_batch w ps :
  WF w -> particleContainer (pm w) = Some ElBgAnimation ->
  bgAnimation (dom w) = Some ps ->
  exists fragment w',
    resizeFrame w = (Normal tt, w') /\
    bgAnimation (dom w') = Some fragment /\ Batch w fragment /\
    particleContainer (pm w') = Some ElBgAnimation /\ WF w' /\
    ResizeView w' = ResizeView w /\ resizeTicking (pm w') = false.
Proof.
  intros HWF Hpc Hd. unfold resizeFrame. exec. rewrite Hpc. scbn.
  match goal with |- context [createParticles ?x] => set (w0 := x) end.
  assert (HWF0 : WF w0) by exact HWF.
  assert (Hd0 : bgAnimation (dom w0) = Some []) by (unfold w0; cbn; rewrite Hd; reflexivity).
  destruct (createParticles_batch w0 [] HWF0 Hd0)
    as (fragment & w1 & E & Hb & HB & Hp1 & HWF1 & Hv & Ht).
  rewrite E. scbn. exists fragment. eexists. split; [reflexivity |].
  scbn. split; [exact Hb |]. split; [exact HB |]. split; [exact Hp1 |].
  split; [exact HWF1 |]. split; [exact Hv | reflexivity].
Qed.

#[local] Transparent createParticles.

#[global] Instance BgKept_preorder : PreOrder BgKept.
Proof.
  split; [intros w; repeat split |].
  intros a b c (H1 & H2 & H3 & H4 & H5) (H6 & H7 & H8 & H9 & H10).
  repeat split; congruence.
Qed.

Ltac leaf_bg :=
  repeat split; unfold wview; proj; rewrite ?lookup_insert_ne by done; reflexivity.

Lemma scrollFrame_bg : steps BgKept scrollFrame.
Proof.
  unfold scrollFrame, updateNavbar, revealOnScroll, getElement.
  unfold_prims. repeat rel_step leaf_bg.
Qed.

Lemma Batch_view w w' fragment : ResizeView w' = ResizeView w -> Batch w' fragment -> Batch w fragment.
Proof.
  unfold ResizeView, Batch. intros H. injection H as -> -> -> _. auto.
Qed.

(** The frame callbacks, one after the other: the last resize frame
    decides the particles. *)
Lemma frames_resize fs : forall w ps,
  WF w -> CacheOK w -> microtasks w = [] ->
  particleContainer (pm w) = Some ElBgAnimation -> bgAnimation (dom w) = Some ps ->
  let w' := fold_left (fun w' cb => invoke (frameCallback cb) w') fs w in
  (FResize ∈ fs ->
   exists fragment, bgAnimation (dom w') = Some fragment /\ Batch w fragment /\
                    resizeTicking (pm w') = false) /\
  (FResize ∉ fs ->
   bgAnimation (dom w') = bgAnimation (dom w) /\
   resizeTicking (pm w') = resizeTicking (pm w)).
Proof.
  induction fs as [|cb fs IH]; intros w ps HWF HC Hm Hpc Hd; cbn [fold_left].
  { split; [intros H; apply elem_of_nil in H as [] | auto]. }
  assert (Hstep : exists w1 ps1,
            frameCallback cb w = (Normal tt, w1) /\ WF w1 /\
            particleContainer (pm w1) = Some ElBgAnimation /\
            bgAnimation (dom w1) = Some ps1 /\ ResizeView w1 = ResizeView w /\
            (cb = FResize -> Batch w ps1 /\ resizeTicking (pm w1) = false) /\
            (cb = FScroll -> bgAnimation (dom w1) = bgAnimation (dom w) /\
                             resizeTicking (pm w1) = resizeTicking (pm w))).
  { destruct cb; cbn [frameCallback].
    - destruct (scrollFrame_effect w HC) as (w1 & E & _ & Hv & _).
      pose proof (scrollFrame_bg w) as (Hb & Hp & Hpl & Ht & Hw). rewrite E in *.
      cbn [snd] in *. exists w1, ps. split; [reflexivity |].
      split; [apply (wview_WF _ _ Hw HWF) |]. split; [congruence |].
      split; [congruence |]. split.
      + unfold ScrollView in Hv. injection Hv as Hwin Hcfg Hq _.
        unfold ResizeView. congruence.
      + split; [discriminate | auto].
    - destruct (resizeFrame_batch w ps HWF Hpc Hd)
        as (fragment & w1 & E & Hb & HB & Hp1 & HWF1 & Hv & Ht).
      exists w1, fragment. split; [exact E |]. split; [exact HWF1 |].
      split; [exact Hp1 |]. split; [exact Hb |]. split; [exact Hv |].
      split; [auto | discriminate]. }
  destruct Hstep as (w1 & ps1 & E & HWF1 & Hp1 & Hd1 & Hv & Hres & Hscr).
  assert (HC1 : CacheOK w1).
  { pose proof (frameCallback_cacheok cb w HC) as H. rewrite E in H. exact H. }
  assert (Hm1 : microtasks w1 = []).
  { unfold ResizeView in Hv. injection Hv as _ _ _ Hq. congruence. }
  rewrite (invoke_exact _ _ _ E Hm1).
  destruct (IH w1 ps1 HWF1 HC1 Hm1 Hp1 Hd1) as [Hin Hout]. cbv zeta in Hin, Hout.
  split.
  - intros Hmem. destruct (decide (FResize ∈ fs)) as [Hfs | Hfs].
    + destruct (Hin Hfs) as (fragment & Hb & HB & Ht).
      exists fragment. split; [exact Hb |]. split; [| exact Ht].
      apply (Batch_view w w1); assumption.
    + apply elem_of_cons in Hmem as [Hcb | Hmem]; [| contradiction].
      destruct (Hout Hfs) as [Hb Ht]. destruct (Hres (eq_sym Hcb)) as [HB Ht1].
      exists ps1. split; [congruence |]. split; [exact HB | congruence].
  - intros Hmem. apply not_elem_of_cons in Hmem as [Hcb Hfs].
    destruct (Hout Hfs) as [Hb Ht].
    assert (Hcb' : cb = FScroll) by (destruct cb; congruence).
    destruct (Hscr Hcb') as [Hb1 Ht1]. split; congruence.
Qed.

(** The listeners of a resize event, one after the other. *)
Lemma dispatch_resize ls : forall w,
  microtasks w = [] ->
  (resizeTicking (pm w) = true -> FResize ∈ frames w) ->
  let w' := fold_left (fun w' l => invoke (listenerCallback l) w') ls w in
  dom w' = dom w /\ ResizeView w' = ResizeView w /\
  particleContainer (pm w') = particleContainer (pm w) /\
  (FResize ∈ frames w -> FResize ∈ frames w') /\
  (Exists (fun l => exists n, l_callback l = BoundHandleResize n) ls ->
   FResize ∈ frames w').
Proof.
  induction ls as [|l ls IH]; intros w Hm Hrt; cbn [fold_left].
  { repeat split; auto. intros H. apply Exists_nil in H as []. }
  assert (Hstep : exists w1,
            listenerCallback l w = (Normal tt, w1) /\ dom w1 = dom w /\
            ResizeView w1 = ResizeView w /\
            particleContainer (pm w1) = particleContainer (pm w) /\
            (resizeTicking (pm w1) = true -> FResize ∈ frames w1) /\
            (FResize ∈ frames w -> FResize ∈ frames w1) /\
            ((exists n, l_callback l = BoundHandleResize n) -> FResize ∈ frames w1)).
  { unfold listenerCallback. destruct (l_callback l) as [n|n|n].
    - rewrite handleScroll_exec. eexists. split; [reflexivity |].
      destruct (scrollTicking (pm w) || isDestroyed (pm w)); cbn;
        repeat split; auto;
        try (intros [n' Hn']; discriminate);
        intros H; apply elem_of_app; left; auto.
    - rewrite handleResize_exec. eexists. split; [reflexivity |].
      destruct (resizeTicking (pm w)) eqn:Ht; cbn; repeat split; auto;
        intros H; apply elem_of_app; first [left; exact H | right; left].
    - exists w. split; [reflexivity |]. repeat split; auto.
      intros [n' Hn']; discriminate. }
  destruct Hstep as (w1 & E & Hdom & Hv & Hpc & Hrt1 & Hkeep & Hadd).
  assert (Hm1 : microtasks w1 = []).
  { unfold ResizeView in Hv. injection Hv as _ _ _ Hq. congruence. }
  rewrite (invoke_exact _ _ _ E Hm1).
  destruct (IH w1 Hm1 Hrt1) as (Hdom' & Hv' & Hpc' & Hkeep' & Hadd'). cbv zeta in *.
  split; [congruence |]. split; [congruence |]. split; [congruence |].
  split; [auto |].
  intros Hex. apply Exists_cons in Hex as [Hl | Hls]; auto.
Qed.

Lemma frame_rebuilds w ps :
  Good w -> CacheOK w -> particleContainer (pm w) = Some ElBgAnimation ->
  bgAnimation (dom w) = Some ps -> FResize ∈ frames w ->
  exists fragment,
    bgAnimation (dom (step EvFrame w)) = Some fragment /\ Batch w fragment /\
    resizeTicking (pm (step EvFrame w)) = false.
Proof.
  intros (HWF & [Hm _] & _) HC Hpc Hd Hin. cbn [step].
  destruct (frames_resize (frames w) (upd_frames (fun _ => []) w) ps HWF HC Hm Hpc Hd)
    as [Hres _].
  exact (Hres Hin).
Qed.

(** X14: the window is resized while the controller is initialized, its
    particle container is set and no resize pass is pending, and the next
    animation frame runs.  The container then holds one new batch of
    particles, not the old ones: as many as the count for the new width and
    pixel ratio, each with its four values in their ranges, ends included,
    if the random source stays in [0, 1); the ticking flag is reset. *)
Theorem resize_rebuilds_particles d v p now evs ps width height dpr :
  pristine v ->
  let w := run evs (initialWorld d v p now) in
  isInitialized (pm w) = true ->
  particleContainer (pm w) = Some ElBgAnimation -> bgAnimation (dom w) = Some ps ->
  resizeTicking (pm w) = false ->
  let w' := step EvFrame (step (EvResize width height dpr) w) in
  exists fragment,
    bgAnimation (dom w') = Some fragment /\
    length fragment =
      iterations (particleCount (Cfg.particles (config (pm w))) width dpr) /\
    ((forall k, 0 <= random (platform w) k < 1)%Q -> Forall inRange fragment) /\
    resizeTicking (pm w') = false.
Proof.
  intros Hv w Hi Hpc Hd Ht w'.
  assert (HG : Good w) by (apply reachable_Good, Hv).
  assert (HC : CacheOK w) by apply reachable_CacheOK.
  assert (HH : HandlersOK w) by apply reachable_HandlersOK.
  pose proof (Good_microtasks w HG) as Hm.
  set (w1 := step (EvResize width height dpr) w) in *.
  assert (HG1 : Good w1) by (apply step_Good, HG).
  assert (HC1 : CacheOK w1) by (apply step_CacheOK, HC).
  assert (Hex : Exists (fun l => exists n, l_callback l = BoundHandleResize n)
                  (resizeListeners (win w))).
  { destruct HG as (_ & _ & _ & HL). unfold ListenersOK in HL. rewrite Hi in HL.
    destruct HL as (hs & hr & Hh & _ & _ & _ & Hr).
    destruct (proj2 HH hr) as [n ->]; [rewrite Hh; reflexivity |].
    apply Exists_exists. exists (passiveListener (BoundHandleResize n)).
    split; [| exists n; reflexivity].
    assert (Hin : passiveListener (BoundHandleResize n) ∈
                  controllerListeners (resizeListeners (win w))) by (rewrite Hr; left).
    apply list_elem_of_filter in Hin as [_ Hin]. exact Hin. }
  set (w0 := upd_win (fun v0 => mkWindow width height dpr (scrollY v0)
                                   (scrollListeners v0) (resizeListeners v0)) w).
  assert (Hrt : resizeTicking (pm w0) = true -> FResize ∈ frames w0)
    by (intros H; change (resizeTicking (pm w) = true) in H; congruence).
  destruct (dispatch_resize (resizeListeners (win w)) w0 Hm Hrt)
    as (Hdom & Hview & Hpc1 & _ & Hadd).
  change (fold_left _ (resizeListeners (win w)) w0) with w1 in Hdom, Hview, Hpc1, Hadd.
  specialize (Hadd Hex).
  assert (Hd1 : bgAnimation (dom w1) = Some ps) by (rewrite Hdom; exact Hd).
  assert (Hp1 : particleContainer (pm w1) = Some ElBgAnimation)
    by (rewrite Hpc1; exact Hpc).
  destruct (frame_rebuilds w1 ps HG1 HC1 Hp1 Hd1 Hadd) as (fragment & Hb & [Hlen Hin] & Ht').
  exists fragment. split; [exact Hb |].
  unfold ResizeView in Hview. injection Hview as Hwin Hcfg Hpl _.
  rewrite Hwin, Hcfg in Hlen. rewrite Hpl in Hin.
  split; [exact Hlen |]. split; [exact Hin | exact Ht'].
Qed.

(** X15: the device is turned while the particle container is set and no
    resize pass is pending; the 100 ms timer of the listener fires and the
    next animation frame runs.  The container then holds one new batch of
    particles for the window as it is, each with its four values in their
    ranges, ends included, if the random source stays in [0, 1), and the
    ticking flag is reset.  Neither the listener nor [handleResize] asks whether the controller is
    initialized or destroyed. *)
Theorem orientation_rebuilds_particles d v p now evs ps :
  pristine v ->
  let w := run evs (initialWorld d v p now) in
  particleContainer (pm w) = Some ElBgAnimation -> bgAnimation (dom w) = Some ps ->
  resizeTicking (pm w) = false ->
  let w' := step EvFrame (step (EvTimer (nextId w)) (step EvOrientation w)) in
  exists fragment,
    bgAnimation (dom w') = Some fragment /\
    length fragment =
      iterations (particleCount (Cfg.particles (config (pm w)))
                    (innerWidth (win w)) (devicePixelRatio (win w))) /\
    ((forall k, 0 <= random (platform w) k < 1)%Q -> Forall inRange fragment) /\
    resizeTicking (pm w') = false.
Proof.
  intros Hv w Hpc Hd Ht w'.
  assert (HG : Good w) by (apply reachable_Good, Hv).
  assert (HC : CacheOK w) by apply reachable_CacheOK.
  assert (HT : Timed w) by (apply reachable_Timed, Hv).
  pose proof (Good_microtasks w HG) as Hm.
  set (tm := {| tm_id := nextId w; tm_delay := 100; tm_cb := TOrientation |}).
  assert (E1 : step EvOrientation w =
               upd_timers (fun l => l ++ [tm]) (set_nextId (S (nextId w)) w)).
  { cbn [step]. apply invoke_exact; [| exact Hm].
    unfold onOrientationChange. exec. reflexivity. }
  set (w1 := step EvOrientation w) in *.
  assert (Ht1 : timers w1 = timers w ++ [tm]) by (rewrite E1; reflexivity).
  assert (E2 : step (EvTimer (nextId w)) w1 =
               upd_frames (fun l => l ++ [FResize])
                 (upd_pm (set_resizeTicking true) (upd_timers (fun _ => timers w) w1))).
  { rewrite (step_new_timer w w1 tm HT Ht1 eq_refl). cbn [tm tm_cb timerCallback].
    apply invoke_exact; [| rewrite E1; exact Hm].
    rewrite handleResize_exec. rewrite E1. cbn. rewrite Ht. reflexivity. }
  set (w2 := step (EvTimer (nextId w)) w1) in *.
  assert (HG2 : Good w2) by (apply step_Good, step_Good, HG).
  assert (HC2 : CacheOK w2) by (apply step_CacheOK, step_CacheOK, HC).
  assert (Hp2 : particleContainer (pm w2) = Some ElBgAnimation)
    by (rewrite E2, E1; exact Hpc).
  assert (Hd2 : bgAnimation (dom w2) = Some ps) by (rewrite E2, E1; exact Hd).
  assert (Hin2 : FResize ∈ frames w2)
    by (rewrite E2; cbn; apply elem_of_app; right; left).
  destruct (frame_rebuilds w2 ps HG2 HC2 Hp2 Hd2 Hin2) as (fragment & Hb & [Hlen Hin] & Ht').
  exists fragment. split; [exact Hb |].
  rewrite E2, E1 in Hlen, Hin. split; [exact Hlen |]. split; [exact Hin | exact Ht'].
Qed.

Lemma resize_rebuilds_particles_witness :
  exists fragment,
    bgAnimation (dom (step EvFrame (step (EvResize 800 600 (Some 1%Q))
                                      (run [EvInit] demoWorld)))) = Some fragment /\
    length fragment = 25%nat.
Proof.
  assert (Hp : pristine demoWindow) by (split; reflexivity).
  destruct (resize_rebuilds_particles demoDom demoWindow demoPlatform 1000 [EvInit]
              (default [] (bgAnimation (dom (run [EvInit] demoWorld))))
              800 600 (Some 1%Q) Hp
              eq_refl eq_refl ltac:(vm_compute; reflexivity) eq_refl)
    as (fragment & Hb & Hlen & _).
  exists fragment. split; [exact Hb | exact Hlen].
Defined.

Lemma orientation_rebuilds_particles_witness :
  exists fragment,
    bgAnimation (dom (step EvFrame (step (EvTimer 3%nat)
                        (step EvOrientation (run [EvInit; EvDestroy] demoWorld))))) =
      Some fragment /\
    length fragment = 50%nat.
Proof.
  assert (Hp : pristine demoWindow) by (split; reflexivity).
  destruct (orientation_rebuilds_particles demoDom demoWindow demoPlatform 1000
              [EvInit; EvDestroy]
              (default [] (bgAnimation (dom (run [EvInit; EvDestroy] demoWorld))))
              Hp eq_refl ltac:(vm_compute; reflexivity) eq_refl)
    as (fragment & Hb & Hlen & _).
  exists fragment. split; [exact Hb | exact Hlen].
Defined.

(* ===================================================================== *)
(** * Further properties: a new controller is not aborted                 *)
(* ===================================================================== *)

#[global] Instance Sig_preorder : PreOrder Sig.
Proof.
  split.
  - intros w. split; [lia |]. split; intros c Hc; auto.
  - intros a b c (H1 & H2 & H3) (H4 & H5 & H6). split; [lia |]. split.
    + intros x Hx. destruct (H5 x Hx) as [Hb | Hb]; [| right; lia].
      destruct (H2 x Hb) as [Ha | Ha]; [left; exact Ha | right; lia].
    + intros x Hx. destruct (H6 x Hx) as [Hb | [Hb | Hb]]; [| | right; right; lia].
      * destruct (H3 x Hb) as [Ha | [Ha | Ha]]; auto. right; right; lia.
      * destruct (H2 x Hb) as [Ha | Ha]; auto. right; right; lia.
Qed.

Lemma SignalsOK_Sig w w' : SignalsOK w -> Sig w w' -> SignalsOK w'.
Proof.
  intros [Ha Ht] (Hn & Htc & Hab). split.
  - intros c Hc. destruct (Hab c Hc) as [H | [H | H]];
      [specialize (Ha c H) | specialize (Ht c H) |]; lia.
  - intros c Hc. destruct (Htc c Hc) as [H | H]; [specialize (Ht c H) |]; lia.
Qed.

Lemma Sig_same w w' :
  nextId w' = nextId w -> typingController (pm w') = typingController (pm w) ->
  abortedSignals w' = abortedSignals w -> Sig w w'.
Proof. intros Hn Ht Ha. unfold Sig. rewrite Hn, Ht, Ha. split; [lia | auto]. Qed.

Ltac leaf_sig :=
  first
    [ apply Sig_same; reflexivity
    | let H := fresh "H" in
      split; [cbn; lia |]; split; intros ? H; cbn in *;
      first [left; exact H | discriminate] ].
Lemma fresh_sig : steps Sig fresh.
Proof.
  intros w. unfold fresh. exec. split; [cbn; lia |].
  split; intros c Hc; left; exact Hc.
Qed.
#[global] Hint Resolve fresh_sig : js_steps.

Ltac sig_go := unfold_quiet; unfold setTimeout, clearTimeout; repeat rel_step leaf_sig.

(** The value of a computation is not lost along [bind]. *)
Lemma rel_bind {A B} (R : World -> World -> Prop) `{!PreOrder R}
    (m : M A) (k : A -> M B) w :
  R w (snd (m w)) -> (forall a, steps R (k a)) -> R w (snd (bind m k w)).
Proof.
  intros Hm Hk. unfold bind. destruct (m w) as [[a|e] w']; cbn in *; [| exact Hm].
  etransitivity; [exact Hm | apply Hk].
Qed.

Lemma steps_get_dep {A} (R : World -> World -> Prop) (k : World -> M A) :
  (forall w, R w (snd (k w w))) -> steps R (bind get k).
Proof. intros H w. apply H. Qed.

Lemma getElement_sig id cache : steps Sig (getElement id cache).
Proof. unfold getElement; sig_go. Qed.
#[global] Hint Resolve getElement_sig : js_steps.

Lemma makeParticles_sig n : steps Sig (makeParticles n).
Proof. induction n; cbn [makeParticles]; unfold makeParticle; sig_go. Qed.
#[global] Hint Resolve makeParticles_sig : js_steps.

Lemma createParticles_sig : steps Sig createParticles.
Proof. unfold createParticles; sig_go. Qed.
#[global] Hint Resolve createParticles_sig : js_steps.

Lemma initAOS_sig : steps Sig initAOS.
Proof. unfold initAOS; sig_go. Qed.
#[global] Hint Resolve initAOS_sig : js_steps.

Lemma initPerformanceMonitoring_sig : steps Sig initPerformanceMonitoring.
Proof. unfold initPerformanceMonitoring; sig_go. Qed.
#[global] Hint Resolve initPerformanceMonitoring_sig : js_steps.

Lemma initSmoothScrolling_sig : steps Sig initSmoothScrolling.
Proof. unfold initSmoothScrolling; sig_go. Qed.
#[global] Hint Resolve initSmoothScrolling_sig : js_steps.

Lemma initCardEffects_sig : steps Sig initCardEffects.
Proof. unfold initCardEffects; sig_go. Qed.
#[global] Hint Resolve initCardEffects_sig : js_steps.

Lemma initContactForm_sig : steps Sig initContactForm.
Proof. unfold initContactForm; sig_go. Qed.
#[global] Hint Resolve initContactForm_sig : js_steps.

Lemma updateNavbar_sig : steps Sig updateNavbar.
Proof. unfold updateNavbar; sig_go. Qed.
#[global] Hint Resolve updateNavbar_sig : js_steps.

Lemma revealOnScroll_sig : steps Sig revealOnScroll.
Proof. unfold revealOnScroll; sig_go. Qed.
#[global] Hint Resolve revealOnScroll_sig : js_steps.

Lemma initTypingAnimation_sig : steps Sig initTypingAnimation.
Proof. unfold initTypingAnimation; sig_go. Qed.
#[global] Hint Resolve initTypingAnimation_sig : js_steps.

Lemma initSetup_sig : steps Sig initSetup.
Proof. unfold initSetup; sig_go. Qed.
#[global] Hint Resolve initSetup_sig : js_steps.

Lemma init_sig : steps Sig init.
Proof. unfold init, init_with; sig_go. Qed.
#[global] Hint Resolve init_sig : js_steps.

Lemma validateForm_sig formData : steps Sig (validateForm formData).
Proof. unfold validateForm; sig_go. Qed.
#[global] Hint Resolve validateForm_sig : js_steps.

Lemma submitCatch_sig t e : steps Sig (submitCatch t e).
Proof. unfold submitCatch; sig_go. Qed.
#[global] Hint Resolve submitCatch_sig : js_steps.

Lemma submitHandler_sig : steps Sig submitHandler.
Proof. unfold submitHandler; sig_go. Qed.
#[global] Hint Resolve submitHandler_sig : js_steps.

Lemma submitResume_sig t : steps Sig (submitResume t).
Proof. unfold submitResume; sig_go. Qed.
#[global] Hint Resolve submitResume_sig : js_steps.

Lemma submitRevert_sig t : steps Sig (submitRevert t).
Proof. unfold submitRevert; sig_go. Qed.
#[global] Hint Resolve submitRevert_sig : js_steps.

Lemma submitErrorRevert_sig t : steps Sig (submitErrorRevert t).
Proof. unfold submitErrorRevert; sig_go. Qed.
#[global] Hint Resolve submitErrorRevert_sig : js_steps.

Lemma onOrientationChange_sig : steps Sig onOrientationChange.
Proof. unfold onOrientationChange; sig_go. Qed.
#[global] Hint Resolve onOrientationChange_sig : js_steps.

Lemma onVisibilityChange_sig hidden : steps Sig (onVisibilityChange hidden).
Proof. unfold onVisibilityChange; sig_go. Qed.
#[global] Hint Resolve onVisibilityChange_sig : js_steps.

Lemma handleScroll_sig : steps Sig handleScroll.
Proof. unfold handleScroll; sig_go. Qed.
#[global] Hint Resolve handleScroll_sig : js_steps.

Lemma handleResize_sig : steps Sig handleResize.
Proof. unfold handleResize; sig_go. Qed.
#[global] Hint Resolve handleResize_sig : js_steps.

Lemma scrollFrame_sig : steps Sig scrollFrame.
Proof. unfold scrollFrame; sig_go. Qed.
#[global] Hint Resolve scrollFrame_sig : js_steps.

Lemma resizeFrame_sig : steps Sig resizeFrame.
Proof. unfold resizeFrame; sig_go. Qed.
#[global] Hint Resolve resizeFrame_sig : js_steps.

Lemma typeWriterCatch_sig e : steps Sig (typeWriterCatch e).
Proof. unfold typeWriterCatch; sig_go. Qed.
#[global] Hint Resolve typeWriterCatch_sig : js_steps.

Lemma runCycleAfter_sig a i b : steps Sig (runCycleAfter a i b).
Proof. unfold runCycleAfter; sig_go. Qed.
#[global] Hint Resolve runCycleAfter_sig : js_steps.

Lemma typeWriterLoop_sig element l : steps Sig (typeWriterLoop element l).
Proof. unfold typeWriterLoop; sig_go. Qed.
#[global] Hint Resolve typeWriterLoop_sig : js_steps.

Lemma typeWriter_sig text element speed a i : steps Sig (typeWriter text element speed a i).
Proof.
  intros w. unfold typeWriter, typeWriterLoop, typeWriterCatch. exec.
  destruct element as [e|]; scbn; [| reflexivity].
  destruct (isDestroyed (pm w)) eqn:Hd; scbn; [reflexivity |].
  destruct e; scbn.
  all: destruct (0 <? String.length text)%nat; scbn.
  all: try destruct (bool_decide (nextId w ∈ abortedSignals w)); scbn; rewrite ?Hd; scbn.
  all: split; [cbn; lia |].
  all: split; intros c Hc; cbn in *.
  all: try (left; exact Hc).
  all: right; injection Hc as Hc'; lia.
Qed.
#[global] Hint Resolve typeWriter_sig : js_steps.

Lemma runCycle_sig a i : steps Sig (runCycle a i).
Proof. unfold runCycle; sig_go. Qed.
#[global] Hint Resolve runCycle_sig : js_steps.

Lemma startCallback_sig a : steps Sig (startCallback a).
Proof. unfold startCallback; sig_go. Qed.
#[global] Hint Resolve startCallback_sig : js_steps.

Lemma pauseCallback_sig a i : steps Sig (pauseCallback a i).
Proof. unfold pauseCallback; sig_go. Qed.
#[global] Hint Resolve pauseCallback_sig : js_steps.

Lemma typeWriterResume_sig l b : steps Sig (typeWriterResume l b).
Proof. unfold typeWriterResume; sig_go. Qed.
#[global] Hint Resolve typeWriterResume_sig : js_steps.

Lemma settle_sig t b : steps Sig (settle t b).
Proof. unfold settle; sig_go. Qed.
#[global] Hint Resolve settle_sig : js_steps.

Lemma abortListener_sig t : steps Sig (abortListener t).
Proof. unfold abortListener; sig_go. Qed.
#[global] Hint Resolve abortListener_sig : js_steps.

Lemma runAbortListeners_sig ls c : steps Sig (runAbortListeners ls c).
Proof.
  induction ls as [|[c' t] ls IH]; cbn [runAbortListeners]; sig_go.
Qed.
#[global] Hint Resolve runAbortListeners_sig : js_steps.

Lemma abort_sig c w :
  typingController (pm w) = Some c -> Sig w (snd (abort c w)).
Proof.
  intros Htc. unfold abort. unfold bind at 1, get. cbn [fst snd].
  destruct (bool_decide (c ∈ abortedSignals w)); [reflexivity |].
  apply rel_bind; [apply _ | | intros _; apply runAbortListeners_sig].
  unfold modify. cbn [snd]. split; [cbn; lia |]. split; [cbn; auto |]. cbn.
  intros x Hx. apply elem_of_union in Hx as [Hx | Hx]; [| auto].
  apply elem_of_singleton in Hx. subst x. auto.
Qed.

Lemma destroy_sig : steps Sig destroy.
Proof.
  unfold destroy. unfold_quiet.
  apply steps_bind; [apply _ | apply steps_modify; intros ?; leaf_sig | intros _].
  apply steps_bind; [apply _ | apply steps_modify; intros ?; leaf_sig | intros _].
  apply steps_get_dep. intros w.
  apply rel_bind; [apply _ | | intros _; repeat rel_step leaf_sig].
  destruct (typingController (pm w)) as [c|] eqn:Htc; [| reflexivity].
  apply rel_bind; [apply _ | apply abort_sig, Htc |].
  intros _. apply steps_modify. intros w0. leaf_sig.
Qed.
#[global] Hint Resolve destroy_sig : js_steps.

Lemma timerCallback_sig id cb : steps Sig (timerCallback id cb).
Proof. destruct cb; cbn [timerCallback]; sig_go. Qed.
#[global] Hint Resolve timerCallback_sig : js_steps.

Lemma frameCallback_sig cb : steps Sig (frameCallback cb).
Proof. destruct cb; cbn [frameCallback]; sig_go. Qed.
#[global] Hint Resolve frameCallback_sig : js_steps.

Lemma listenerCallback_sig l : steps Sig (listenerCallback l).
Proof. unfold listenerCallback; sig_go. Qed.
#[global] Hint Resolve listenerCallback_sig : js_steps.

Lemma runMicrotask_sig mt : steps Sig (runMicrotask mt).
Proof. unfold runMicrotask; sig_go. Qed.
#[global] Hint Resolve runMicrotask_sig : js_steps.

Lemma step_SignalsOK ev w : SignalsOK w -> SignalsOK (step ev w).
Proof.
  intros H. apply (SignalsOK_Sig w); [exact H |].
  apply (step_rel_all Sig); try (intros; apply Sig_same; reflexivity); auto with js_steps.
Qed.

Lemma reachable_SignalsOK d v p now evs : SignalsOK (run evs (initialWorld d v p now)).
Proof.
  assert (H : forall w, SignalsOK w -> SignalsOK (run evs w)).
  { induction evs as [|ev evs IH]; intros w Hw; [exact Hw |].
    cbn [run fold_left]. apply IH, step_SignalsOK, Hw. }
  apply H. split; intros c Hc; [apply elem_of_empty in Hc as [] | discriminate].
Qed.

(* ===================================================================== *)
(** * Further properties: how a typing cycle starts and goes on           *)
(* ===================================================================== *)

Lemma runCycle_starts a i w :
  isDestroyed (pm w) = false -> a ∈ activeAnimations (pm w) ->
  nextId w ∉ abortedSignals w -> (i < length texts)%nat ->
  typingText (dom w) <> None ->
  exists w',
    runCycle a i w = (Normal tt, w') /\
    loops w' = loops w ++ [firstReveal a i w] /\
    typingText (dom w') = Some (prefix 1 (nth i texts EmptyString)) /\
    typingController (pm w') = Some (nextId w) /\
    timers w' = timers w ++ [{| tm_id := S (nextId w);
                                tm_delay := Cfg.speed (Cfg.typing (config (pm w)));
                                tm_cb := TChar |}] /\
    nextId w' = S (S (nextId w)) /\ microtasks w' = microtasks w /\
    activeAnimations (pm w') = activeAnimations (pm w) /\
    isDestroyed (pm w') = false /\ abortedSignals w' = abortedSignals w.
Proof.
  intros Hd Ha Hab Hi Hp.
  assert (Hlen : (0 <? String.length (nth i texts EmptyString))%nat = true).
  { destruct i as [|[|[|[|i]]]]; [reflexivity .. |]. cbn in Hi. lia. }
  unfold runCycle, typeWriter, typeWriterLoop, runCycleAfter, async.
  remember (nth i texts EmptyString) as text eqn:Htext.
  exec. rewrite Hd. scbn. rewrite (bool_decide_eq_true_2 _ Ha). scbn.
  rewrite Hd. scbn. rewrite Hlen. scbn.
  rewrite (bool_decide_eq_false_2 _ Hab). scbn. rewrite Hd. scbn.
  eexists. split; [reflexivity |]. scbn.
  split; [unfold firstReveal; rewrite <- Htext; reflexivity |].
  split; [| repeat split; first [reflexivity | exact Hd]].
  destruct (typingText (dom w)) as [s|]; [| congruence]. cbn. f_equal.
  apply Nat.ltb_lt in Hlen. rewrite <- (prefix_0 text). apply (prefix_snoc text 0 Hlen).
Qed.

(** ** What [init] does to the typing view *)

Lemma actsT_bind {A B} f g (m : M A) (k : A -> M B) :
  actsT f m -> (forall a, actsT g (k a)) -> actsT (fun tv => g (f tv)) (bind m k).
Proof.
  intros Hm Hk w Hp. unfold bind. destruct (Hm w Hp) as ([a Ha] & Hf & Hp').
  destruct (m w) as [[a'|e] w']; cbn in Ha, Hf, Hp'; [| discriminate].
  destruct (Hk a' w' Hp') as (Hn & Hg & Hp''). split; [exact Hn |].
  split; [rewrite Hg, Hf; reflexivity | exact Hp''].
Qed.

Lemma actsT_ext {A} f g (m : M A) : (forall tv, f tv = g tv) -> actsT f m -> actsT g m.
Proof.
  intros H Hm w Hp. destruct (Hm w Hp) as (Hn & Hf & Hp').
  split; [exact Hn |]. split; [congruence | exact Hp'].
Qed.

Lemma actsT_core {A} (m : M A) : nothrow m -> keeps V_core m -> actsT (fun tv => tv) m.
Proof.
  intros Hn Hk w Hp. split; [apply Hn |]. specialize (Hk w). cbv beta in Hk.
  core_parts Hk. unfold TypingView. split; congruence.
Qed.

Lemma actsT_modify f :
  (forall w, TypingView (f w) = TypingView w /\ typingText (dom (f w)) = typingText (dom w)) ->
  actsT (fun tv => tv) (modify f).
Proof.
  intros H w Hp. destruct (H w) as [Hv Ht]. split; [exists tt; reflexivity |].
  split; [exact Hv | cbn; rewrite Ht; exact Hp].
Qed.

Lemma actsT_fresh :
  actsT (fun '(ts, n, act, clk, cfg) => (ts, S n, act, clk, cfg)) fresh.
Proof. intros w Hp. split; [eexists; reflexivity |]. split; [reflexivity | exact Hp]. Qed.

Lemma actsT_get : actsT (fun tv => tv) get.
Proof. intros w Hp. split; [eexists; reflexivity |]. split; [reflexivity | exact Hp]. Qed.

Lemma initTypingAnimation_actsT : actsT startCycle initTypingAnimation.
Proof.
  intros w Hp. split; [apply initTypingAnimation_nothrow |].
  unfold initTypingAnimation, getElement, async. exec.
  destruct (elementCache (pm w) !! "typingText"%string) as [e|]; scbn.
  - split; [reflexivity | exact Hp].
  - destruct (typingText (dom w)) as [s|] eqn:Ht; [| congruence]. scbn.
    rewrite Ht. split; [reflexivity | discriminate].
Qed.

Lemma actsT_ret {A} (a : A) : actsT (fun tv => tv) (ret a).
Proof. intros w Hp. split; [exists a; reflexivity |]. split; [reflexivity | exact Hp]. Qed.

Ltac actsT_leaf :=
  first
    [ apply actsT_fresh | apply actsT_get | apply actsT_ret
    | apply actsT_modify; intros ?; split; reflexivity ].

Lemma initSetup_actsT :
  actsT (fun '(ts, n, act, clk, cfg) =>
           (ts ++ [{| tm_id := n; tm_delay := Cfg.initialDelay cfg; tm_cb := TStart clk |}],
            (3 + n)%nat, {[ clk ]} ∪ act, clk, cfg))
    initSetup.
Proof.
  eapply actsT_ext; [| unfold initSetup].
  2: { eapply actsT_bind;
         [apply actsT_core;
            [apply initPerformanceMonitoring_nothrow | apply initPerformanceMonitoring_core]
         | intros _].
       eapply actsT_bind;
         [apply actsT_core; [apply createParticles_nothrow | apply createParticles_core]
         | intros _].
       eapply actsT_bind;
         [apply actsT_core; [apply initAOS_nothrow | apply initAOS_core] | intros _].
       eapply actsT_bind; [apply initTypingAnimation_actsT | intros _].
       eapply actsT_bind;
         [apply actsT_core; [apply initSmoothScrolling_nothrow | apply initSmoothScrolling_core]
         | intros _].
       eapply actsT_bind;
         [apply actsT_core; [apply initContactForm_nothrow | apply initContactForm_core]
         | intros _].
       eapply actsT_bind;
         [apply actsT_core; [apply initCardEffects_nothrow | apply initCardEffects_core]
         | intros _].
       eapply actsT_bind; [actsT_leaf | intros n].
       eapply actsT_bind; [unfold_prims; actsT_leaf | intros _].
       eapply actsT_bind; [actsT_leaf | intros n'].
       eapply actsT_bind; [unfold_prims; actsT_leaf | intros _].
       eapply actsT_bind; [actsT_leaf | intros w0].
       eapply actsT_bind;
         [unfold addScrollListener; destruct (h_scroll (handlers (pm w0))); actsT_leaf
         | intros _].
       eapply actsT_bind;
         [unfold addResizeListener; destruct (h_resize (handlers (pm w0))); actsT_leaf
         | intros _].
       eapply actsT_bind;
         [apply actsT_core; [apply revealOnScroll_nothrow | apply revealOnScroll_core]
         | intros _].
       eapply actsT_bind;
         [apply actsT_core; [apply updateNavbar_nothrow | apply updateNavbar_core]
         | intros _].
       eapply actsT_bind; [actsT_leaf | intros _].
       unfold console_log. actsT_leaf. }
  intros [[[[ts n] act] clk] cfg]. reflexivity.
Qed.

Lemma init_typing w :
  isInitialized (pm w) = false -> typingText (dom w) <> None ->
  TypingView (post init w) =
  (timers w ++ [{| tm_id := nextId w;
                   tm_delay := Cfg.initialDelay (Cfg.typing (config (pm w)));
                   tm_cb := TStart (clock w) |}],
   (3 + nextId w)%nat, {[ clock w ]} ∪ activeAnimations (pm w), clock w,
   Cfg.typing (config (pm w))).
Proof.
  intros Hi Hp. unfold post, init, init_with, async. exec. rewrite Hi. scbn.
  match goal with |- context [initSetup ?x] =>
    destruct (initSetup_actsT x Hp) as ([[] Hn] & Hf & _);
    destruct (initSetup x) as [[[]|e] w']
  end; cbn in Hn; [| discriminate].
  cbn. exact Hf.
Qed.

(** A call of [init] that finds the controller not initialized, on a page
    with a typing target. *)
Lemma init_event_typing w :
  Good w -> isInitialized (pm w) = false -> typingText (dom w) <> None ->
  let w' := step EvInit w in
  timers w' = timers w ++ [{| tm_id := nextId w;
                              tm_delay := Cfg.initialDelay (Cfg.typing (config (pm w)));
                              tm_cb := TStart (clock w) |}] /\
  nextId w' = (3 + nextId w)%nat /\
  activeAnimations (pm w') = {[ clock w ]} ∪ activeAnimations (pm w) /\
  clock w' = clock w /\ uview w' = uview w /\ isInitialized (pm w') = true.
Proof.
  intros HG Hi Hp. cbv zeta. pose proof (init_typing w Hi Hp) as Hv.
  destruct (init_fresh w Hi) as (w' & E & (HU & _ & Hi' & _) & _).
  assert (Hm : microtasks w' = []).
  { unfold uview in HU. injection HU as _ _ _ _ _ _ Hq _. rewrite Hq.
    apply (Good_microtasks w HG). }
  cbn [step]. rewrite (invoke_exact _ _ _ E Hm).
  unfold post in Hv. rewrite E in Hv. cbn [snd] in Hv.
  unfold TypingView in Hv. injection Hv as Ht Hn Ha Hc _.
  repeat split; assumption.
Qed.

(** ** The typing target stays on the page *)

#[global] Instance TargetKept_preorder : PreOrder TargetKept.
Proof. apply (keeps_preorder (fun w => isNull (typingText (dom w)))). Qed.

Ltac leaf_target :=
  unfold TargetKept; proj;
  try match goal with |- context [typingText (dom ?w)] =>
        destruct (typingText (dom w)) end;
  reflexivity.
Ltac target_go := unfold_prims; unfold fresh; repeat rel_step leaf_target.

Lemma getElement_target id cache : steps TargetKept (getElement id cache).
Proof. unfold getElement; target_go. Qed.
#[global] Hint Resolve getElement_target : js_steps.

Lemma makeParticles_target n : steps TargetKept (makeParticles n).
Proof. induction n; cbn [makeParticles]; unfold makeParticle; target_go. Qed.
#[global] Hint Resolve makeParticles_target : js_steps.

Lemma createParticles_target : steps TargetKept createParticles.
Proof. unfold createParticles; target_go. Qed.
#[global] Hint Resolve createParticles_target : js_steps.

Lemma initAOS_target : steps TargetKept initAOS.
Proof. unfold initAOS; target_go. Qed.
#[global] Hint Resolve initAOS_target : js_steps.

Lemma initPerformanceMonitoring_target : steps TargetKept initPerformanceMonitoring.
Proof. unfold initPerformanceMonitoring; target_go. Qed.
#[global] Hint Resolve initPerformanceMonitoring_target : js_steps.

Lemma initSmoothScrolling_target : steps TargetKept initSmoothScrolling.
Proof. unfold initSmoothScrolling; target_go. Qed.
#[global] Hint Resolve initSmoothScrolling_target : js_steps.

Lemma initCardEffects_target : steps TargetKept initCardEffects.
Proof. unfold initCardEffects; target_go. Qed.
#[global] Hint Resolve initCardEffects_target : js_steps.

Lemma initContactForm_target : steps TargetKept initContactForm.
Proof. unfold initContactForm; target_go. Qed.
#[global] Hint Resolve initContactForm_target : js_steps.

Lemma updateNavbar_target : steps TargetKept updateNavbar.
Proof. unfold updateNavbar; target_go. Qed.
#[global] Hint Resolve updateNavbar_target : js_steps.

Lemma revealOnScroll_target : steps TargetKept revealOnScroll.
Proof. unfold revealOnScroll; target_go. Qed.
#[global] Hint Resolve revealOnScroll_target : js_steps.

Lemma initTypingAnimation_target : steps TargetKept initTypingAnimation.
Proof. unfold initTypingAnimation; target_go. Qed.
#[global] Hint Resolve initTypingAnimation_target : js_steps.

Lemma initSetup_target : steps TargetKept initSetup.
Proof. unfold initSetup; target_go. Qed.
#[global] Hint Resolve initSetup_target : js_steps.

Lemma init_target : steps TargetKept init.
Proof. unfold init, init_with; target_go. Qed.
#[global] Hint Resolve init_target : js_steps.

Lemma validateForm_target formData : steps TargetKept (validateForm formData).
Proof. unfold validateForm; target_go. Qed.
#[global] Hint Resolve validateForm_target : js_steps.

Lemma submitCatch_target t e : steps TargetKept (submitCatch t e).
Proof. unfold submitCatch; target_go. Qed.
#[global] Hint Resolve submitCatch_target : js_steps.

Lemma submitHandler_target : steps TargetKept submitHandler.
Proof. unfold submitHandler; target_go. Qed.
#[global] Hint Resolve submitHandler_target : js_steps.

Lemma submitResume_target t : steps TargetKept (submitResume t).
Proof. unfold submitResume; target_go. Qed.
#[global] Hint Resolve submitResume_target : js_steps.

Lemma submitRevert_target t : steps TargetKept (submitRevert t).
Proof. unfold submitRevert; target_go. Qed.
#[global] Hint Resolve submitRevert_target : js_steps.

Lemma submitErrorRevert_target t : steps TargetKept (submitErrorRevert t).
Proof. unfold submitErrorRevert; target_go. Qed.
#[global] Hint Resolve submitErrorRevert_target : js_steps.

Lemma onOrientationChange_target : steps TargetKept onOrientationChange.
Proof. unfold onOrientationChange; target_go. Qed.
#[global] Hint Resolve onOrientationChange_target : js_steps.

Lemma onVisibilityChange_target hidden : steps TargetKept (onVisibilityChange hidden).
Proof. unfold onVisibilityChange; target_go. Qed.
#[global] Hint Resolve onVisibilityChange_target : js_steps.

Lemma handleScroll_target : steps TargetKept handleScroll.
Proof. unfold handleScroll; target_go. Qed.
#[global] Hint Resolve handleScroll_target : js_steps.

Lemma handleResize_target : steps TargetKept handleResize.
Proof. unfold handleResize; target_go. Qed.
#[global] Hint Resolve handleResize_target : js_steps.

Lemma scrollFrame_target : steps TargetKept scrollFrame.
Proof. unfold scrollFrame; target_go. Qed.
#[global] Hint Resolve scrollFrame_target : js_steps.

Lemma resizeFrame_target : steps TargetKept resizeFrame.
Proof. unfold resizeFrame; target_go. Qed.
#[global] Hint Resolve resizeFrame_target : js_steps.

Lemma typeWriterCatch_target e : steps TargetKept (typeWriterCatch e).
Proof. unfold typeWriterCatch; target_go. Qed.
#[global] Hint Resolve typeWriterCatch_target : js_steps.

Lemma runCycleAfter_target a i b : steps TargetKept (runCycleAfter a i b).
Proof. unfold runCycleAfter; target_go. Qed.
#[global] Hint Resolve runCycleAfter_target : js_steps.

Lemma typeWriterLoop_target element l : steps TargetKept (typeWriterLoop element l).
Proof. unfold typeWriterLoop; target_go. Qed.
#[global] Hint Resolve typeWriterLoop_target : js_steps.

Lemma typeWriter_target text element speed a i : steps TargetKept (typeWriter text element speed a i).
Proof. unfold typeWriter; target_go. Qed.
#[global] Hint Resolve typeWriter_target : js_steps.

Lemma runCycle_target a i : steps TargetKept (runCycle a i).
Proof. unfold runCycle; target_go. Qed.
#[global] Hint Resolve runCycle_target : js_steps.

Lemma startCallback_target a : steps TargetKept (startCallback a).
Proof. unfold startCallback; target_go. Qed.
#[global] Hint Resolve startCallback_target : js_steps.

Lemma pauseCallback_target a i : steps TargetKept (pauseCallback a i).
Proof. unfold pauseCallback; target_go. Qed.
#[global] Hint Resolve pauseCallback_target : js_steps.

Lemma typeWriterResume_target l b : steps TargetKept (typeWriterResume l b).
Proof. unfold typeWriterResume; target_go. Qed.
#[global] Hint Resolve typeWriterResume_target : js_steps.

Lemma settle_target t b : steps TargetKept (settle t b).
Proof. unfold settle; target_go. Qed.
#[global] Hint Resolve settle_target : js_steps.

Lemma abortListener_target t : steps TargetKept (abortListener t).
Proof. unfold abortListener; target_go. Qed.
#[global] Hint Resolve abortListener_target : js_steps.

Lemma runAbortListeners_target ls c : steps TargetKept (runAbortListeners ls c).
Proof.
  induction ls as [|[c' t] ls IH]; cbn [runAbortListeners]; target_go.
Qed.
#[global] Hint Resolve runAbortListeners_target : js_steps.

Lemma abort_target c : steps TargetKept (abort c).
Proof. unfold abort; target_go. Qed.
#[global] Hint Resolve abort_target : js_steps.

Lemma destroy_target : steps TargetKept destroy.
Proof. unfold destroy; target_go. Qed.
#[global] Hint Resolve destroy_target : js_steps.

Lemma timerCallback_target id cb : steps TargetKept (timerCallback id cb).
Proof. destruct cb; cbn [timerCallback]; target_go. Qed.
#[global] Hint Resolve timerCallback_target : js_steps.

Lemma frameCallback_target cb : steps TargetKept (frameCallback cb).
Proof. destruct cb; cbn [frameCallback]; target_go. Qed.
#[global] Hint Resolve frameCallback_target : js_steps.

Lemma listenerCallback_target l : steps TargetKept (listenerCallback l).
Proof. unfold listenerCallback; target_go. Qed.
#[global] Hint Resolve listenerCallback_target : js_steps.

Lemma runMicrotask_target mt : steps TargetKept (runMicrotask mt).
Proof. unfold runMicrotask; target_go. Qed.
#[global] Hint Resolve runMicrotask_target : js_steps.

Lemma reachable_target d v p now evs :
  typingText d <> None -> typingText (dom (run evs (initialWorld d v p now))) <> None.
Proof.
  intros Hp.
  assert (H : TargetKept (initialWorld d v p now) (run evs (initialWorld d v p now))).
  { apply (run_rel TargetKept); try (intros; unfold TargetKept; reflexivity);
      auto with js_steps. }
  unfold TargetKept in H. cbn in H. intros Hn. rewrite Hn in H. cbn in H.
  destruct (typingText d); [discriminate | congruence].
Qed.

(** ** A timer of the cycle fires on a live page *)

Lemma cycle_timer_starts id tm a i w :
  List.find (fun t => Nat.eqb (tm_id t) id) (timers w) = Some tm ->
  tm_cb tm = TPause a i \/ (tm_cb tm = TStart a /\ i = O) ->
  microtasks w = [] -> isDestroyed (pm w) = false -> a ∈ activeAnimations (pm w) ->
  nextId w ∉ abortedSignals w -> (i < length texts)%nat -> typingText (dom w) <> None ->
  let w' := step (EvTimer id) w in
  loops w' = loops w ++ [firstReveal a i w] /\
  typingText (dom w') = Some (prefix 1 (nth i texts EmptyString)) /\
  typingController (pm w') = Some (nextId w) /\
  timers w' = filter (fun t => tm_id t <> id) (timers w) ++
                [{| tm_id := S (nextId w);
                    tm_delay := Cfg.speed (Cfg.typing (config (pm w)));
                    tm_cb := TChar |}] /\
  nextId w' = S (S (nextId w)) /\
  activeAnimations (pm w') = activeAnimations (pm w) /\
  isDestroyed (pm w') = false /\ abortedSignals w' = abortedSignals w.
Proof.
  intros Hfind Hcb Hm Hd Ha Hab Hi Hp. cbv zeta. cbn [step]. rewrite Hfind.
  fold (fired id w).
  destruct (runCycle_starts a i (fired id w) Hd Ha Hab Hi Hp)
    as (w' & E & Hl & Ht & Htc & Htm & Hn & Hq & Hact & Hd' & Hab').
  assert (Ecb : timerCallback id (tm_cb tm) (fired id w) = (Normal tt, w')).
  { destruct Hcb as [-> | [-> ->]]; cbn [timerCallback].
    - unfold pauseCallback, bind, get. cbn [fst snd].
      change (isDestroyed (pm (fired id w))) with (isDestroyed (pm w)).
      change (activeAnimations (pm (fired id w))) with (activeAnimations (pm w)).
      rewrite Hd, (bool_decide_eq_true_2 _ Ha). exact E.
    - unfold startCallback, bind, get. cbn [fst snd].
      change (isDestroyed (pm (fired id w))) with (isDestroyed (pm w)).
      rewrite Hd. exact E. }
  rewrite (invoke_exact _ _ _ Ecb) by (rewrite Hq; exact Hm).
  repeat split; assumption.
Qed.

Lemma fresh_signal w : SignalsOK w -> nextId w ∉ abortedSignals w.
Proof. intros [Ha _] Hin. specialize (Ha _ Hin). lia. Qed.

(** X16: [init] finds the controller not initialized on a live page with a
    typing target, and the initial-delay timer it sets fires.  The target
    then shows the first character of the first text, and a reveal of that
    text is in flight, under the cycle identifier [init] took from the
    clock and under a new controller, which is the typing controller. *)
Theorem cycle_starts d v p now evs :
  pristine v -> typingText d <> None ->
  let w := run evs (initialWorld d v p now) in
  isInitialized (pm w) = false -> isDestroyed (pm w) = false ->
  let w' := step (EvTimer (nextId w)) (step EvInit w) in
  exists l,
    loops w' = loops w ++ [l] /\
    lp_text l = "Junior Front-end Developer"%string /\ lp_i l = O /\ lp_index l = O /\
    lp_anim l = clock w /\ lp_ctrl l = (3 + nextId w)%nat /\
    typingController (pm w') = Some (lp_ctrl l) /\
    typingText (dom w') = Some "J"%string /\
    {| tm_id := lp_await l; tm_delay := lp_speed l; tm_cb := TChar |} ∈ timers w'.
Proof.
  intros Hv Hp w Hi Hd w'.
  assert (HG : Good w) by (apply reachable_Good, Hv).
  assert (HT : Timed w) by (apply reachable_Timed, Hv).
  assert (Hpw : typingText (dom w) <> None) by (apply reachable_target, Hp).
  destruct (init_event_typing w HG Hi Hpw) as (Ht & Hn & Ha & Hc & HU & _).
  set (w1 := step EvInit w) in *.
  assert (HG1 : Good w1) by (apply step_Good, HG).
  assert (HS1 : SignalsOK w1) by (apply step_SignalsOK, reachable_SignalsOK).
  unfold uview in HU. injection HU as Hd1 Hcfg _ _ _ Hl1 _ Ht1.
  set (tm := {| tm_id := nextId w;
                tm_delay := Cfg.initialDelay (Cfg.typing (config (pm w)));
                tm_cb := TStart (clock w) |}) in *.
  assert (Hfind : List.find (fun t => Nat.eqb (tm_id t) (nextId w)) (timers w1) = Some tm).
  { rewrite Ht. apply (find_new_timer (timers w) tm), Timed_ids, HT. }
  destruct (cycle_timer_starts (nextId w) tm (clock w) O w1 Hfind
              (or_intror (conj eq_refl eq_refl)) (Good_microtasks w1 HG1))
    as (Hl & Htxt & Htc & Htm & _).
  - rewrite Hd1. exact Hd.
  - rewrite Ha. apply elem_of_union. left. apply elem_of_singleton. reflexivity.
  - apply fresh_signal, HS1.
  - cbn. lia.
  - rewrite Ht1. exact Hpw.
  - exists (firstReveal (clock w) O w1). fold w' in Hl, Htxt, Htc, Htm.
    split; [rewrite Hl, Hl1; reflexivity |].
    split; [reflexivity |]. split; [reflexivity |]. split; [reflexivity |].
    split; [reflexivity |]. split; [exact Hn |]. split; [exact Htc |].
    split; [exact Htxt |]. rewrite Htm. apply elem_of_app. right. left.
Qed.

Lemma cycle_starts_witness :
  exists l,
    loops (run [EvInit; EvTimer 0%nat] demoWorld) = [l] /\
    lp_ctrl l = 3%nat /\ lp_anim l = 1000.
Proof.
  assert (Hp : pristine demoWindow) by (split; reflexivity).
  destruct (cycle_starts demoDom demoWindow demoPlatform 1000 [] Hp
              ltac:(discriminate) eq_refl eq_refl)
    as (l & Hl & _ & _ & _ & Ha & Hc & _).
  exists l. split; [exact Hl |]. split; [exact Hc | exact Ha].
Defined.

(** X17: the last character of a text has been written on a live page,
    along a history on which one cycle runs at a time; the reveal's timer
    fires, and then the pause timer it leaves.  The target is cleared and
    shows the first character of the next text, wrapping around after the
    fourth, and a reveal of that text is in flight under the same cycle
    identifier and a new controller. *)
Theorem next_text_starts d v p now evs l :
  pristine v -> typingText d <> None ->
  noVisibility evs = true \/ paced evs (initialWorld d v p now) = true ->
  let w := run evs (initialWorld d v p now) in
  l ∈ loops w -> isDestroyed (pm w) = false ->
  (S (lp_i l) <? String.length (lp_text l))%nat = false ->
  let w' := step (EvTimer (nextId w)) (step (EvTimer (lp_await l)) w) in
  let next := ((lp_index l + 1) mod length texts)%nat in
  exists l',
    loops w' = [l'] /\
    lp_index l' = next /\ lp_text l' = nth next texts EmptyString /\ lp_i l' = O /\
    lp_anim l' = lp_anim l /\ lp_ctrl l' <> lp_ctrl l /\
    typingController (pm w') = Some (lp_ctrl l') /\
    typingText (dom w') = Some (prefix 1 (nth next texts EmptyString)).
Proof.
  intros Hv Hp Hh w Hl Hd Hlast w' next.
  pose proof (reachable_Showing d v p now evs Hv Hp Hh) as HS. fold w in HS.
  unfold Showing in HS. rewrite Forall_forall in HS.
  destruct (HS l Hl) as (_ & _ & _ & Hact).
  assert (HG : Good w) by (apply reachable_Good, Hv).
  assert (HT : Timed w) by (apply reachable_Timed, Hv).
  assert (HSig : SignalsOK w) by apply reachable_SignalsOK.
  assert (Hpw : typingText (dom w) <> None) by (apply reachable_target, Hp).
  assert (HJ : Sequential w \/ OneCycle w).
  { destruct Hh as [Hh | Hh];
      [left; apply reachable_Sequential | right; apply reachable_OneCycle]; assumption. }
  assert (Hl1 : loops w = [l]).
  { destruct (one_reveal w HJ) as [Hone _].
    destruct (loops w) as [|l0 [|l1 ls]]; [apply elem_of_nil in Hl as [] | |
      cbn in Hone; lia].
    apply list_elem_of_singleton in Hl. subst l0. reflexivity. }
  destruct (reveal_timer_fires l w HG HT Hl1) as (E & Hl0 & Hlive).
  set (w1 := step (EvTimer (lp_await l)) w) in *.
  assert (HG1 : Good w1) by (apply step_Good, HG).
  unfold post in E. rewrite (resume_finish l (resumed l w) Hlast Hd) in E. cbn [snd] in E.
  set (tm := {| tm_id := nextId w;
                tm_delay := Cfg.pauseBetweenTexts (Cfg.typing (config (pm w)));
                tm_cb := TPause (lp_anim l) next |}).
  assert (Hids : Forall (fun t => (tm_id t < tm_id tm)%nat)
                   (filter (fun t => tm_id t <> lp_await l) (timers w))).
  { apply Forall_forall. intros t Hin. apply list_elem_of_filter in Hin as [_ Hin].
    destruct HT as [Hlt _]. apply Hlt, Hin. }
  assert (Hfind : List.find (fun t => Nat.eqb (tm_id t) (nextId w)) (timers w1) = Some tm).
  { rewrite E. apply (find_new_timer _ tm Hids). }
  assert (Hnext : (next < length texts)%nat)
    by (apply Nat.mod_upper_bound; discriminate).
  destruct (cycle_timer_starts (nextId w) tm (lp_anim l) next w1 Hfind
              (or_introl eq_refl) (Good_microtasks w1 HG1))
    as (Hl2 & Htxt & Htc & _); try (rewrite E; assumption); try exact Hnext.
  - rewrite E. cbn. destruct HSig as [Ha _]. intros Hin. specialize (Ha _ Hin). lia.
  - exists (firstReveal (lp_anim l) next w1). fold w' in Hl2, Htxt, Htc.
    assert (Hw1 : loops w1 = []) by (rewrite E; exact Hl0).
    split; [rewrite Hl2, Hw1; reflexivity |].
    split; [reflexivity |]. split; [reflexivity |]. split; [reflexivity |].
    split; [reflexivity |]. split; [| split; [exact Htc | exact Htxt]].
    assert (Hn1 : nextId w1 = S (nextId w)) by (rewrite E; reflexivity).
    cbn [firstReveal lp_ctrl]. rewrite Hn1.
    destruct HSig as [_ Htcw].
    destruct HJ as [(_ & _ & _ & _ & Hctl) | (_ & _ & _ & Hctl)];
      rewrite Hl1 in Hctl; apply Forall_inv in Hctl; specialize (Htcw _ Hctl); lia.
Qed.

Lemma next_text_starts_witness :
  typingText (dom (run [EvTimer 29%nat; EvTimer 30%nat]
                     (run (EvInit :: EvTimer 0%nat :: map EvTimer (seq 4 25)) demoWorld))) =
  Some "R"%string.
Proof.
  assert (Hp : pristine demoWindow) by (split; reflexivity).
  destruct (next_text_starts demoDom demoWindow demoPlatform 1000
              (EvInit :: EvTimer 0%nat :: map EvTimer (seq 4 25))
              {| lp_await := 29; lp_ctrl := 3;
                 lp_text := "Junior Front-end Developer"; lp_i := 25;
                 lp_speed := 150; lp_anim := 1000; lp_index := 0 |}
              Hp ltac:(discriminate) (or_introl eq_refl)
              ltac:(vm_compute; left) ltac:(vm_compute; reflexivity) eq_refl)
    as (l' & _ & _ & _ & _ & _ & _ & _ & Ht).
  vm_compute in Ht. vm_compute. exact Ht.
Defined.

(** [destroy] when no reveal is under the typing controller: the timers,
    the identifiers and the clock stay. *)
Lemma destroy_event_idle w :
  Good w -> typingController (pm w) = None -> loops w = [] ->
  let w' := step EvDestroy w in
  timers w' = timers w /\ nextId w' = nextId w /\ clock w' = clock w /\
  abortedSignals w' = abortedSignals w /\ loops w' = [] /\
  typingText (dom w') = typingText (dom w) /\ config (pm w') = config (pm w).
Proof.
  intros HG Htc Hl. cbv zeta.
  destruct (destroy_event w HG) as (wa & q & _ & _ & E & _ & Ht & Ha & _).
  rewrite Htc in Ha. rewrite E. cbn. rewrite Hl, (Ht Htc), Ha. repeat split.
Qed.

Lemma visibility_event hidden w :
  microtasks w = [] ->
  step (EvVisibility hidden) w = upd_pm (set_isDestroyed hidden) w.
Proof. intros Hm. cbn [step]. apply invoke_exact; [reflexivity | exact Hm]. Qed.

Lemma visibility_event_view hidden w :
  microtasks w = [] ->
  let w' := step (EvVisibility hidden) w in
  timers w' = timers w /\ activeAnimations (pm w') = activeAnimations (pm w) /\
  abortedSignals w' = abortedSignals w /\ nextId w' = nextId w /\
  loops w' = loops w /\ typingText (dom w') = typingText (dom w) /\
  isDestroyed (pm w') = hidden.
Proof. intros Hm. cbv zeta. rewrite (visibility_event hidden w Hm). repeat split. Qed.

(** X1: on any page with a typing target, [init], [destroy] and [init]
    within one millisecond leave two initial-delay timers under one cycle
    identifier; when the page is then reported visible and both fire, two
    reveals of the first text are in flight at once under that identifier,
    the first no longer under the typing controller. *)
Theorem reinit_interleaves_reveals d v p now :
  pristine v -> typingText d <> None ->
  let h := [EvInit; EvDestroy; EvInit; EvVisibility false;
            EvTimer 0%nat; EvTimer 3%nat] in
  let w := run h (initialWorld d v p now) in
  paced h (initialWorld d v p now) = false /\
  exists l0 l1,
    loops w = [l0; l1] /\
    lp_anim l0 = now /\ lp_anim l1 = now /\
    lp_text l0 = "Junior Front-end Developer"%string /\ lp_text l1 = lp_text l0 /\
    lp_ctrl l0 = 6%nat /\ lp_ctrl l1 = 8%nat /\
    typingController (pm w) = Some 8%nat /\
    activeAnimations (pm w) = {[ now ]}.
Proof.
  intros Hv Hp h w. subst w h. unfold run. cbn [fold_left].
  set (w0 := initialWorld d v p now) in *.
  assert (HG0 : Good w0) by (apply (reachable_Good d v p now []), Hv).
  destruct (init_event_typing w0 HG0 eq_refl Hp) as (Ht1 & Hn1 & Ha1 & Hc1 & HU1 & _).
  set (w1 := step EvInit w0) in *.
  assert (HG1 : Good w1) by (apply step_Good, HG0).
  unfold uview in HU1. injection HU1 as _ Hcfg1 Hab1 Htc1 _ Hl1 _ Hp1.
  destruct (destroy_event_idle w1 HG1 Htc1 Hl1) as (Ht2 & Hn2 & Hc2 & Hab2 & Hl2 & Hp2 & Hcfg2).
  destruct (destroy_event_flags w1 HG1) as (Hi2 & _ & Ha2 & Htc2 & _).
  set (w2 := step EvDestroy w1) in *.
  assert (HG2 : Good w2) by (apply step_Good, HG1).
  assert (Hpw2 : typingText (dom w2) <> None) by (rewrite Hp2, Hp1; exact Hp).
  destruct (init_event_typing w2 HG2 Hi2 Hpw2) as (Ht3 & Hn3 & Ha3 & Hc3 & HU3 & _).
  set (w3 := step EvInit w2) in *.
  assert (HG3 : Good w3) by (apply step_Good, HG2).
  unfold uview in HU3. injection HU3 as _ Hcfg3 Hab3 _ _ Hl3 _ Hp3.
  destruct (visibility_event_view false w3 (Good_microtasks w3 HG3))
    as (Ht4 & Ha4 & Hb4 & Hn4' & Hl4' & Hp4' & Hd4).
  set (w4 := step (EvVisibility false) w3) in *.
  assert (HG4 : Good w4) by (apply step_Good, HG3).
  assert (Hclk : clock w2 = now) by (rewrite Hc2, Hc1; reflexivity).
  assert (Htm4 : timers w4 =
            [{| tm_id := 0; tm_delay := Cfg.initialDelay (Cfg.typing (config (pm w0)));
                tm_cb := TStart now |};
             {| tm_id := 3; tm_delay := Cfg.initialDelay (Cfg.typing (config (pm w2)));
                tm_cb := TStart now |}]).
  { rewrite Ht4, Ht3, Ht2, Ht1, Hn2, Hn1, Hclk. reflexivity. }
  assert (Hact4 : activeAnimations (pm w4) = {[ now ]}).
  { rewrite Ha4, Ha3, Ha2, Hclk. apply (right_id_L ∅ (∪)). }
  assert (Hab4 : abortedSignals w4 = ∅).
  { rewrite Hb4, Hab3, Hab2, Hab1. reflexivity. }
  assert (Hn4 : nextId w4 = 6%nat).
  { rewrite Hn4', Hn3, Hn2, Hn1. reflexivity. }
  assert (Hl4 : loops w4 = []) by (rewrite Hl4', Hl3; exact Hl2).
  assert (Hp4 : typingText (dom w4) <> None) by (rewrite Hp4', Hp3; exact Hpw2).
  split.
  { cbn [paced isInit andb]. fold w1 w2. rewrite Hi2. cbn [negb].
    replace (freshClock w2) with false; [destruct (freshClock w0); reflexivity |].
    unfold freshClock. rewrite Ht2, Ht1, Hclk.
    change (timers w0) with (@nil Timer). change (clock w0) with now.
    cbn [app forallb tm_cb runnableCb].
    rewrite bool_decide_eq_true_2 by (apply elem_of_singleton; reflexivity).
    reflexivity. }
  destruct (cycle_timer_starts 0 _ now O w4 ltac:(rewrite Htm4; reflexivity)
              (or_intror (conj eq_refl eq_refl)) (Good_microtasks w4 HG4) Hd4)
    as (Hl5 & Hp5 & _ & Htm5 & Hn5 & Hact5 & Hd5 & Hab5);
    [rewrite Hact4; apply elem_of_singleton; reflexivity
    | rewrite Hab4; apply not_elem_of_empty | cbn; lia | exact Hp4 |].
  set (w5 := step (EvTimer 0) w4) in *.
  assert (HG5 : Good w5) by (apply step_Good, HG4).
  assert (Htm5' : timers w5 =
            [{| tm_id := 3; tm_delay := Cfg.initialDelay (Cfg.typing (config (pm w2)));
                tm_cb := TStart now |};
             {| tm_id := 7; tm_delay := Cfg.speed (Cfg.typing (config (pm w4)));
                tm_cb := TChar |}])
    by (rewrite Htm5, Htm4, Hn4; reflexivity).
  destruct (cycle_timer_starts 3 _ now O w5 ltac:(rewrite Htm5'; reflexivity)
              (or_intror (conj eq_refl eq_refl)) (Good_microtasks w5 HG5) Hd5)
    as (Hl6 & _ & Htc6 & _ & _ & Hact6 & _);
    [rewrite Hact5, Hact4; apply elem_of_singleton; reflexivity
    | rewrite Hab5, Hab4; apply not_elem_of_empty | cbn; lia
    | rewrite Hp5; discriminate |].
  set (w6 := step (EvTimer 3) w5) in *.
  exists (firstReveal now O w4), (firstReveal now O w5).
  split; [rewrite Hl6, Hl5, Hl4; reflexivity |].
  split; [reflexivity |]. split; [reflexivity |]. split; [reflexivity |].
  split; [reflexivity |]. split; [exact Hn4 |].
  split; [cbn [firstReveal lp_ctrl]; rewrite Hn5, Hn4; reflexivity |].
  split; [rewrite Htc6, Hn5, Hn4; reflexivity |].
  rewrite Hact6, Hact5. exact Hact4.
Qed.

Lemma reinit_interleaves_reveals_witness :
  map lp_anim (loops (run [EvInit; EvDestroy; EvInit; EvVisibility false;
                           EvTimer 0%nat; EvTimer 3%nat] demoWorld)) = [1000; 1000].
Proof.
  assert (Hp : pristine demoWindow) by (split; reflexivity).
  destruct (reinit_interleaves_reveals demoDom demoWindow demoPlatform 1000 Hp
              ltac:(discriminate)) as (_ & l0 & l1 & Hl & H0 & H1 & _).
  unfold demoWorld. rewrite Hl. cbn [map]. rewrite H0, H1. reflexivity.
Defined.

(* ===================================================================== *)
(** * Further properties: the cache does not go stale                     *)
(* ===================================================================== *)

#[global] Instance Caching_preorder : PreOrder Caching.
Proof.
  split.
  - intros w. split; [reflexivity | intros id e H; left; exact H].
  - intros w1 w2 w3 [P12 C12] [P23 C23]. split.
    + intros e. rewrite P23. apply P12.
    + intros id e H. destruct (C23 id e H) as [H2 | H2]; [| right; exact H2].
      destruct (C12 id e H2) as [H1 | H1]; [left; exact H1 |].
      right. rewrite P23. exact H1.
Qed.

Lemma CacheLive_Caching w w' : CacheLive w -> Caching w w' -> CacheLive w'.
Proof.
  intros HL [HP HC] id e H. destruct (HC id e H) as [H1 | H1]; [| exact H1].
  rewrite HP. apply (HL id e H1).
Qed.

Lemma Caching_same w w' :
  elementCache (pm w') = elementCache (pm w) -> dom w' = dom w -> Caching w w'.
Proof. intros Hc Hd. unfold Caching. rewrite Hc, Hd. split; [reflexivity | auto]. Qed.

Ltac present_go :=
  let e := fresh "e" in
  intros e;
  first
    [ reflexivity
    | destruct e; cbn [present]; proj;
      try match goal with |- context [isNull (?f <$> ?o)] => destruct o end;
      cbn [negb isNull fmap option_fmap option_map]; reflexivity ].
Ltac leaf_caching :=
  let H := fresh "H" in
  unfold Caching; proj; split; [present_go |]; intros ? ? H;
  first [left; exact H | rewrite lookup_empty in H; discriminate].
Ltac caching_go := unfold_prims; unfold fresh; repeat rel_step leaf_caching.

Lemma getElement_caching id cache : steps Caching (getElement id cache).
Proof.
  intros w. unfold getElement. exec.
  destruct cache; scbn.
  - destruct (elementCache (pm w) !! id) as [e|] eqn:E; scbn; [reflexivity |].
    destruct (objectPrototypeHas id); scbn; [reflexivity |].
    destruct (elemOfId id) as [e|] eqn:Eid; scbn; [| apply Caching_same; reflexivity].
    destruct (present (dom w) e) eqn:Hp; scbn; [| apply Caching_same; reflexivity].
    split; [reflexivity |]. intros id' e' Hl. proj.
    destruct (decide (id' = id)) as [-> | Hne].
    + rewrite lookup_insert_eq in Hl. injection Hl as <-. right. exact Hp.
    + rewrite lookup_insert_ne in Hl by congruence. left. exact Hl.
  - destruct (elemOfId id) as [e|]; scbn; [| apply Caching_same; reflexivity].
    destruct (present (dom w) e); scbn; apply Caching_same; reflexivity.
Qed.
#[global] Hint Resolve getElement_caching : js_steps.

Lemma makeParticles_caching n : steps Caching (makeParticles n).
Proof. induction n; cbn [makeParticles]; unfold makeParticle; caching_go. Qed.
#[global] Hint Resolve makeParticles_caching : js_steps.

Lemma createParticles_caching : steps Caching createParticles.
Proof. unfold createParticles; caching_go. Qed.
#[global] Hint Resolve createParticles_caching : js_steps.

Lemma initAOS_caching : steps Caching initAOS.
Proof. unfold initAOS; caching_go. Qed.
#[global] Hint Resolve initAOS_caching : js_steps.

Lemma initPerformanceMonitoring_caching : steps Caching initPerformanceMonitoring.
Proof. unfold initPerformanceMonitoring; caching_go. Qed.
#[global] Hint Resolve initPerformanceMonitoring_caching : js_steps.

Lemma initSmoothScrolling_caching : steps Caching initSmoothScrolling.
Proof. unfold initSmoothScrolling; caching_go. Qed.
#[global] Hint Resolve initSmoothScrolling_caching : js_steps.

Lemma initCardEffects_caching : steps Caching initCardEffects.
Proof. unfold initCardEffects; caching_go. Qed.
#[global] Hint Resolve initCardEffects_caching : js_steps.

Lemma initContactForm_caching : steps Caching initContactForm.
Proof. unfold initContactForm; caching_go. Qed.
#[global] Hint Resolve initContactForm_caching : js_steps.

Lemma updateNavbar_caching : steps Caching updateNavbar.
Proof. unfold updateNavbar; caching_go. Qed.
#[global] Hint Resolve updateNavbar_caching : js_steps.

Lemma revealOnScroll_caching : steps Caching revealOnScroll.
Proof. unfold revealOnScroll; caching_go. Qed.
#[global] Hint Resolve revealOnScroll_caching : js_steps.

Lemma initTypingAnimation_caching : steps Caching initTypingAnimation.
Proof. unfold initTypingAnimation; caching_go. Qed.
#[global] Hint Resolve initTypingAnimation_caching : js_steps.

Lemma initSetup_caching : steps Caching initSetup.
Proof. unfold initSetup; caching_go. Qed.
#[global] Hint Resolve initSetup_caching : js_steps.

Lemma init_caching : steps Caching init.
Proof. unfold init, init_with; caching_go. Qed.
#[global] Hint Resolve init_caching : js_steps.

Lemma validateForm_caching formData : steps Caching (validateForm formData).
Proof. unfold validateForm; caching_go. Qed.
#[global] Hint Resolve validateForm_caching : js_steps.

Lemma submitCatch_caching t e : steps Caching (submitCatch t e).
Proof. unfold submitCatch; caching_go. Qed.
#[global] Hint Resolve submitCatch_caching : js_steps.

Lemma submitHandler_caching : steps Caching submitHandler.
Proof. unfold submitHandler; caching_go. Qed.
#[global] Hint Resolve submitHandler_caching : js_steps.

Lemma submitResume_caching t : steps Caching (submitResume t).
Proof. unfold submitResume; caching_go. Qed.
#[global] Hint Resolve submitResume_caching : js_steps.

Lemma submitRevert_caching t : steps Caching (submitRevert t).
Proof. unfold submitRevert; caching_go. Qed.
#[global] Hint Resolve submitRevert_caching : js_steps.

Lemma submitErrorRevert_caching t : steps Caching (submitErrorRevert t).
Proof. unfold submitErrorRevert; caching_go. Qed.
#[global] Hint Resolve submitErrorRevert_caching : js_steps.

Lemma onOrientationChange_caching : steps Caching onOrientationChange.
Proof. unfold onOrientationChange; caching_go. Qed.
#[global] Hint Resolve onOrientationChange_caching : js_steps.

Lemma onVisibilityChange_caching hidden : steps Caching (onVisibilityChange hidden).
Proof. unfold onVisibilityChange; caching_go. Qed.
#[global] Hint Resolve onVisibilityChange_caching : js_steps.

Lemma handleScroll_caching : steps Caching handleScroll.
Proof. unfold handleScroll; caching_go. Qed.
#[global] Hint Resolve handleScroll_caching : js_steps.

Lemma handleResize_caching : steps Caching handleResize.
Proof. unfold handleResize; caching_go. Qed.
#[global] Hint Resolve handleResize_caching : js_steps.

Lemma scrollFrame_caching : steps Caching scrollFrame.
Proof. unfold scrollFrame; caching_go. Qed.
#[global] Hint Resolve scrollFrame_caching : js_steps.

Lemma resizeFrame_caching : steps Caching resizeFrame.
Proof. unfold resizeFrame; caching_go. Qed.
#[global] Hint Resolve resizeFrame_caching : js_steps.

Lemma typeWriterCatch_caching e : steps Caching (typeWriterCatch e).
Proof. unfold typeWriterCatch; caching_go. Qed.
#[global] Hint Resolve typeWriterCatch_caching : js_steps.

Lemma runCycleAfter_caching a i b : steps Caching (runCycleAfter a i b).
Proof. unfold runCycleAfter; caching_go. Qed.
#[global] Hint Resolve runCycleAfter_caching : js_steps.

Lemma typeWriterLoop_caching element l : steps Caching (typeWriterLoop element l).
Proof. unfold typeWriterLoop; caching_go. Qed.
#[global] Hint Resolve typeWriterLoop_caching : js_steps.

Lemma typeWriter_caching text element speed a i : steps Caching (typeWriter text element speed a i).
Proof. unfold typeWriter; caching_go. Qed.
#[global] Hint Resolve typeWriter_caching : js_steps.

Lemma runCycle_caching a i : steps Caching (runCycle a i).
Proof. unfold runCycle; caching_go. Qed.
#[global] Hint Resolve runCycle_caching : js_steps.

Lemma startCallback_caching a : steps Caching (startCallback a).
Proof. unfold startCallback; caching_go. Qed.
#[global] Hint Resolve startCallback_caching : js_steps.

Lemma pauseCallback_caching a i : steps Caching (pauseCallback a i).
Proof. unfold pauseCallback; caching_go. Qed.
#[global] Hint Resolve pauseCallback_caching : js_steps.

Lemma typeWriterResume_caching l b : steps Caching (typeWriterResume l b).
Proof. unfold typeWriterResume; caching_go. Qed.
#[global] Hint Resolve typeWriterResume_caching : js_steps.

Lemma settle_caching t b : steps Caching (settle t b).
Proof. unfold settle; caching_go. Qed.
#[global] Hint Resolve settle_caching : js_steps.

Lemma abortListener_caching t : steps Caching (abortListener t).
Proof. unfold abortListener; caching_go. Qed.
#[global] Hint Resolve abortListener_caching : js_steps.

Lemma runAbortListeners_caching ls c : steps Caching (runAbortListeners ls c).
Proof.
  induction ls as [|[c' t] ls IH]; cbn [runAbortListeners]; caching_go.
Qed.
#[global] Hint Resolve runAbortListeners_caching : js_steps.

Lemma abort_caching c : steps Caching (abort c).
Proof. unfold abort; caching_go. Qed.
#[global] Hint Resolve abort_caching : js_steps.

Lemma destroy_caching : steps Caching destroy.
Proof. unfold destroy; caching_go. Qed.
#[global] Hint Resolve destroy_caching : js_steps.

Lemma timerCallback_caching id cb : steps Caching (timerCallback id cb).
Proof. destruct cb; cbn [timerCallback]; caching_go. Qed.
#[global] Hint Resolve timerCallback_caching : js_steps.

Lemma frameCallback_caching cb : steps Caching (frameCallback cb).
Proof. destruct cb; cbn [frameCallback]; caching_go. Qed.
#[global] Hint Resolve frameCallback_caching : js_steps.

Lemma listenerCallback_caching l : steps Caching (listenerCallback l).
Proof. unfold listenerCallback; caching_go. Qed.
#[global] Hint Resolve listenerCallback_caching : js_steps.

Lemma runMicrotask_caching mt : steps Caching (runMicrotask mt).
Proof. unfold runMicrotask; caching_go. Qed.
#[global] Hint Resolve runMicrotask_caching : js_steps.

Lemma step_Caching ev w : Caching w (step ev w).
Proof.
  apply (step_rel_all Caching); try (intros; leaf_caching);
    auto with js_steps.
Qed.

Lemma reachable_CacheLive d v p now evs : CacheLive (run evs (initialWorld d v p now)).
Proof.
  assert (H : forall w, CacheLive w -> CacheLive (run evs w)).
  { induction evs as [|ev evs IH]; intros w Hw; [exact Hw |].
    cbn [run fold_left]. apply IH. apply (CacheLive_Caching w); [exact Hw |].
    apply step_Caching. }
  apply H. intros id e Hl. cbn in Hl. rewrite lookup_empty in Hl. discriminate.
Qed.

(** No element of the page has an id that [Object.prototype] has a
    property for. *)
Lemma elemOfId_inherited id : objectPrototypeHas id = true -> elemOfId id = None.
Proof.
  intros Hi. unfold elemOfId.
  repeat match goal with
  | |- (if String.eqb id ?s then _ else _) = _ =>
      destruct (String.eqb_spec id s) as [-> | _]; [discriminate Hi |]
  end.
  reflexivity.
Qed.

(** X18: whatever has happened on the page, the cache is not stale: an
    element it holds under an id is the one [document.getElementById]
    finds under that id, and under an id that is no property of
    [Object.prototype] a lookup through the cache returns what a lookup
    that goes past it returns.  Under the twelve names that are, nothing
    is ever stored and the two lookups differ: through the cache the
    inherited property is returned, past it [null]. *)
Theorem cache_never_stale d v p now evs id :
  let w := run evs (initialWorld d v p now) in
  (forall e, elementCache (pm w) !! id = Some e ->
     fst (getElementById id w) = Normal (Some e)) /\
  (objectPrototypeHas id = false ->
     fst (getElement id true w) = fst (getElement id false w)) /\
  (objectPrototypeHas id = true ->
     elementCache (pm w) !! id = None /\
     fst (getElement id true w) = Normal (Some (VInherited id)) /\
     fst (getElement id false w) = Normal None).
Proof.
  intros w.
  assert (HL : CacheLive w) by apply reachable_CacheLive.
  assert (HC : CacheOK w) by apply reachable_CacheOK.
  assert (Hhit : forall e, elementCache (pm w) !! id = Some e ->
            fst (getElementById id w) = Normal (Some e)).
  { intros e He. unfold getElementById, bind, get, ret. cbn [fst snd].
    rewrite (HC id e He), (HL id e He). reflexivity. }
  split; [exact Hhit |]. split.
  - intros Hi. destruct (elementCache (pm w) !! id) as [e|] eqn:He.
    + specialize (Hhit e eq_refl). unfold getElementById, bind, get, ret in Hhit.
      cbn [fst snd] in Hhit. unfold getElement. exec. rewrite He. scbn.
      destruct (elemOfId id) as [e'|]; [| discriminate].
      destruct (present (dom w) e'); [| discriminate].
      injection Hhit as ->. reflexivity.
    + unfold getElement. exec. rewrite He, Hi. scbn.
      destruct (elemOfId id) as [e'|]; [| reflexivity].
      destruct (present (dom w) e'); reflexivity.
  - intros Hi. pose proof (elemOfId_inherited id Hi) as Hid.
    assert (He : elementCache (pm w) !! id = None).
    { destruct (elementCache (pm w) !! id) as [e|] eqn:He; [| reflexivity].
      rewrite (HC id e He) in Hid. discriminate. }
    split; [exact He |]. unfold getElement. exec. rewrite He, Hi, Hid. scbn.
    split; reflexivity.
Qed.

(* ===================================================================== *)
(** * Further properties: the error handlers that are never reached        *)
(* ===================================================================== *)

#[global] Instance QuietKept_preorder : PreOrder QuietKept.
Proof. apply (preserves_preorder Quiet). Qed.

Lemma forallb_filter_keep {A} (p : A -> bool) (P : A -> Prop)
    `{!forall x, Decision (P x)} (l : list A) :
  forallb p l = true -> forallb p (filter P l) = true.
Proof.
  intros Hall. apply forallb_forall. intros x Hx.
  apply list_elem_of_In, list_elem_of_filter in Hx as [_ Hx].
  rewrite forallb_forall in Hall. apply Hall, list_elem_of_In, Hx.
Qed.

Ltac leaf_quiet :=
  let Hc := fresh "Hc" in
  let Ht := fresh "Ht" in
  unfold QuietKept, Quiet; proj; intros [Hc Ht]; split;
  first [ assumption
        | rewrite forallb_app; cbn [forallb expectedEntry isErrorRevert tm_cb negb
                                    andb String.eqb Ascii.eqb Bool.eqb];
          first [rewrite Hc | rewrite Ht]; reflexivity
        | apply forallb_filter_keep; assumption ].
Ltac quiet_go := unfold_prims; unfold fresh; repeat rel_step leaf_quiet.

Lemma steps_try_nothrow {A} (R : World -> World -> Prop) (m : M A) (h : Exn -> M A) :
  nothrow m -> steps R m -> steps R (try_catch m h).
Proof.
  intros Hn Hm w. unfold try_catch. specialize (Hm w). destruct (Hn w) as [a Ha].
  destruct (m w) as [[a'|e] w']; cbn in *; [exact Hm | discriminate].
Qed.

Lemma initSetup_nothrow : nothrow initSetup.
Proof.
  intros w. destruct (initSetup_spec w) as (w' & E & _). rewrite E. exists tt. reflexivity.
Qed.

Lemma typeWriterLoop_nothrow e l : nothrow (typeWriterLoop (Some e) l).
Proof. unfold typeWriterLoop. nothrow_go. Qed.

Lemma getElement_quiet id cache : steps QuietKept (getElement id cache).
Proof. unfold getElement; quiet_go. Qed.
#[global] Hint Resolve getElement_quiet : js_steps.

Lemma makeParticles_quiet n : steps QuietKept (makeParticles n).
Proof. induction n; cbn [makeParticles]; unfold makeParticle; quiet_go. Qed.
#[global] Hint Resolve makeParticles_quiet : js_steps.

Lemma createParticles_quiet : steps QuietKept createParticles.
Proof. unfold createParticles; quiet_go. Qed.
#[global] Hint Resolve createParticles_quiet : js_steps.

Lemma initAOS_quiet : steps QuietKept initAOS.
Proof. unfold initAOS; quiet_go. Qed.
#[global] Hint Resolve initAOS_quiet : js_steps.

Lemma initPerformanceMonitoring_quiet : steps QuietKept initPerformanceMonitoring.
Proof. unfold initPerformanceMonitoring; quiet_go. Qed.
#[global] Hint Resolve initPerformanceMonitoring_quiet : js_steps.

Lemma initSmoothScrolling_quiet : steps QuietKept initSmoothScrolling.
Proof. unfold initSmoothScrolling; quiet_go. Qed.
#[global] Hint Resolve initSmoothScrolling_quiet : js_steps.

Lemma initCardEffects_quiet : steps QuietKept initCardEffects.
Proof. unfold initCardEffects; quiet_go. Qed.
#[global] Hint Resolve initCardEffects_quiet : js_steps.

Lemma initContactForm_quiet : steps QuietKept initContactForm.
Proof. unfold initContactForm; quiet_go. Qed.
#[global] Hint Resolve initContactForm_quiet : js_steps.

Lemma updateNavbar_quiet : steps QuietKept updateNavbar.
Proof. unfold updateNavbar; quiet_go. Qed.
#[global] Hint Resolve updateNavbar_quiet : js_steps.

Lemma revealOnScroll_quiet : steps QuietKept revealOnScroll.
Proof. unfold revealOnScroll; quiet_go. Qed.
#[global] Hint Resolve revealOnScroll_quiet : js_steps.

Lemma initTypingAnimation_quiet : steps QuietKept initTypingAnimation.
Proof. unfold initTypingAnimation; quiet_go. Qed.
#[global] Hint Resolve initTypingAnimation_quiet : js_steps.

Lemma initSetup_quiet : steps QuietKept initSetup.
Proof. unfold initSetup; quiet_go. Qed.
#[global] Hint Resolve initSetup_quiet : js_steps.

Lemma init_quiet : steps QuietKept init.
Proof.
  unfold init, init_with, async.
  apply steps_try; [apply _ | | intros ?; quiet_go].
  apply steps_bind; [apply _ | apply steps_get, _ | intros w].
  destruct (isInitialized (pm w)); [quiet_go |].
  apply steps_bind; [apply _ | quiet_go | intros _].
  apply steps_try_nothrow; [apply initSetup_nothrow | apply initSetup_quiet].
Qed.
#[global] Hint Resolve init_quiet : js_steps.

Lemma validateForm_quiet formData : steps QuietKept (validateForm formData).
Proof. unfold validateForm; quiet_go. Qed.
#[global] Hint Resolve validateForm_quiet : js_steps.

Lemma submitHandler_quiet : steps QuietKept submitHandler.
Proof.
  unfold submitHandler, async.
  apply steps_try; [apply _ | | intros ?; quiet_go].
  apply steps_bind; [apply _ | apply steps_get, _ | intros w].
  apply steps_bind; [apply _ | destruct (contactForm (dom w)); quiet_go | intros form].
  destruct (isNull (submitBtn form)); [apply steps_ret, _ |].
  apply steps_bind; [apply _ | destruct (submitBtn form); quiet_go | intros btn].
  apply steps_bind; [apply _ | apply validateForm_quiet | intros isValid].
  destruct (negb isValid); [apply steps_ret, _ |].
  apply steps_try_nothrow; [nothrow_go | quiet_go].
Qed.
#[global] Hint Resolve submitHandler_quiet : js_steps.

Lemma submitResume_quiet t : steps QuietKept (submitResume t).
Proof.
  unfold submitResume, async.
  apply steps_try; [apply _ | | intros ?; quiet_go].
  apply steps_try_nothrow; [nothrow_go | quiet_go].
Qed.
#[global] Hint Resolve submitResume_quiet : js_steps.

Lemma submitRevert_quiet t : steps QuietKept (submitRevert t).
Proof. unfold submitRevert; quiet_go. Qed.
#[global] Hint Resolve submitRevert_quiet : js_steps.

Lemma submitErrorRevert_quiet t : steps QuietKept (submitErrorRevert t).
Proof. unfold submitErrorRevert; quiet_go. Qed.
#[global] Hint Resolve submitErrorRevert_quiet : js_steps.

Lemma onOrientationChange_quiet : steps QuietKept onOrientationChange.
Proof. unfold onOrientationChange; quiet_go. Qed.
#[global] Hint Resolve onOrientationChange_quiet : js_steps.

Lemma onVisibilityChange_quiet hidden : steps QuietKept (onVisibilityChange hidden).
Proof. unfold onVisibilityChange; quiet_go. Qed.
#[global] Hint Resolve onVisibilityChange_quiet : js_steps.

Lemma handleScroll_quiet : steps QuietKept handleScroll.
Proof. unfold handleScroll; quiet_go. Qed.
#[global] Hint Resolve handleScroll_quiet : js_steps.

Lemma handleResize_quiet : steps QuietKept handleResize.
Proof. unfold handleResize; quiet_go. Qed.
#[global] Hint Resolve handleResize_quiet : js_steps.

Lemma scrollFrame_quiet : steps QuietKept scrollFrame.
Proof. unfold scrollFrame; quiet_go. Qed.
#[global] Hint Resolve scrollFrame_quiet : js_steps.

Lemma resizeFrame_quiet : steps QuietKept resizeFrame.
Proof. unfold resizeFrame; quiet_go. Qed.
#[global] Hint Resolve resizeFrame_quiet : js_steps.

Lemma runCycleAfter_quiet a i b : steps QuietKept (runCycleAfter a i b).
Proof. unfold runCycleAfter; quiet_go. Qed.
#[global] Hint Resolve runCycleAfter_quiet : js_steps.

Lemma typeWriterLoop_quiet element l : steps QuietKept (typeWriterLoop element l).
Proof. unfold typeWriterLoop; quiet_go. Qed.
#[global] Hint Resolve typeWriterLoop_quiet : js_steps.

Lemma typeWriter_quiet text element speed a i : steps QuietKept (typeWriter text element speed a i).
Proof.
  unfold typeWriter. apply steps_bind; [apply _ | apply steps_get, _ | intros w].
  destruct element as [e|]; cbn [isNull orb]; [| apply steps_ret, _].
  destruct (isDestroyed (pm w)); [apply steps_ret, _ |].
  apply steps_bind; [apply _ | unfold set_innerHTML; quiet_go | intros _].
  apply steps_bind; [apply _ | unfold newAbortController; quiet_go | intros c].
  apply steps_bind; [apply _ | quiet_go | intros _].
  apply steps_try_nothrow; [apply typeWriterLoop_nothrow | apply typeWriterLoop_quiet].
Qed.
#[global] Hint Resolve typeWriter_quiet : js_steps.

Lemma runCycle_quiet a i : steps QuietKept (runCycle a i).
Proof. unfold runCycle; quiet_go. Qed.
#[global] Hint Resolve runCycle_quiet : js_steps.

Lemma startCallback_quiet a : steps QuietKept (startCallback a).
Proof. unfold startCallback; quiet_go. Qed.
#[global] Hint Resolve startCallback_quiet : js_steps.

Lemma pauseCallback_quiet a i : steps QuietKept (pauseCallback a i).
Proof. unfold pauseCallback; quiet_go. Qed.
#[global] Hint Resolve pauseCallback_quiet : js_steps.

Lemma typeWriterResume_quiet l b : steps QuietKept (typeWriterResume l b).
Proof.
  unfold typeWriterResume, async.
  apply steps_try; [apply _ | | intros ?; quiet_go].
  apply steps_bind; [apply _ | | intros [r|]; [apply runCycleAfter_quiet | apply steps_ret, _]].
  destruct b.
  - apply steps_try_nothrow; [apply typeWriterLoop_nothrow | apply typeWriterLoop_quiet].
  - intros w. unfold try_catch, throw, typeWriterCatch. exec. intros H. exact H.
Qed.
#[global] Hint Resolve typeWriterResume_quiet : js_steps.

Lemma settle_quiet t b : steps QuietKept (settle t b).
Proof. unfold settle; quiet_go. Qed.
#[global] Hint Resolve settle_quiet : js_steps.

Lemma abortListener_quiet t : steps QuietKept (abortListener t).
Proof. unfold abortListener; quiet_go. Qed.
#[global] Hint Resolve abortListener_quiet : js_steps.

Lemma runAbortListeners_quiet ls c : steps QuietKept (runAbortListeners ls c).
Proof.
  induction ls as [|[c' t] ls IH]; cbn [runAbortListeners]; quiet_go.
Qed.
#[global] Hint Resolve runAbortListeners_quiet : js_steps.

Lemma abort_quiet c : steps QuietKept (abort c).
Proof. unfold abort; quiet_go. Qed.
#[global] Hint Resolve abort_quiet : js_steps.

Lemma destroy_quiet : steps QuietKept destroy.
Proof. unfold destroy; quiet_go. Qed.
#[global] Hint Resolve destroy_quiet : js_steps.

Lemma timerCallback_quiet id cb : steps QuietKept (timerCallback id cb).
Proof. destruct cb; cbn [timerCallback]; quiet_go. Qed.
#[global] Hint Resolve timerCallback_quiet : js_steps.

Lemma frameCallback_quiet cb : steps QuietKept (frameCallback cb).
Proof. destruct cb; cbn [frameCallback]; quiet_go. Qed.
#[global] Hint Resolve frameCallback_quiet : js_steps.

Lemma listenerCallback_quiet l : steps QuietKept (listenerCallback l).
Proof. unfold listenerCallback; quiet_go. Qed.
#[global] Hint Resolve listenerCallback_quiet : js_steps.

Lemma runMicrotask_quiet mt : steps QuietKept (runMicrotask mt).
Proof. unfold runMicrotask; quiet_go. Qed.
#[global] Hint Resolve runMicrotask_quiet : js_steps.

Lemma step_Quiet ev w : Quiet w -> Quiet (step ev w).
Proof.
  apply (step_rel_all QuietKept); try (intros; leaf_quiet); auto with js_steps.
Qed.

Lemma reachable_Quiet d v p now evs : Quiet (run evs (initialWorld d v p now)).
Proof.
  assert (H : forall w, Quiet w -> Quiet (run evs w)).
  { induction evs as [|ev evs IH]; intros w Hw; [exact Hw |].
    cbn [run fold_left]. apply IH, step_Quiet, Hw. }
  apply H. split; reflexivity.
Qed.

(** X19: whatever happens on the page, the [catch] clauses of [init] and of
    the submit handler are never entered, and the one of [typeWriter] only
    for a cancelled reveal: the only error the script ever logs is that
    [AOS.init] failed, and no timer is set to take an error state off the
    submit button. *)
Theorem error_handlers_unreached d v p now evs :
  let w := run evs (initialWorld d v p now) in
  (forall msg e, ErrorLog msg e ∈ console w -> msg = "Failed to initialize AOS:"%string) /\
  (forall tm t, tm ∈ timers w -> tm_cb tm <> TSubmitErrorRevert t).
Proof.
  intros w. destruct (reachable_Quiet d v p now evs) as [Hc Ht]. fold w in Hc, Ht.
  rewrite forallb_forall in Hc. rewrite forallb_forall in Ht. split.
  - intros msg e Hin. apply list_elem_of_In, Hc in Hin. cbn in Hin.
    apply String.eqb_eq, Hin.
  - intros tm t Hin Hcb. apply list_elem_of_In, Ht in Hin. rewrite Hcb in Hin.
    discriminate.
Qed.
